(* ===== verification/_CoqProject ===== *)
-Q . S2P
Prelude.v
GoLib.v
Runtime.v
Kube.v
SimKube.v
DeepCopy.v
SafeMaps.v
Keys.v
Utils.v
Unstructured.v
AgentState.v
SimEnv.v
Listers.v
WorkStatuses.v
HubTraces.v
WorkStatusProps.v
HubStore.v
Informers.v
Lifecycle.v
LifecycleProps.v
Reconcilers.v
Manifests.v
ManifestProps.v
Worker.v
Footprint.v
WorkerProps.v
Concurrency.v
Races.v
Histories.v
Ownership.v
Handling.v
Shares.v
Pool.v
Idle.v
Overlap.v
Disjoint.v
Queue.v
SimQueue.v
Exclusion.v
Liveness.v
World.v
SimWorld.v
Mirror.v
OwnInformer.v
Pointers.v
Controller.v
Permissions.v
HubClient.v
Command.v
Startup.v
CommandTree.v
Deployment.v
LoadDriver.v
