(* ===== verification/Prelude.v ===== *)
(** * The KubeStellar OCM status add-on: model and correctness

    The program (Go, under [src/]) reports to an Open Cluster Management hub the
    status of the objects that OCM delivers to a managed cluster.  An agent on
    each cluster ([pkg/agent], with [pkg/util] and [pkg/ocm]) watches
    AppliedManifestWork objects, which list what was delivered; it runs one
    informer per kind of delivered object, and for each object keeps a WorkStatus
    ([api/v1alpha1]) on the hub.  A controller on the hub ([pkg/controller],
    [pkg/rbac], [cmd/ocm-status-addon]) deploys the agents.

    ** How the parts interact

    Informers call the event handlers (agent.go, [handleObject]), which put keys
    on a work queue; workers take keys from it ([processNextWorkItem]) and call
    [reconcile] (reconcilers.go).  For an AppliedManifestWork, reconcile compares
    its resources with those recorded ([trackedAppliedManifests]) and starts and
    stops informers (informers.go), part of it in new goroutines; for any other
    object, it creates, updates or deletes its WorkStatus on the hub.  The
    goroutines share maps that each lock per call (safemaps.go) and the field
    [restMapper], which nothing protects.

    ** Files and what they model

    Foundations:
    - [Prelude]: panics, errors and results of Go; tactics; the hint database [go].
    - [GoLib]: maps, slices, strings, sorting and JSON of Go.  The order of a
      [range] over a map is a parameter ([GoRuntime]): each loop takes a seed, and
      the theorems hold for all of them.
    - [Runtime]: programs as trees of atomic actions, with sequential runs
      ([run]), all their traces ([traces]) and rely-guarantee triples ([safe]).
    - [Kube]: the structs of the Kubernetes and OCM libraries with the fields the
      source reads, the types of workstatus_types.go, and as the class [Kube] the
      pure library functions; [KubeLaws] states their documented behaviour.
    - [DeepCopy]: the generated functions of zz_generated.deepcopy.go on a heap of
      locations; why the other files may take an object for a value.
    - [SimKube], [SimEnv], [SimQueue]: concrete instances, for examples and
      witnesses only.

    The agent:
    - [SafeMaps], [Keys], [Utils], [Unstructured]: the files of pkg/util.  A
      method of a locked map is one function, since its lock spans its body.
    - [AgentState]: [Agent] of agent.go as a record; the atomic actions of its
      goroutines ([Op]: a call of a locked map, a channel operation, an access to
      the mapper, a [go] statement, a library call); [Process], the agent with its
      channels, its heap cells (the copies queue keys point to), the goroutines
      not yet started and the environment that answers library calls; [exec], the
      effect of an action.
    - [Listers]: the lookups of unstructured.go, and ocm.go.
    - [WorkStatuses]: [handleWorkStatus] of reconcilers.go; [reportWorkStatus] is
      its part after the applied manifest work has been found.  [HubTraces] has the
      protocol of the agent with the hub as inductive sessions, and the proof that
      the code follows it; [WorkStatusProps] the theorems.
    - [HubStore]: the hub as a store of WorkStatus objects that each call reads or
      changes, and what a session does to it.  [World]: what the hub should hold
      for the manifests and the objects of a cluster ([reported], [agrees]), with
      the class [World] of views of an environment and its laws; [SimWorld] shows
      that the simulation has them; [Mirror] the theorems.
    - [Informers]: informers.go.  [Lifecycle]: the invariant of its maps and
      channels and what each function does to it, run sequentially;
      [LifecycleProps] the theorems.
    - [Reconcilers]: the rest of reconcilers.go.  [Manifests], [ManifestProps]:
      informers stay in step with the table of tracked manifests.
    - [Worker]: the rest of agent.go.  [worker_loop] has the runs of the worker's
      loop that end; [runWorker] is the loop as a goroutine, for a given number of
      iterations ([fuel]): every theorem about it holds for all fuels, and
      [WorkerProps] shows that what its runs with some fuel end with, other than
      the want of more, are the runs of the loop.
    - [Footprint]: a triple for each function: the actions it may do, and the
      panics it may end with, under assumptions on the answers it gets; and the
      events of the informers, among them the deletion of an object the informer
      has missed, which comes as a tombstone and makes the handler panic.
    - [WorkerProps]: event handlers, queue discipline, reconciliation.
    - [Concurrency]: the pool of goroutines as a step relation, with an executable
      scheduler; [Races]: closed executions that show what interleavings can do.
    - [Histories]: keys served one after the other, with the goroutines each
      starts, against an abstract table of manifests.
    - [Ownership]: a program logic in which a goroutine owns keys of the maps,
      manifests and channels, and hands a share to each goroutine it starts;
      [Handling]: the share a handler needs, and its triple; [Shares]: shares that
      are apart; [Pool]: goroutines on shares that are apart compose; [Idle]: the
      share nobody works on, from which a new handler takes its own and to which
      finished ones return theirs; [Overlap]: histories in which a manifest is
      handled while earlier ones still are; [Disjoint]: the case of handlers with
      disjoint kinds that all start at once.
    - [OwnInformer]: the informer of the applied manifest works themselves, in
      every interleaving.
    - [Queue]: what the work queue promises, as the class [WorkQueue] and its laws,
      and the discipline of a goroutine that takes an item; [Exclusion]: who works
      on what, in every interleaving; [Liveness]: that items get finished, by one
      worker and in fair executions of the pool.
    - [Pointers]: the channels and copies that goroutines refer to exist.

    The controller and the commands:
    - [Controller]: template values, health check, RBAC set-up.
    - [Permissions]: the markers of kubebuilder-gen.go as rules; the role the
      controller grants covers the calls the agent makes, and is its to grant.
    - [HubClient]: the registration of the API types, and pkg/ocm/client.go.
    - [Command]: flags, and the settings the controller passes to the agent.
    - [Startup]: [RunAgent], [runController] and [StartServing] over the library
      calls they make.  [CommandTree]: [main] and the commands.
    - [Deployment]: the templates of pkg/controller/manifests, as the objects their
      text denotes.
    - [LoadDriver]: the load driver of the end-to-end tests, against a hub on which
      deletions end at any moment; a poll unfolds in the step relation, so that it
      needs no fuel.

    ** What the theorems show

    - WorkStatus protocol: every trace of [handleWorkStatus], for all answers of
      the hub, is a session of the protocol: what is created, when, with which
      labels; what a deletion may touch; what success means; when the singleton
      label is patched.  It never panics under the assumptions of [Footprint].
    - The mirror: when no one else works on the hub, the report of an object
      brings its WorkStatus up to date or returns an error, and touches no other;
      one pass over the objects of a quiet cluster leaves on the hub what it should
      hold for each of them, but for those given back to the queue and for the
      deletions the hub has refused, whose errors the agent does not return.
    - Informers: run one at a time, handlers and the goroutines they start keep
      the informers in step with the tracked manifests, without leaks; the
      difference of two versions of a manifest is exact for every map order.
    - Histories: whatever keys are served, one at a time, and as long as discovery
      succeeds and no object is in two manifests, the table of manifests is what
      the observations make of it, informers run exactly for the kinds it lists,
      and nothing panics.
    - Queue: an item is reconciled once, then added back or forgotten, and
      finished; a deleted object reaches the deletion of its own WorkStatus.  No
      item is in the hands of two goroutines, and all that one does for an item
      comes before it is handed out again; none starves, in a fair execution
      whoever takes one finishes it or panics, and a worker's loop ends exactly
      when the queue is shut down.
    - Interleavings: infos stay well formed, pointers and channels exist, and no
      index, nil map, slice, nil mapper or nil pointer panic is reachable as long as
      discovery succeeds; of the panics left, those of a missing stopper and of a
      channel closed twice, and a lost informer, also by a single update that races
      the goroutine it has started, a leaked one, and a WorkStatus created after its
      object's deletion was handled are reachable, and shown so.
    - Overlapping histories: manifests may be handled, any number of times, while
      earlier handlers and the goroutines they started still run on other manifests
      and other kinds.  In every interleaving none panics or gets stuck, all can
      end, the kinds on which none runs are in step with the table at any time, and
      the whole agent is whenever none runs; so the races above need two goroutines
      on one kind.
    - Own informer: if manifests list other kinds only, nothing ever removes the
      informer, lister or stop channel of the applied manifest works; if one lists
      an AppliedManifestWork, stopping it leaves the agent blind.
    - Copies: a deep copy is equal and independent.
    - Controller: permissions suffice, and never exceed the controller's own, the
      hub client knows the kinds it sends, set-up is idempotent, settings and flags
      do not depend on map order, the health check reads what it should.  The
      deployment runs the agent's command with flags it has, each once: its own
      and what the user has set on the controller.
    - Load driver: from a hub without its works it panics only when a deletion is
      refused, can be let end while no call is, and has then made its load but for
      the works whose creation was refused; run a second time it polls for ever.
    - Boundary cases in which the code does not do what it means to: shared
      objects, a repeated start, a failed discovery, ignored deletion errors,
      names that collide.

    ** Assumptions

    Library behaviour appears as parameters ([Kube], [Environment]) and, where a
    theorem needs it, as hypotheses: [KubeLaws] (formats of names and keys),
    [StableDiscovery] (discovery succeeds and knows the resources: when it fails
    the agent can panic, [LifecycleProps.startInformers_discovery_failure]), [answers]
    (listers hold unstructured objects, the mapper has been discovered),
    [ValidEnvironment] (manifests list each object once, and no object twice),
    [QueueLaws] and [QueueKeeps] (the work queue is fair and stingy, and hands out
    what was added), [DeepCopierLaws] for the structs of the libraries,
    [RangeByKeys] (the order of a loop over a map depends on its keys only),
    [ClientLaws] (an addition to a scheme adds), [WorldLaws] (the hub answers from
    its store, any call may fail, and one that fails may still have taken effect;
    the cluster and its manifests stay as they are during a pass), [visits] (a flag set visits flags that were defined), [readable]
    (YAML reads the values of the templates as they are).  Each is shown to hold
    of a simulation or a closed instance.  A call of a locked map and an access to
    [restMapper] are atomic; the Go memory model's undefined behaviour of the
    unprotected mapper is not modelled.  Each map has in the model the one type
    that every [Set] on it in the source passes, so that the type assertions on
    what is found in a map have nothing to fail on but an entry that is missing.

    ** Not modelled

    Logging, time and back-off of the queue, contexts and their deadlines; the
    HTTP servers of metrics and profiling (their starts are); what cobra, the
    command factory and the addon framework do with the commands and the values;
    the chart and the kustomize files, which are YAML without code.  [Overlap] takes
    its history of handlings as given: which worker took an item of the queue and
    when is [Exclusion]'s and [Liveness]'s matter, and what a handler reads of an
    applied manifest work is [ManifestProps]'s.  Two goroutines on one kind are
    outside of its theorem, because there the agent does go wrong: [Races]. *)

From stdpp Require Export base gmap strings list sorting pretty.

#[export] Set Warnings "-clear-no-such-hyp,-register-all".

(** ** Run-time panics *)

(** The ways in which the Go code of the program can panic. *)
Inductive panic : Type :=
| PanicNilDeref        (* method call on a nil interface, read through a nil pointer *)
| PanicIndex           (* slice index out of range *)
| PanicSliceBounds     (* s[:n] with n out of range *)
| PanicTypeAssert      (* x.(T) on a value of another type *)
| PanicNilMapWrite     (* assignment to an entry of a nil map *)
| PanicCloseClosed     (* close of a closed channel *)
| PanicExplicit.       (* a call of the builtin panic, in this code or in a library *)

#[export] Instance panic_eq_dec : EqDecision panic.
Proof. solve_decision. Defined.

(** The outcome of a computation that may panic. *)
Inductive outcome (A : Type) : Type :=
| Done (a : A)
| Panic (p : panic).
Arguments Done {A} a.
Arguments Panic {A} p.

#[export] Instance outcome_eq_dec {A} `{!EqDecision A} : EqDecision (outcome A).
Proof. solve_decision. Defined.

#[export] Instance outcome_ret : MRet outcome := @Done.
#[export] Instance outcome_bind : MBind outcome := λ A B f m,
  match m with Done a => f a | Panic p => Panic p end.
#[export] Instance outcome_fmap : FMap outcome := λ A B f m,
  match m with Done a => Done (f a) | Panic p => Panic p end.

(** [is_done m]: the computation ends without a panic. *)
Definition is_done {A} (m : outcome A) : bool :=
  match m with Done _ => true | Panic _ => false end.

(** ** Go errors *)

(** An [error] value: one made by a library (seen through the two observations
    the source makes of it, [apierrors.IsNotFound] and [Error()]), one made by
    [fmt.Errorf] without [%w], and one made by [fmt.Errorf] with [%w]. *)
Inductive error : Type :=
| ErrLib (not_found : bool) (text : string)
| ErrF (text : string)
| ErrW (text : string) (inner : error).

#[export] Instance error_eq_dec : EqDecision error.
Proof. solve_decision. Defined.

(** The pair [(T, error)] of a Go function one of whose two halves is used. *)
Inductive result (A : Type) : Type :=
| GOk (a : A)
| GErr (e : error).
Arguments GOk {A} a.
Arguments GErr {A} e.

(** [err.Error()]. *)
Definition Error (e : error) : string :=
  match e with ErrLib _ t | ErrF t | ErrW t _ => t end.

(** [apierrors.IsNotFound], which unwraps the errors built with [%w]. *)
Fixpoint IsNotFound (e : error) : bool :=
  match e with
  | ErrLib nf _ => nf
  | ErrF _ => false
  | ErrW _ e => IsNotFound e
  end.

(** ** Automation *)

Create HintDb go discriminated.
#[export] Hint Constants Opaque : go.
#[export] Hint Constructors Forall Forall2 Permutation : go.

(** Decides membership in lists that are written out. *)
Ltac in_list := rewrite ?elem_of_cons, ?elem_of_app, ?elem_of_nil; naive_solver.
Ltac in_list_hyp H := rewrite ?elem_of_cons, ?elem_of_app, ?elem_of_nil in H; naive_solver.

(** Takes the branch of [if len(s) == 0] for a slice that is not empty. *)
Ltac nonempty := rewrite !decide_False by (by rewrite length_zero_iff_nil).

(** ** Lists *)

Lemma list_filter_all {A} (P : A → Prop) `{!∀ x, Decision (P x)} (l : list A) :
  (∀ x, x ∈ l → P x) → filter P l = l.
Proof.
  induction l as [|x l IH]; intros Hl; [done|]. rewrite filter_cons, decide_True by (apply Hl; left).
  f_equal. apply IH. intros y Hy. apply Hl. by right.
Qed.
