(* ===== verification/GoLib.v ===== *)
(** * The Go language and standard library, as far as the program uses them

    Nil-able maps, slices, [range] over a map, [strings], [sort.Strings],
    [encoding/json] on decoded JSON values. *)

From S2P Require Export Prelude.
From Stdlib Require Import Ascii.

(** ** Maps

    A Go map variable is nil or refers to a table.  Reading, deleting from and
    ranging over nil act as on the empty table; assigning to an entry panics. *)
Abbreviation gomap V := (option (gmap string V)).

Definition gomap_table {V} (m : gomap V) : gmap string V := default ∅ m.

(** [v, ok := m[k]] *)
Definition gomap_get {V} (m : gomap V) (k : string) : option V := gomap_table m !! k.

(** [m[k] = v] *)
Definition gomap_set {V} (m : gomap V) (k : string) (v : V) : outcome (gomap V) :=
  match m with
  | None => Panic PanicNilMapWrite
  | Some t => Done (Some (<[k := v]> t))
  end.

(** [delete(m, k)] *)
Definition gomap_delete {V} (m : gomap V) (k : string) : gomap V := delete k <$> m.

(** The iteration order of [range] over a map is not specified and may differ
    from one loop to the next: each loop takes a seed, and nothing is known of
    the order but that it visits every entry once. *)
Class GoRuntime : Type := {
  go_range : ∀ {A : Type}, N → gmap string A → list (string * A);
  go_range_perm : ∀ (A : Type) (seed : N) (m : gmap string A),
    go_range seed m ≡ₚ map_to_list m
}.

(** ** Slices *)

(** [s[i]] *)
Definition index {A} (s : list A) (i : nat) : outcome A :=
  match s !! i with Some a => Done a | None => Panic PanicIndex end.

(** [for i, v := range s { acc = f(acc, i, v) }] with a body that may panic. *)
Fixpoint foldi {A B} (f : B → nat → A → outcome B) (i : nat) (s : list A) (acc : B) : outcome B :=
  match s with
  | [] => Done acc
  | v :: s => acc ← f acc i v; foldi f (S i) s acc
  end.

(** ** Strings: sequences of bytes *)

(** The double quote, as a string. *)
Definition dquote : string := String "034"%char "".

(** [s[:n]] *)
Definition slice_to (s : string) (n : Z) : outcome string :=
  if decide (0 ≤ n ≤ Z.of_nat (String.length s))%Z
  then Done (String.substring 0 (Z.to_nat n) s)
  else Panic PanicSliceBounds.

(** [strings.HasPrefix] *)
Definition HasPrefix (s prefix : string) : bool := String.prefix prefix s.

(** [strings.Contains] *)
Fixpoint Contains (s substr : string) : bool :=
  String.prefix substr s ||
  match s with
  | "" => false
  | String _ s => Contains s substr
  end.

(** [strings.ReplaceAll(s, old, new)] for an [old] of one byte. *)
Fixpoint ReplaceAll (s : string) (old : ascii) (new : string) : string :=
  match s with
  | "" => ""
  | String c s =>
      if decide (c = old) then new +:+ ReplaceAll s old new
      else String c (ReplaceAll s old new)
  end.

(** [strings.ToLower] on ASCII bytes (its ASCII fast path; API groups, versions
    and kinds are ASCII). *)
Definition byte_to_lower (c : ascii) : ascii :=
  let n := nat_of_ascii c in
  if decide (65 ≤ n ≤ 90) then ascii_of_nat (n + 32) else c.
Fixpoint ToLower (s : string) : string :=
  match s with "" => "" | String c s => String (byte_to_lower c) (ToLower s) end.

(** The bytes of a string, for the statements. *)
Fixpoint bytes (s : string) : list ascii :=
  match s with "" => [] | String c s => c :: bytes s end.

(** [sort.Strings]: byte-wise lexicographic order. *)
Definition sort_Strings (l : list string) : list string := merge_sort String.le l.

(** ** JSON values, as [encoding/json] decodes them into [interface{}]

    A [JFloat] carries the text [strconv] gives for the number. *)
Inductive JSON : Type :=
| JNull
| JBool (b : bool)
| JInt (z : Z)
| JFloat (text : string)
| JString (s : string)
| JArray (l : list JSON)
| JObject (fields : list (string * JSON)).

Definition hex_digit (n : nat) : ascii :=
  ascii_of_nat (if decide (n < 10) then 48 + n else 87 + n).

(** One byte below 0x80 of a string literal: [htmlSafeSet] bytes stand for
    themselves, the others are escaped. *)
Definition json_escape_byte (c : ascii) : string :=
  let n := nat_of_ascii c in
  if decide (n = 34 ∨ n = 92) then String "\"%char (String c "")
  else if decide (n = 8) then "\b"
  else if decide (n = 9) then "\t"
  else if decide (n = 10) then "\n"
  else if decide (n = 12) then "\f"
  else if decide (n = 13) then "\r"
  else if decide (n < 32 ∨ n = 38 ∨ n = 60 ∨ n = 62)
  then "\u00" +:+ String (hex_digit (n `div` 16)) (String (hex_digit (n `mod` 16)) "")
  else String c "".

(** The characters of a string literal; the separators U+2028 and U+2029 (E2 80
    A8 and E2 80 A9 in UTF-8) are escaped too, other multi-byte characters are
    copied.  The strings are valid UTF-8, having been decoded from JSON. *)
Fixpoint json_escape (s : string) : string :=
  match s with
  | String "226"%char (String "128"%char (String "168"%char s)) => "\u2028" +:+ json_escape s
  | String "226"%char (String "128"%char (String "169"%char s)) => "\u2029" +:+ json_escape s
  | String c s => json_escape_byte c +:+ json_escape s
  | "" => ""
  end.
Definition json_string (s : string) : string := dquote +:+ json_escape s +:+ dquote.

(** [strings.Join] *)
Fixpoint Join (l : list string) (sep : string) : string :=
  match l with
  | [] => ""
  | [s] => s
  | s :: l => s +:+ sep +:+ Join l sep
  end.

(** The order on the keys of an object, carried to its rendered fields. *)
Definition key_le {A} (x y : string * A) : Prop := String.le x.1 y.1.
#[export] Instance key_le_dec {A} : RelDecision (@key_le A) := λ x y, String.le_dec x.1 y.1.

(** [json.Marshal]: compact form, the keys of an object in increasing order. *)
Fixpoint json_Marshal (v : JSON) : string :=
  match v with
  | JNull => "null"
  | JBool true => "true"
  | JBool false => "false"
  | JInt z => pretty z
  | JFloat t => t
  | JString s => json_string s
  | JArray l => "[" +:+ Join (map json_Marshal l) "," +:+ "]"
  | JObject fs =>
      "{" +:+
      Join (map (λ kv, json_string kv.1 +:+ ":" +:+ kv.2)
             (merge_sort key_le
               (map (λ kv, match kv with (k, w) => (k, json_Marshal w) end) fs))) ","
      +:+ "}"
  end.

(** ** Lemmas *)

Section range.
Context {RT : GoRuntime} {A : Type}.
Implicit Types m : gmap string A.

Lemma go_range_elem seed m k v : (k, v) ∈ go_range seed m ↔ m !! k = Some v.
Proof. rewrite go_range_perm. apply elem_of_map_to_list. Qed.

Lemma go_range_NoDup seed m : NoDup (go_range seed m).*1.
Proof. rewrite go_range_perm. apply NoDup_fst_map_to_list. Qed.

(** Anything that does not depend on the order of a list is the same for every
    two iterations over one map. *)
Lemma go_range_seed_irrel {B} (f : list (string * A) → B) seed seed' m :
  (∀ l l', l ≡ₚ l' → f l = f l') → f (go_range seed m) = f (go_range seed' m).
Proof. intros Hf. apply Hf. by rewrite !go_range_perm. Qed.
End range.

(** A loop that indexes a second slice with the position in the first one ends
    without a panic when the second is as long, and folds over the pairs. *)
Lemma foldi_index {A B C} (f : C → A → B → C) (bs1 bs2 : list B) (s : list A) acc :
  length s = length bs2 →
  foldi (λ acc i a, b ← index (bs1 ++ bs2) i; Done (f acc a b)) (length bs1) s acc
  = Done (foldl (λ acc ab, f acc ab.1 ab.2) acc (zip s bs2)).
Proof.
  revert bs1 bs2 acc. induction s as [|a s IH]; intros bs1 [|b bs2] acc Hlen; simplify_eq/=; [done|].
  unfold index. rewrite list_lookup_middle by done. simpl.
  specialize (IH (bs1 ++ [b]) bs2 (f acc a b) Hlen).
  rewrite length_app, Nat.add_1_r, <- app_assoc in IH. done.
Qed.

Lemma foldl_insert_list_to_map {V} (l : list (string * V)) (m : gmap string V) :
  foldl (λ m kv, <[kv.1 := kv.2]> m) m l = list_to_map (reverse l) ∪ m.
Proof.
  revert m. induction l as [|[k v] l IH]; intros m; simpl.
  - by rewrite (left_id_L ∅ (∪)).
  - rewrite IH, reverse_cons, list_to_map_app. simpl.
    rewrite <- (assoc_L (∪)), insert_union_singleton_l.
    by rewrite (left_id_L ∅ (∪)) || rewrite insert_empty.
Qed.

Lemma string_nil_app (s : string) : "" +:+ s = s.
Proof. done. Qed.

Lemma string_cons_app (c : ascii) (s t : string) : String c s +:+ t = String c (s +:+ t).
Proof. done. Qed.

Lemma string_app_assoc (s t u : string) : (s +:+ t) +:+ u = s +:+ t +:+ u.
Proof. induction s as [|c s IH]; [done|]. by rewrite !string_cons_app, IH. Qed.

Lemma substring_length n s : n ≤ String.length s → String.length (String.substring 0 n s) = n.
Proof.
  revert s. induction n as [|n IH]; intros [|c s] H; simpl in *; [done..|lia|].
  f_equal. apply IH. lia.
Qed.

Lemma prefix_refl s : String.prefix s s = true.
Proof. induction s as [|c s IH]; simpl; [done|]. destruct (ascii_dec c c); done. Qed.

Lemma substring_prefix n s : String.prefix (String.substring 0 n s) s = true.
Proof.
  revert s. induction n as [|n IH]; intros [|c s]; simpl; try done.
  destruct (ascii_dec c c); [apply IH|done].
Qed.

Lemma prefix_app p s : String.prefix p (p +:+ s) = true.
Proof.
  induction p as [|c p IH]; [by destruct s|].
  rewrite string_cons_app. simpl.
  destruct (ascii_dec c c); done.
Qed.

Lemma Contains_prefix u t : String.prefix t u = true → Contains u t = true.
Proof. destruct u; simpl; intros ->; done. Qed.

Lemma Contains_app p t s : Contains (p +:+ t +:+ s) t = true.
Proof.
  induction p as [|c p IH].
  - apply Contains_prefix, (prefix_app t s).
  - rewrite string_cons_app. simpl. rewrite IH. apply orb_true_r.
Qed.

Lemma sort_Strings_perm l : sort_Strings l ≡ₚ l.
Proof. apply merge_sort_Permutation. Qed.

Lemma sort_Strings_sorted l : Sorted String.le (sort_Strings l).
Proof. apply Sorted_merge_sort, _. Qed.

(** The result of a sort does not depend on the order of its input. *)
Lemma sort_Strings_unique l l' : l ≡ₚ l' → sort_Strings l = sort_Strings l'.
Proof.
  intros Hl. apply (Sorted_unique String.le); try apply sort_Strings_sorted.
  by rewrite !sort_Strings_perm.
Qed.

(** *** Separators *)

(** [s] has no byte [c]. *)
Definition lacks (c : ascii) (s : string) : Prop := c ∉ bytes s.

#[export] Instance lacks_dec c s : Decision (lacks c s).
Proof. unfold lacks. apply _. Defined.

Lemma lacks_cons c d s : lacks c (String d s) ↔ c ≠ d ∧ lacks c s.
Proof. unfold lacks. simpl. by rewrite not_elem_of_cons. Qed.

Lemma lacks_app c s t : lacks c (s +:+ t) ↔ lacks c s ∧ lacks c t.
Proof.
  induction s as [|d s IH].
  - rewrite string_nil_app. unfold lacks at 2. simpl. rewrite elem_of_nil. naive_solver.
  - rewrite string_cons_app, !lacks_cons, IH. naive_solver.
Qed.

(** A separator that is in neither prefix splits equal strings at the same place. *)
Lemma split_inj c a a' b b' :
  lacks c a → lacks c a' → a +:+ String c b = a' +:+ String c b' → a = a' ∧ b = b'.
Proof.
  revert a'. induction a as [|d a IH]; intros [|d' a'] Ha Ha' Heq;
    rewrite ?string_nil_app, ?string_cons_app, ?lacks_cons in *; simplify_eq/=; [done|naive_solver..|].
  destruct (IH a') as [-> ->]; naive_solver.
Qed.

(** A string without the separator is not one that has it. *)
Lemma lacks_ne c a b d : lacks c a → a ≠ b +:+ String c d.
Proof.
  intros Ha ->. apply lacks_app in Ha. rewrite lacks_cons in Ha. naive_solver.
Qed.

(** *** JSON string literals *)

Ltac bits c := destruct c as [[] [] [] [] [] [] [] []].

(** One character of a literal, or a separator of three bytes. *)
Lemma json_escape_cons c s :
  json_escape (String c s) = json_escape_byte c +:+ json_escape s ∨
  ∃ s', 3 + String.length s' = String.length (String c s) ∧
    (json_escape (String c s) = "\u2028" +:+ json_escape s' ∨ json_escape (String c s) = "\u2029" +:+ json_escape s').
Proof.
  destruct (decide (c = "226"%char)) as [->|Hc]; [|left; bits c; try reflexivity; by destruct Hc].
  destruct s as [|c2 s]; [by left|].
  destruct (decide (c2 = "128"%char)) as [->|Hc]; [|left; bits c2; try reflexivity; by destruct Hc].
  destruct s as [|c3 s]; [by left|].
  destruct (decide (c3 = "168"%char)) as [->|H1]; [right; exists s; auto|].
  destruct (decide (c3 = "169"%char)) as [->|H2]; [right; exists s; auto|].
  left; bits c3; try reflexivity; by destruct H1 + destruct H2.
Qed.

Lemma length_string_app s t : String.length (s +:+ t) = String.length s + String.length t.
Proof. induction s as [|c s IH]; [done|]. rewrite string_cons_app. simpl. by rewrite IH. Qed.

Lemma json_escape_byte_length c :
  1 ≤ String.length (json_escape_byte c) ∧ (c = "034"%char → 2 ≤ String.length (json_escape_byte c)).
Proof. split; [bits c; vm_compute; lia|intros ->; vm_compute; lia]. Qed.

(** Escaping does not shorten, and lengthens what has a quote. *)
Lemma json_escape_length s :
  String.length s ≤ String.length (json_escape s) ∧
  (¬ lacks "034"%char s → String.length s < String.length (json_escape s)).
Proof.
  induction (Nat.lt_wf_0_projected String.length s) as [s _ IH].
  destruct s as [|c s]; [split; [done|]; intros []; by apply not_elem_of_nil|].
  destruct (json_escape_cons c s) as [Hj|(s' & Hs' & Hj)].
  - destruct (json_escape_byte_length c) as [H1 H2]. destruct (IH s) as [H3 H4]; [simpl; lia|].
    rewrite Hj, length_string_app, lacks_cons. simpl. split; [lia|]. intros Hn.
    destruct (decide (c = "034"%char)) as [Hc|Hc]; [specialize (H2 Hc); lia|].
    assert (¬ lacks "034"%char s) as Hl by naive_solver. specialize (H4 Hl). lia.
  - destruct (IH s') as [H3 _]; [lia|].
    assert (String.length (json_escape (String c s)) = 6 + String.length (json_escape s')) as ->
      by (destruct Hj as [-> | ->]; by rewrite length_string_app). split; intros; lia.
Qed.

Lemma json_plain_lacks s : json_escape s = s → lacks "034"%char s.
Proof.
  intros Hs. destruct (decide (lacks "034"%char s)) as [|Hn]; [done|].
  apply json_escape_length in Hn. rewrite Hs in Hn. lia.
Qed.

#[export] Hint Resolve go_range_NoDup sort_Strings_perm sort_Strings_sorted : go.
