(* ===== verification/Runtime.v ===== *)
(** * Programs as trees of atomic actions

    The concurrent part of the agent is written in a free monad over its atomic
    actions (a call of a mutex-protected map, a channel operation, a library
    call).  One definition of a function then has several readings:
    - [run]: sequentially, on a state;
    - [traces]: the actions it performs, whatever the answers it gets, so that a
      fact about all traces holds under every interleaving and environment;
    - [safe]: a rely-guarantee triple, that bounds the actions it performs and
      the panics it may end with under assumptions on the answers;
    - interleaved with other goroutines (file [Concurrency.v]). *)

From S2P Require Export GoLib.

Section prog.
Context {Op : Type → Type}.

Inductive prog (A : Type) : Type :=
| Ret (a : A)
| Crash (p : panic)
| Act {R : Type} (o : Op R) (k : R → prog A).

#[global] Arguments Ret {A} a.
#[global] Arguments Crash {A} p.
#[global] Arguments Act {A R} o k.

#[export] Instance prog_ret : MRet prog := @Ret.
#[export] Instance prog_bind : MBind prog :=
  fix go (A B : Type) (f : A → prog B) (p : prog A) {struct p} : prog B :=
    match p with
    | Ret a => f a
    | Crash q => Crash q
    | Act o k => Act o (λ r, go A B f (k r))
    end.

(** One atomic action. *)
Definition act {R} (o : Op R) : prog R := Act o Ret.

(** A pure computation that may panic. *)
Definition lift {A} (m : outcome A) : prog A :=
  match m with Done a => Ret a | Panic q => Crash q end.

(** [defer d]: the deferred call runs when the function returns.  (After a panic
    the process ends, with nothing left to observe.) *)
Definition defer {A} (d : prog unit) (p : prog A) : prog A :=
  r ← p; _ ← d; Ret r.

(** ** Traces *)

Inductive event : Type :=
| Ev {R : Type} (o : Op R) (r : R).

Fixpoint traces {A} (p : prog A) (tr : list event) (out : outcome A) : Prop :=
  match p with
  | Ret a => tr = [] ∧ out = Done a
  | Crash q => tr = [] ∧ out = Panic q
  | Act o k => ∃ r tr', tr = Ev o r :: tr' ∧ traces (k r) tr' out
  end.

(** ** Rely-guarantee triples *)

(** Under answers allowed by [rely], every action performed satisfies [ok], a
    panic satisfies [crash] and the value returned satisfies [Q]. *)
Fixpoint safe (rely : ∀ R, Op R → R → Prop) (ok : ∀ R, Op R → Prop) (crash : panic → Prop)
    {A} (Q : A → Prop) (p : prog A) : Prop :=
  match p with
  | Ret a => Q a
  | Crash q => crash q
  | Act o k => ok _ o ∧ ∀ r, rely _ o r → safe rely ok crash Q (k r)
  end.

(** ** Sequential execution *)

Section run.
Context {St : Type} (exec : ∀ R, Op R → St → outcome (R * St)).

Fixpoint run {A} (p : prog A) (s : St) : outcome (A * St) :=
  match p with
  | Ret a => Done (a, s)
  | Crash q => Panic q
  | Act o k => match exec _ o s with
               | Done (r, s') => run (k r) s'
               | Panic q => Panic q
               end
  end.

Lemma run_bind {A B} (p : prog A) (f : A → prog B) s :
  run (p ≫= f) s = (run p s ≫= λ as', run (f as'.1) as'.2).
Proof.
  revert s. induction p as [a|q|R o k IH]; intros s; [done..|].
  cbn. destruct (exec _ o s) as [[r s']|q]; [apply IH|done].
Qed.

(** The actions of the sequential run, with their answers. *)
Fixpoint run_log {A} (p : prog A) (s : St) : list event * outcome (A * St) :=
  match p with
  | Ret a => ([], Done (a, s))
  | Crash q => ([], Panic q)
  | Act o k => match exec _ o s with
               | Done (r, s') => let '(tr, out) := run_log (k r) s' in (Ev o r :: tr, out)
               | Panic q => ([], Panic q)
               end
  end.

Lemma run_log_traces {A} (p : prog A) s a s' :
  (run_log p s).2 = Done (a, s') → traces p (run_log p s).1 (Done a).
Proof.
  revert s. induction p as [b|q|R o k IH]; intros s; cbn; intros H; simplify_eq; [done|].
  destruct (exec _ o s) as [[r s1]|q]; [|done].
  specialize (IH r s1). destruct (run_log (k r) s1) as [tr out]. eauto.
Qed.

Lemma run_log_bind {A B} (p : prog A) (f : A → prog B) s :
  run_log (p ≫= f) s =
    match (run_log p s).2 with
    | Done (a, s') => ((run_log p s).1 ++ (run_log (f a) s').1, (run_log (f a) s').2)
    | Panic q => ((run_log p s).1, Panic q)
    end.
Proof.
  revert s. induction p as [a|q|R o k IH]; intros s; cbn; [by destruct (run_log (f a) s)|done|].
  destruct (exec _ o s) as [[r s']|q]; [|done]. change (prog_bind _ _ f (k r)) with (k r ≫= f). rewrite IH.
  destruct (run_log (k r) s') as [tr [[a s2]|q]]; cbn; [|done]. by destruct (run_log (f a) s2).
Qed.

Lemma run_log_run {A} (p : prog A) s : (run_log p s).2 = run p s.
Proof.
  revert s. induction p as [a|q|R o k IH]; intros s; cbn; [done..|].
  destruct (exec _ o s) as [[r s']|q]; [|done]. rewrite <- IH. by destruct (run_log (k r) s').
Qed.

(** A triple is sound for sequential execution from a state that satisfies an
    invariant kept by the allowed actions. *)
Lemma safe_run rely ok crash (I : St → Prop) {A} (Q : A → Prop) (p : prog A) s :
  (∀ R (o : Op R) s r s', ok R o → I s → exec R o s = Done (r, s') → rely R o r ∧ I s') →
  (∀ R (o : Op R) s q, ok R o → I s → exec R o s = Panic q → crash q) →
  safe rely ok crash Q p → I s →
  match run p s with Done (a, s') => Q a ∧ I s' | Panic q => crash q end.
Proof.
  intros Hstep Hcrash. revert s. induction p as [a|q|R o k IH]; intros s; simpl; [done..|].
  intros [Hok Hk] HI. destruct (exec _ o s) as [[r s']|q] eqn:E; [|by eapply Hcrash].
  destruct (Hstep _ _ _ _ _ Hok HI E). by apply IH; [apply Hk|].
Qed.
End run.

(** ** Lemmas on traces and triples *)

Lemma traces_bind {A B} (p : prog A) (f : A → prog B) tr out :
  traces (p ≫= f) tr out ↔
  (∃ tr1 tr2 a, tr = tr1 ++ tr2 ∧ traces p tr1 (Done a) ∧ traces (f a) tr2 out) ∨
  (∃ q, out = Panic q ∧ traces p tr (Panic q)).
Proof.
  revert tr. induction p as [a|q|R o k IH]; intros tr; cbn.
  - split; [intros H; left; exists [], tr, a; done|].
    intros [(tr1 & tr2 & b & Htr & [? [=]] & Ht)|(q & ? & ? & [=])]. by simplify_eq/=.
  - split; [intros [-> ->]; right; eauto|].
    intros [(? & ? & ? & _ & [_ [=]] & _)|(? & ? & ? & [=])]. by simplify_eq/=.
  - split.
    + intros (r & tr' & -> & H). apply IH in H as [(tr1 & tr2 & a & -> & H1 & H2)|(q & -> & H)].
      * left. exists (Ev o r :: tr1), tr2, a. split; [done|]. split; [by exists r, tr1|done].
      * right. exists q. split; [done|]. by exists r, tr'.
    + intros [(tr1 & tr2 & a & -> & (r & tr' & -> & H1) & H2)|(q & -> & r & tr' & -> & H)];
        exists r; eexists; (split; [by try rewrite <- app_comm_cons|]); apply IH; [left|right]; eauto 7.
Qed.

Lemma safe_bind rely ok crash {A B} (Q : A → Prop) (Q' : B → Prop) (p : prog A) (f : A → prog B) :
  safe rely ok crash Q p → (∀ a, Q a → safe rely ok crash Q' (f a)) →
  safe rely ok crash Q' (p ≫= f).
Proof.
  intros Hp Hf. revert Hp. induction p as [a|q|R o k IH]; cbn; [auto..|].
  intros [Hok Hk]. split; [done|]. intros r Hr. by apply IH, Hk.
Qed.

(** A triple speaks of every trace whose answers are allowed. *)
Lemma safe_traces rely ok crash {A} (Q : A → Prop) (p : prog A) tr out :
  safe rely ok crash Q p → traces p tr out →
  Forall (λ e, match e with Ev o r => rely _ o r end) tr →
  Forall (λ e, match e with Ev o r => ok _ o end) tr ∧
  match out with Done a => Q a | Panic q => crash q end.
Proof.
  revert tr. induction p as [a|q|R o k IH]; intros tr; cbn; [by intros ? [-> ->]..|].
  intros [Hok Hk] (r & tr' & -> & Ht) [Hr Hrel]%Forall_cons.
  destruct (IH r tr' (Hk r Hr) Ht Hrel). eauto with go.
Qed.
End prog.

Arguments prog Op A : clear implicits.
Arguments event Op : clear implicits.
