(* ===== verification/Kube.v ===== *)
(** * Kubernetes and OCM, as the program sees them

    The structs of [k8s.io/apimachinery], [client-go], [controller-runtime] and
    [open-cluster-management.io/api] with the fields the source reads, and the
    library functions the source calls, as the parameters of a class.  The
    behaviour of those functions that some theorems rely on is in [KubeLaws]. *)

From S2P Require Export GoLib.
From Stdlib Require Import Ascii.

(** ** Data *)

(** [schema.GroupVersionKind] *)
Record GroupVersionKind : Type := GVK { gvk_Group : string; gvk_Version : string; gvk_Kind : string }.

(** [schema.GroupVersionResource]; the program never writes through a
    [*schema.GroupVersionResource], which is modelled by the value. *)
Record GroupVersionResource : Type := GVR { gvr_Group : string; gvr_Version : string; gvr_Resource : string }.

#[export] Instance GroupVersionKind_eq_dec : EqDecision GroupVersionKind.
Proof. solve_decision. Defined.
#[export] Instance GroupVersionResource_eq_dec : EqDecision GroupVersionResource.
Proof. solve_decision. Defined.

(** [metav1.OwnerReference] *)
Record OwnerReference : Type := MkOwner { or_APIVersion : string; or_Kind : string; or_Name : string }.

#[export] Instance OwnerReference_eq_dec : EqDecision OwnerReference.
Proof. solve_decision. Defined.

(** The struct behind a [runtime.Object] pointer, as reflection sees it: an
    [unstructured.Unstructured] has the single field [Object], a map of the
    decoded content (the metadata, seen through the accessors, left out); a typed
    struct has its own fields, among them [Spec] and [Status] when its Go type
    declares them. *)
Inductive GoStruct : Type :=
| SUnstructured (content : list (string * JSON))
| STyped (fields : list (string * JSON)).

(** A value that implements [runtime.Object] and [metav1.Object]. *)
Record Object : Type := MkObject {
  GroupVersionKind_of : GroupVersionKind;
  GetNamespace : string;
  GetName : string;
  GetLabels : gomap string;
  GetAnnotations : gomap string;
  GetOwnerReferences : list OwnerReference;
  GetUID : string;
  GetResourceVersion : string;
  GetGeneration : Z;
  GetCreationTimestamp : option Z;   (* None: the zero time *)
  GetManagedFields : list string;    (* the managers; nil is the empty list *)
  GetDeletionTimestamp : option Z;   (* None: a nil pointer *)
  struct_of : GoStruct
}.

(** What an [interface{}] may hold where the source inspects its dynamic type. *)
Inductive AnyValue : Type :=
| VObject (o : Object)                     (* a pointer that implements runtime.Object *)
| VUnstructured (o : Object)               (* an unstructured.Unstructured, not a pointer *)
| VDeletedFinalStateUnknown (key : string) (o : Object)   (* cache.DeletedFinalStateUnknown *)
| VOther.                                  (* anything else *)

(** [x.(metav1.Object)], [x.(runtime.Object)]: no other case implements them. *)
Definition as_object (x : AnyValue) : outcome Object :=
  match x with VObject o => Done o | _ => Panic PanicTypeAssert end.

(** [obj.( *unstructured.Unstructured)] *)
Definition is_unstructured (o : Object) : bool :=
  match struct_of o with SUnstructured _ => true | STyped _ => false end.

(** [workv1.AppliedManifestResourceMeta] and [workv1.AppliedManifestWork] *)
Record AppliedManifestResourceMeta : Type := MkResource {
  ar_Group : string; ar_Version : string; ar_Resource : string;
  ar_Name : string; ar_Namespace : string; ar_UID : string
}.
Record AppliedManifestWork : Type := MkAppliedManifestWork {
  amw_Name : string;
  amw_UID : string;
  amw_ManifestWorkName : string;                          (* Spec.ManifestWorkName *)
  amw_AppliedResources : list AppliedManifestResourceMeta (* Status.AppliedResources *)
}.

(** [workv1.ManifestWork] *)
Record ManifestWork : Type := MkManifestWork {
  mw_Name : string; mw_Namespace : string; mw_UID : string; mw_Labels : gomap string
}.

(** ** The program's own API type: api/v1alpha1/workstatus_types.go *)

Record SourceRef : Type := MkSourceRef {
  sr_Group : string; sr_Version : string; sr_Resource : string;
  sr_Kind : string; sr_Name : string; sr_Namespace : string
}.
Record WorkStatusSpec : Type := MkWorkStatusSpec { ws_SourceRef : SourceRef }.

(** The raw bytes of the status; None is a nil slice. *)
Record RawStatus : Type := MkRawStatus { Raw : option string }.
Record StatusDetails : Type := MkStatusDetails {
  LastGeneration : Z;
  LastGenerationIsApplied : bool;
  LastCurrencyUpdateTime : Z       (* metav1.Time, in seconds of Unix time *)
}.
Record WorkStatus : Type := MkWorkStatus {
  ws_Namespace : string;
  ws_Name : string;
  ws_ResourceVersion : string;
  ws_Labels : gomap string;
  ws_OwnerReferences : list OwnerReference;
  ws_Spec : WorkStatusSpec;
  ws_Status : RawStatus;
  ws_StatusDetails : StatusDetails
}.

#[export] Instance SourceRef_eq_dec : EqDecision SourceRef.
Proof. solve_decision. Defined.
#[export] Instance WorkStatusSpec_eq_dec : EqDecision WorkStatusSpec.
Proof. solve_decision. Defined.
#[export] Instance RawStatus_eq_dec : EqDecision RawStatus.
Proof. solve_decision. Defined.
#[export] Instance StatusDetails_eq_dec : EqDecision StatusDetails.
Proof. solve_decision. Defined.
#[export] Instance WorkStatus_eq_dec : EqDecision WorkStatus.
Proof. solve_decision. Defined.

(** ** Library functions without effects *)

Class Kube : Type := {
  RESTMapper : Type;
  GroupResources : Type;
  Informer : Type;                     (* a pointer to a shared informer *)
  Lister : Type;                       (* a generic lister over an informer's store *)
  Informer_eq_dec :: EqDecision Informer;
  (* workv1.GroupVersion *)
  workv1_Group : string;
  workv1_Version : string;
  (* schema.GroupVersion.String, schema.GroupVersionKind.String *)
  GroupVersion_String : string → string → string;
  GroupVersionKind_String : GroupVersionKind → string;
  (* cache.MetaNamespaceKeyFunc, cache.SplitMetaNamespaceKey *)
  MetaNamespaceKeyFunc : Object → result string;
  SplitMetaNamespaceKey : string → result (string * string);
  (* restmapper.NewDiscoveryRESTMapper, meta.RESTMapper's KindFor and the Resource of its RESTMapping *)
  NewDiscoveryRESTMapper : GroupResources → RESTMapper;
  KindFor : RESTMapper → GroupVersionResource → result GroupVersionKind;
  RESTMapping : RESTMapper → string → string → string → result GroupVersionResource;
  (* cache.NewGenericLister(informer.GetIndexer(), gvr.GroupResource()) *)
  NewGenericLister : Informer → GroupVersionResource → Lister;
  (* runtime.DefaultUnstructuredConverter and unstructured.NestedFieldNoCopy *)
  FromUnstructured : Object → result AppliedManifestWork;
  ToUnstructured : JSON → result JSON;
  ToUnstructuredObject : Object → result (list (string * JSON));
  NestedFieldNoCopy : list (string * JSON) → string → result (option JSON);
  (* controllerutil.SetControllerReference: the new owner references of the controlled object *)
  SetControllerReference : ManifestWork → WorkStatus → result (list OwnerReference)
}.

(** The documented behaviour of those functions that theorems rely on. *)
Class KubeLaws `{Kube} : Prop := {
  GroupVersion_String_core v : GroupVersion_String "" v = v;
  GroupVersion_String_group g v : g ≠ "" → GroupVersion_String g v = g +:+ "/" +:+ v;
  GroupVersionKind_String_spec gvk :
    GroupVersionKind_String gvk
    = gvk_Group gvk +:+ "/" +:+ gvk_Version gvk +:+ ", Kind=" +:+ gvk_Kind gvk;
  SplitMetaNamespaceKey_spec o k :
    lacks "/"%char (GetNamespace o) → lacks "/"%char (GetName o) →
    MetaNamespaceKeyFunc o = GOk k → SplitMetaNamespaceKey k = GOk (GetNamespace o, GetName o)
}.
