(* ===== verification/SimKube.v ===== *)
(** * A concrete instance of the library functions

    Used by the closed examples and by the witnesses of the theorems; it also
    shows that the laws assumed in [KubeLaws] can hold together. *)

From S2P Require Export Kube.
From Stdlib Require Import Ascii.

(** Even seeds iterate in the order of the table, odd ones in the reverse. *)
#[export] Program Instance sim_runtime : GoRuntime := {|
  go_range A seed m := if N.even seed then map_to_list m else reverse (map_to_list m)
|}.
Next Obligation. intros A seed m. simpl. destruct (N.even seed); [done|]. apply reverse_Permutation. Qed.

(** ** Decoding *)

Definition jfield (k : string) (j : JSON) : option JSON :=
  match j with
  | JObject fs => snd <$> list_find (λ kv, kv.1 = k) fs ≫= λ ikv, Some ikv.2
  | _ => None
  end.
Definition jstring (j : option JSON) : string :=
  match j with Some (JString s) => s | _ => "" end.
Definition jarray (j : option JSON) : list JSON :=
  match j with Some (JArray l) => l | _ => [] end.

Definition sim_resource (j : JSON) : AppliedManifestResourceMeta :=
  let f k := jstring (jfield k j) in
  MkResource (f "group") (f "version") (f "resource") (f "name") (f "namespace") (f "uid").

Definition sim_FromUnstructured (o : Object) : result AppliedManifestWork :=
  match struct_of o with
  | SUnstructured c =>
      let c := JObject c in
      GOk (MkAppliedManifestWork (GetName o) (GetUID o)
        (jstring (jfield "spec" c ≫= jfield "manifestWorkName"))
        (sim_resource <$> jarray (jfield "status" c ≫= jfield "appliedResources")))
  | STyped _ => GErr (ErrLib false "not unstructured")
  end.

(** An unstructured object with a kind, a namespace and a name, and nothing else. *)
Definition sim_object (gvk : GroupVersionKind) (ns n : string) : Object :=
  MkObject gvk ns n None None [] "u" "1" 1 None [] None (SUnstructured []).

(** ** Keys *)

(** The parts of a string between slashes. *)
Fixpoint split_slash (s : string) : list string :=
  match s with
  | "" => [""]
  | String c s =>
      if decide (c = "/"%char) then "" :: split_slash s
      else match split_slash s with p :: ps => String c p :: ps | [] => [String c ""] end
  end.

Definition sim_split (k : string) : result (string * string) :=
  match split_slash k with
  | [n] => GOk ("", n)
  | [ns; n] => GOk (ns, n)
  | _ => GErr (ErrLib false "unexpected key format")
  end.

Definition sim_join (ns n : string) : string := if decide (ns = "") then n else ns +:+ "/" +:+ n.

Lemma split_slash_lacks s : lacks "/" s → split_slash s = [s].
Proof.
  induction s as [|c s IH]; [done|]. rewrite lacks_cons. intros [Hc Hs]. simpl.
  rewrite decide_False by congruence. by rewrite IH.
Qed.

Lemma split_slash_app s t : lacks "/" s → split_slash (s +:+ String "/" t) = s :: split_slash t.
Proof.
  induction s as [|c s IH]; [done|]. rewrite lacks_cons, string_cons_app. intros [Hc Hs]. simpl.
  rewrite decide_False by congruence. by rewrite IH.
Qed.

Lemma sim_split_join ns n : lacks "/" ns → lacks "/" n → sim_split (sim_join ns n) = GOk (ns, n).
Proof.
  intros Hns Hn. unfold sim_split, sim_join. case_decide; subst; [by rewrite split_slash_lacks|].
  change ("/" +:+ n) with (String "/" n). by rewrite split_slash_app, split_slash_lacks.
Qed.

(** ** Discovery *)

Definition sim_table : Type := list (GroupVersionResource * GroupVersionKind).

Definition sim_KindFor (m : sim_table) (gvr : GroupVersionResource) : result GroupVersionKind :=
  match list_find (λ rk, rk.1 = gvr) m with
  | Some (_, (_, gvk)) => GOk gvk
  | None => GErr (ErrLib false "no matches for resource")
  end.
Definition sim_RESTMapping (m : sim_table) (group kind version : string) : result GroupVersionResource :=
  match list_find (λ rk, rk.2 = GVK group version kind) m with
  | Some (_, (gvr, _)) => GOk gvr
  | None => GErr (ErrLib false "no matches for kind")
  end.

#[export] Instance sim_kube : Kube := {|
  RESTMapper := sim_table;
  GroupResources := sim_table;
  Informer := N;
  Lister := N;
  workv1_Group := "work.open-cluster-management.io";
  workv1_Version := "v1";
  GroupVersion_String g v := if decide (g = "") then v else g +:+ "/" +:+ v;
  GroupVersionKind_String k := gvk_Group k +:+ "/" +:+ gvk_Version k +:+ ", Kind=" +:+ gvk_Kind k;
  MetaNamespaceKeyFunc o := GOk (sim_join (GetNamespace o) (GetName o));
  SplitMetaNamespaceKey := sim_split;
  NewDiscoveryRESTMapper t := t;
  KindFor := sim_KindFor;
  RESTMapping := sim_RESTMapping;
  NewGenericLister i _ := i;
  FromUnstructured := sim_FromUnstructured;
  ToUnstructured j := GOk j;
  ToUnstructuredObject o :=
    match struct_of o with SUnstructured c => GOk c | STyped fs => GOk fs end;
  NestedFieldNoCopy c k := GOk (jfield k (JObject c));
  SetControllerReference mw ws :=
    GOk (ws_OwnerReferences ws ++
         [MkOwner "work.open-cluster-management.io/v1" "ManifestWork" (mw_Name mw)])
|}.

#[export] Instance sim_laws : KubeLaws.
Proof.
  split; simpl.
  - done.
  - intros g v Hg. by rewrite decide_False.
  - done.
  - intros o k Hns Hn [= <-]. by apply sim_split_join.
Qed.
