(* ===== verification/DeepCopy.v ===== *)
(** * api/v1alpha1/zz_generated.deepcopy.go: deep copies on a heap

    The other files take an object for a value; this one shows why they may: the
    generated functions copy the structs of the API through a heap, on which Go's
    maps, slices and pointers are locations.  [DeepCopier] is what one type's deep
    copy promises to another's: an equal value that shares no location with
    anything that existed before.  The structs of the libraries promise it; the
    theorems derive it for the types of the program. *)

From S2P Require Export Kube.

(** ** The interface *)

Section copier.
Context {Cell : Type}.
Abbreviation Heap := (gmap N Cell).

(** [deep_copy x] is [x.DeepCopyInto(&out)] as a function of the struct [x]: the
    value written to [out].  [view] is what [x] denotes when its references are
    followed, [reach] the locations that takes, [valid] that none is dangling. *)
Class DeepCopier (T : Type) : Type := {
  View : Type;
  deep_copy : T → Heap → T * Heap;
  view : Heap → T → View;
  reach : Heap → T → gset N;
  valid : Heap → T → Prop
}.

(** The heap has only grown, and the copy is equal and lives in the new part. *)
Definition copied `{DeepCopier T} (h : Heap) (x y : T) (h' : Heap) : Prop :=
  h ⊆ h' ∧ valid h' y ∧ view h' y = view h x ∧ reach h' y ## dom h.

Class DeepCopierLaws (T : Type) `{DeepCopier T} : Prop := {
  copy_copied h x : valid h x → copied h x (deep_copy x h).1 (deep_copy x h).2;
  view_agree h1 h2 x : valid h1 x → (∀ l, l ∈ reach h1 x → h2 !! l = h1 !! l) →
    valid h2 x ∧ view h2 x = view h1 x ∧ reach h2 x = reach h1 x;
  valid_reach h x : valid h x → reach h x ⊆ dom h
}.

(** [new(T)] with its first assignment. *)
Definition alloc (c : Cell) (h : Heap) : N * Heap :=
  let l := fresh (dom h) in (l, <[l := c]> h).

(** ** Structs: values without references, and fields side by side *)

Definition value_copier {T} : DeepCopier T :=
  {| View := T; deep_copy x h := (x, h); view h x := x; reach h x := ∅; valid h x := True |}.

Lemma value_laws {T} : @DeepCopierLaws T value_copier.
Proof. split; [|done|set_solver]. intros h x _. split_and!; [done|done|done|]. cbn. set_solver. Qed.

Lemma fresh_dom (h : Heap) : h !! fresh (dom h) = None.
Proof. apply not_elem_of_dom, is_fresh. Qed.

Lemma alloc_subseteq c (h : Heap) : h ⊆ (alloc c h).2.
Proof. apply insert_subseteq, fresh_dom. Qed.

Section laws.
Context {T : Type} {C : DeepCopier T} {L : DeepCopierLaws T}.

(** What was valid stays as it is when the heap grows. *)
Lemma view_grows h h' x :
  valid h x → h ⊆ h' → valid h' x ∧ view h' x = view h x ∧ reach h' x = reach h x.
Proof.
  intros Hx Hh. apply view_agree; [done|]. intros l Hl.
  destruct (h !! l) as [c|] eqn:Hc; [by eapply lookup_weaken|].
  apply not_elem_of_dom in Hc. by apply valid_reach in Hl.
Qed.

Lemma copied_grows h x y h' h'' : copied h x y h' → h' ⊆ h'' → copied h x y h''.
Proof.
  intros (Hh & Hv & Hw & Hr) Hh'. destruct (view_grows h' h'' y Hv Hh') as (? & Hw' & Hr').
  split_and!; [by etrans|done|by rewrite Hw'|by rewrite Hr'].
Qed.

Lemma copied_later h0 h x y h' : valid h0 x → h0 ⊆ h → copied h x y h' → copied h0 x y h'.
Proof.
  intros Hx H0 (Hh & Hv & Hw & Hr). destruct (view_grows h0 h x Hx H0) as (_ & Hw' & _).
  split_and!; [by etrans|done|by rewrite Hw|]. apply subseteq_dom in H0. set_solver.
Qed.
End laws.

Section pair.
Context {T1 T2 : Type} {C1 : DeepCopier T1} {C2 : DeepCopier T2}.
Context {L1 : DeepCopierLaws T1} {L2 : DeepCopierLaws T2}.

Lemma copied_pair h (x1 y1 : T1) (x2 y2 : T2) h1 h2 :
  valid h x2 → copied h x1 y1 h1 → copied h1 x2 y2 h2 → copied h x1 y1 h2 ∧ copied h x2 y2 h2.
Proof.
  intros Hx Hc1 Hc2. split.
  - eapply copied_grows; [done|apply Hc2].
  - eapply copied_later; [done|apply Hc1|done].
Qed.
End pair.

(** ** Writes to a copy *)

(** What a copy reaches can be written at will without the original noticing, and
    the other way round. *)
Definition independent `{DeepCopier T} (h : Heap) (x y : T) (h' : Heap) : Prop :=
  (∀ h2, (∀ l, l ∉ reach h' y → h2 !! l = h' !! l) → view h2 x = view h x) ∧
  (∀ h2, (∀ l, l ∉ dom h → h2 !! l = h' !! l) → view h2 y = view h x).

Lemma copied_independent {T} {C : DeepCopier T} {L : DeepCopierLaws T} h (x y : T) h' : valid h x → copied h x y h' → independent h x y h'.
Proof.
  intros Hx (Hh & Hv & Hw & Hr). split.
  - intros h2 H2. apply view_agree; [done|]. intros l Hl. pose proof (valid_reach h x Hx l Hl) as Hd.
    rewrite H2 by set_solver. apply elem_of_dom in Hd as [c Hc]. rewrite Hc. by eapply lookup_weaken.
  - intros h2 H2. rewrite <- Hw. apply view_agree; [done|]. intros l Hl. apply H2. set_solver.
Qed.
End copier.

Arguments DeepCopier : clear implicits.
Arguments DeepCopierLaws : clear implicits.
Arguments View {Cell} T {_}.

(** ** The API structs on the heap

    The structs of the libraries are parameters: [TypeMeta] and [ListMeta] hold
    strings and numbers only, or promise a deep copy as the others do. *)

Module API.
Section api.
Context {LibCell TypeMeta ObjectMeta ListMeta RawExtension Time : Type}.

Record RawStatus : Type := MkRawStatus { RawExtension_of : RawExtension }.
Record StatusDetails : Type := MkStatusDetails {
  LastGeneration : Z; LastGenerationIsApplied : bool; LastCurrencyUpdateTime : Time
}.
Record WorkStatus : Type := MkWorkStatus {
  TypeMeta_of : TypeMeta; ObjectMeta_of : ObjectMeta; Spec : WorkStatusSpec;
  Status : RawStatus; Details : StatusDetails
}.
(** [Items] is nil, or a location of the array behind the slice. *)
Record WorkStatusList : Type := MkWorkStatusList {
  ListTypeMeta_of : TypeMeta; ListMeta_of : ListMeta; Items : option N
}.

(** What a location may hold: a part of a library struct, the target of a pointer
    to one of the program's structs, or the array of a slice. *)
Inductive Cell : Type :=
| CLib (c : LibCell)
| CRawStatus (x : RawStatus)
| CSourceRef (x : SourceRef)
| CStatusDetails (x : StatusDetails)
| CWorkStatus (x : WorkStatus)
| CWorkStatusList (x : WorkStatusList)
| CWorkStatusSpec (x : WorkStatusSpec)
| CItems (items : list WorkStatus).
Abbreviation Heap := (gmap N Cell).
Abbreviation copier := (DeepCopier Cell).
Abbreviation laws T := (DeepCopierLaws Cell T).

Context {C_ObjectMeta : copier ObjectMeta} {L_ObjectMeta : laws ObjectMeta _}.
Context {C_ListMeta : copier ListMeta} {L_ListMeta : laws ListMeta _}.
Context {C_RawExtension : copier RawExtension} {L_RawExtension : laws RawExtension _}.
Context {C_Time : copier Time} {L_Time : laws Time _}.

(** ** The generated functions

    [*out = *in] copies the references; the fields that have some are then
    overwritten with their deep copies. *)

Definition RawStatus_DeepCopyInto (inn : RawStatus) (h : Heap) : RawStatus * Heap :=
  let '(ext, h) := deep_copy (RawExtension_of inn) h in
  (MkRawStatus ext, h).

Definition SourceRef_DeepCopyInto (inn : SourceRef) (h : Heap) : SourceRef * Heap := (inn, h).

Definition StatusDetails_DeepCopyInto (inn : StatusDetails) (h : Heap) : StatusDetails * Heap :=
  let '(time, h) := deep_copy (LastCurrencyUpdateTime inn) h in
  (MkStatusDetails (LastGeneration inn) (LastGenerationIsApplied inn) time, h).

Definition WorkStatusSpec_DeepCopyInto (inn : WorkStatusSpec) (h : Heap) : WorkStatusSpec * Heap :=
  (MkWorkStatusSpec (ws_SourceRef inn), h).

Definition WorkStatus_DeepCopyInto (inn : WorkStatus) (h : Heap) : WorkStatus * Heap :=
  let '(meta, h) := deep_copy (ObjectMeta_of inn) h in
  let '(status, h) := RawStatus_DeepCopyInto (Status inn) h in
  let '(details, h) := StatusDetails_DeepCopyInto (Details inn) h in
  (MkWorkStatus (TypeMeta_of inn) meta (Spec inn) status details, h).

(** The loop over [Items]: each element is copied to the new array, which nothing
    else sees before the loop has ended. *)
Fixpoint copy_items (items : list WorkStatus) (h : Heap) : list WorkStatus * Heap :=
  match items with
  | [] => ([], h)
  | x :: items =>
      let '(y, h) := WorkStatus_DeepCopyInto x h in
      let '(ys, h) := copy_items items h in
      (y :: ys, h)
  end.

(** The array behind a slice. *)
Definition array (h : Heap) (l : N) : option (list WorkStatus) :=
  match h !! l with Some (CItems items) => Some items | _ => None end.

Definition WorkStatusList_DeepCopyInto (inn : WorkStatusList) (h : Heap) : WorkStatusList * Heap :=
  let '(meta, h) := deep_copy (ListMeta_of inn) h in
  match Items inn ≫= array h with
  | Some items =>
      let '(ys, h) := copy_items items h in
      let '(l, h) := alloc (CItems ys) h in
      (MkWorkStatusList (ListTypeMeta_of inn) meta (Some l), h)
  | None => (MkWorkStatusList (ListTypeMeta_of inn) meta (Items inn), h)
  end.

(** [in.DeepCopy()] on a pointer: nil for nil, else a pointer to a new struct. *)
Definition DeepCopy_with {T} (into : T → Heap → T * Heap) (cell : T → Cell) (target : Cell → option T)
    (inn : option N) (h : Heap) : outcome (option N * Heap) :=
  match inn with
  | None => Done (None, h)
  | Some l =>
      match h !! l ≫= target with
      | None => Panic PanicNilDeref
      | Some x =>
          let '(out, h) := alloc (cell x) h in
          let '(y, h) := into x h in
          Done (Some out, <[out := cell y]> h)
      end
  end.

Definition RawStatus_DeepCopy : option N → Heap → outcome (option N * Heap) :=
  DeepCopy_with RawStatus_DeepCopyInto CRawStatus (λ c, match c with CRawStatus x => Some x | _ => None end).
Definition SourceRef_DeepCopy : option N → Heap → outcome (option N * Heap) :=
  DeepCopy_with SourceRef_DeepCopyInto CSourceRef (λ c, match c with CSourceRef x => Some x | _ => None end).
Definition StatusDetails_DeepCopy : option N → Heap → outcome (option N * Heap) :=
  DeepCopy_with StatusDetails_DeepCopyInto CStatusDetails (λ c, match c with CStatusDetails x => Some x | _ => None end).
Definition WorkStatusSpec_DeepCopy : option N → Heap → outcome (option N * Heap) :=
  DeepCopy_with WorkStatusSpec_DeepCopyInto CWorkStatusSpec (λ c, match c with CWorkStatusSpec x => Some x | _ => None end).
Definition WorkStatus_target (c : Cell) : option WorkStatus := match c with CWorkStatus x => Some x | _ => None end.
Definition WorkStatus_DeepCopy : option N → Heap → outcome (option N * Heap) :=
  DeepCopy_with WorkStatus_DeepCopyInto CWorkStatus WorkStatus_target.
Definition WorkStatusList_target (c : Cell) : option WorkStatusList := match c with CWorkStatusList x => Some x | _ => None end.
Definition WorkStatusList_DeepCopy : option N → Heap → outcome (option N * Heap) :=
  DeepCopy_with WorkStatusList_DeepCopyInto CWorkStatusList WorkStatusList_target.

(** A [runtime.Object] interface value: nil, or a dynamic type with a pointer
    (which may itself be nil). *)
Inductive DynType : Type := TWorkStatus | TWorkStatusList.
Abbreviation Interface := (option (DynType * option N)).

Definition WorkStatus_DeepCopyObject (inn : option N) (h : Heap) : outcome (Interface * Heap) :=
  '(c, h) ← WorkStatus_DeepCopy inn h;
  match c with
  | Some _ => Done (Some (TWorkStatus, c), h)
  | None => Done (None, h)
  end.

Definition WorkStatusList_DeepCopyObject (inn : option N) (h : Heap) : outcome (Interface * Heap) :=
  '(c, h) ← WorkStatusList_DeepCopy inn h;
  match c with
  | Some _ => Done (Some (TWorkStatusList, c), h)
  | None => Done (None, h)
  end.

(** ** What the structs denote *)

#[export] Instance RawStatus_copier : copier RawStatus := {|
  View := View RawExtension;
  deep_copy := RawStatus_DeepCopyInto;
  view h x := view h (RawExtension_of x);
  reach h x := reach h (RawExtension_of x);
  valid h x := valid h (RawExtension_of x)
|}.

#[export] Instance StatusDetails_copier : copier StatusDetails := {|
  View := Z * bool * View Time;
  deep_copy := StatusDetails_DeepCopyInto;
  view h x := (LastGeneration x, LastGenerationIsApplied x, view h (LastCurrencyUpdateTime x));
  reach h x := reach h (LastCurrencyUpdateTime x);
  valid h x := valid h (LastCurrencyUpdateTime x)
|}.

#[export] Instance WorkStatus_copier : copier WorkStatus := {|
  View := TypeMeta * View ObjectMeta * WorkStatusSpec * View RawStatus * View StatusDetails;
  deep_copy := WorkStatus_DeepCopyInto;
  view h x := (TypeMeta_of x, view h (ObjectMeta_of x), Spec x, view h (Status x), view h (Details x));
  reach h x := reach h (ObjectMeta_of x) ∪ reach h (Status x) ∪ reach h (Details x);
  valid h x := valid h (ObjectMeta_of x) ∧ valid h (Status x) ∧ valid h (Details x)
|}.

#[export] Instance Items_copier : copier (list WorkStatus) := {|
  View := list (View WorkStatus);
  deep_copy := copy_items;
  view h xs := map (view h) xs;
  reach h xs := ⋃ (map (reach h) xs);
  valid h xs := Forall (valid h) xs
|}.

#[export] Instance WorkStatusList_copier : copier WorkStatusList := {|
  View := TypeMeta * View ListMeta * option (View (list WorkStatus));
  deep_copy := WorkStatusList_DeepCopyInto;
  view h x := (ListTypeMeta_of x, view h (ListMeta_of x), (view h) <$> (Items x ≫= array h));
  reach h x := reach h (ListMeta_of x) ∪
    match Items x with
    | Some l => {[l]} ∪ match array h l with Some items => reach h items | None => ∅ end
    | None => ∅
    end;
  valid h x := valid h (ListMeta_of x) ∧
    match Items x with
    | Some l => match array h l with Some items => valid h items | None => False end
    | None => True
    end
|}.

(** ** The promise, kept *)

#[export] Instance RawStatus_laws : laws RawStatus _.
Proof.
  split.
  - intros h x Hx. pose proof (copy_copied h (RawExtension_of x) Hx) as Hc. cbn. unfold RawStatus_DeepCopyInto.
    destruct (deep_copy (RawExtension_of x) h) as [ext h']. exact Hc.
  - intros h1 h2 x. apply (view_agree (T := RawExtension)).
  - intros h x. apply (valid_reach (T := RawExtension)).
Qed.

#[export] Instance StatusDetails_laws : laws StatusDetails _.
Proof.
  split.
  - intros h x Hx. pose proof (copy_copied h (LastCurrencyUpdateTime x) Hx) as Hc. cbn. unfold StatusDetails_DeepCopyInto.
    destruct (deep_copy (LastCurrencyUpdateTime x) h) as [t h'].
    destruct Hc as (? & ? & Hw & ?). split_and!; [done|done|cbn in *; by rewrite Hw|done].
  - intros h1 h2 x Hx Hl. destruct (view_agree h1 h2 (LastCurrencyUpdateTime x) Hx Hl) as (? & Hw & Hr).
    split_and!; [done|cbn; by rewrite Hw|done].
  - intros h x. apply (valid_reach (T := Time)).
Qed.

(** One more field: it is copied after the others. *)
Lemma copied_next {A B} {CA : copier A} {LA : laws A CA} {CB : copier B} {LB : laws B CB} h (a a' : A) (b : B) h1 :
  valid h b → copied h a a' h1 →
  copied h a a' (deep_copy b h1).2 ∧ copied h b (deep_copy b h1).1 (deep_copy b h1).2 ∧ h1 ⊆ (deep_copy b h1).2.
Proof.
  intros Hb Hc. destruct (view_grows h h1 b Hb) as (Hb1 & _ & _); [apply Hc|].
  pose proof (copy_copied h1 b Hb1) as Hc2.
  split_and!; [eapply copied_grows; [done|apply Hc2]|by eapply copied_later; [..|apply Hc|]|apply Hc2].
Qed.

#[export] Instance WorkStatus_laws : laws WorkStatus _.
Proof.
  split.
  - intros h x (Hm & Hs & Hd). cbn. unfold WorkStatus_DeepCopyInto.
    pose proof (copy_copied h (ObjectMeta_of x) Hm) as C1. destruct (deep_copy (ObjectMeta_of x) h) as [meta h1].
    destruct (copied_next h _ _ (Status x) h1 Hs C1) as (C1' & C2 & _). cbn [deep_copy RawStatus_copier] in C1', C2.
    destruct (RawStatus_DeepCopyInto (Status x) h1) as [st h2].
    destruct (copied_next h _ _ (Details x) h2 Hd C1') as (C1'' & C3 & H23).
    cbn [deep_copy StatusDetails_copier] in C1'', C3, H23.
    destruct (StatusDetails_DeepCopyInto (Details x) h2) as [sd h3].
    apply (copied_grows _ _ _ _ h3) in C2; [|done].
    destruct C1'' as (Hh & V1 & W1 & R1), C2 as (_ & V2 & W2 & R2), C3 as (_ & V3 & W3 & R3). cbn [fst snd] in *.
    split_and!; [done|done|cbn -[RawStatus_copier StatusDetails_copier]; by rewrite W1, W2, W3|].
    cbn -[RawStatus_copier StatusDetails_copier]. set_solver.
  - intros h1 h2 x (Hm & Hs & Hd) Hl. cbn -[RawStatus_copier StatusDetails_copier] in *.
    destruct (view_agree h1 h2 (ObjectMeta_of x) Hm) as (V1 & W1 & R1); [intros; apply Hl; set_solver|].
    destruct (view_agree h1 h2 (Status x) Hs) as (V2 & W2 & R2); [intros; apply Hl; set_solver|].
    destruct (view_agree h1 h2 (Details x) Hd) as (V3 & W3 & R3); [intros; apply Hl; set_solver|].
    by rewrite W1, W2, W3, R1, R2, R3.
  - intros h x (Hm & Hs & Hd). cbn -[RawStatus_copier StatusDetails_copier].
    apply valid_reach in Hm, Hs, Hd. set_solver.
Qed.

#[local] Opaque WorkStatus_copier.

Lemma items_valid h (xs : list WorkStatus) : valid h xs ↔ Forall (valid h) xs.
Proof. done. Qed.
Lemma items_view h (x : WorkStatus) (xs : list WorkStatus) : view h (x :: xs) = view h x :: view h xs.
Proof. done. Qed.
Lemma items_reach h (x : WorkStatus) (xs : list WorkStatus) : reach h (x :: xs) = reach h x ∪ reach h xs.
Proof. done. Qed.

Lemma items_agree h1 h2 (xs : list WorkStatus) :
  valid h1 xs → (∀ l, l ∈ reach h1 xs → h2 !! l = h1 !! l) →
  valid h2 xs ∧ view h2 xs = view h1 xs ∧ reach h2 xs = reach h1 xs.
Proof.
  induction xs as [|x xs IH]; [intros _ _; split_and!; [constructor|done|done]|].
  rewrite !items_valid, items_reach, !items_view, !items_reach.
  intros [Hx Hxs]%Forall_cons Hl.
  destruct (view_agree h1 h2 x Hx) as (V1 & -> & ->); [intros; apply Hl; set_solver|].
  destruct (IH Hxs) as (V2 & -> & ->); [intros; apply Hl; set_solver|]. split_and!; [by constructor|done|done].
Qed.

Lemma copy_items_copied h (xs : list WorkStatus) :
  valid h xs → copied h xs (copy_items xs h).1 (copy_items xs h).2.
Proof.
  revert h. induction xs as [|x xs IH]; intros h Hxs.
  { split_and!; [done|constructor|done|]. cbn. set_solver. }
  apply Forall_cons in Hxs as [Hx Hxs]. cbn [copy_items].
  pose proof (copy_copied h x Hx) as C1. change (deep_copy x h) with (WorkStatus_DeepCopyInto x h) in C1.
  destruct (WorkStatus_DeepCopyInto x h) as [y h1]. cbn [fst snd] in C1.
  assert (valid h1 xs ∧ view h1 xs = view h xs) as [Hxs1 Hw1].
  { destruct C1 as [Hh _]. clear IH. induction Hxs as [|z zs Hz _ [V W]]; [split; [constructor|done]|].
    destruct (view_grows h h1 z Hz Hh) as (Vz & Wz & _). rewrite !items_view, Wz, W. split; [apply items_valid; by constructor|done]. }
  specialize (IH h1 Hxs1). destruct (copy_items xs h1) as [ys h2]. cbn [fst snd] in *.
  destruct IH as (H2 & V2 & W2 & R2). assert (dom h ⊆ dom h1) as Hd by apply subseteq_dom, C1. apply (copied_grows _ _ _ _ h2) in C1; [|done].
  destruct C1 as (Hh & V1 & W1 & R1). split_and!; [done|apply items_valid; by constructor|by rewrite !items_view, W1, W2, Hw1|].
  rewrite items_reach. set_solver.
Qed.

#[export] Instance Items_laws : laws (list WorkStatus) _.
Proof.
  split; [intros h xs; apply copy_items_copied|intros h1 h2 xs; apply items_agree|].
  intros h xs. induction xs as [|x xs IH]; [cbn; set_solver|]. intros [Hx Hxs]%Forall_cons. rewrite items_reach.
  apply valid_reach in Hx. specialize (IH Hxs). set_solver.
Qed.
#[local] Opaque Items_copier.

Lemma array_lookup h h' l items : array h l = Some items → h' !! l = h !! l → array h' l = Some items.
Proof. unfold array. by intros Ha ->. Qed.

Lemma array_dom h l items : array h l = Some items → l ∈ dom h.
Proof. unfold array. intros Ha. apply elem_of_dom. by destruct (h !! l). Qed.

(** The slice of a list: nil, or a new array of copies. *)
Lemma WorkStatusList_copied h x :
  valid h x → copied h x (WorkStatusList_DeepCopyInto x h).1 (WorkStatusList_DeepCopyInto x h).2.
Proof.
  intros [Hm Hi]. unfold WorkStatusList_DeepCopyInto.
  pose proof (copy_copied h (ListMeta_of x) Hm) as C1. destruct (deep_copy (ListMeta_of x) h) as [meta h1].
  cbn [fst snd] in C1. destruct (Items x) as [l|] eqn:Ei; cbn [mbind option_bind].
  2:{ destruct C1 as (Hh & V & W & R). split_and!; [done|done|cbn; by rewrite Ei, W|cbn; set_solver]. }
  destruct (array h l) as [items|] eqn:Ea; [|done].
  assert (array h1 l = Some items) as Ea1.
  { eapply array_lookup; [done|]. destruct C1 as [Hh _]. pose proof (array_dom _ _ _ Ea) as [c Hc]%elem_of_dom.
    rewrite Hc. by eapply lookup_weaken. }
  rewrite Ea1. destruct (copied_next h _ _ items h1 Hi C1) as (C1' & C2 & H12).
  change (deep_copy items h1) with (copy_items items h1) in C1', C2, H12.
  destruct (copy_items items h1) as [ys h2]. cbn [fst snd] in *. unfold alloc. cbn [fst snd].
  set (out := fresh (dom h2)). set (h3 := <[out := CItems ys]> h2).
  assert (h2 ⊆ h3) as H23 by apply (alloc_subseteq (CItems ys) h2).
  assert (array h3 out = Some ys) as Eout by (unfold array, h3; by rewrite lookup_insert_eq).
  apply (copied_grows _ _ _ _ h3) in C1', C2; [|done..].
  assert (out ∉ dom h) as Hout.
  { intros Hd. apply (is_fresh (dom h2)). apply subseteq_dom in H12. destruct C1 as [Hh%subseteq_dom _].
    by apply H12, Hh. }
  destruct C1' as (Hh & V1 & W1 & R1), C2 as (_ & V2 & W2 & R2).
  split_and!; [done| | |].
  - split; cbn; [done|]. by rewrite Eout.
  - cbn. by rewrite Eout, Ei, W1; cbn; rewrite Ea; cbn; rewrite W2.
  - cbn. rewrite Eout. set_solver.
Qed.

#[export] Instance WorkStatusList_laws : laws WorkStatusList _.
Proof.
  split; [apply WorkStatusList_copied| |].
  - intros h1 h2 x [Hm Hi] Hl. cbn in Hl |- *.
    destruct (view_agree h1 h2 (ListMeta_of x) Hm) as (V1 & -> & ->); [intros; apply Hl; set_solver|].
    destruct (Items x) as [l|]; [|done]. cbn. destruct (array h1 l) as [items|] eqn:Ea; [|done].
    rewrite (array_lookup h1 h2 l items Ea) by (apply Hl; set_solver).
    destruct (view_agree h1 h2 items Hi) as (V2 & W2 & R2); [intros; apply Hl; set_solver|].
    rewrite R2. cbn. by rewrite W2.
  - intros h x [Hm Hi]. cbn. apply valid_reach in Hm. destruct (Items x) as [l|]; [|set_solver].
    destruct (array h l) as [items|] eqn:Ea; [|done]. apply array_dom in Ea. apply valid_reach in Hi. set_solver.
Qed.

(** ** Copies of pointers *)

Lemma DeepCopy_with_copied {T} {C : copier T} {L : laws T C} (cell : T → Cell) (target : Cell → option T) l x h :
  (∀ x, target (cell x) = Some x) → h !! l = Some (cell x) → valid h x →
  ∃ out h' y, DeepCopy_with deep_copy cell target (Some l) h = Done (Some out, h') ∧ (out ∉ dom h) ∧
    h' !! out = Some (cell y) ∧ copied h x y h' ∧ (out ∉ reach h' y).
Proof.
  intros Ht Hl Hx. unfold DeepCopy_with. rewrite Hl. cbn. rewrite Ht. unfold alloc.
  set (out := fresh (dom h)). set (h1 := <[out := cell x]> h).
  assert (h ⊆ h1) as H01 by apply (alloc_subseteq (cell x) h).
  destruct (view_grows h h1 x Hx H01) as (Hx1 & Hw1 & _).
  pose proof (copy_copied h1 x Hx1) as (H12 & V & W & R). destruct (deep_copy x h1) as [y h2]. cbn [fst snd] in *.
  assert (out ∉ reach h2 y) as Hout.
  { intros Ho. apply (R out Ho). unfold h1. rewrite dom_insert. set_solver. }
  assert (∀ l, l ∈ reach h2 y → <[out := cell y]> h2 !! l = h2 !! l) as Hag.
  { intros l' Hl'. apply lookup_insert_ne. by intros ->. }
  destruct (view_agree h2 (<[out := cell y]> h2) y V Hag) as (V' & W' & R').
  exists out, (<[out := cell y]> h2), y. split; [done|]. split; [apply is_fresh|]. split; [apply lookup_insert_eq|].
  split; [|by rewrite R']. split_and!; [|done|by rewrite W', W|].
  - apply map_subseteq_spec. intros l' c Hc. rewrite lookup_insert_ne; [|intros <-; assert (h !! out = None) by apply fresh_dom; congruence].
    eapply lookup_weaken; [|exact H12]. by eapply lookup_weaken.
  - rewrite R'. apply subseteq_dom in H01. set_solver.
Qed.

(** C25: [DeepCopy] of a pointer to a WorkStatus, or to a list of them, is nil for
    nil, and otherwise a new pointer to an equal value, with nothing of the heap
    changed; and the two are independent: whatever is written afterwards to what
    the copy refers to, the original denotes what it did, and whatever is written
    to what existed before, the copy denotes what the original did.
    [DeepCopyObject] of a nil pointer is the nil interface, not an interface that
    holds a nil pointer. *)
Theorem DeepCopy_independent h :
  (∀ l x, h !! l = Some (CWorkStatus x) → valid h x →
     ∃ out h' y, WorkStatus_DeepCopy (Some l) h = Done (Some out, h') ∧ (out ∉ dom h) ∧ h ⊆ h' ∧
       h' !! out = Some (CWorkStatus y) ∧ view h' y = view h x ∧ independent h x y h') ∧
  (∀ l x, h !! l = Some (CWorkStatusList x) → valid h x →
     ∃ out h' y, WorkStatusList_DeepCopy (Some l) h = Done (Some out, h') ∧ (out ∉ dom h) ∧ h ⊆ h' ∧
       h' !! out = Some (CWorkStatusList y) ∧ view h' y = view h x ∧ independent h x y h') ∧
  WorkStatus_DeepCopyObject None h = Done (None, h) ∧ WorkStatusList_DeepCopyObject None h = Done (None, h).
Proof.
  split_and!; [..|done|done]; intros l x Hl Hx.
  - destruct (DeepCopy_with_copied CWorkStatus WorkStatus_target l x h) as (out & h' & y & Hr & Ho & Hy & Hc & _); [done..|].
    exists out, h', y. split_and!; [done|done|apply Hc|done|apply Hc|by apply copied_independent].
  - destruct (DeepCopy_with_copied CWorkStatusList WorkStatusList_target l x h) as (out & h' & y & Hr & Ho & Hy & Hc & _); [done..|].
    exists out, h', y. split_and!; [done|done|apply Hc|done|apply Hc|by apply copied_independent].
Qed.
End api.
End API.

(** ** A concrete instance

    Metadata with one map (its labels) and a raw status of bytes, each behind a
    reference. *)

Section sim.
Context {Cell : Type}.

(** A nil-able reference to a map or an array without references of its own. *)
Definition ref_copy (r : option N) (h : gmap N Cell) : option N * gmap N Cell :=
  match r ≫= (h !!.) with
  | Some c => let '(l, h) := alloc c h in (Some l, h)
  | None => (r, h)
  end.

#[export] Instance ref_copier : DeepCopier Cell (option N) := {|
  View := option (option Cell);
  deep_copy := ref_copy;
  view h r := (h !!.) <$> r;
  reach h r := match r with Some l => {[l]} | None => ∅ end;
  valid h r := match r with Some l => is_Some (h !! l) | None => True end
|}.

#[export] Instance ref_laws : DeepCopierLaws Cell (option N) _.
Proof.
  split.
  - intros h [l|] Hx; cbn in *; [|by split_and!]. destruct Hx as [c Hc]. unfold ref_copy. cbn. rewrite Hc. cbn.
    split_and!; [apply alloc_subseteq|cbn; rewrite lookup_insert_eq; eauto|cbn; by rewrite lookup_insert_eq, Hc|].
    cbn. pose proof (is_fresh (dom h)). set_solver.
  - intros h1 h2 [l|] Hx Hl; cbn in *; [|done]. by rewrite Hl by set_solver.
  - intros h [l|] Hx; cbn in *; [|set_solver]. apply elem_of_dom in Hx. set_solver.
Qed.
End sim.

#[export] Instance Z_copier {Cell} : DeepCopier Cell Z := value_copier.
#[export] Instance Z_laws {Cell} : DeepCopierLaws Cell Z _ := value_laws.

#[local] Existing Instances API.RawStatus_copier API.StatusDetails_copier API.WorkStatus_copier
  API.Items_copier API.WorkStatusList_copier.

Abbreviation SimCell := (API.Cell (LibCell := list string) (TypeMeta := string) (ObjectMeta := option N)
  (ListMeta := Z) (RawExtension := option N) (Time := Z)).

Definition sim_status : API.WorkStatus (TypeMeta := string) (ObjectMeta := option N) (RawExtension := option N) (Time := Z) :=
  API.MkWorkStatus "WorkStatus" (Some 1%N) (MkWorkStatusSpec (MkSourceRef "apps" "v1" "deployments" "Deployment" "web" "default"))
    (API.MkRawStatus (Some 2%N)) (API.MkStatusDetails 1 true 0%Z).
Definition sim_status_list : API.WorkStatusList (TypeMeta := string) (ListMeta := Z) :=
  API.MkWorkStatusList "WorkStatusList" 7%Z (Some 4%N).
Definition sim_heap : gmap N SimCell := list_to_map [
  (1%N, API.CLib ["labels"]); (2%N, API.CLib ["raw"]); (3%N, API.CWorkStatus sim_status);
  (4%N, API.CItems [sim_status]); (5%N, API.CWorkStatusList sim_status_list)].

(** The copy of the pointer, of the labels and of the raw status are new locations
    with the contents of the old ones. *)
Example sim_copy :
  match API.WorkStatus_DeepCopy (Some 3%N) sim_heap with
  | Done (Some out, h) =>
      match h !! out with
      | Some (API.CWorkStatus (API.MkWorkStatus _ (Some l) spec (API.MkRawStatus (Some r)) details)) =>
          h !! l = Some (API.CLib ["labels"]) ∧ h !! r = Some (API.CLib ["raw"]) ∧
          NoDup [1%N; 2%N; 3%N; out; l; r] ∧ spec = API.Spec sim_status ∧ details = API.Details sim_status
      | _ => False
      end
  | _ => False
  end.
Proof. vm_compute. repeat split. repeat constructor; set_solver. Qed.

Lemma sim_status_valid : valid sim_heap sim_status.
Proof. repeat split; eexists; reflexivity. Qed.

Lemma DeepCopy_independent_witness :
  (∃ out h' y, API.WorkStatus_DeepCopy (Some 3%N) sim_heap = Done (Some out, h') ∧
     h' !! out = Some (API.CWorkStatus y) ∧ independent sim_heap sim_status y h') ∧
  (∃ out h' y, API.WorkStatusList_DeepCopy (Some 5%N) sim_heap = Done (Some out, h') ∧
     h' !! out = Some (API.CWorkStatusList y) ∧ independent sim_heap sim_status_list y h').
Proof.
  destruct (API.DeepCopy_independent (LibCell := list string) (TypeMeta := string) (ObjectMeta := option N)
    (ListMeta := Z) (RawExtension := option N) (Time := Z) sim_heap) as (H1 & H2 & _).
  split.
  - destruct (H1 3%N sim_status eq_refl sim_status_valid) as (out & h' & y & Hr & _ & _ & Hy & _ & Hi).
    exists out, h', y. split; [exact Hr|]. split; [exact Hy|exact Hi].
  - destruct (H2 5%N sim_status_list eq_refl) as (out & h' & y & Hr & _ & _ & Hy & _ & Hi).
    + split; [exact I|]. cbn. constructor; [exact sim_status_valid|constructor].
    + exists out, h', y. split; [exact Hr|]. split; [exact Hy|exact Hi].
Defined.
