(* ===== verification/SafeMaps.v ===== *)
(** * pkg/util/safemaps.go: the maps the goroutines of the agent share

    Each method holds the mutex of its map from its first to its last statement,
    so a call is one atomic step: the methods are functions on the table.  A
    [SafeMap] holds [interface{}] values; each map of the program holds values of
    one dynamic type, the one every [Set] on it is called with, which is the
    parameter [V]. *)

From S2P Require Export Kube.

(** ** SafeMap *)

Abbreviation SafeMap V := (gmap string V).

Definition NewSafeMap {V} : SafeMap V := ∅.
Definition SafeMap_Set {V} (s : SafeMap V) (key : string) (value : V) : SafeMap V := <[key := value]> s.
Definition SafeMap_Delete {V} (s : SafeMap V) (key : string) : SafeMap V := delete key s.
Definition SafeMap_Get {V} (s : SafeMap V) (key : string) : option V := s !! key.
Definition SafeMap_ListValues `{!GoRuntime} {V} (seed : N) (s : SafeMap V) : list V :=
  foldl (λ values kv, values ++ [kv.2]) [] (go_range seed s).

(** ** SafeUIDMap: a set of uids per key, each inner map holding only [true] *)

Abbreviation SafeUIDMap := (gmap string (gmap string bool)).

Definition NewSafeUIDMap : SafeUIDMap := ∅.

Definition AddUID (s : SafeUIDMap) (key uid : string) : SafeUIDMap :=
  let s := match s !! key with None => <[key := ∅]> s | Some _ => s end in
  alter (λ k, <[uid := true]> k) key s.

Definition DeleteUID (s : SafeUIDMap) (key uid : string) : SafeUIDMap :=
  match s !! key with
  | Some _ => alter (λ k, delete uid k) key s
  | None => s
  end.

Definition GetUIDCount (s : SafeUIDMap) (key : string) : nat :=
  match s !! key with
  | None => 0
  | Some k => size k
  end.

(** ** AppliedManifestInfo and Names *)

(** Both slices are made by [make] or by a literal in the code that stores an
    info, so none of them is nil and [reflect.DeepEqual] is equality of their
    elements (the [GVRs] are compared through their pointers). *)
Record AppliedManifestInfo : Type := MkInfo {
  ObjectUIDs : list string;
  GVRs : list GroupVersionResource
}.

#[export] Instance AppliedManifestInfo_eq_dec : EqDecision AppliedManifestInfo.
Proof. solve_decision. Defined.

(** The zero value of the struct. *)
Definition zero_info : AppliedManifestInfo := MkInfo [] [].

(** The slices are indexed together: every uid has its resource. *)
Definition info_wf (i : AppliedManifestInfo) : Prop := length (ObjectUIDs i) = length (GVRs i).
#[export] Instance info_wf_dec i : Decision (info_wf i).
Proof. unfold info_wf. apply _. Defined.

Record Names : Type := MkNames { ManifestName : string; WorkStatusName : string }.

Definition HasPrefixInMap `{!GoRuntime} (seed : N) (m : gomap string) (prefix : string) : bool :=
  existsb (λ kv, HasPrefix kv.1 prefix) (go_range seed (gomap_table m)).

(** ** Abstract view of a SafeUIDMap *)

Definition uids_of (s : SafeUIDMap) (key : string) : gset string := dom (default ∅ (s !! key)).

(** ** Lemmas *)

Section safemap.
Context {V : Type}.
Implicit Types s : SafeMap V.

Lemma SafeMap_Get_Set s k v : SafeMap_Get (SafeMap_Set s k v) k = Some v.
Proof. apply lookup_insert_eq. Qed.
Lemma SafeMap_Get_Delete s k : SafeMap_Get (SafeMap_Delete s k) k = None.
Proof. apply lookup_delete_eq. Qed.
End safemap.

Lemma uids_of_AddUID s k u k' :
  uids_of (AddUID s k u) k' = if decide (k = k') then {[u]} ∪ uids_of s k' else uids_of s k'.
Proof.
  unfold uids_of, AddUID. case_decide; subst.
  - destruct (s !! k') as [t|] eqn:E.
    + rewrite lookup_alter_eq, E. simpl. apply dom_insert_L.
    + rewrite lookup_alter_eq, lookup_insert_eq. simpl. by rewrite dom_insert_L, dom_empty_L.
  - rewrite lookup_alter_ne by done. destruct (s !! k); [done|]. by rewrite lookup_insert_ne.
Qed.

Lemma uids_of_DeleteUID s k u k' :
  uids_of (DeleteUID s k u) k' = if decide (k = k') then uids_of s k' ∖ {[u]} else uids_of s k'.
Proof.
  unfold uids_of, DeleteUID. case_decide; subst.
  - destruct (s !! k') as [t|] eqn:E; [|rewrite E; simpl; set_solver].
    rewrite lookup_alter_eq, E. simpl. apply dom_delete_L.
  - destruct (s !! k); [|done]. by rewrite lookup_alter_ne.
Qed.

Lemma GetUIDCount_uids s k : GetUIDCount s k = size (uids_of s k).
Proof.
  unfold GetUIDCount, uids_of. destruct (s !! k); simpl; by rewrite ?size_dom, ?dom_empty_L.
Qed.

(** [HasPrefixInMap] finds a key with the prefix exactly when the map has one,
    whatever the order of its loop; a nil map has none. *)
Lemma HasPrefixInMap_spec `{!GoRuntime} seed m prefix :
  HasPrefixInMap seed m prefix = true ↔
  ∃ k v, gomap_get m k = Some v ∧ HasPrefix k prefix = true.
Proof.
  unfold HasPrefixInMap. rewrite existsb_exists. split.
  - intros ([k v] & Hin & Hp). exists k, v. split; [|done].
    by apply (go_range_elem seed), list_elem_of_In.
  - intros (k & v & Hg & Hp). exists (k, v). split; [|done].
    by apply list_elem_of_In, go_range_elem.
Qed.


(** ** Properties *)

(** A [SafeUIDMap] implements a set of uids per key: seen as sets, adding and
    deleting a uid at a key change that key's set by that uid and no other set,
    the count is the number of elements, and a new map has only empty sets. *)
Lemma SafeUIDMap_refines_sets s key uid key' :
  uids_of NewSafeUIDMap key = ∅ ∧
  uids_of (AddUID s key uid) key' = (if decide (key = key') then {[uid]} ∪ uids_of s key' else uids_of s key') ∧
  uids_of (DeleteUID s key uid) key' = (if decide (key = key') then uids_of s key' ∖ {[uid]} else uids_of s key') ∧
  GetUIDCount s key = size (uids_of s key).
Proof.
  split; [unfold uids_of; simpl; apply dom_empty_L|].
  split; [apply uids_of_AddUID|]. split; [apply uids_of_DeleteUID|apply GetUIDCount_uids].
Qed.


#[export] Hint Resolve SafeMap_Get_Set SafeMap_Get_Delete : go.
