(* ===== verification/Keys.v ===== *)
(** * pkg/util/keys.go: the keys of the work queue and of the lister maps *)

From S2P Require Export SafeMaps SimKube.
From Stdlib Require Import Ascii.

(** [Key]: the pointer [DeletedObject] is an address in the heap of the process
    (nil: None).  Two keys are [==] in Go when the strings and the addresses are
    equal, which is the equality of this record; the work queue merges keys by
    it. *)
Record Key : Type := MkKey {
  GvkKey : string;
  NamespaceNameKey : string;
  DeletedObject : option N
}.

#[export] Instance Key_eq_dec : EqDecision Key.
Proof. solve_decision. Defined.

Section keys.
Context {K : Kube}.

Definition KeyForGroupVersionKindNamespaceName (obj : AnyValue) : outcome (result Key) :=
  rObj ← as_object obj;
  let gvk := GroupVersionKind_of rObj in
  match MetaNamespaceKeyFunc rObj with
  | GErr err => Done (GErr err)
  | GOk namespaceName =>
      Done (GOk (MkKey (GroupVersion_String (gvk_Group gvk) (gvk_Version gvk) +:+ "/" +:+ gvk_Kind gvk)
                       namespaceName None))
  end.

Definition KeyForGroupVersionKind (group version kind : string) : string :=
  if decide (group = "") then version +:+ "/" +:+ kind
  else group +:+ "/" +:+ version +:+ "/" +:+ kind.

Definition GenerateObjectInfoString (obj : Object) : string :=
  let group := gvk_Group (GroupVersionKind_of obj) in
  let kind := ToLower (gvk_Kind (GroupVersionKind_of obj)) in
  let prefix := if decide (group ≠ "") then kind +:+ "." +:+ group else kind in
  "[" +:+ GetNamespace obj +:+ "] " +:+ prefix +:+ "/" +:+ GetName obj.

(** ** Lemmas *)

(** An API name: no slash in it. *)
Definition api_name (s : string) : Prop := lacks "/" s.


Lemma KeyForGroupVersionKind_String `{!KubeLaws} group version kind :
  GroupVersion_String group version +:+ "/" +:+ kind = KeyForGroupVersionKind group version kind.
Proof.
  unfold KeyForGroupVersionKind. case_decide as Hg; [subst; by rewrite GroupVersion_String_core|].
  rewrite GroupVersion_String_group by done.
  by rewrite string_app_assoc.
Qed.

(** ** Properties *)

(** C39: the key an event handler computes for an object indexes the lister maps
    the way [startInformer] does: its [GvkKey] is [KeyForGroupVersionKind] of the
    kind of the object, it carries no deleted object, and the namespace and name
    it was made from can be read back. *)
Theorem handler_key_correct `{!KubeLaws} obj key :
  lacks "/" (GetNamespace obj) → lacks "/" (GetName obj) →
  KeyForGroupVersionKindNamespaceName (VObject obj) = Done (GOk key) →
  GvkKey key = KeyForGroupVersionKind (gvk_Group (GroupVersionKind_of obj))
                 (gvk_Version (GroupVersionKind_of obj)) (gvk_Kind (GroupVersionKind_of obj)) ∧
  DeletedObject key = None ∧
  SplitMetaNamespaceKey (NamespaceNameKey key) = GOk (GetNamespace obj, GetName obj).
Proof.
  intros Hns Hn. unfold KeyForGroupVersionKindNamespaceName. simpl.
  destruct (MetaNamespaceKeyFunc obj) as [k|e] eqn:E; simpl; intros Hkey; simplify_eq/=.
  split; [apply KeyForGroupVersionKind_String|]. split; [done|]. by apply SplitMetaNamespaceKey_spec.
Qed.

(** Two kinds have the same key only when they are equal, given that versions
    and kinds hold no slash and groups neither: no two kinds share an informer. *)
Lemma KeyForGroupVersionKind_injective g v k g' v' k' :
  api_name g → api_name v → api_name k → api_name g' → api_name v' → api_name k' →
  KeyForGroupVersionKind g v k = KeyForGroupVersionKind g' v' k' →
  g = g' ∧ v = v' ∧ k = k'.
Proof.
  unfold api_name. intros Hg Hv Hk Hg' Hv' Hk'. unfold KeyForGroupVersionKind.
  assert (∀ t, "/" +:+ t = String "/" t) as Hs by done. rewrite !Hs.
  case_decide; case_decide; subst; intros Heq.
  - apply split_inj in Heq as [-> ->]; auto.
  - apply split_inj in Heq as [_ Heq]; [|done..]. by apply lacks_ne in Heq.
  - apply split_inj in Heq as [_ Heq]; [|done..]. symmetry in Heq. by apply lacks_ne in Heq.
  - apply split_inj in Heq as [-> Heq]; [|done..]. by apply split_inj in Heq as [-> ->].
Qed.
End keys.

(** ** Witnesses *)

Lemma handler_key_correct_witness :
  ∃ key, KeyForGroupVersionKindNamespaceName (VObject (sim_object (GVK "apps" "v1" "Deployment") "default" "web"))
         = Done (GOk key) ∧
    GvkKey key = KeyForGroupVersionKind "apps" "v1" "Deployment" ∧ DeletedObject key = None ∧
    SplitMetaNamespaceKey (NamespaceNameKey key) = GOk ("default", "web").
Proof.
  eexists. split; [reflexivity|].
  apply (handler_key_correct (sim_object (GVK "apps" "v1" "Deployment") "default" "web"));
    try reflexivity; by apply (bool_decide_unpack _).
Defined.

Lemma KeyForGroupVersionKind_injective_witness :
  "" = "" ∧ "v1" = "v1" ∧ "Pod" = "Pod".
Proof.
  apply (KeyForGroupVersionKind_injective "" "v1" "Pod" "" "v1" "Pod");
    try reflexivity; by apply (bool_decide_unpack _).
Defined.
