(* ===== verification/Utils.v ===== *)
(** * pkg/util/utils.go: manifest differences and work status names *)

From S2P Require Export Keys SimKube.
From Stdlib Require Import Ascii.

(** ** Definitions *)

(** [info.ObjectUIDs = append(info.ObjectUIDs, uid); info.GVRs = append(info.GVRs, gvr)] *)
Definition info_append (i : AppliedManifestInfo) (uid : string) (gvr : GroupVersionResource) : AppliedManifestInfo :=
  MkInfo (ObjectUIDs i ++ [uid]) (GVRs i ++ [gvr]).

Section utils.
Context {RT : GoRuntime} {K : Kube}.

(** [for i, val := range uids { m[val] = gvrs[i] }] from an empty map. *)
Definition uid_map (uids : list string) (gvrs : list GroupVersionResource)
    : outcome (gmap string GroupVersionResource) :=
  foldi (λ m i val, g ← index gvrs i; Done (<[val := g]> m)) 0 uids ∅.

(** The body of the loop over [mapBase]: a uid that is no longer there is
    removed, one that is still there is taken out of [mapUpdated]. *)
Definition removed_step (acc : AppliedManifestInfo * gmap string GroupVersionResource)
    (kv : string * GroupVersionResource) : AppliedManifestInfo * gmap string GroupVersionResource :=
  let '(removed, mapUpdated) := acc in
  match mapUpdated !! kv.1 with
  | None => (info_append removed kv.1 kv.2, mapUpdated)
  | Some _ => (removed, delete kv.1 mapUpdated)
  end.

Definition GetAddedRemovedInfo (seed_base seed_updated : N) (base updated : AppliedManifestInfo)
    : outcome (AppliedManifestInfo * AppliedManifestInfo) :=
  let baseUIDs := ObjectUIDs base in
  let updatedUIDs := ObjectUIDs updated in
  if decide (length baseUIDs = 0) then Done (updated, zero_info)
  else if decide (length updatedUIDs = 0) then Done (zero_info, base)
  else
    mapBase ← uid_map baseUIDs (GVRs base);
    mapUpdated ← uid_map updatedUIDs (GVRs updated);
    let '(removed, mapUpdated) := foldl removed_step (zero_info, mapUpdated) (go_range seed_base mapBase) in
    let added := foldl (λ added kv, info_append added kv.1 kv.2) zero_info (go_range seed_updated mapUpdated) in
    Done (added, removed).

Definition truncateString (s : string) (maxLen : Z) : outcome string :=
  if decide (Z.of_nat (String.length s) > maxLen)%Z then slice_to s maxLen else Done s.

Definition BuildWorkstatusName (aw : AppliedManifestWork) (obj : Object) : outcome string :=
  let gvk := GroupVersionKind_of obj in
  let name :=
    amw_UID aw +:+ "-" +:+
    ToLower (ReplaceAll (GroupVersion_String (gvk_Group gvk) (gvk_Version gvk)) "/"%char "") +:+ "-" +:+
    ToLower (gvk_Kind gvk) +:+ "-" +:+
    GetNamespace obj +:+ "-" +:+
    GetName obj in
  truncateString name 253.

Definition IsListerNotFound (err : error) : bool :=
  Contains (Error err) "could not get lister for key".

(** ** Lemmas on the difference of two infos *)

(** The entries of an info, uid and resource. *)
Definition entries (i : AppliedManifestInfo) : list (string * GroupVersionResource) :=
  zip (ObjectUIDs i) (GVRs i).

Lemma uid_map_entries i :
  info_wf i → uid_map (ObjectUIDs i) (GVRs i) = Done (list_to_map (reverse (entries i))).
Proof.
  intros Hwf. etrans; [exact (foldi_index (λ m u g, <[u := g]> m) [] _ _ ∅ Hwf)|].
  f_equal. etrans; [exact (foldl_insert_list_to_map (entries i) ∅)|]. apply (right_id_L ∅ (∪)).
Qed.

Lemma entries_uids i : info_wf i → (entries i).*1 = ObjectUIDs i.
Proof. intros H. apply fst_zip. unfold info_wf in H. lia. Qed.

Lemma foldl_info_append l i :
  foldl (λ i kv, info_append i kv.1 kv.2) i l = MkInfo (ObjectUIDs i ++ l.*1) (GVRs i ++ l.*2).
Proof.
  revert i. induction l as [|kv l IH]; intros i; simpl; [by rewrite !app_nil_r; destruct i|].
  rewrite IH. simpl. by rewrite <- !app_assoc.
Qed.

(** The loop over [mapBase]: what it appends, and what it leaves in [mapUpdated]. *)
Lemma removed_step_removed (m0 : gmap string GroupVersionResource) l removed m :
  NoDup l.*1 → (∀ kv, kv ∈ l → m !! kv.1 = m0 !! kv.1) →
  (foldl removed_step (removed, m) l).1 =
  foldl (λ i kv, info_append i kv.1 kv.2) removed (filter (λ kv, m0 !! kv.1 = None) l).
Proof.
  revert removed m. induction l as [|[k g] l IH]; intros removed m Hnd Hm; [done|].
  apply NoDup_cons in Hnd as [Hk Hnd]. simpl. rewrite filter_cons. simpl.
  pose proof (Hm (k, g) ltac:(left)) as Hkm. simpl in Hkm. rewrite <- Hkm.
  destruct (m !! k) as [g'|] eqn:E; simpl; rewrite IH; try done.
  - intros [k' g''] Hin. simpl. rewrite lookup_delete_ne.
    + apply (Hm (k', g'')). by right.
    + intros ->. apply Hk, (list_elem_of_fmap_2 fst _ _ Hin).
  - intros kv Hin. apply Hm. by right.
Qed.

Lemma removed_step_left l removed (m : gmap string GroupVersionResource) :
  (foldl removed_step (removed, m) l).2 = filter (λ kv, kv.1 ∉ l.*1) m.
Proof.
  revert removed m. induction l as [|[k g] l IH]; intros removed m; simpl.
  { symmetry. apply map_filter_id. intros ? ? _. apply not_elem_of_nil. }
  destruct (m !! k) as [g'|] eqn:E; rewrite IH; apply map_eq; intros k';
    apply option_eq; intros v; rewrite !map_lookup_filter_Some; simpl; rewrite not_elem_of_cons.
  - rewrite lookup_delete_Some. naive_solver.
  - naive_solver.
Qed.

(** The difference, computed on the two maps. *)
Lemma GetAddedRemovedInfo_maps s1 s2 base updated :
  info_wf base → info_wf updated → ObjectUIDs base ≠ [] → ObjectUIDs updated ≠ [] →
  let mb : gmap string GroupVersionResource := list_to_map (reverse (entries base)) in
  let mu : gmap string GroupVersionResource := list_to_map (reverse (entries updated)) in
  let gone := filter (λ kv, mu !! kv.1 = None) (go_range s1 mb) in
  let new := go_range s2 (filter (λ kv, kv.1 ∉ (go_range s1 mb).*1) mu) in
  GetAddedRemovedInfo s1 s2 base updated = Done (MkInfo new.*1 new.*2, MkInfo gone.*1 gone.*2).
Proof.
  intros Hb Hu Hbn Hun mb mu gone new. unfold GetAddedRemovedInfo.
  nonempty.
  rewrite !uid_map_entries by done. simpl. fold mb mu.
  destruct (foldl removed_step _ _) as [removed left] eqn:E.
  pose proof (removed_step_removed mu (go_range s1 mb) zero_info mu (go_range_NoDup _ _) ltac:(done)) as Hr.
  pose proof (removed_step_left (go_range s1 mb) zero_info mu) as Hl.
  rewrite E in Hr, Hl. simpl in Hr, Hl. subst.
  by rewrite !foldl_info_append.
Qed.

(** The map built from an info. *)
Definition info_map (i : AppliedManifestInfo) : gmap string GroupVersionResource :=
  list_to_map (reverse (entries i)).

Lemma info_map_is_Some i u : info_wf i → is_Some (info_map i !! u) ↔ u ∈ ObjectUIDs i.
Proof.
  intros Hwf. unfold info_map. rewrite <- elem_of_dom, dom_list_to_map_L.
  rewrite elem_of_list_to_set, fmap_reverse, elem_of_reverse. by rewrite entries_uids.
Qed.

Lemma info_map_None i u : info_wf i → info_map i !! u = None ↔ u ∉ ObjectUIDs i.
Proof. intros Hwf. by rewrite eq_None_not_Some, info_map_is_Some. Qed.

Lemma info_map_Some i u g :
  info_wf i → NoDup (ObjectUIDs i) → info_map i !! u = Some g ↔ (u, g) ∈ entries i.
Proof.
  intros Hwf Hnd. unfold info_map. rewrite <- elem_of_list_to_map, elem_of_reverse; [done|].
  rewrite fmap_reverse, reverse_Permutation. by rewrite entries_uids.
Qed.

Lemma entries_NoDup i : info_wf i → NoDup (ObjectUIDs i) → NoDup (entries i).
Proof. intros Hwf Hnd. apply (NoDup_fmap_1 fst). by rewrite entries_uids. Qed.

Lemma range_uids seed i u : info_wf i → u ∈ (go_range seed (info_map i)).*1 ↔ u ∈ ObjectUIDs i.
Proof.
  intros Hwf. rewrite go_range_perm, <- info_map_is_Some by done.
  rewrite list_elem_of_fmap. split.
  - intros ([k g] & -> & Hin%elem_of_map_to_list). by exists g.
  - intros [g Hg]. exists (u, g). by rewrite elem_of_map_to_list.
Qed.

Lemma info_of_pairs (l : list (string * GroupVersionResource)) :
  info_wf (MkInfo l.*1 l.*2) ∧ entries (MkInfo l.*1 l.*2) = l.
Proof. unfold info_wf, entries. simpl. by rewrite !length_fmap, zip_fst_snd. Qed.

(** Membership in the two halves of the difference. *)
Lemma gone_elem s base updated u g :
  info_wf updated →
  (u, g) ∈ filter (λ kv, info_map updated !! kv.1 = None) (go_range s (info_map base)) ↔
  info_map base !! u = Some g ∧ u ∉ ObjectUIDs updated.
Proof.
  intros Hu. rewrite list_elem_of_filter, go_range_elem. simpl. rewrite info_map_None by done. tauto.
Qed.

Lemma new_elem s1 s2 base updated u g :
  info_wf base →
  (u, g) ∈ go_range s2 (filter (λ kv, kv.1 ∉ (go_range s1 (info_map base)).*1) (info_map updated)) ↔
  info_map updated !! u = Some g ∧ u ∉ ObjectUIDs base.
Proof.
  intros Hb. rewrite go_range_elem, map_lookup_filter_Some. simpl. by rewrite range_uids.
Qed.

Lemma elem_of_fst (l : list (string * GroupVersionResource)) u : u ∈ l.*1 ↔ ∃ g, (u, g) ∈ l.
Proof.
  rewrite list_elem_of_fmap. split; [intros ([k g] & -> & Hin); eauto|intros [g Hg]; by exists (u, g)].
Qed.

(** The uids of the difference, whatever the order of the two loops. *)
Lemma GetAddedRemovedInfo_uids s1 s2 base updated :
  info_wf base → info_wf updated →
  ∃ added removed,
    GetAddedRemovedInfo s1 s2 base updated = Done (added, removed) ∧
    info_wf added ∧ info_wf removed ∧
    (∀ u, u ∈ ObjectUIDs added ↔ u ∈ ObjectUIDs updated ∧ u ∉ ObjectUIDs base) ∧
    (∀ u, u ∈ ObjectUIDs removed ↔ u ∈ ObjectUIDs base ∧ u ∉ ObjectUIDs updated).
Proof.
  intros Hb Hu. destruct (decide (ObjectUIDs base = [])) as [Eb|Nb].
  { exists updated, zero_info. unfold GetAddedRemovedInfo. rewrite Eb. simpl. set_solver. }
  destruct (decide (ObjectUIDs updated = [])) as [Eu|Nu].
  { exists zero_info, base. unfold GetAddedRemovedInfo.
    nonempty. rewrite Eu. simpl. set_solver. }
  rewrite GetAddedRemovedInfo_maps by done. do 2 eexists. split; [done|].
  split; [apply info_of_pairs|]. split; [apply info_of_pairs|]. simpl. fold (info_map base) (info_map updated).
  split; intros u; rewrite elem_of_fst.
  - setoid_rewrite new_elem; [|done]. rewrite <- (info_map_is_Some updated) by done. unfold is_Some. naive_solver.
  - setoid_rewrite gone_elem; [|done]. rewrite <- (info_map_is_Some base) by done. unfold is_Some. naive_solver.
Qed.

(** What is removed has the resources it had. *)
Lemma GetAddedRemovedInfo_removed_gvrs s1 s2 base updated added removed g :
  info_wf base → info_wf updated → GetAddedRemovedInfo s1 s2 base updated = Done (added, removed) →
  g ∈ GVRs removed → g ∈ GVRs base.
Proof.
  intros Hb Hu. destruct (decide (ObjectUIDs base = [])) as [Eb|Nb].
  { unfold GetAddedRemovedInfo. rewrite Eb. simpl. by intros [= _ <-] ?%elem_of_nil. }
  destruct (decide (ObjectUIDs updated = [])) as [Eu|Nu].
  { unfold GetAddedRemovedInfo. nonempty. rewrite Eu. simpl. by intros [= _ <-]. }
  rewrite GetAddedRemovedInfo_maps by done. intros [= _ <-]. simpl. fold (info_map base) (info_map updated).
  intros ([u g'] & -> & [Hin _]%gone_elem)%list_elem_of_fmap; [|done].
  unfold info_map in Hin. apply elem_of_list_to_map_2 in Hin. rewrite elem_of_reverse in Hin.
  unfold entries in Hin. by apply elem_of_zip_r in Hin.
Qed.

Lemma GetAddedRemovedInfo_split s1 s2 base updated :
  info_wf base → info_wf updated → NoDup (ObjectUIDs base) → NoDup (ObjectUIDs updated) →
  ∃ added removed,
    GetAddedRemovedInfo s1 s2 base updated = Done (added, removed) ∧
    entries added ≡ₚ filter (λ kv, kv.1 ∉ ObjectUIDs base) (entries updated) ∧
    entries removed ≡ₚ filter (λ kv, kv.1 ∉ ObjectUIDs updated) (entries base).
Proof.
  intros Hb Hu Ndb Ndu. destruct (decide (ObjectUIDs base = [])) as [Eb|Nb].
  { exists updated, zero_info. unfold GetAddedRemovedInfo, entries. rewrite Eb. simpl.
    split; [done|]. split; [|done]. rewrite (list_filter_all _ (zip _ _)); [done|].
    intros ? _. apply not_elem_of_nil. }
  destruct (decide (ObjectUIDs updated = [])) as [Eu|Nu].
  { exists zero_info, base. unfold GetAddedRemovedInfo, entries.
    nonempty. rewrite Eu. simpl.
    split; [done|]. split; [done|]. rewrite (list_filter_all _ (zip _ _)); [done|].
    intros ? _. apply not_elem_of_nil. }
  rewrite GetAddedRemovedInfo_maps by done. do 2 eexists. split; [done|].
  rewrite !(proj2 (info_of_pairs _)). fold (info_map base) (info_map updated).
  split; (apply NoDup_Permutation;
    [ first [apply NoDup_filter|idtac]; apply (NoDup_fmap_1 fst), go_range_NoDup
    | by apply NoDup_filter, entries_NoDup
    | intros [u g]; rewrite ?new_elem, ?gone_elem, list_elem_of_filter, info_map_Some by done; simpl; tauto ]).
Qed.

(** The reference: one quadratic loop over the first info, with no maps. *)
Definition info_minus (i j : AppliedManifestInfo) : AppliedManifestInfo :=
  foldl (λ acc kv, if decide (kv.1 ∈ ObjectUIDs j) then acc else info_append acc kv.1 kv.2) zero_info (entries i).

Lemma foldl_minus j l acc :
  foldl (λ acc kv, if decide (kv.1 ∈ ObjectUIDs j) then acc else info_append acc kv.1 kv.2) acc l =
  foldl (λ acc kv, info_append acc kv.1 kv.2) acc (filter (λ kv, kv.1 ∉ ObjectUIDs j) l).
Proof.
  revert acc. induction l as [|kv l IH]; intros acc; [done|]. cbn [foldl]. rewrite filter_cons, IH.
  destruct (decide (kv.1 ∈ ObjectUIDs j)); [by rewrite decide_False by tauto|by rewrite decide_True].
Qed.

Lemma info_minus_entries i j :
  info_wf (info_minus i j) ∧ entries (info_minus i j) = filter (λ kv, kv.1 ∉ ObjectUIDs j) (entries i).
Proof. unfold info_minus. rewrite foldl_minus, foldl_info_append. apply info_of_pairs. Qed.

(** ** Properties *)

(** C24: [GetAddedRemovedInfo] ends without a panic on infos whose two slices are
    as long, with two such infos; whatever the iteration orders of its loops, its
    first result holds exactly the uids of the updated info that the base lacks,
    the second those of the base that the updated info lacks. *)
Theorem GetAddedRemovedInfo_difference s1 s2 base updated :
  info_wf base → info_wf updated →
  ∃ added removed,
    GetAddedRemovedInfo s1 s2 base updated = Done (added, removed) ∧
    info_wf added ∧ info_wf removed ∧
    (∀ u, u ∈ ObjectUIDs added ↔ u ∈ ObjectUIDs updated ∧ u ∉ ObjectUIDs base) ∧
    (∀ u, u ∈ ObjectUIDs removed ↔ u ∈ ObjectUIDs base ∧ u ∉ ObjectUIDs updated).
Proof. apply GetAddedRemovedInfo_uids. Qed.

(** C15: when no uid is repeated, [GetAddedRemovedInfo] is equivalent to the
    reference [info_minus], that scans one info for the uids the other lacks: for
    every two iteration orders of its loops over maps, both ends of the difference
    hold the entries of the reference, each uid with its own resource and once, in
    some order. *)
Theorem GetAddedRemovedInfo_reference s1 s2 base updated :
  info_wf base → info_wf updated → NoDup (ObjectUIDs base) → NoDup (ObjectUIDs updated) →
  ∃ added removed,
    GetAddedRemovedInfo s1 s2 base updated = Done (added, removed) ∧
    entries added ≡ₚ entries (info_minus updated base) ∧
    entries removed ≡ₚ entries (info_minus base updated).
Proof.
  rewrite !(proj2 (info_minus_entries _ _)). apply GetAddedRemovedInfo_split.
Qed.

Lemma truncateString_short s maxLen :
  (0 ≤ maxLen)%Z → ∃ t, truncateString s maxLen = Done t ∧
    (Z.of_nat (String.length t) ≤ maxLen)%Z ∧ String.prefix t s = true ∧
    ((Z.of_nat (String.length s) ≤ maxLen)%Z → t = s).
Proof.
  intros Hm. unfold truncateString, slice_to. case_decide as Hlen.
  - rewrite decide_True by lia. eexists. split; [done|].
    split; [rewrite substring_length; lia|]. split; [apply substring_prefix|lia].
  - exists s. split; [done|]. split; [lia|]. split; [apply prefix_refl|done].
Qed.

(** The string that is cut at 253 bytes: a prefix that depends on the manifest and
    the kind, the namespace and the name. *)
Definition name_prefix (aw : AppliedManifestWork) (gvk : GroupVersionKind) : string :=
  amw_UID aw +:+ "-" +:+
  ToLower (ReplaceAll (GroupVersion_String (gvk_Group gvk) (gvk_Version gvk)) "/"%char "") +:+ "-" +:+
  ToLower (gvk_Kind gvk) +:+ "-".
Definition full_name (aw : AppliedManifestWork) (obj : Object) : string :=
  name_prefix aw (GroupVersionKind_of obj) +:+ GetNamespace obj +:+ "-" +:+ GetName obj.

Lemma BuildWorkstatusName_full aw obj :
  BuildWorkstatusName aw obj = truncateString (full_name aw obj) 253.
Proof. unfold full_name, name_prefix. by rewrite !string_app_assoc. Qed.

Lemma BuildWorkstatusName_Done aw obj : ∃ name, BuildWorkstatusName aw obj = Done name.
Proof.
  rewrite BuildWorkstatusName_full.
  destruct (truncateString_short (full_name aw obj) 253) as (name & Hn & _); [lia|eauto].
Qed.

(** C38: computing the name of a WorkStatus never panics, and the name has at most
    the 253 bytes Kubernetes allows in an object name. *)
Theorem BuildWorkstatusName_bounded aw obj :
  ∃ name, BuildWorkstatusName aw obj = Done name ∧ String.length name ≤ 253.
Proof.
  rewrite BuildWorkstatusName_full.
  destruct (truncateString_short (full_name aw obj) 253) as (name & Hn & Hlen & _); [lia|].
  exists name. split; [exact Hn|lia].
Qed.

(** Below the 253 bytes, two objects of one kind and one manifest whose
    namespaces have no dash get the same name only when they have the same
    namespace and name. *)
Lemma BuildWorkstatusName_injective aw o1 o2 name :
  GroupVersionKind_of o1 = GroupVersionKind_of o2 →
  lacks "-"%char (GetNamespace o1) → lacks "-"%char (GetNamespace o2) →
  BuildWorkstatusName aw o1 = Done name → BuildWorkstatusName aw o2 = Done name →
  (String.length (full_name aw o1) ≤ 253) → (String.length (full_name aw o2) ≤ 253) →
  GetNamespace o1 = GetNamespace o2 ∧ GetName o1 = GetName o2.
Proof.
  rewrite !BuildWorkstatusName_full. intros Hk Hl1 Hl2 H1 H2 Hb1 Hb2.
  unfold truncateString in H1, H2. rewrite decide_False in H1 by lia. rewrite decide_False in H2 by lia.
  injection H1 as H1. injection H2 as H2. rewrite <- H1 in H2.
  unfold full_name in H2. rewrite Hk in H2. apply (inj (String.app _)) in H2.
  apply (split_inj "-"%char _ _ _ _ Hl2 Hl1) in H2 as [-> ->]. done.
Qed.

(** The name is not unique in general: the dash that separates namespace and
    name may also be inside them. *)
Lemma BuildWorkstatusName_collision aw o1 o2 a b c :
  GroupVersionKind_of o1 = GroupVersionKind_of o2 →
  GetNamespace o1 = a +:+ "-" +:+ b → GetName o1 = c →
  GetNamespace o2 = a → GetName o2 = b +:+ "-" +:+ c →
  BuildWorkstatusName aw o1 = BuildWorkstatusName aw o2.
Proof.
  intros Hk N1 M1 N2 M2. rewrite !BuildWorkstatusName_full. unfold full_name.
  by rewrite Hk, N1, M1, N2, M2, !string_app_assoc.
Qed.
End utils.

(** ** Witnesses *)

Definition ex_gvr (r : string) : GroupVersionResource := GVR "apps" "v1" r.
Definition ex_base : AppliedManifestInfo := MkInfo ["u1"; "u2"] [ex_gvr "deployments"; ex_gvr "replicasets"].
Definition ex_updated : AppliedManifestInfo := MkInfo ["u2"; "u3"] [ex_gvr "replicasets"; ex_gvr "daemonsets"].
Definition ex_object (ns n : string) : Object := sim_object (GVK "apps" "v1" "Deployment") ns n.
Definition ex_manifest : AppliedManifestWork := MkAppliedManifestWork "m" "uid" "mw" [].

Example GetAddedRemovedInfo_example :
  GetAddedRemovedInfo 0 1 ex_base ex_updated
  = Done (MkInfo ["u3"] [ex_gvr "daemonsets"], MkInfo ["u1"] [ex_gvr "deployments"]).
Proof. vm_compute. reflexivity. Qed.

Lemma GetAddedRemovedInfo_difference_witness :
  ∃ added removed, GetAddedRemovedInfo 0 1 ex_base ex_updated = Done (added, removed) ∧
    info_wf added ∧ info_wf removed ∧
    (∀ u, u ∈ ObjectUIDs added ↔ u ∈ ObjectUIDs ex_updated ∧ u ∉ ObjectUIDs ex_base) ∧
    (∀ u, u ∈ ObjectUIDs removed ↔ u ∈ ObjectUIDs ex_base ∧ u ∉ ObjectUIDs ex_updated).
Proof. apply (GetAddedRemovedInfo_difference 0 1 ex_base ex_updated); reflexivity. Defined.

Lemma GetAddedRemovedInfo_reference_witness :
  info_minus ex_updated ex_base = MkInfo ["u3"] [ex_gvr "daemonsets"] ∧
  ∃ added removed, GetAddedRemovedInfo 1 0 ex_base ex_updated = Done (added, removed) ∧
    entries added ≡ₚ entries (info_minus ex_updated ex_base) ∧
    entries removed ≡ₚ entries (info_minus ex_base ex_updated).
Proof.
  split; [vm_compute; reflexivity|].
  apply (GetAddedRemovedInfo_reference 1 0 ex_base ex_updated); try reflexivity;
    apply (bool_decide_unpack _); vm_compute; exact I.
Defined.

Lemma BuildWorkstatusName_injective_witness :
  GetNamespace (ex_object "ns" "a-b") = GetNamespace (ex_object "ns" "a-b") ∧
  GetName (ex_object "ns" "a-b") = GetName (ex_object "ns" "a-b").
Proof.
  apply (BuildWorkstatusName_injective ex_manifest _ _ "uid-appsv1-deployment-ns-a-b");
    try reflexivity; try (apply (bool_decide_unpack _); vm_compute; exact I).
Defined.

Lemma BuildWorkstatusName_collision_witness :
  ex_object "team-a" "web" ≠ ex_object "team" "a-web" ∧
  BuildWorkstatusName ex_manifest (ex_object "team-a" "web")
  = BuildWorkstatusName ex_manifest (ex_object "team" "a-web").
Proof.
  split; [discriminate|].
  by apply (BuildWorkstatusName_collision ex_manifest _ _ "team" "a" "web").
Defined.
