(* ===== verification/Unstructured.v ===== *)
(** * pkg/util/unstructured.go: inspection and copies of objects

    The functions of that file that read the shared lister map are in
    [Listers.v]. *)

From S2P Require Export Keys.

Definition CRDKind : string := "CustomResourceDefinition".
Definition CRDGroup : string := "apiextensions.k8s.io".
Definition CRDVersion : string := "v1".
Definition AppliedManifestWorkKind : string := "AppliedManifestWork".
Definition AppliedManifestWorkResource : string := "appliedmanifestworks".

Section unstructured.
Context {K : Kube}.

(** The type switch: a pointer that implements [runtime.Object], an
    [unstructured.Unstructured] value, or another type.  Its one caller tests the
    error for nil only; the text leaves out the rendering of the value. *)
Definition getObjectGVK (o : AnyValue) : result GroupVersionKind :=
  match o with
  | VObject obj => GOk (GroupVersionKind_of obj)
  | VUnstructured obj => GOk (GroupVersionKind_of obj)
  | VDeletedFinalStateUnknown _ _ | VOther => GErr (ErrF "object is of wrong type")
  end.

Definition matchesGVK (o : AnyValue) (group version kind : string) : bool :=
  match getObjectGVK o with
  | GErr _ => false
  | GOk gvk =>
      bool_decide (gvk_Group gvk = group) && bool_decide (gvk_Version gvk = version)
      && bool_decide (gvk_Kind gvk = kind)
  end.

Definition IsCRD (o : AnyValue) : bool := matchesGVK o CRDGroup CRDVersion CRDKind.

Definition IsAppliedManifestWork (o : AnyValue) : bool :=
  matchesGVK o workv1_Group workv1_Version AppliedManifestWorkKind.

(** Objects are values here, so [DeepCopyObject] is the identity and the setters
    build a new record. *)
Definition ZeroFields (obj : Object) : Object := {|
  GroupVersionKind_of := GroupVersionKind_of obj;
  GetNamespace := GetNamespace obj;
  GetName := GetName obj;
  GetLabels := GetLabels obj;
  GetAnnotations := gomap_delete (GetAnnotations obj) "kubectl.kubernetes.io/last-applied-configuration";
  GetOwnerReferences := GetOwnerReferences obj;
  GetUID := "";
  GetResourceVersion := "";
  GetGeneration := 0;
  GetCreationTimestamp := None;
  GetManagedFields := [];
  GetDeletionTimestamp := GetDeletionTimestamp obj;
  struct_of := struct_of obj
|}.

(** [reflect.ValueOf(dest).Elem().FieldByName(name)]: the position of the field
    of the struct, None for the invalid [Value].  The only field of
    [unstructured.Unstructured] is [Object]. *)
Definition FieldByName (s : GoStruct) (name : string) : option nat :=
  match s with
  | SUnstructured _ => None
  | STyped fields => fst <$> list_find (λ f, f.1 = name) fields
  end.

(** [if field.IsValid() { field.Set(reflect.Zero(field.Type())) }] *)
Definition zero_field (name : string) (s : GoStruct) : GoStruct :=
  match FieldByName s name, s with
  | Some i, STyped fields => STyped (alter (λ f, (f.1, JNull)) i fields)
  | _, _ => s
  end.

Definition with_struct (o : Object) (s : GoStruct) : Object :=
  MkObject (GroupVersionKind_of o) (GetNamespace o) (GetName o) (GetLabels o) (GetAnnotations o)
    (GetOwnerReferences o) (GetUID o) (GetResourceVersion o) (GetGeneration o)
    (GetCreationTimestamp o) (GetManagedFields o) (GetDeletionTimestamp o) s.

Definition CopyObjectMetaAndType (obj : Object) : Object :=
  let dest := ZeroFields obj in
  let dest := with_struct dest (zero_field "Spec" (struct_of dest)) in
  with_struct dest (zero_field "Status" (struct_of dest)).

Definition IsBeingDeleted (obj : Object) : bool := bool_decide (GetDeletionTimestamp obj ≠ None).

Definition GetObjectStatusAsBytes (obj : Object) : result string :=
  match struct_of obj with
  | STyped _ => GErr (ErrF "object is not a *unstructured.Unstructured")
  | SUnstructured content =>
      match NestedFieldNoCopy content "status" with
      | GErr err => GErr (ErrF ("error getting status: " +:+ Error err))
      | GOk None => GErr (ErrF "status field not found")
      | GOk (Some status) =>
          match ToUnstructured status with
          | GErr err => GErr (ErrF ("error converting status to unstructured: " +:+ Error err))
          | GOk rawStatus => GOk (json_Marshal rawStatus)
          end
      end
  end.

(** The content of the new [*unstructured.Unstructured]. *)
Definition ConvertRuntimeObjectToUnstructured (obj : Object) : result GoStruct :=
  match ToUnstructuredObject obj with
  | GErr err => GErr (ErrF ("error converting runtime.Object to Unstructured: " +:+ Error err))
  | GOk unstructuredMap => GOk (SUnstructured unstructuredMap)
  end.

(** A call through a nil mapper panics. *)
Definition GetGVR (mapper : option RESTMapper) (gvk : GroupVersionKind) : outcome (result GroupVersionResource) :=
  match mapper with
  | None => Panic PanicNilDeref
  | Some mapper =>
      match RESTMapping mapper (gvk_Group gvk) (gvk_Kind gvk) (gvk_Version gvk) with
      | GErr err =>
          Done (GErr (ErrW ("could not get REST mapping for GVK " +:+ GroupVersionKind_String gvk
                            +:+ ": " +:+ Error err) err))
      | GOk resource => Done (GOk resource)
      end
  end.

(** ** Lemmas *)

(** One field set to its zero value. *)
Definition null_field (name : string) (f : string * JSON) : string * JSON :=
  if decide (f.1 = name) then (f.1, JNull) else f.

Lemma null_field_name name f : (null_field name f).1 = f.1.
Proof. unfold null_field. by case_decide. Qed.

(** With distinct field names, the valid field is zeroed and no other. *)
Lemma zero_field_typed name fields :
  NoDup fields.*1 → zero_field name (STyped fields) = STyped (map (null_field name) fields).
Proof.
  intros Hnd. unfold zero_field, FieldByName.
  destruct (list_find (λ f, f.1 = name) fields) as [[i f]|] eqn:E; simpl; f_equal.
  - apply list_find_Some in E as (Hi & Hn & _). apply list_eq. intros j.
    change (map (null_field name) fields) with (null_field name <$> fields). rewrite list_lookup_fmap.
    destruct (decide (i = j)) as [->|Hne].
    + rewrite list_lookup_alter_eq, Hi. simpl. unfold null_field. by rewrite decide_True.
    + rewrite list_lookup_alter_ne by done. destruct (fields !! j) as [g|] eqn:Hj; [|done]. simpl.
      unfold null_field. rewrite decide_False; [done|]. intros Hg. apply Hne.
      eapply (NoDup_lookup _ i j name Hnd); rewrite list_lookup_fmap; [by rewrite Hi, <- Hn|by rewrite Hj, <- Hg].
  - apply list_find_None in E. induction E as [|f fs Hf _ IH]; [done|]. simpl.
    apply NoDup_cons in Hnd as [_ Hnd]. rewrite <- IH by done. unfold null_field. by rewrite decide_False.
Qed.

(** ** Properties *)

(** On a typed object the copy made for a deletion has [Spec] and [Status]
    zeroed and its other fields as they were. *)
Lemma CopyObjectMetaAndType_typed obj fields :
  struct_of obj = STyped fields → NoDup fields.*1 →
  struct_of (CopyObjectMetaAndType obj)
  = STyped (map (λ f, if decide (f.1 = "Spec" ∨ f.1 = "Status") then (f.1, JNull) else f) fields).
Proof.
  intros Hs Hnd. unfold CopyObjectMetaAndType. simpl. rewrite Hs, zero_field_typed by done.
  rewrite zero_field_typed.
  - f_equal. rewrite map_map. apply map_ext. intros [n v]. unfold null_field. simpl.
    repeat case_decide; simplify_eq/=; naive_solver.
  - erewrite <- list_fmap_compose, list_fmap_ext; [exact Hnd|]. intros. simpl. apply null_field_name.
Qed.

(** On an unstructured object, which is what the informers of the agent
    deliver, the copy keeps the whole content: the reflection finds no field
    [Spec] or [Status] in [unstructured.Unstructured], so the status of the
    object can still be read from the copy. *)
Lemma CopyObjectMetaAndType_unstructured obj content :
  struct_of obj = SUnstructured content →
  struct_of (CopyObjectMetaAndType obj) = SUnstructured content ∧
  GetObjectStatusAsBytes (CopyObjectMetaAndType obj) = GetObjectStatusAsBytes obj.
Proof.
  intros Hs. assert (struct_of (CopyObjectMetaAndType obj) = SUnstructured content) as Hc.
  { unfold CopyObjectMetaAndType. simpl. by rewrite Hs. }
  split; [done|]. unfold GetObjectStatusAsBytes. by rewrite Hc, Hs.
Qed.
End unstructured.

(** ** Witnesses *)

Definition ex_deployment : Object :=
  MkObject (GVK "apps" "v1" "Deployment") "default" "web" None None [] "u" "7" 1 None [] None
    (SUnstructured [("spec", JObject [("replicas", JInt 2)]); ("status", JObject [("replicas", JInt 2)])]).
Definition ex_typed_pod : Object :=
  MkObject (GVK "" "v1" "Pod") "default" "p" None None [] "u" "7" 1 None [] None
    (STyped [("Spec", JObject []); ("Status", JBool true); ("Other", JInt 1)]).

Lemma CopyObjectMetaAndType_typed_witness :
  struct_of (CopyObjectMetaAndType ex_typed_pod) = STyped [("Spec", JNull); ("Status", JNull); ("Other", JInt 1)].
Proof.
  apply (CopyObjectMetaAndType_typed ex_typed_pod _ eq_refl).
  apply (bool_decide_unpack _). vm_compute. exact I.
Defined.

Lemma CopyObjectMetaAndType_unstructured_witness :
  struct_of (CopyObjectMetaAndType ex_deployment) = struct_of ex_deployment ∧
  GetObjectStatusAsBytes (CopyObjectMetaAndType ex_deployment) = GetObjectStatusAsBytes ex_deployment.
Proof. exact (CopyObjectMetaAndType_unstructured ex_deployment _ eq_refl). Defined.
