(* ===== verification/AgentState.v ===== *)
(** * The state of the agent process and its atomic actions

    [Agent] of pkg/agent/agent.go, the part of the Go runtime its code uses
    (channels, heap cells, goroutines), and the library calls with effects, which
    an environment answers. *)

From S2P Require Export Runtime Unstructured Utils.

(** The fields of [Agent] that are set once and only read. *)
Record AgentConfig : Type := MkAgentConfig { agentName : string; clusterName : string }.

(** A value on the work queue: an [interface{}] that should hold a [util.Key]. *)
Inductive QueueItem : Type :=
| QKey (key : Key)
| QOther (value : N).

#[export] Instance QueueItem_eq_dec : EqDecision QueueItem.
Proof. solve_decision. Defined.

(** A channel, by its identity; the program only makes and closes them. *)
Abbreviation Chan := N (only parsing).

Section ops.
Context {RT : GoRuntime} {K : Kube}.

(** What the [go] statements of the agent start. *)
Inductive Goroutine : Type :=
| GRun (workers : Z)                                             (* a.run(workers) *)
| GWorker                                                        (* wait.UntilWithContext(ctx, a.runWorker, ..) *)
| GStartInformers (gvrs : list GroupVersionResource) (uids : list string)
| GInformerRun (informer : Informer) (stopper : Chan).           (* informer.Run(stopper) *)

(** The fields of [Agent] that are a SafeMap, with the dynamic type of the values. *)
Inductive Field : Type → Type :=
| FListers : Field Lister
| FInformers : Field Informer
| FTracked : Field AppliedManifestInfo
| FStoppers : Field Chan.

(** Library calls that read or change something outside the process, or a data
    structure of the library ([result T]: the call returns a T and an error). *)
Inductive Call : Type → Type :=
(* which order the next range loop uses *)
| CSeed : Call N
(* client constructors *)
| CNewDynamicClient : Call (option error)
| CNewKubernetesClient : Call (option error)
| CNewHubClient : Call (option error)
(* restmapper.GetAPIGroupResources *)
| CGetAPIGroupResources : Call (result GroupResources)
(* factory.ForResource(gvr).Informer(), on the shared factory or on a new one *)
| CNewInformer (shared : bool) (gvr : GroupVersionResource) : Call Informer
| CAddEventHandler (informer : Informer) : Call unit
| CWaitForCacheSync (informer : Informer) : Call bool
(* lister.Get(name), lister.ByNamespace(namespace).Get(name) *)
| CListerGet (lister : Lister) (name : string) : Call (result Object)
| CListerNamespaceGet (lister : Lister) (namespace name : string) : Call (result Object)
(* hubClient: the objects passed by pointer come back as the server returns them *)
| CGetWorkStatus (namespace name : string) : Call (result WorkStatus)
| CGetManifestWork (namespace name : string) : Call (result ManifestWork)
| CCreateWorkStatus (ws : WorkStatus) : Call (result WorkStatus)
| CDeleteWorkStatus (ws : WorkStatus) : Call (option error)
| CPatchWorkStatus (ws : WorkStatus) (patch : string) : Call (result WorkStatus)
| CUpdateStatus (ws : WorkStatus) : Call (result WorkStatus)
(* workqueue; Get answers None when the queue is shut down *)
| CQueueAdd (item : QueueItem) : Call unit
| CQueueAddRateLimited (item : QueueItem) : Call unit
| CQueueForget (item : QueueItem) : Call unit
| CQueueDone (item : QueueItem) : Call unit
| CQueueGet : Call (option QueueItem)
| CQueueShutDown : Call unit
(* utilruntime.HandleError *)
| CHandleError (err : error) : Call unit
(* <-ctx.Done() *)
| CContextDone : Call unit
(* time.After(3 * time.Second) against errChan: the error received, None for the timeout *)
| CSelectErrOrTimeout : Call (option (option error)).

(** The atomic actions of the goroutines of the agent. *)
Inductive Op : Type → Type :=
| SMGet {V} (f : Field V) (key : string) : Op (option V)
| SMSet {V} (f : Field V) (key : string) (value : V) : Op unit
| SMDelete {V} (f : Field V) (key : string) : Op unit
| SMListValues {V} (f : Field V) (seed : N) : Op (list V)
| UIDAdd (key uid : string) : Op unit                (* a.objectsCount *)
| UIDDelete (key uid : string) : Op unit
| UIDCount (key : string) : Op nat
| MapperRead : Op (option RESTMapper)                (* a.restMapper; nil is None *)
| MapperWrite (m : option RESTMapper) : Op unit
| InitializedWrite : Op unit                         (* a.initializedTs = time.Now() *)
| ChanMake : Op Chan
| ChanClose (c : Chan) : Op unit
| CellNew (o : Object) : Op N                        (* the address of a new variable *)
| CellRead (addr : N) : Op Object
| GoStmt (g : Goroutine) : Op unit
| Lib {R} (c : Call R) : Op R.

Record Agent : Type := MkAgent {
  listers : SafeMap Lister;
  informers : SafeMap Informer;
  trackedAppliedManifests : SafeMap AppliedManifestInfo;
  objectsCount : SafeUIDMap;
  stoppers : SafeMap Chan;
  restMapper : option RESTMapper;
  initialized : bool
}.

(** The process: the agent, its channels (true: closed), its heap cells, the
    next free identity, the goroutines started and not yet scheduled, and the
    environment. *)
Record Process (E : Type) : Type := MkProcess {
  agent : Agent;
  chans : gmap N bool;
  cells : gmap N Object;
  next : N;
  spawned : list Goroutine;
  env : E
}.
Arguments MkProcess {E}.
Arguments agent {E} p.
Arguments chans {E} p.
Arguments cells {E} p.
Arguments next {E} p.
Arguments spawned {E} p.
Arguments env {E} p.

(** What answers the library calls. *)
Class Environment (E : Type) : Type := respond : ∀ {R}, Call R → E → R * E.

Definition get_field {V} (f : Field V) (a : Agent) : SafeMap V :=
  match f with
  | FListers => listers a
  | FInformers => informers a
  | FTracked => trackedAppliedManifests a
  | FStoppers => stoppers a
  end.

Definition set_field {V} (f : Field V) (a : Agent) : SafeMap V → Agent :=
  match f with
  | FListers => λ m, MkAgent m (informers a) (trackedAppliedManifests a) (objectsCount a) (stoppers a) (restMapper a) (initialized a)
  | FInformers => λ m, MkAgent (listers a) m (trackedAppliedManifests a) (objectsCount a) (stoppers a) (restMapper a) (initialized a)
  | FTracked => λ m, MkAgent (listers a) (informers a) m (objectsCount a) (stoppers a) (restMapper a) (initialized a)
  | FStoppers => λ m, MkAgent (listers a) (informers a) (trackedAppliedManifests a) (objectsCount a) m (restMapper a) (initialized a)
  end.

Definition set_objectsCount (a : Agent) (c : SafeUIDMap) : Agent :=
  MkAgent (listers a) (informers a) (trackedAppliedManifests a) c (stoppers a) (restMapper a) (initialized a).
Definition set_restMapper (a : Agent) (m : option RESTMapper) : Agent :=
  MkAgent (listers a) (informers a) (trackedAppliedManifests a) (objectsCount a) (stoppers a) m (initialized a).
Definition set_initialized (a : Agent) : Agent :=
  MkAgent (listers a) (informers a) (trackedAppliedManifests a) (objectsCount a) (stoppers a) (restMapper a) true.

Section exec.
Context {E : Type} `{!Environment E}.

Definition set_agent (p : Process E) (a : Agent) : Process E :=
  MkProcess a (chans p) (cells p) (next p) (spawned p) (env p).

(** The effect of one atomic action. *)
Definition exec (R : Type) (o : Op R) : Process E → outcome (R * Process E) :=
  match o in Op R return Process E → outcome (R * Process E) with
  | SMGet f key => λ p, Done (SafeMap_Get (get_field f (agent p)) key, p)
  | SMSet f key v => λ p, Done (tt, set_agent p (set_field f (agent p) (SafeMap_Set (get_field f (agent p)) key v)))
  | SMDelete f key => λ p, Done (tt, set_agent p (set_field f (agent p) (SafeMap_Delete (get_field f (agent p)) key)))
  | SMListValues f seed => λ p, Done (SafeMap_ListValues seed (get_field f (agent p)), p)
  | UIDAdd key uid => λ p, Done (tt, set_agent p (set_objectsCount (agent p) (AddUID (objectsCount (agent p)) key uid)))
  | UIDDelete key uid => λ p, Done (tt, set_agent p (set_objectsCount (agent p) (DeleteUID (objectsCount (agent p)) key uid)))
  | UIDCount key => λ p, Done (GetUIDCount (objectsCount (agent p)) key, p)
  | MapperRead => λ p, Done (restMapper (agent p), p)
  | MapperWrite m => λ p, Done (tt, set_agent p (set_restMapper (agent p) m))
  | InitializedWrite => λ p, Done (tt, set_agent p (set_initialized (agent p)))
  | ChanMake => λ p,
      Done (next p, MkProcess (agent p) (<[next p := false]> (chans p)) (cells p) (N.succ (next p)) (spawned p) (env p))
  | ChanClose c => λ p,
      match chans p !! c with
      | Some false => Done (tt, MkProcess (agent p) (<[c := true]> (chans p)) (cells p) (next p) (spawned p) (env p))
      | Some true => Panic PanicCloseClosed
      | None => Panic PanicNilDeref
      end
  | CellNew o => λ p,
      Done (next p, MkProcess (agent p) (chans p) (<[next p := o]> (cells p)) (N.succ (next p)) (spawned p) (env p))
  | CellRead a => λ p,
      match cells p !! a with
      | Some o => Done (o, p)
      | None => Panic PanicNilDeref
      end
  | GoStmt g => λ p, Done (tt, MkProcess (agent p) (chans p) (cells p) (next p) (spawned p ++ [g]) (env p))
  | Lib c => λ p,
      let '(r, e) := respond c (env p) in
      Done (r, MkProcess (agent p) (chans p) (cells p) (next p) (spawned p) e)
  end.
End exec.
End ops.

Arguments MkProcess {K E}.
Arguments agent {K E} p.
Arguments chans {K E} p.
Arguments cells {K E} p.
Arguments next {K E} p.
Arguments spawned {K E} p.
Arguments env {K E} p.
