(* ===== verification/SimEnv.v ===== *)
(** * A concrete environment

    A small simulation of what answers the library calls of the agent: discovery,
    informer caches, the hub's objects and the work queue.  It serves the closed
    examples, the interleavings of [Races.v] and the witnesses. *)

From S2P Require Export SimKube AgentState.
From Stdlib Require Import Ascii.

Record SimEnv : Type := MkSimEnv {
  se_seed : N;
  se_discovery : result sim_table;
  se_informers : list GroupVersionResource;    (* the informers made so far, newest first *)
  se_cache : gmap string Object;               (* objects by namespace/name, one store for all informers *)
  se_workstatuses : gmap (string * string) WorkStatus;    (* by namespace and name *)
  se_manifestworks : gmap (string * string) ManifestWork;
  se_failing : option error;                   (* the error every write to the hub gets *)
  se_queue : list QueueItem;
  se_calls : list (sigT (λ R, Call R))         (* the calls made so far, newest first *)
}.

Definition not_found : error := ErrLib true "not found".
Definition hub_key (ns n : string) : string := ns +:+ "/" +:+ n.

Definition se_log {R} (c : Call R) (e : SimEnv) : SimEnv :=
  MkSimEnv (N.succ (se_seed e)) (se_discovery e) (se_informers e) (se_cache e) (se_workstatuses e)
    (se_manifestworks e) (se_failing e) (se_queue e) (existT R c :: se_calls e).
Definition se_set_ws (m : gmap (string * string) WorkStatus) (e : SimEnv) : SimEnv :=
  MkSimEnv (se_seed e) (se_discovery e) (se_informers e) (se_cache e) m
    (se_manifestworks e) (se_failing e) (se_queue e) (se_calls e).
Definition se_set_queue (q : list QueueItem) (e : SimEnv) : SimEnv :=
  MkSimEnv (se_seed e) (se_discovery e) (se_informers e) (se_cache e) (se_workstatuses e)
    (se_manifestworks e) (se_failing e) q (se_calls e).
Definition se_new_informer (gvr : GroupVersionResource) (e : SimEnv) : SimEnv :=
  MkSimEnv (se_seed e) (se_discovery e) (gvr :: se_informers e) (se_cache e) (se_workstatuses e)
    (se_manifestworks e) (se_failing e) (se_queue e) (se_calls e).

Definition sim_lookup {Ix} `{Countable Ix} {A} (m : gmap Ix A) (k : Ix) : result A :=
  match m !! k with Some a => GOk a | None => GErr not_found end.

(** *** Writes to the hub

    A creation drops the status, an update of the status sets nothing else, and a
    merge patch is understood when it sets one label. *)

Definition sim_key (ws : WorkStatus) : string * string := (ws_Namespace ws, ws_Name ws).
Definition sim_with_status (ws : WorkStatus) (status : RawStatus) : WorkStatus :=
  MkWorkStatus (ws_Namespace ws) (ws_Name ws) (ws_ResourceVersion ws) (ws_Labels ws) (ws_OwnerReferences ws)
    (ws_Spec ws) status (ws_StatusDetails ws).
Definition sim_with_label (ws : WorkStatus) (k v : string) : WorkStatus :=
  MkWorkStatus (ws_Namespace ws) (ws_Name ws) (ws_ResourceVersion ws) (Some (<[k := v]> (gomap_table (ws_Labels ws))))
    (ws_OwnerReferences ws) (ws_Spec ws) (ws_Status ws) (ws_StatusDetails ws).

(** The parts of a string between double quotes. *)
Fixpoint split_quotes (s : string) : list string :=
  match s with
  | "" => [""]
  | String c s =>
      if decide (c = "034"%char) then "" :: split_quotes s
      else match split_quotes s with p :: ps => String c p :: ps | [] => [String c ""] end
  end.
Definition sim_patch (patch : string) : option (string * string) :=
  match split_quotes patch with
  | [a; b; c; d; e; k; f; v; g] =>
      if decide ([a; b; c; d; e; f; g] = ["{"; "metadata"; ":{"; "labels"; ":{"; ":"; "}}}"]) then Some (k, v) else None
  | _ => None
  end.

(** A write, unless writes fail. *)
Definition sim_write (r : result WorkStatus) (e : SimEnv) : result WorkStatus * SimEnv :=
  match se_failing e with
  | Some err => (GErr err, e)
  | None =>
      match r with
      | GOk ws => (GOk ws, se_set_ws (<[sim_key ws := ws]> (se_workstatuses e)) e)
      | GErr err => (GErr err, e)
      end
  end.
Definition sim_create (ws : WorkStatus) (e : SimEnv) : result WorkStatus :=
  match se_workstatuses e !! sim_key ws with
  | Some _ => GErr (ErrLib false "already exists")
  | None => GOk (sim_with_status ws (MkRawStatus None))
  end.
Definition sim_change (ws : WorkStatus) (f : WorkStatus → option WorkStatus) (e : SimEnv) : result WorkStatus :=
  match se_workstatuses e !! sim_key ws with
  | Some ws0 => match f ws0 with Some ws' => GOk ws' | None => GErr (ErrLib false "unsupported patch") end
  | None => GErr not_found
  end.

Definition sim_answer {R} (c : Call R) : SimEnv → R * SimEnv :=
  match c in Call R return SimEnv → R * SimEnv with
  | CSeed => λ e, (se_seed e, e)
  | CNewDynamicClient | CNewKubernetesClient | CNewHubClient => λ e, (None, e)
  | CGetAPIGroupResources => λ e, (se_discovery e, e)
  | CNewInformer _ gvr => λ e, (N.of_nat (length (se_informers e)), se_new_informer gvr e)
  | CAddEventHandler _ => λ e, (tt, e)
  | CWaitForCacheSync _ => λ e, (true, e)
  | CListerGet _ n => λ e, (sim_lookup (se_cache e) n, e)
  | CListerNamespaceGet _ ns n => λ e, (sim_lookup (se_cache e) (hub_key ns n), e)
  | CGetWorkStatus ns n => λ e, (sim_lookup (se_workstatuses e) (ns, n), e)
  | CGetManifestWork ns n => λ e, (sim_lookup (se_manifestworks e) (ns, n), e)
  | CCreateWorkStatus ws => λ e, sim_write (sim_create ws e) e
  | CDeleteWorkStatus ws => λ e,
      match se_failing e, se_workstatuses e !! sim_key ws with
      | Some err, _ => (Some err, e)
      | None, Some _ => (None, se_set_ws (delete (sim_key ws) (se_workstatuses e)) e)
      | None, None => (Some not_found, e)
      end
  | CPatchWorkStatus ws patch => λ e,
      sim_write (sim_change ws (λ ws0, '(k, v) ← sim_patch patch; Some (sim_with_label ws0 k v)) e) e
  | CUpdateStatus ws => λ e, sim_write (sim_change ws (λ ws0, Some (sim_with_status ws0 (ws_Status ws))) e) e
  | CQueueAdd i => λ e, (tt, if decide (i ∈ se_queue e) then e else se_set_queue (se_queue e ++ [i]) e)
  | CQueueAddRateLimited i => λ e, (tt, se_set_queue (se_queue e ++ [i]) e)
  | CQueueForget _ | CQueueDone _ | CHandleError _ => λ e, (tt, e)
  | CQueueGet => λ e,
      match se_queue e with
      | [] => (None, e)
      | i :: q => (Some i, se_set_queue q e)
      end
  | CQueueShutDown => λ e, (tt, se_set_queue [] e)
  | CContextDone => λ e, (tt, e)
  | CSelectErrOrTimeout => λ e, (None, e)
  end.

#[export] Instance sim_environment : Environment SimEnv := λ R c e, sim_answer c (se_log c e).

Definition sim_agent (d : sim_table) : Agent := MkAgent ∅ ∅ ∅ ∅ ∅ (Some d) false.

Definition sim_process (d : sim_table) (e : SimEnv) : Process SimEnv :=
  MkProcess (sim_agent d) ∅ ∅ 0 [] e.

(** ** A scenario

    Cluster [cluster1] runs a deployment that the manifest work [mw1] delivers,
    through the applied manifest work [amw1]; discovery knows both kinds. *)

Definition sc_config : AgentConfig := MkAgentConfig "status" "cluster1".

Definition sc_gvr : GroupVersionResource := GVR "apps" "v1" "deployments".
Definition sc_gvk : GroupVersionKind := GVK "apps" "v1" "Deployment".
Definition amw_gvk : GroupVersionKind := GVK workv1_Group workv1_Version AppliedManifestWorkKind.
Definition amw_gvr : GroupVersionResource := GVR workv1_Group workv1_Version AppliedManifestWorkResource.
Definition sc_table : sim_table := [(sc_gvr, sc_gvk); (amw_gvr, amw_gvk)].

(** A resource entry of the status of an applied manifest work. *)
Definition sc_entry (r : GroupVersionResource) (uid : string) : JSON :=
  JObject [("group", JString (gvr_Group r)); ("version", JString (gvr_Version r));
           ("resource", JString (gvr_Resource r)); ("uid", JString uid)].
Definition sc_amw (entries : list JSON) : Object :=
  MkObject amw_gvk "" "amw1" None None [] "amw-uid" "1" 1 None [] None
    (SUnstructured [("spec", JObject [("manifestWorkName", JString "mw1")]);
                    ("status", JObject [("appliedResources", JArray entries)])]).
Definition sc_deployment (labels : gomap string) : Object :=
  MkObject sc_gvk "default" "web" labels None
    [MkOwner (workv1_Group +:+ "/" +:+ workv1_Version) AppliedManifestWorkKind "amw1"]
    "dep-uid" "7" 1 None [] None
    (SUnstructured [("spec", JObject [("replicas", JInt 2)]); ("status", JObject [("readyReplicas", JInt 2)])]).
Definition sc_manifestwork : ManifestWork :=
  MkManifestWork "mw1" "cluster1" "mw-uid" (Some {["transport.kubestellar.io/originOwnerReferenceBindingKey" := "bp"]}).

Definition sc_env (amws objs : list Object) (mws : list ManifestWork) (wss : list WorkStatus)
    (failing : option error) (q : list QueueItem) : SimEnv :=
  MkSimEnv 0 (GOk sc_table) []
    (list_to_map (map (λ o, (sim_join (GetNamespace o) (GetName o), o)) (amws ++ objs)))
    (list_to_map (map (λ w, (sim_key w, w)) wss))
    (list_to_map (map (λ m, ((mw_Namespace m, mw_Name m), m)) mws))
    failing q [].

(** The agent with an informer and a lister for the kinds of [keys], as
    [startInformer] leaves them. *)
Definition sc_agent (keys : list string) : Agent :=
  MkAgent (list_to_map (zip keys [0; 1; 2]))%N (list_to_map (zip keys [0; 1; 2]))%N ∅
    ∅ (list_to_map (zip keys [0; 1; 2]))%N (Some sc_table) true.
Definition amw_key : string := "work.open-cluster-management.io/v1/AppliedManifestWork".
Definition sc_key : string := "apps/v1/Deployment".

Definition sc_process (e : SimEnv) : Process SimEnv :=
  MkProcess (sc_agent [amw_key; sc_key]) (list_to_map [(0, false); (1, false); (2, false)])%N ∅ 3 [] e.
