(* ===== verification/Listers.v ===== *)
(** * Lookups through the listers: parts of pkg/util/unstructured.go, and pkg/ocm/ocm.go *)

From S2P Require Export AgentState.

Section listers.
Context {RT : GoRuntime} {K : Kube}.
Abbreviation M := (prog Op).

(** ** pkg/util/unstructured.go: GetObjectFromKey, getObject *)

Definition getObject (lister : Lister) (namespace name : string) : M (result Object) :=
  if decide (namespace ≠ "") then act (Lib (CListerNamespaceGet lister namespace name))
  else act (Lib (CListerGet lister name)).

Definition GetObjectFromKey (key : Key) : M (result Object) :=
  pLister ← act (SMGet FListers (GvkKey key));
  match pLister with
  | None => mret (GErr (ErrF ("could not get lister for key: " +:+ GvkKey key)))
  | Some lister =>
      match SplitMetaNamespaceKey (NamespaceNameKey key) with
      | GErr err =>
          mret (GErr (ErrF ("invalid resource key: " +:+ NamespaceNameKey key +:+ " " +:+ Error err)))
      | GOk (namespace, name) => getObject lister namespace name
      end
  end.

(** ** pkg/ocm/ocm.go *)

(** The argument is an [*unstructured.Unstructured]. *)
Definition ToAppliedManifestWork (obj : Object) : result AppliedManifestWork :=
  match FromUnstructured obj with
  | GErr err => GErr err
  | GOk aWork => GOk aWork
  end.

(** [o.( *unstructured.Unstructured)] *)
Definition as_unstructured (o : Object) : outcome Object :=
  if is_unstructured o then Done o else Panic PanicTypeAssert.

Definition ListGVRs (aWork : AppliedManifestWork) : list GroupVersionResource :=
  foldl (λ gvrs r, gvrs ++ [GVR (ar_Group r) (ar_Version r) (ar_Resource r)]) [] (amw_AppliedResources aWork).

Definition GetTrackedObjectsUID (aWork : AppliedManifestWork) : list string :=
  foldl (λ uids r, uids ++ [ar_UID r]) [] (amw_AppliedResources aWork).

Definition GetManifestWork (name namespace : string) : M (result ManifestWork) :=
  r ← act (Lib (CGetManifestWork namespace name));
  match r with
  | GErr err => mret (GErr err)
  | GOk manifestWork => mret (GOk manifestWork)
  end.

(** The loop over the owner references. *)
Fixpoint appliedManifestWork_owner (refs : list OwnerReference) : string :=
  match refs with
  | [] => ""
  | ref :: refs =>
      if decide (or_APIVersion ref = workv1_Group +:+ "/" +:+ workv1_Version
                 ∧ or_Kind ref = AppliedManifestWorkKind)
      then or_Name ref
      else appliedManifestWork_owner refs
  end.

Definition GetAppliedManifestWorkName (obj : Object) : string :=
  appliedManifestWork_owner (GetOwnerReferences obj).

Definition IsManagedByAppliedManifestWork (obj : Object) : bool :=
  bool_decide (GetAppliedManifestWorkName obj ≠ "").

Definition AppliedManifestWorkKey : string :=
  KeyForGroupVersionKind workv1_Group workv1_Version AppliedManifestWorkKind.

Definition GetAppliedManifestWork (obj : Object) : M (result AppliedManifestWork) :=
  let aName := GetAppliedManifestWorkName obj in
  if decide (aName = "") then mret (GErr (ErrF "not managed by AppliedManifestWork"))
  else
    pLister ← act (SMGet FListers AppliedManifestWorkKey);
    match pLister with
    | None => mret (GErr (ErrF ("could not get lister for key " +:+ AppliedManifestWorkKey)))
    | Some lister =>
        r ← act (Lib (CListerGet lister aName));
        match r with
        | GErr err => mret (GErr (ErrF ("could not find applied manifest " +:+ aName +:+ ": " +:+ Error err)))
        | GOk o =>
            o ← lift (as_unstructured o);
            match ToAppliedManifestWork o with
            | GErr err =>
                mret (GErr (ErrF ("could not convert object to applied manifest " +:+ aName +:+ ": " +:+ Error err)))
            | GOk aWork => mret (GOk aWork)
            end
        end
    end.

(** ** Lemmas *)

Lemma as_unstructured_Done o o' : as_unstructured o = Done o' → o' = o ∧ is_unstructured o = true.
Proof. unfold as_unstructured. destruct (is_unstructured o) eqn:E; intros [= <-]; done. Qed.

Lemma foldl_snoc_map {A B} (f : A → B) l acc : foldl (λ bs a, bs ++ [f a]) acc l = acc ++ map f l.
Proof.
  revert acc. induction l as [|a l IH]; intros acc; simpl; [by rewrite app_nil_r|].
  by rewrite IH, <- app_assoc.
Qed.

Lemma ListGVRs_map aWork :
  ListGVRs aWork = map (λ r, GVR (ar_Group r) (ar_Version r) (ar_Resource r)) (amw_AppliedResources aWork).
Proof. apply (foldl_snoc_map _ _ []). Qed.

Lemma GetTrackedObjectsUID_map aWork : GetTrackedObjectsUID aWork = map ar_UID (amw_AppliedResources aWork).
Proof. apply (foldl_snoc_map _ _ []). Qed.

(** The info recorded for a manifest is well formed. *)
Lemma manifest_info_wf aWork : info_wf (MkInfo (GetTrackedObjectsUID aWork) (ListGVRs aWork)).
Proof. unfold info_wf. simpl. by rewrite ListGVRs_map, GetTrackedObjectsUID_map, !length_map. Qed.

End listers.

#[export] Hint Resolve manifest_info_wf : go.
