(* ===== verification/WorkStatuses.v ===== *)
(** * handleWorkStatus of pkg/agent/reconcilers.go: the WorkStatus of one workload object *)

From S2P Require Export Listers.

Definition ManagedByKSLabelKeyPrefix : string := "managed-by.kubestellar.io".
Definition TransportLabelPrefix : string := "transport.kubestellar.io".
Definition SingletonstatusLabelKey : string := "managed-by.kubestellar.io/singletonstatus".

(** [&v1alpha1.WorkStatus{ObjectMeta: metav1.ObjectMeta{Namespace: .., Name: ..}}] *)
Definition new_WorkStatus (namespace name : string) : WorkStatus :=
  MkWorkStatus namespace name "" None [] (MkWorkStatusSpec (MkSourceRef "" "" "" "" "" ""))
    (MkRawStatus None) (MkStatusDetails 0 false 0).

(** Assignments to fields of a WorkStatus. *)
Definition ws_set_owner (ws : WorkStatus) (refs : list OwnerReference) : WorkStatus :=
  MkWorkStatus (ws_Namespace ws) (ws_Name ws) (ws_ResourceVersion ws) (ws_Labels ws) refs
    (ws_Spec ws) (ws_Status ws) (ws_StatusDetails ws).
Definition ws_set_labels (ws : WorkStatus) (labels : gomap string) : WorkStatus :=
  MkWorkStatus (ws_Namespace ws) (ws_Name ws) (ws_ResourceVersion ws) labels (ws_OwnerReferences ws)
    (ws_Spec ws) (ws_Status ws) (ws_StatusDetails ws).
Definition ws_set_source (ws : WorkStatus) (s : SourceRef) (d : StatusDetails) : WorkStatus :=
  MkWorkStatus (ws_Namespace ws) (ws_Name ws) (ws_ResourceVersion ws) (ws_Labels ws) (ws_OwnerReferences ws)
    (MkWorkStatusSpec s) (ws_Status ws) d.
Definition ws_set_raw (ws : WorkStatus) (raw : string) : WorkStatus :=
  MkWorkStatus (ws_Namespace ws) (ws_Name ws) (ws_ResourceVersion ws) (ws_Labels ws) (ws_OwnerReferences ws)
    (ws_Spec ws) (MkRawStatus (Some raw)) (ws_StatusDetails ws).

Section workstatus.
Context {RT : GoRuntime} {K : Kube}.
Abbreviation M := (prog Op).

(** [HasPrefixInMap(labels, Managed..) || HasPrefixInMap(labels, Transport..)]:
    the second loop runs when the first finds nothing. *)
Definition managed_by_KS (labels : gomap string) : M bool :=
  seed ← act (Lib CSeed);
  if HasPrefixInMap seed labels ManagedByKSLabelKeyPrefix then mret true
  else
    seed ← act (Lib CSeed);
    mret (HasPrefixInMap seed labels TransportLabelPrefix).

(** The singleton label of the object is copied into the labels. *)
Definition copy_singleton_label (labels objLabels : gomap string) : outcome (gomap string) :=
  match gomap_get objLabels SingletonstatusLabelKey with
  | Some val => gomap_set labels SingletonstatusLabelKey val
  | None => Done labels
  end.

Definition source_ref (gvr : GroupVersionResource) (obj : Object) : SourceRef :=
  MkSourceRef (gvr_Group gvr) (gvr_Version gvr) (gvr_Resource gvr)
    (gvk_Kind (GroupVersionKind_of obj)) (GetName obj) (GetNamespace obj).

(** The branch that creates the WorkStatus: [inl] is an early return with that
    error, [inr] goes on with the object the server returned. *)
Definition createWorkStatus (cfg : AgentConfig) (obj : Object) (aWork : AppliedManifestWork) (workStatus : WorkStatus)
    : M (option error + WorkStatus) :=
  r ← GetManifestWork (amw_ManifestWorkName aWork) (clusterName cfg);
  match r with
  | GErr err => mret (inl (Some (ErrW ("failed to get manifestWork: " +:+ Error err) err)))
  | GOk manifestWork =>
      managed ← managed_by_KS (mw_Labels manifestWork);
      if negb managed then mret (inl None)
      else
        match SetControllerReference manifestWork workStatus with
        | GErr err => mret (inl (Some (ErrW ("failed to set controller reference: " +:+ Error err) err)))
        | GOk refs =>
            let workStatus := ws_set_owner workStatus refs in
            labels ← lift (copy_singleton_label (mw_Labels manifestWork) (GetLabels obj));
            let workStatus := ws_set_labels workStatus labels in
            mapper ← act MapperRead;
            r ← lift (GetGVR mapper (GroupVersionKind_of obj));
            match r with
            | GErr err =>
                mret (inl (Some (ErrF ("could not get gvr from restmapper for object: " +:+ Error err))))
            | GOk gvr =>
                let workStatus := ws_set_source workStatus (source_ref gvr obj) (MkStatusDetails 0 false 0) in
                r ← act (Lib (CCreateWorkStatus workStatus));
                match r with
                | GErr err => mret (inl (Some (ErrW ("failed to create workStatus: " +:+ Error err) err)))
                | GOk workStatus => mret (inr workStatus)
                end
            end
        end
  end.

Definition patchString (objVal : string) : string :=
  "{" +:+ dquote +:+ "metadata" +:+ dquote +:+ ":{" +:+ dquote +:+ "labels" +:+ dquote +:+ ":{" +:+
  dquote +:+ SingletonstatusLabelKey +:+ dquote +:+ ":" +:+ dquote +:+ objVal +:+ dquote +:+ "}}}".

(** The singleton label is patched when the object has it with a value the
    WorkStatus does not have: [inl] is an early return with an error. *)
Definition patchSingletonLabel (obj : Object) (workStatus : WorkStatus) : M (error + WorkStatus) :=
  match gomap_get (GetLabels obj) SingletonstatusLabelKey with
  | None => mret (inr workStatus)
  | Some objVal =>
      if decide (gomap_get (ws_Labels workStatus) SingletonstatusLabelKey = Some objVal)
      then mret (inr workStatus)
      else
        r ← act (Lib (CPatchWorkStatus workStatus (patchString objVal)));
        match r with
        | GErr err => mret (inl err)
        | GOk workStatus => mret (inr workStatus)
        end
  end.

(** From the patch to the end of the function. *)
Definition updateWorkStatus (obj : Object) (workStatus : WorkStatus) : M (option error) :=
  r ← patchSingletonLabel obj workStatus;
  match r with
  | inl err => mret (Some err)
  | inr workStatus =>
      match GetObjectStatusAsBytes obj with
      | GErr err => mret (Some err)
      | GOk rawStatus =>
          r ← act (Lib (CUpdateStatus (ws_set_raw workStatus rawStatus)));
          match r with
          | GErr err => mret (Some err)
          | GOk _ => mret None
          end
      end
  end.

(** The branch for a deleted object.  [Get] fills [workStatus] in when it
    succeeds and leaves it as it is when it fails. *)
Definition deleteWorkStatus (workStatus : WorkStatus) : M (option error) :=
  r ← act (Lib (CGetWorkStatus (ws_Namespace workStatus) (ws_Name workStatus)));
  match r with
  | GErr err =>
      if negb (IsNotFound err) then mret (Some err)
      else _ ← act (Lib (CDeleteWorkStatus workStatus)); mret None
  | GOk workStatus => _ ← act (Lib (CDeleteWorkStatus workStatus)); mret None
  end.

(** [handleWorkStatus] once the applied manifest work has been found. *)
Definition reportWorkStatus (cfg : AgentConfig) (obj : Object) (aWork : AppliedManifestWork) (isBeingDeleted : bool)
    : M (option error) :=
  let namespace := clusterName cfg in
  name ← lift (BuildWorkstatusName aWork obj);
  let workStatus := new_WorkStatus namespace name in
  if isBeingDeleted then deleteWorkStatus workStatus
  else
    r ← act (Lib (CGetWorkStatus (ws_Namespace workStatus) (ws_Name workStatus)));
    match r with
    | GOk workStatus => updateWorkStatus obj workStatus
    | GErr err =>
        if IsNotFound err then
          r ← createWorkStatus cfg obj aWork workStatus;
          match r with
          | inl e => mret e
          | inr workStatus => updateWorkStatus obj workStatus
          end
        else mret (Some err)
    end.

Definition handleWorkStatus (cfg : AgentConfig) (obj : Object) (isBeingDeleted : bool) : M (option error) :=
  r ← GetAppliedManifestWork obj;
  match r with
  | GErr _ => mret (Some (ErrF ("AppliedManifestWork not found for object with name=" +:+ GetName obj)))
  | GOk aWork => reportWorkStatus cfg obj aWork isBeingDeleted
  end.
End workstatus.
