(* ===== verification/HubTraces.v ===== *)
(** * What the agent does on the hub

    The hub calls of a trace, and what each function of [WorkStatuses.v] does on
    the hub, whatever the answers: the lemmas behind the properties of
    [handleWorkStatus]. *)

From S2P Require Export WorkStatuses.

Section hub.
Context {RT : GoRuntime} {K : Kube}.

(** The calls to the hub's API server with their answers. *)
Inductive HubEvent : Type :=
| HGet (namespace name : string) (r : result WorkStatus)
| HGetManifest (namespace name : string) (r : result ManifestWork)
| HCreate (ws : WorkStatus) (r : result WorkStatus)
| HDelete (ws : WorkStatus) (err : option error)
| HPatch (ws : WorkStatus) (patch : string) (r : result WorkStatus)
| HUpdate (ws : WorkStatus) (r : result WorkStatus).

Definition hub_call {R} (c : Call R) : R → option HubEvent :=
  match c in Call R return R → option HubEvent with
  | CGetWorkStatus ns n => λ r, Some (HGet ns n r)
  | CGetManifestWork ns n => λ r, Some (HGetManifest ns n r)
  | CCreateWorkStatus ws => λ r, Some (HCreate ws r)
  | CDeleteWorkStatus ws => λ r, Some (HDelete ws r)
  | CPatchWorkStatus ws p => λ r, Some (HPatch ws p r)
  | CUpdateStatus ws => λ r, Some (HUpdate ws r)
  | _ => λ _, None
  end.

Definition hub_event (e : event Op) : option HubEvent :=
  match e with
  | Ev o r => (match o in Op R return R → option HubEvent with Lib c => hub_call c | _ => λ _, None end) r
  end.

Definition hub_trace (tr : list (event Op)) : list HubEvent := omap hub_event tr.

Lemma hub_trace_app tr1 tr2 : hub_trace (tr1 ++ tr2) = hub_trace tr1 ++ hub_trace tr2.
Proof. apply omap_app. Qed.

(** The labels of a manifest work delivered by KubeStellar. *)
Definition KS_managed (labels : gomap string) : Prop :=
  ∃ k v, gomap_get labels k = Some v ∧
    (HasPrefix k ManagedByKSLabelKeyPrefix = true ∨ HasPrefix k TransportLabelPrefix = true).

(** The WorkStatus that is created for an object delivered by a manifest work:
    named as [ws0], controlled by the manifest work, with its labels and the
    singleton label of the object, pointing at the object, with no status yet. *)
Definition created_from (obj : Object) (mw : ManifestWork) (ws0 ws : WorkStatus) : Prop :=
  ∃ refs mapper gvr labels,
    SetControllerReference mw ws0 = GOk refs ∧
    RESTMapping mapper (gvk_Group (GroupVersionKind_of obj)) (gvk_Kind (GroupVersionKind_of obj))
      (gvk_Version (GroupVersionKind_of obj)) = GOk gvr ∧
    copy_singleton_label (mw_Labels mw) (GetLabels obj) = Done labels ∧
    ws = MkWorkStatus (ws_Namespace ws0) (ws_Name ws0) (ws_ResourceVersion ws0) labels refs
           (MkWorkStatusSpec (source_ref gvr obj)) (ws_Status ws0) (MkStatusDetails 0 false 0).

(** ** The protocol of the agent with the hub

    The sessions of [handleWorkStatus] on the hub, with the value each returns:
    the specification its code refines. *)

(** Creating [ws0] for [obj], which the manifest work of name [mname] delivers. *)
Inductive create_session (ns mname : string) (obj : Object) (ws0 : WorkStatus)
    : list HubEvent → outcome (option error + WorkStatus) → Prop :=
| CS_manifest_error err e :
    create_session ns mname obj ws0 [HGetManifest ns mname (GErr err)] (Done (inl (Some e)))
| CS_unmanaged mw :
    ¬ KS_managed (mw_Labels mw) →
    create_session ns mname obj ws0 [HGetManifest ns mname (GOk mw)] (Done (inl None))
| CS_local_error mw e :
    KS_managed (mw_Labels mw) →
    create_session ns mname obj ws0 [HGetManifest ns mname (GOk mw)] (Done (inl (Some e)))
| CS_nil_mapper mw :
    KS_managed (mw_Labels mw) →
    create_session ns mname obj ws0 [HGetManifest ns mname (GOk mw)] (Panic PanicNilDeref)
| CS_create mw ws r out :
    KS_managed (mw_Labels mw) → created_from obj mw ws0 ws →
    match r with GErr _ => ∃ e, out = Done (inl (Some e)) | GOk ws' => out = Done (inr ws') end →
    create_session ns mname obj ws0 [HGetManifest ns mname (GOk mw); HCreate ws r] out.

(** The singleton label the object asks for and the WorkStatus lacks. *)
Definition wants_patch (obj : Object) (ws : WorkStatus) (val : string) : Prop :=
  gomap_get (GetLabels obj) SingletonstatusLabelKey = Some val ∧
  gomap_get (ws_Labels ws) SingletonstatusLabelKey ≠ Some val.
Definition no_patch (obj : Object) (ws : WorkStatus) : Prop := ∀ val, ¬ wants_patch obj ws val.

(** Reporting the status of [obj] in [ws], as the server returned it. *)
Inductive status_session (obj : Object) (ws : WorkStatus) : list HubEvent → option error → Prop :=
| SS_no_status err :
    GetObjectStatusAsBytes obj = GErr err → status_session obj ws [] (Some err)
| SS_update raw r :
    GetObjectStatusAsBytes obj = GOk raw →
    status_session obj ws [HUpdate (ws_set_raw ws raw) r]
      (match r with GErr err => Some err | GOk _ => None end).

Inductive update_session (obj : Object) (ws : WorkStatus) : list HubEvent → option error → Prop :=
| US_no_patch evs e :
    no_patch obj ws → status_session obj ws evs e → update_session obj ws evs e
| US_patch_error val err :
    wants_patch obj ws val →
    update_session obj ws [HPatch ws (patchString val) (GErr err)] (Some err)
| US_patch val ws' evs e :
    wants_patch obj ws val → status_session obj ws' evs e →
    update_session obj ws (HPatch ws (patchString val) (GOk ws') :: evs) e.

Inductive delete_session (ws0 : WorkStatus) : list HubEvent → option error → Prop :=
| DS_get_error err :
    IsNotFound err = false →
    delete_session ws0 [HGet (ws_Namespace ws0) (ws_Name ws0) (GErr err)] (Some err)
| DS_absent err e :
    IsNotFound err = true →
    delete_session ws0 [HGet (ws_Namespace ws0) (ws_Name ws0) (GErr err); HDelete ws0 e] None
| DS_delete ws e :
    delete_session ws0 [HGet (ws_Namespace ws0) (ws_Name ws0) (GOk ws); HDelete ws e] None.

Inductive sync_session (ns mname : string) (obj : Object) (ws0 : WorkStatus)
    : list HubEvent → outcome (option error) → Prop :=
| YS_get_error err :
    IsNotFound err = false →
    sync_session ns mname obj ws0 [HGet (ws_Namespace ws0) (ws_Name ws0) (GErr err)] (Done (Some err))
| YS_exists ws evs e :
    update_session obj ws evs e →
    sync_session ns mname obj ws0 (HGet (ws_Namespace ws0) (ws_Name ws0) (GOk ws) :: evs) (Done e)
| YS_not_created err evs e :
    IsNotFound err = true → create_session ns mname obj ws0 evs (Done (inl e)) →
    sync_session ns mname obj ws0 (HGet (ws_Namespace ws0) (ws_Name ws0) (GErr err) :: evs) (Done e)
| YS_crash err evs q :
    IsNotFound err = true → create_session ns mname obj ws0 evs (Panic q) →
    sync_session ns mname obj ws0 (HGet (ws_Namespace ws0) (ws_Name ws0) (GErr err) :: evs) (Panic q)
| YS_created err evs ws evs' e :
    IsNotFound err = true → create_session ns mname obj ws0 evs (Done (inr ws)) →
    update_session obj ws evs' e →
    sync_session ns mname obj ws0 (HGet (ws_Namespace ws0) (ws_Name ws0) (GErr err) :: evs ++ evs') (Done e).
End hub.

(** Inversion of the traces of a program, one action or branch at a time. *)
Ltac trace_step :=
  match goal with
  | H : ∃ _, _ |- _ => destruct H
  | H : _ ∧ _ |- _ => destruct H
  | H : traces (lift ?m ≫= _) _ _ |- _ =>
      let E := fresh "E" in destruct m eqn:E; cbn [lift] in H
  | H : traces (match ?x with _ => _ end) _ _ |- _ =>
      let E := fresh "E" in destruct x eqn:E
  | H : traces (match ?x with _ => _ end ≫= _) _ _ |- _ =>
      let E := fresh "E" in destruct x eqn:E
  | H : traces _ _ _ |- _ => progress cbn [traces mbind mret prog_bind prog_ret act lift negb] in H
  end.
Ltac trace_cbn H := cbn [traces mbind mret prog_bind prog_ret act lift negb] in H.
Ltac trace_inv := repeat (trace_step; simplify_eq).

Section lemmas.
Context {RT : GoRuntime} {K : Kube}.

Lemma managed_by_KS_traces labels tr out :
  traces (managed_by_KS labels) tr out →
  hub_trace tr = [] ∧ ∃ b, out = Done b ∧ (b = true ↔ KS_managed labels).
Proof.
  unfold managed_by_KS. intros H. trace_inv; simpl; (split; [done|]).
  - exists true. split; [done|]. split; [|done]. intros _.
    apply HasPrefixInMap_spec in E as (k & v & ? & ?). unfold KS_managed. eauto 7.
  - eexists. split; [done|]. rewrite HasPrefixInMap_spec. split.
    + intros (k & v & ? & ?). unfold KS_managed. eauto 7.
    + intros (k & v & Hk & [Hp|Hp]); [|eauto].
      apply not_true_iff_false in E. destruct E. apply HasPrefixInMap_spec. eauto.
Qed.

Lemma GetAppliedManifestWork_traces obj tr out :
  traces (GetAppliedManifestWork obj) tr out →
  hub_trace tr = [] ∧
  match out with
  | Done (GOk aWork) =>
      ∃ lister o, Ev (Lib (CListerGet lister (GetAppliedManifestWorkName obj))) (GOk o) ∈ tr ∧
        ToAppliedManifestWork o = GOk aWork
  | Done (GErr _) => True
  | Panic q => q = PanicTypeAssert
  end.
Proof.
  unfold GetAppliedManifestWork. intros H. trace_inv; (split; [done|]); try done.
  - apply as_unstructured_Done in E0 as [-> _]. do 2 eexists. split; [|done]. rewrite !elem_of_cons. auto.
  - unfold as_unstructured in E0. by case_match; simplify_eq.
Qed.

Lemma KS_managed_not_nil labels : KS_managed labels → ∃ t, labels = Some t.
Proof. intros (k & v & Hk & _). destruct labels as [t|]; [eauto|]. unfold gomap_get in Hk. simpl in Hk. by rewrite lookup_empty in Hk. Qed.

Lemma copy_singleton_label_Done labels objLabels :
  KS_managed labels → ∃ labels', copy_singleton_label labels objLabels = Done labels'.
Proof.
  intros [t ->]%KS_managed_not_nil. unfold copy_singleton_label, gomap_set. case_match; eauto.
Qed.

Lemma GetGVR_cases mapper gvk :
  (mapper = None ∧ GetGVR mapper gvk = Panic PanicNilDeref) ∨
  ∃ m, mapper = Some m ∧
    ((∃ e, GetGVR mapper gvk = Done (GErr e)) ∨
     ∃ gvr, GetGVR mapper gvk = Done (GOk gvr) ∧ RESTMapping m (gvk_Group gvk) (gvk_Kind gvk) (gvk_Version gvk) = GOk gvr).
Proof. unfold GetGVR. destruct mapper as [m|]; [|eauto]. right. exists m. case_match; eauto 6. Qed.

Lemma createWorkStatus_session cfg obj aWork ws0 tr out :
  traces (createWorkStatus cfg obj aWork ws0) tr out →
  create_session (clusterName cfg) (amw_ManifestWorkName aWork) obj ws0 (hub_trace tr) out.
Proof.
  unfold createWorkStatus, GetManifestWork. intros H.
  trace_cbn H. destruct H as (r & tr' & -> & H).
  destruct r as [mw|err]; trace_cbn H; [|destruct H as [-> ->]; constructor].
  apply traces_bind in H as [(tr1 & tr2 & b & -> & Hm & H)|(q & -> & Hm)];
    apply managed_by_KS_traces in Hm as (Hhub & b' & Hb & Hks); simplify_eq.
  change (hub_trace (?e :: tr1 ++ tr2)) with (HGetManifest (clusterName cfg) (amw_ManifestWorkName aWork) (GOk mw)
    :: hub_trace (tr1 ++ tr2)). rewrite hub_trace_app, Hhub. simpl.
  destruct b'; trace_cbn H; [|destruct H as [-> ->]; constructor; intros Hk%Hks; done].
  assert (KS_managed (mw_Labels mw)) as Hmw by by apply Hks.
  destruct (copy_singleton_label_Done (mw_Labels mw) (GetLabels obj) Hmw) as [labels Hlabels].
  destruct (SetControllerReference mw ws0) as [refs|err] eqn:Hset;
    [|trace_cbn H; destruct H as [-> ->]; by constructor].
  rewrite Hlabels in H. trace_cbn H. destruct H as (mapper & tr' & -> & H).
  destruct (GetGVR_cases mapper (GroupVersionKind_of obj)) as [[-> Hm]|(m & -> & [[e Hm]|(gvr & Hm & Hmap)])];
    rewrite Hm in H; trace_cbn H; [by destruct H as [-> ->]; constructor..|].
  destruct H as (r & tr'' & -> & H). destruct r; trace_cbn H; destruct H as [-> ->];
    (eapply CS_create; [done| |eauto]); unfold created_from; eauto 10.
Qed.

Lemma no_patch_None obj ws : gomap_get (GetLabels obj) SingletonstatusLabelKey = None → no_patch obj ws.
Proof. intros H val [Hv _]. congruence. Qed.
Lemma no_patch_same obj ws val :
  gomap_get (GetLabels obj) SingletonstatusLabelKey = Some val →
  gomap_get (ws_Labels ws) SingletonstatusLabelKey = Some val → no_patch obj ws.
Proof. intros H1 H2 val' [Hv Hn]. congruence. Qed.

#[local] Hint Constructors create_session status_session update_session delete_session sync_session : go.
#[local] Hint Resolve no_patch_None no_patch_same : go.
#[local] Hint Unfold wants_patch : go.

Lemma updateWorkStatus_session obj ws tr out :
  traces (updateWorkStatus obj ws) tr out → ∃ e, out = Done e ∧ update_session obj ws (hub_trace tr) e.
Proof.
  unfold updateWorkStatus, patchSingletonLabel. intros H. trace_inv; eexists; (split; [done|]); simpl.
  all: first [ eapply US_patch_error; split; by eauto
             | eapply US_patch; [split; by eauto|] | apply US_no_patch; [by eauto with go|] ].
  all: first [ by apply SS_no_status | by apply (SS_update _ _ _ (GOk _)) | by apply (SS_update _ _ _ (GErr _)) ].
Qed.

Lemma deleteWorkStatus_session ws0 tr out :
  traces (deleteWorkStatus ws0) tr out → ∃ e, out = Done e ∧ delete_session ws0 (hub_trace tr) e.
Proof.
  unfold deleteWorkStatus. intros H. trace_inv; eexists; (split; [done|]); simpl.
  - apply DS_delete.
  - apply DS_get_error. by apply negb_true_iff.
  - apply DS_absent. by apply negb_false_iff.
Qed.

Lemma reportWorkStatus_session cfg obj aWork name isBeingDeleted tr out :
  BuildWorkstatusName aWork obj = Done name → traces (reportWorkStatus cfg obj aWork isBeingDeleted) tr out →
  let ws0 := new_WorkStatus (clusterName cfg) name in
  if isBeingDeleted then ∃ e, out = Done e ∧ delete_session ws0 (hub_trace tr) e
  else sync_session (clusterName cfg) (amw_ManifestWorkName aWork) obj ws0 (hub_trace tr) out.
Proof.
  unfold reportWorkStatus. intros -> H. trace_cbn H.
  destruct isBeingDeleted; [by apply deleteWorkStatus_session|].
  trace_cbn H. destruct H as (r & tr' & -> & H). simpl. destruct r as [ws|err].
  { apply updateWorkStatus_session in H as (e & -> & H). by apply YS_exists. }
  destruct (IsNotFound err) eqn:Hnf; [|trace_cbn H; destruct H as [-> ->]; by apply YS_get_error].
  apply traces_bind in H as [(tr3 & tr4 & r & -> & Hc & H)|(q & -> & Hc)];
    apply createWorkStatus_session in Hc; [|by apply YS_crash].
  destruct r as [e|ws].
  - trace_cbn H. destruct H as [-> ->]. rewrite app_nil_r. by apply YS_not_created.
  - apply updateWorkStatus_session in H as (e & -> & H).
    change (omap hub_event (tr3 ++ tr4)) with (hub_trace (tr3 ++ tr4)). rewrite hub_trace_app.
    by apply (YS_created _ _ _ (new_WorkStatus _ _) _ _ ws).
Qed.

(** Every session of [handleWorkStatus] on the hub is one of the protocol. *)
Lemma handleWorkStatus_session cfg obj isBeingDeleted tr out :
  traces (handleWorkStatus cfg obj isBeingDeleted) tr out →
  (hub_trace tr = [] ∧ ((∃ e, out = Done (Some e)) ∨ out = Panic PanicTypeAssert)) ∨
  ∃ aWork lister o name,
    Ev (Lib (CListerGet lister (GetAppliedManifestWorkName obj))) (GOk o) ∈ tr ∧
    ToAppliedManifestWork o = GOk aWork ∧ BuildWorkstatusName aWork obj = Done name ∧
    let ws0 := new_WorkStatus (clusterName cfg) name in
    if isBeingDeleted then ∃ e, out = Done e ∧ delete_session ws0 (hub_trace tr) e
    else sync_session (clusterName cfg) (amw_ManifestWorkName aWork) obj ws0 (hub_trace tr) out.
Proof.
  unfold handleWorkStatus. intros H.
  apply traces_bind in H as [(tr1 & tr2 & r & -> & Hg & H)|(q & -> & Hg)];
    apply GetAppliedManifestWork_traces in Hg as [Hhub Hg]; [|subst; left; by rewrite Hhub; auto].
  rewrite hub_trace_app, Hhub. simpl.
  destruct r as [aWork|err]; [|trace_cbn H; destruct H as [-> ->]; left; eauto].
  destruct Hg as (lister & o & Hin & Ho). right.
  destruct (BuildWorkstatusName_Done aWork obj) as [name Hname].
  exists aWork, lister, o, name. split; [by apply elem_of_app; left|]. split; [done|]. split; [done|].
  by apply (reportWorkStatus_session _ _ _ _ _ _ _ Hname).
Qed.
End lemmas.
