(* ===== verification/WorkStatusProps.v ===== *)
(** * Properties of handleWorkStatus *)

From S2P Require Import HubTraces SimEnv.

Section props.
Context {RT : GoRuntime} {K : Kube}.

(** ** Lemmas on the protocol *)

Lemma update_session_writes obj ws evs e : update_session obj ws evs e →
  Forall (λ ev, match ev with HPatch _ _ _ | HUpdate _ _ => True | _ => False end) evs.
Proof.
  assert (∀ ws evs e, status_session obj ws evs e →
    Forall (λ ev, match ev with HPatch _ _ _ | HUpdate _ _ => True | _ => False end) evs) as Hs.
  { intros ??? []; repeat constructor. }
  intros []; repeat constructor; eauto.
Qed.

Lemma update_session_no_create obj ws evs e ws' r : update_session obj ws evs e → HCreate ws' r ∉ evs.
Proof. intros Hs Hin. apply update_session_writes in Hs. rewrite Forall_forall in Hs. by apply Hs in Hin. Qed.

(** A session that ends well ends with a successful report. *)
Lemma update_session_reported obj ws evs :
  update_session obj ws evs None →
  ∃ evs' ws' raw ws'', evs = evs' ++ [HUpdate (ws_set_raw ws' raw) (GOk ws'')] ∧
    GetObjectStatusAsBytes obj = GOk raw.
Proof.
  assert (∀ ws evs, status_session obj ws evs None → ∃ raw ws'',
    evs = [HUpdate (ws_set_raw ws raw) (GOk ws'')] ∧ GetObjectStatusAsBytes obj = GOk raw) as Hs.
  { intros ws1 evs1 Hss. remember None as e eqn:He.
    destruct Hss as [err Herr|raw r Hraw]; [done|]. destruct r; simplify_eq. eauto. }
  intros Hu. remember None as e eqn:He. destruct Hu as [evs e _ Hss|val err _|val ws' evs e _ Hss]; simplify_eq.
  - apply Hs in Hss as (raw & ws'' & -> & ?). by exists [], ws, raw, ws''.
  - apply Hs in Hss as (raw & ws'' & -> & ?). by exists [HPatch ws (patchString val) (GOk ws')], ws', raw, ws''.
Qed.

(** The label of a created WorkStatus. *)
Lemma created_from_labels obj mw ws0 ws k :
  created_from obj mw ws0 ws →
  gomap_get (ws_Labels ws) k =
    match gomap_get (GetLabels obj) SingletonstatusLabelKey with
    | Some val => if decide (k = SingletonstatusLabelKey) then Some val else gomap_get (mw_Labels mw) k
    | None => gomap_get (mw_Labels mw) k
    end.
Proof.
  intros (refs & mapper & gvr & labels & _ & _ & Hl & ->). simpl. unfold copy_singleton_label in Hl.
  destruct (gomap_get (GetLabels obj) SingletonstatusLabelKey); simplify_eq; [|done].
  unfold gomap_set in Hl. destruct (mw_Labels mw) as [t|]; simplify_eq. unfold gomap_get. simpl.
  case_decide; subst; [apply lookup_insert_eq|by apply lookup_insert_ne].
Qed.

(** Where a session creates. *)
Lemma create_session_create ns mname obj ws0 evs out ws r :
  create_session ns mname obj ws0 evs out → HCreate ws r ∈ evs →
  ∃ mw, evs = [HGetManifest ns mname (GOk mw); HCreate ws r] ∧
    KS_managed (mw_Labels mw) ∧ created_from obj mw ws0 ws.
Proof. intros [] Hin; in_list_hyp Hin. Qed.

Lemma sync_session_create ns mname obj ws0 evs out ws r :
  sync_session ns mname obj ws0 evs out → HCreate ws r ∈ evs →
  ∃ mw err rest,
    evs = HGet (ws_Namespace ws0) (ws_Name ws0) (GErr err) ::
          HGetManifest ns mname (GOk mw) :: HCreate ws r :: rest ∧
    IsNotFound err = true ∧ KS_managed (mw_Labels mw) ∧ created_from obj mw ws0 ws.
Proof.
  intros [err Hnf|ws' evs' e Hu|err evs' e Hnf Hc|err evs' q Hnf Hc|err evs1 ws' evs2 e Hnf Hc Hu] Hin;
    (apply elem_of_cons in Hin as [|Hin]; [done|]).
  - by apply elem_of_nil in Hin.
  - by apply (update_session_no_create _ _ _ _ _ _ Hu) in Hin.
  - destruct (create_session_create _ _ _ _ _ _ _ _ Hc Hin) as (mw & -> & ? & ?). by exists mw, err, [].
  - destruct (create_session_create _ _ _ _ _ _ _ _ Hc Hin) as (mw & -> & ? & ?). by exists mw, err, [].
  - apply elem_of_app in Hin as [Hin|Hin]; [|by apply (update_session_no_create _ _ _ _ _ _ Hu) in Hin].
    destruct (create_session_create _ _ _ _ _ _ _ _ Hc Hin) as (mw & -> & ? & ?). by exists mw, err, evs2.
Qed.

Lemma sync_session_success ns mname obj ws0 evs :
  sync_session ns mname obj ws0 evs (Done None) →
  (∃ evs' ws raw ws', evs = evs' ++ [HUpdate (ws_set_raw ws raw) (GOk ws')] ∧
     GetObjectStatusAsBytes obj = GOk raw) ∨
  (∃ err mw, evs = [HGet (ws_Namespace ws0) (ws_Name ws0) (GErr err); HGetManifest ns mname (GOk mw)] ∧
     ¬ KS_managed (mw_Labels mw)).
Proof.
  intros Hs. remember (Done None) as out eqn:Hout.
  destruct Hs as [err Hnf|ws' evs' e Hu|err evs' e Hnf Hc|err evs' q Hnf Hc|err evs1 ws' evs2 e Hnf Hc Hu];
    simplify_eq.
  - left. apply update_session_reported in Hu as (evs & ws & raw & ws'' & -> & Hr).
    exists (HGet (ws_Namespace ws0) (ws_Name ws0) (GOk ws') :: evs). by eauto.
  - right. remember (Done (inl None)) as out eqn:Hout. destruct Hc as [| | | |mw ws [] out ? ? Ho]; simplify_eq; eauto.
    destruct Ho as [? [=]].
  - left. apply update_session_reported in Hu as (evs & ws & raw & ws'' & -> & Hr).
    exists (HGet (ws_Namespace ws0) (ws_Name ws0) (GErr err) :: evs1 ++ evs), ws, raw, ws''.
    by rewrite <- app_comm_cons, <- app_assoc.
Qed.

Lemma update_session_patch obj ws0 evs e ws patch r :
  update_session obj ws0 evs e → HPatch ws patch r ∈ evs →
  ∃ val, wants_patch obj ws val ∧ patch = patchString val.
Proof.
  assert (∀ ws0 evs e, status_session obj ws0 evs e → HPatch ws patch r ∉ evs) as Hs.
  { intros ??? []; in_list. }
  intros []; in_list.
Qed.

Lemma sync_session_patch ns mname obj ws0 evs out ws patch r :
  sync_session ns mname obj ws0 evs out → HPatch ws patch r ∈ evs →
  ∃ val, wants_patch obj ws val ∧ patch = patchString val.
Proof.
  assert (∀ evs out, create_session ns mname obj ws0 evs out → HPatch ws patch r ∉ evs) as Hc.
  { intros ?? []; in_list. }
  intros []; rewrite ?elem_of_cons, ?elem_of_app, ?elem_of_nil; intros Hin; destruct_or?; try done;
    try (by eapply update_session_patch); exfalso; by eapply Hc.
Qed.

(** ** Properties *)

(** C6: every interaction of [handleWorkStatus] with the hub follows the protocol
    of [HubTraces]: nothing when the applied manifest work is not found, else a
    session of [delete_session] or of [sync_session], with the value it gives,
    for the WorkStatus named after that manifest work and the object. *)
Theorem handleWorkStatus_refines_protocol cfg obj isBeingDeleted tr out :
  traces (handleWorkStatus cfg obj isBeingDeleted) tr out →
  (hub_trace tr = [] ∧ ((∃ e, out = Done (Some e)) ∨ out = Panic PanicTypeAssert)) ∨
  ∃ aWork lister o name,
    Ev (Lib (CListerGet lister (GetAppliedManifestWorkName obj))) (GOk o) ∈ tr ∧
    ToAppliedManifestWork o = GOk aWork ∧ BuildWorkstatusName aWork obj = Done name ∧
    let ws0 := new_WorkStatus (clusterName cfg) name in
    if isBeingDeleted then ∃ e, out = Done e ∧ delete_session ws0 (hub_trace tr) e
    else sync_session (clusterName cfg) (amw_ManifestWorkName aWork) obj ws0 (hub_trace tr) out.
Proof. apply handleWorkStatus_session. Qed.

(** C17: a WorkStatus is created only for a live object, and only by the manifest
    work that delivers it: the lister holds the applied manifest work that owns the
    object, the hub was asked for the WorkStatus of the name made of both and said
    that it does not exist, and then for the manifest work which that applied
    manifest work names, which has a KubeStellar label.  What is created has that
    name, is in the namespace of the cluster, is controlled by that manifest work,
    points at the object, and has the labels of the manifest work, with the
    singleton label of the object when it has one. *)
Theorem handleWorkStatus_creates cfg obj isBeingDeleted tr out ws r :
  traces (handleWorkStatus cfg obj isBeingDeleted) tr out → HCreate ws r ∈ hub_trace tr →
  isBeingDeleted = false ∧ ∃ lister o aWork name mw err rest refs mapper gvr,
    Ev (Lib (CListerGet lister (GetAppliedManifestWorkName obj))) (GOk o) ∈ tr ∧
    ToAppliedManifestWork o = GOk aWork ∧ BuildWorkstatusName aWork obj = Done name ∧
    hub_trace tr = HGet (clusterName cfg) name (GErr err) ::
                   HGetManifest (clusterName cfg) (amw_ManifestWorkName aWork) (GOk mw) :: HCreate ws r :: rest ∧
    IsNotFound err = true ∧ KS_managed (mw_Labels mw) ∧
    ws_Namespace ws = clusterName cfg ∧ ws_Name ws = name ∧
    SetControllerReference mw (new_WorkStatus (clusterName cfg) name) = GOk refs ∧ ws_OwnerReferences ws = refs ∧
    RESTMapping mapper (gvk_Group (GroupVersionKind_of obj)) (gvk_Kind (GroupVersionKind_of obj))
      (gvk_Version (GroupVersionKind_of obj)) = GOk gvr ∧
    ws_SourceRef (ws_Spec ws) = source_ref gvr obj ∧
    (∀ k, gomap_get (ws_Labels ws) k =
      match gomap_get (GetLabels obj) SingletonstatusLabelKey with
      | Some val => if decide (k = SingletonstatusLabelKey) then Some val else gomap_get (mw_Labels mw) k
      | None => gomap_get (mw_Labels mw) k
      end).
Proof.
  intros Ht Hin. apply handleWorkStatus_session in Ht as [[Hnil _]|(aWork & lister & o & name & Hl & Ho & Hn & Hs)].
  { rewrite Hnil in Hin. by apply elem_of_nil in Hin. }
  destruct isBeingDeleted; [destruct Hs as (e & _ & Hs); destruct Hs; set_solver|].
  split; [done|]. apply (sync_session_create _ _ _ _ _ _ _ _ Hs) in Hin as (mw & err & rest & -> & Hnf & Hks & Hc).
  pose proof (λ k, created_from_labels _ _ _ _ k Hc) as Hlabels.
  destruct Hc as (refs & mapper & gvr & labels & Hrefs & Hmap & _ & ->).
  exists lister, o, aWork, name, mw, err, rest, refs, mapper, gvr. auto 20.
Qed.

(** C18: while an object is being deleted, [handleWorkStatus] creates, patches and
    updates nothing; it deletes at most once, and only the WorkStatus with the
    object's name in the cluster's namespace, as the hub returned it if it was
    there. *)
Theorem handleWorkStatus_deletes_only cfg obj tr out :
  traces (handleWorkStatus cfg obj true) tr out →
  hub_trace tr = [] ∨ ∃ name r,
    hub_trace tr = [HGet (clusterName cfg) name r] ∨
    ∃ ws err, hub_trace tr = [HGet (clusterName cfg) name r; HDelete ws err] ∧
      match r with GOk ws' => ws = ws' | GErr e => IsNotFound e = true ∧ ws = new_WorkStatus (clusterName cfg) name end.
Proof.
  intros [[Hnil _]|(aWork & lister & o & name & _ & _ & _ & e & _ & Hs)]%handleWorkStatus_session; [by left|].
  right. exists name. destruct Hs as [err ?|err e ?|ws e].
  - exists (GErr err). by left.
  - exists (GErr err). right. by exists (new_WorkStatus (clusterName cfg) name), e.
  - exists (GOk ws). right. by exists ws, e.
Qed.

(** Once the deletion of a WorkStatus has been tried, its answer is ignored:
    [handleWorkStatus] reports success even when the hub answered with an error
    other than NotFound, so the deletion is not tried again. *)
Lemma handleWorkStatus_delete_error_ignored cfg obj tr out ws err :
  traces (handleWorkStatus cfg obj true) tr out → HDelete ws (Some err) ∈ hub_trace tr →
  out = Done None.
Proof.
  intros [[Hnil _]|(aWork & lister & o & name & _ & _ & _ & e & -> & Hs)]%handleWorkStatus_session Hin.
  { rewrite Hnil in Hin. by apply elem_of_nil in Hin. }
  destruct Hs; in_list_hyp Hin.
Qed.

(** C19: for a live object, success means that the hub accepted an update of the
    WorkStatus whose raw status is the status of the object, as JSON, or that the
    manifest work of the object has no KubeStellar label, and then nothing was
    written to the hub. *)
Theorem handleWorkStatus_success_reports cfg obj tr :
  traces (handleWorkStatus cfg obj false) tr (Done None) →
  (∃ evs ws raw ws', hub_trace tr = evs ++ [HUpdate ws (GOk ws')] ∧
     Raw (ws_Status ws) = Some raw ∧ GetObjectStatusAsBytes obj = GOk raw) ∨
  (∃ name err mname mw, hub_trace tr = [HGet (clusterName cfg) name (GErr err);
                                        HGetManifest (clusterName cfg) mname (GOk mw)] ∧
     ¬ KS_managed (mw_Labels mw)).
Proof.
  intros [[_ [[e [=]]|[=]]]|(aWork & lister & o & name & _ & _ & _ & Hs)]%handleWorkStatus_session.
  apply sync_session_success in Hs as [(evs & ws & raw & ws' & -> & Hraw)|(err & mw & -> & Hks)]; [left|right].
  - by exists evs, (ws_set_raw ws raw), raw, ws'.
  - by exists name, err, (amw_ManifestWorkName aWork), mw.
Qed.

(** An object whose status cannot be read (it has none, for instance) is
    never reported with success, unless its manifest work has no KubeStellar
    label: the WorkStatus may be created, and the reconciliation ends with an
    error. *)
Lemma handleWorkStatus_without_status cfg obj tr out e :
  GetObjectStatusAsBytes obj = GErr e →
  traces (handleWorkStatus cfg obj false) tr out →
  out ≠ Done None ∨ ∃ mname mw, HGetManifest (clusterName cfg) mname (GOk mw) ∈ hub_trace tr ∧
                        ¬ KS_managed (mw_Labels mw).
Proof.
  intros He Ht. destruct (decide (out = Done None)) as [->|]; [right|by left].
  apply handleWorkStatus_session in Ht as [[_ [[? [=]]|[=]]]|(aWork & lister & o & name & _ & _ & _ & Hs)].
  apply sync_session_success in Hs as [(evs & ws & raw & ws' & _ & Hraw)|(err & mw & -> & Hks)]; [congruence|].
  exists (amw_ManifestWorkName aWork), mw. split; [|done]. rewrite !elem_of_cons. auto.
Qed.

(** The singleton label is patched exactly as needed: only on a WorkStatus
    that lacks the label value of the object, with the merge patch of that value. *)
Lemma handleWorkStatus_patch_needed cfg obj isBeingDeleted tr out ws patch r :
  traces (handleWorkStatus cfg obj isBeingDeleted) tr out → HPatch ws patch r ∈ hub_trace tr →
  isBeingDeleted = false ∧ ∃ val, wants_patch obj ws val ∧ patch = patchString val.
Proof.
  intros [[Hnil _]|(aWork & lister & o & name & _ & _ & _ & Hs)]%handleWorkStatus_session Hin.
  { rewrite Hnil in Hin. by apply elem_of_nil in Hin. }
  destruct isBeingDeleted; [destruct Hs as (e & _ & Hs); destruct Hs; in_list_hyp Hin|].
  split; [done|]. by apply (sync_session_patch _ _ _ _ _ _ _ _ r Hs).
Qed.
End props.

(** ** Witnesses *)

(** The singleton label of an object. *)
Definition ex_singleton : gomap string := Some {[SingletonstatusLabelKey := "true"]}.
(** The WorkStatus of the deployment, without labels. *)
Definition ex_workstatus : WorkStatus :=
  new_WorkStatus "cluster1" "amw-uid-appsv1-deployment-default-web".
Definition ex_amw : Object := sc_amw [sc_entry sc_gvr "dep-uid"].

Definition ex_run (obj : Object) (deleted : bool) (mws : list ManifestWork) (wss : list WorkStatus)
    (failing : option error) : list (event Op) * outcome (option error * Process SimEnv) :=
  run_log exec (handleWorkStatus sc_config obj deleted)
    (sc_process (sc_env [ex_amw] [] mws wss failing [])).

(** The value a logged run returns. *)
Definition log_value {A S} (l : list (event Op) * outcome (A * S)) : outcome A :=
  match l.2 with Done (a, _) => Done a | Panic q => Panic q end.

Lemma log_value_traces {A} (p : prog Op A) (s : Process SimEnv) a :
  log_value (run_log exec p s) = Done a → traces p (run_log exec p s).1 (Done a).
Proof.
  unfold log_value. intros H. destruct (run_log exec p s).2 as [[b s']|q] eqn:E; simplify_eq.
  by eapply run_log_traces.
Qed.

Definition ex_create := ex_run (sc_deployment ex_singleton) false [sc_manifestwork] [] None.
Definition ex_delete := ex_run (sc_deployment None) true [sc_manifestwork] [ex_workstatus] (Some (ErrLib false "timeout")).
Definition ex_patch := ex_run (sc_deployment ex_singleton) false [sc_manifestwork] [ex_workstatus] None.

Example ex_create_events : (log_value ex_create, length (hub_trace ex_create.1)) = (Done None, 4).
Proof. vm_compute. reflexivity. Qed.

Lemma handleWorkStatus_refines_protocol_witness :
  ∃ aWork lister o name,
    Ev (Lib (CListerGet lister "amw1")) (GOk o) ∈ ex_create.1 ∧
    ToAppliedManifestWork o = GOk aWork ∧ BuildWorkstatusName aWork (sc_deployment ex_singleton) = Done name ∧
    sync_session "cluster1" (amw_ManifestWorkName aWork) (sc_deployment ex_singleton)
      (new_WorkStatus "cluster1" name) (hub_trace ex_create.1) (Done None).
Proof.
  destruct (handleWorkStatus_refines_protocol sc_config (sc_deployment ex_singleton) false ex_create.1 (Done None))
    as [[Hnil _]|H]; [apply log_value_traces; vm_compute; reflexivity|vm_compute in Hnil; discriminate Hnil|exact H].
Defined.

(** The third hub event of the creation. *)
Definition ex_created : WorkStatus :=
  match hub_trace ex_create.1 with _ :: _ :: HCreate ws _ :: _ => ws | _ => ex_workstatus end.

Lemma ex_create_traces :
  traces (handleWorkStatus sc_config (sc_deployment ex_singleton) false) ex_create.1 (Done None).
Proof. apply log_value_traces. vm_compute. reflexivity. Qed.
Lemma ex_delete_traces :
  traces (handleWorkStatus sc_config (sc_deployment None) true) ex_delete.1 (Done None).
Proof. apply log_value_traces. vm_compute. reflexivity. Qed.
Lemma ex_patch_traces :
  traces (handleWorkStatus sc_config (sc_deployment ex_singleton) false) ex_patch.1 (Done None).
Proof. apply log_value_traces. vm_compute. reflexivity. Qed.

Lemma ex_create_event : HCreate ex_created (GOk ex_created) ∈ hub_trace ex_create.1.
Proof. vm_compute. right. right. left. Qed.
Lemma ex_delete_event : HDelete ex_workstatus (Some (ErrLib false "timeout")) ∈ hub_trace ex_delete.1.
Proof. vm_compute. right. left. Qed.
Lemma ex_patch_event :
  HPatch ex_workstatus (patchString "true") (GOk (ws_set_labels ex_workstatus ex_singleton)) ∈ hub_trace ex_patch.1.
Proof. vm_compute. right. left. Qed.

Lemma handleWorkStatus_creates_witness :
  ∃ lister o aWork name mw err rest,
    Ev (Lib (CListerGet lister "amw1")) (GOk o) ∈ ex_create.1 ∧ ToAppliedManifestWork o = GOk aWork ∧
    hub_trace ex_create.1 = HGet "cluster1" name (GErr err) ::
                            HGetManifest "cluster1" (amw_ManifestWorkName aWork) (GOk mw) ::
                            HCreate ex_created (GOk ex_created) :: rest ∧
    IsNotFound err = true ∧ KS_managed (mw_Labels mw) ∧
    ws_Namespace ex_created = "cluster1" ∧ ws_Name ex_created = name.
Proof.
  destruct (handleWorkStatus_creates _ _ _ _ _ _ _ ex_create_traces ex_create_event)
    as (_ & lister & o & aWork & name & mw & err & rest & refs & mapper & gvr & H0 & H1 & H2 & H3 & H4 & H5 & H6 & H7 & _).
  exists lister, o, aWork, name, mw, err, rest. auto 10.
Defined.

Lemma handleWorkStatus_deletes_only_witness :
  hub_trace ex_delete.1 = [] ∨ ∃ name r,
    hub_trace ex_delete.1 = [HGet "cluster1" name r] ∨
    ∃ ws err, hub_trace ex_delete.1 = [HGet "cluster1" name r; HDelete ws err] ∧
      match r with GOk ws' => ws = ws' | GErr e => IsNotFound e = true ∧ ws = new_WorkStatus "cluster1" name end.
Proof. exact (handleWorkStatus_deletes_only _ _ _ _ ex_delete_traces). Defined.

Lemma handleWorkStatus_delete_error_ignored_witness :
  IsNotFound (ErrLib false "timeout") = false ∧ Done (None : option error) = Done None.
Proof.
  split; [reflexivity|].
  exact (handleWorkStatus_delete_error_ignored _ _ _ _ _ _ ex_delete_traces ex_delete_event).
Defined.

Lemma handleWorkStatus_success_reports_witness :
  (∃ evs ws raw ws', hub_trace ex_create.1 = evs ++ [HUpdate ws (GOk ws')] ∧
     Raw (ws_Status ws) = Some raw ∧ GetObjectStatusAsBytes (sc_deployment ex_singleton) = GOk raw) ∨
  (∃ name err mname mw, hub_trace ex_create.1 = [HGet "cluster1" name (GErr err); HGetManifest "cluster1" mname (GOk mw)] ∧
     ¬ KS_managed (mw_Labels mw)).
Proof. exact (handleWorkStatus_success_reports _ _ _ ex_create_traces). Defined.

(** A deployment with no status yet. *)
Definition ex_no_status : Object := with_struct (sc_deployment None) (SUnstructured []).
Definition ex_no_status_run := ex_run ex_no_status false [sc_manifestwork] [] None.

Lemma handleWorkStatus_without_status_witness :
  Done (Some (ErrF "status field not found")) ≠ Done None ∨
  ∃ mname mw, HGetManifest "cluster1" mname (GOk mw) ∈ hub_trace ex_no_status_run.1 ∧ ¬ KS_managed (mw_Labels mw).
Proof.
  refine (handleWorkStatus_without_status sc_config ex_no_status _ _ (ErrF "status field not found") eq_refl _).
  apply log_value_traces. vm_compute. reflexivity.
Defined.

Lemma handleWorkStatus_patch_needed_witness :
  false = false ∧ ∃ val, wants_patch (sc_deployment ex_singleton) ex_workstatus val ∧ patchString "true" = patchString val.
Proof. exact (handleWorkStatus_patch_needed _ _ _ _ _ _ _ _ ex_patch_traces ex_patch_event). Defined.
