(* ===== verification/HubStore.v ===== *)
(** * The hub as a store of WorkStatus objects

    What a call of the agent does to the objects of the hub, as an abstract step
    for each event of [HubTraces.v]: the API server of Kubernetes on a kind with a
    status subresource.  A call that answers an error has happened or has not.
    What a session of [handleWorkStatus] does to the store follows from the
    protocol alone. *)

From S2P Require Export HubTraces.
From Stdlib Require Import Ascii.

(** ** The store *)

Abbreviation Store := (gmap (string * string) WorkStatus).
Definition ws_key (ws : WorkStatus) : string * string := (ws_Namespace ws, ws_Name ws).
Definition well_keyed (s : Store) : Prop := ∀ k ws, s !! k = Some ws → ws_key ws = k.

(** What the server makes of an object: a new resource version. *)
Definition ws_set_version (ws : WorkStatus) (rv : string) : WorkStatus :=
  MkWorkStatus (ws_Namespace ws) (ws_Name ws) rv (ws_Labels ws) (ws_OwnerReferences ws)
    (ws_Spec ws) (ws_Status ws) (ws_StatusDetails ws).
Definition ws_set_status (ws : WorkStatus) (status : RawStatus) : WorkStatus :=
  MkWorkStatus (ws_Namespace ws) (ws_Name ws) (ws_ResourceVersion ws) (ws_Labels ws) (ws_OwnerReferences ws)
    (ws_Spec ws) status (ws_StatusDetails ws).
Definition ws_set_label (ws : WorkStatus) (k v : string) : WorkStatus :=
  ws_set_labels ws (Some (<[k := v]> (gomap_table (ws_Labels ws)))).

(** The JSON merge patch that sets one label. *)
Definition label_patch (k v : string) : string :=
  json_Marshal (JObject [("metadata", JObject [("labels", JObject [(k, JString v)])])]).

(** Strings that stand for themselves in JSON; label values are. *)
Definition plain_string (s : string) : Prop := json_escape s = s.
#[export] Instance plain_string_dec s : Decision (plain_string s).
Proof. unfold plain_string. apply _. Defined.

Section store.
Context {RT : GoRuntime} {K : Kube}.
Implicit Types s : Store.

(** ** Steps *)

(** A write that happens, with the object it leaves: a creation stores the object
    without a status, a patch sets its label, an update of the status changes the
    status alone. *)
Inductive hub_write s : HubEvent → Store → WorkStatus → Prop :=
| WriteCreate ws r rv :
    s !! ws_key ws = None →
    let ws' := ws_set_version (ws_set_status ws (MkRawStatus None)) rv in
    hub_write s (HCreate ws r) (<[ws_key ws := ws']> s) ws'
| WritePatch ws r k v ws0 rv :
    plain_string k → plain_string v → s !! ws_key ws = Some ws0 →
    let ws' := ws_set_version (ws_set_label ws0 k v) rv in
    hub_write s (HPatch ws (label_patch k v) r) (<[ws_key ws := ws']> s) ws'
| WriteOtherPatch ws patch r ws' :
    (∀ k v, plain_string k → plain_string v → patch ≠ label_patch k v) → ws_key ws' = ws_key ws →
    hub_write s (HPatch ws patch r) (<[ws_key ws := ws']> s) ws'
| WriteUpdate ws r ws0 rv :
    s !! ws_key ws = Some ws0 →
    let ws' := ws_set_version (ws_set_status ws0 (ws_Status ws)) rv in
    hub_write s (HUpdate ws r) (<[ws_key ws := ws']> s) ws'.

(** A write by its answer. *)
Definition hub_written s (ev : HubEvent) (r : result WorkStatus) s' : Prop :=
  match r with
  | GOk ws' => hub_write s ev s' ws'
  | GErr _ => s' = s ∨ ∃ ws', hub_write s ev s' ws'
  end.

(** One call; [mws] are the manifest works of the hub. *)
Definition hub_step (mws : gmap (string * string) ManifestWork) s (ev : HubEvent) s' : Prop :=
  match ev with
  | HGet ns n r =>
      s' = s ∧ match r with
               | GOk ws => s !! (ns, n) = Some ws
               | GErr err => IsNotFound err = true → s !! (ns, n) = None
               end
  | HGetManifest ns n r => s' = s ∧ match r with GOk mw => mws !! (ns, n) = Some mw | GErr _ => True end
  | HCreate _ r | HPatch _ _ r | HUpdate _ r => hub_written s ev r s'
  | HDelete ws err =>
      match err with
      | None => s' = delete (ws_key ws) s
      | Some err => if IsNotFound err then s' = s ∧ s !! ws_key ws = None else s' = s ∨ s' = delete (ws_key ws) s
      end
  end.

Inductive hub_steps (mws : gmap (string * string) ManifestWork) : Store → list HubEvent → Store → Prop :=
| HubNil s : hub_steps mws s [] s
| HubCons s ev s1 evs s2 : hub_step mws s ev s1 → hub_steps mws s1 evs s2 → hub_steps mws s (ev :: evs) s2.

Lemma hub_steps_app mws s evs1 evs2 s' :
  hub_steps mws s (evs1 ++ evs2) s' → ∃ s1, hub_steps mws s evs1 s1 ∧ hub_steps mws s1 evs2 s'.
Proof.
  revert s. induction evs1 as [|ev evs1 IH]; intros s; [exists s; split; [constructor|done]|].
  inversion 1 as [|? ? s1 ? ? Hs Hrest]; subst. apply IH in Hrest as (s2 & ? & ?). exists s2.
  split; [by econstructor|done].
Qed.

(** ** What the hub is to show of an object *)

(** The status of the object, and the singleton label it has. *)
Definition mirrors (obj : Object) (ws : WorkStatus) : Prop :=
  (∃ raw, GetObjectStatusAsBytes obj = GOk raw ∧ ws_Status ws = MkRawStatus (Some raw)) ∧
  (∀ v, gomap_get (GetLabels obj) SingletonstatusLabelKey = Some v →
        gomap_get (ws_Labels ws) SingletonstatusLabelKey = Some v).

(** The object it is about. *)
Definition refers (obj : Object) (ws : WorkStatus) : Prop :=
  let ref := ws_SourceRef (ws_Spec ws) in
  sr_Kind ref = gvk_Kind (GroupVersionKind_of obj) ∧ sr_Name ref = GetName obj ∧ sr_Namespace ref = GetNamespace obj.

Definition plain_label (obj : Object) : Prop :=
  ∀ v, gomap_get (GetLabels obj) SingletonstatusLabelKey = Some v → plain_string v.

(** The store differs at one key only. *)
Definition only_at (k : string * string) s s' : Prop := ∀ k', k' ≠ k → s' !! k' = s !! k'.

(** ** Lemmas *)

Lemma label_patch_text k v :
  plain_string k → plain_string v →
  label_patch k v = "{" +:+ dquote +:+ "metadata" +:+ dquote +:+ ":{" +:+ dquote +:+ "labels" +:+ dquote +:+ ":{" +:+
    dquote +:+ k +:+ dquote +:+ ":" +:+ dquote +:+ v +:+ dquote +:+ "}}}".
Proof.
  intros Hk Hv. unfold label_patch. cbn [json_Marshal map]. unfold merge_sort. cbn. unfold json_string.
  by rewrite Hk, Hv, !string_app_assoc.
Qed.

(** The patch the agent writes by hand is the JSON it means. *)
Lemma patchString_label_patch v : plain_string v → patchString v = label_patch SingletonstatusLabelKey v.
Proof. intros Hv. by rewrite label_patch_text by done. Qed.

Lemma label_patch_inj k v k' v' :
  plain_string k → plain_string v → plain_string k' → plain_string v' →
  label_patch k v = label_patch k' v' → k = k' ∧ v = v'.
Proof.
  intros Hk Hv Hk' Hv'. rewrite !label_patch_text by done. intros Heq. do 10 apply (inj (String.app _)) in Heq.
  apply (split_inj "034"%char k k') in Heq as [-> Heq]; [|by apply json_plain_lacks..].
  apply (inj (String.app (":" +:+ dquote))) in Heq.
  by apply (split_inj "034"%char v v') in Heq as [-> _]; [|apply json_plain_lacks..].
Qed.

(** The labels of a WorkStatus that needs no patch are as the object asks. *)
Lemma no_patch_label obj ws :
  no_patch obj ws ↔ ∀ v, gomap_get (GetLabels obj) SingletonstatusLabelKey = Some v →
                          gomap_get (ws_Labels ws) SingletonstatusLabelKey = Some v.
Proof.
  split; [|intros H v [Hv Hn]; by apply Hn, H].
  intros Hn v Hv. destruct (decide (gomap_get (ws_Labels ws) SingletonstatusLabelKey = Some v)); [done|].
  destruct (Hn v). done.
Qed.

(** The source a WorkStatus names: the object, or what it named before. *)
Definition source_kept (obj : Object) (before after : option WorkStatus) : Prop :=
  ∀ ws', after = Some ws' → refers obj ws' ∨ ∃ ws, before = Some ws ∧ ws_Spec ws' = ws_Spec ws.

Lemma source_kept_refl obj o : source_kept obj o o.
Proof. intros ws ->. eauto. Qed.
Lemma source_kept_trans obj a b c : source_kept obj a b → source_kept obj b c → source_kept obj a c.
Proof.
  intros Hab Hbc ws'' ->. destruct (Hbc ws'' eq_refl) as [?|(ws' & -> & Hs)]; [by left|].
  destruct (Hab ws' eq_refl) as [Hr|(ws & -> & Hs')]; [left|right; exists ws; by rewrite Hs].
  unfold refers. by rewrite Hs.
Qed.
Lemma only_at_refl k s : only_at k s s.
Proof. by intros k' _. Qed.
Lemma only_at_trans k s s1 s2 : only_at k s s1 → only_at k s1 s2 → only_at k s s2.
Proof. intros H1 H2 k' Hk. by rewrite (H2 k' Hk), (H1 k' Hk). Qed.
Lemma only_at_insert k s ws : only_at k s (<[k := ws]> s).
Proof. intros k' Hk. by apply lookup_insert_ne. Qed.

(** ** What a session does to the store *)

(** The WorkStatus at [k] goes from [ws] to an object that keeps the source, and a
    good report stays one. *)
Record kept obj k s ws s' : Prop := {
  kept_only : only_at k s s';
  kept_stored : ∃ ws', s' !! k = Some ws' ∧ ws_key ws' = k ∧ ws_Spec ws' = ws_Spec ws ∧ (mirrors obj ws → mirrors obj ws')
}.

Lemma kept_same obj k s ws : s !! k = Some ws → ws_key ws = k → kept obj k s ws s.
Proof. intros Hk Hw. split; [apply only_at_refl|]. eauto. Qed.

Lemma status_session_store mws obj k ws evs e s s' :
  status_session obj ws evs e → hub_steps mws s evs s' → s !! k = Some ws → ws_key ws = k → no_patch obj ws →
  kept obj k s ws s' ∧ (e = None → ∃ ws', s' !! k = Some ws' ∧ mirrors obj ws').
Proof.
  intros Hs Hst Hk Hw Hn. destruct Hs as [err Hraw|raw r Hraw].
  { inversion Hst; subst. split; [by apply kept_same|done]. }
  inversion Hst as [|? ? s1 ? ? Hstep Hnil]; inversion Hnil; subst. cbn [hub_step] in Hstep.
  assert (∀ s' ws' , hub_write s (HUpdate (ws_set_raw ws raw) r) s' ws' →
    kept obj (ws_key ws) s ws s' ∧ ∃ ws', s' !! ws_key ws = Some ws' ∧ mirrors obj ws') as Hwrite.
  { clear Hstep. intros s'' ws'. inversion 1 as [| | |? ? ws0 rv Hk0 Heq]; simplify_eq/=.
    change (ws_key (ws_set_raw ws raw)) with (ws_key ws) in *. simplify_eq.
    split; [split; [apply only_at_insert|]|]; eexists; (split; [apply lookup_insert_eq|]).
    - split_and!; [done|done|]. intros [_ Hl]. split; [eauto|done].
    - split; [eauto|]. by apply no_patch_label. }
  destruct r as [ws'|err]; cbn in Hstep; [by edestruct Hwrite|].
  destruct Hstep as [-> |[ws' Hstep]]; [by split; [apply kept_same|]|]. by edestruct Hwrite.
Qed.

(** The patch of the label, when it happens. *)
Lemma patch_store obj k s ws val r s' ws' :
  wants_patch obj ws val → plain_string val → s !! k = Some ws → ws_key ws = k →
  hub_write s (HPatch ws (patchString val) r) s' ws' →
  s' !! k = Some ws' ∧ ws_key ws' = k ∧ no_patch obj ws' ∧ kept obj k s ws s'.
Proof.
  intros [Hval Hn] Hpl Hk Hw. rewrite patchString_label_patch by done.
  remember (label_patch SingletonstatusLabelKey val) as pt eqn:Hpt. intros Hwr.
  remember (HPatch ws pt r) as ev eqn:Hev. clear -Hval Hn Hpl Hk Hw Hwr Hev Hpt.
  destruct Hwr as [|ws1 r1 k0 v0 ws0 rv Hk0 Hv0 Hl0|ws1 patch r1 ws' Hother|]; try done; injection Hev as -> Hp ->.
  - rewrite Hpt in Hp. apply label_patch_inj in Hp as [-> ->]; [|done..]. subst k.
    rewrite Hk in Hl0. injection Hl0 as <-. unfold ws'.
    split; [apply lookup_insert_eq|]. split; [done|].
    assert (∀ v, gomap_get (GetLabels obj) SingletonstatusLabelKey = Some v →
      gomap_get (ws_Labels (ws_set_version (ws_set_label ws SingletonstatusLabelKey val) rv)) SingletonstatusLabelKey = Some v) as Hl.
    { intros v Hv. rewrite Hval in Hv. injection Hv as <-. apply lookup_insert_eq. }
    split; [by apply no_patch_label|]. split; [apply only_at_insert|].
    eexists. split; [apply lookup_insert_eq|]. split_and!; [done|done|]. by intros [? _].
  - subst patch. destruct (Hother SingletonstatusLabelKey val); [by vm_compute|done..].
Qed.

Lemma update_session_store mws obj k ws evs e s s' :
  update_session obj ws evs e → hub_steps mws s evs s' → s !! k = Some ws → ws_key ws = k → plain_label obj →
  kept obj k s ws s' ∧ (e = None → ∃ ws', s' !! k = Some ws' ∧ mirrors obj ws').
Proof.
  intros Hu Hst Hk Hw Hpl. destruct Hu as [evs e Hn Hs|val err Hwant|val ws1 evs e Hwant Hs].
  - by eapply status_session_store.
  - inversion Hst as [|? ? s1 ? ? Hstep Hnil]; inversion Hnil; subst. split; [|done].
    destruct Hstep as [->|[ws' Hwr]]; [by apply kept_same|].
    eapply patch_store in Hwr as (_ & _ & _ & ?); [done|done|apply Hpl, Hwant|done..].
  - inversion Hst as [|? ? s1 ? ? Hstep Hrest]; subst. cbn in Hstep.
    destruct (patch_store _ _ _ _ _ _ _ _ Hwant (Hpl _ (proj1 Hwant)) Hk eq_refl Hstep) as (Hk1 & Hw1 & Hn1 & [Ho1 (w1 & Hk1' & _ & Hs1 & Hm1)]).
    rewrite Hk1 in Hk1'. injection Hk1' as <-.
    destruct (status_session_store _ _ _ _ _ _ _ _ Hs Hrest Hk1 Hw1 Hn1) as [[Ho2 (w2 & Hk2 & Hw2 & Hs2 & Hm2)] Hok].
    split; [|done]. split; [by eapply only_at_trans|]. exists w2. split_and!; [done|done|by rewrite Hs2|auto].
Qed.
(** Steps keep the keys of the store. *)
Lemma hub_write_keyed s ev s' ws' : well_keyed s → hub_write s ev s' ws' → well_keyed s'.
Proof.
  intros Hs Hw. destruct Hw as [ws r rv Hk ws'|ws r k v ws0 rv _ _ Hk ws'|ws patch r ws' _ Hk|ws r ws0 rv Hk ws'];
    intros k' w [[<- <-]|[_ Hl]]%lookup_insert_Some; try (by apply Hs); try done; by apply (Hs _ ws0).
Qed.

Lemma hub_step_keyed mws s ev s' : well_keyed s → hub_step mws s ev s' → well_keyed s'.
Proof.
  intros Hs. assert (∀ ws, well_keyed (delete (ws_key ws) s)) as Hd by (by intros ws k w [_ ?]%lookup_delete_Some; apply Hs).
  assert (∀ r, hub_written s ev r s' → well_keyed s') as Hw.
  { intros [ws'|err]; cbn; [by apply hub_write_keyed|]. intros [->|[ws' Hw]]; [done|by eapply hub_write_keyed]. }
  destruct ev as [ns n r|ns n r|ws r|ws [err|]|ws patch r|ws r]; cbn [hub_step];
    [by intros [-> _]|by intros [-> _]|by apply Hw| | |by apply Hw|by apply Hw].
  - destruct (IsNotFound err); [by intros [-> _]|by intros [-> | ->]].
  - by intros ->.
Qed.

(** ** The two sessions *)

(** The manifest work that delivers the object is not KubeStellar's. *)
Definition unmanaged (mws : gmap (string * string) ManifestWork) (mkey : string * string) : Prop :=
  ∃ mw, mws !! mkey = Some mw ∧ ¬ KS_managed (mw_Labels mw).

(** What reporting a live object at [k] does, given the error it returns. *)
Record synced mws mkey obj k s s' (e : option error) : Prop := {
  synced_only : only_at k s s';
  synced_source : source_kept obj (s !! k) (s' !! k);
  synced_keeps ws : s !! k = Some ws → mirrors obj ws → ∃ ws', s' !! k = Some ws' ∧ mirrors obj ws';
  synced_none : s !! k = None → unmanaged mws mkey → s' !! k = None;
  synced_success : e = None →
    (∃ ws', s' !! k = Some ws' ∧ mirrors obj ws') ∨ (s !! k = None ∧ s' !! k = None ∧ unmanaged mws mkey)
}.

Lemma kept_synced mws mkey obj k s ws s' e :
  s !! k = Some ws → kept obj k s ws s' → (e = None → ∃ ws', s' !! k = Some ws' ∧ mirrors obj ws') →
  synced mws mkey obj k s s' e.
Proof.
  intros Hk [Ho (ws' & Hk' & _ & Hs & Hm)] He. split; [done|..].
  - intros w Hw. right. exists ws. split; [done|]. congruence.
  - intros w Hw Hmw. rewrite Hk in Hw. injection Hw as <-. eauto.
  - by rewrite Hk.
  - auto.
Qed.

(** The creation, when it happens. *)
Lemma create_store obj mw ws0 ws r s s' ws' :
  created_from obj mw ws0 ws → hub_write s (HCreate ws r) s' ws' →
  s' = <[ws_key ws0 := ws']> s ∧ ws_key ws' = ws_key ws0 ∧ no_patch obj ws' ∧ refers obj ws'.
Proof.
  intros (refs & mapper & gvr & labels & _ & _ & Hl & ->) Hw. inversion Hw; subst. split_and!; try done.
  apply no_patch_label. intros v Hv. cbn. unfold copy_singleton_label in Hl. rewrite Hv in Hl.
  destruct (mw_Labels mw) as [t|]; [|done]. injection Hl as <-. apply lookup_insert_eq.
Qed.

Lemma managed_not_unmanaged mws mkey mw : mws !! mkey = Some mw → KS_managed (mw_Labels mw) → ¬ unmanaged mws mkey.
Proof. intros Hm Hk (mw' & Hm' & Hn). rewrite Hm in Hm'. by injection Hm' as <-. Qed.

(** The creation of the session: [inl] is an early return, [inr] the object. *)
Lemma create_session_store mws ns mname obj ws0 evs out s s' :
  create_session ns mname obj ws0 evs (Done out) → hub_steps mws s evs s' → s !! ws_key ws0 = None →
  match out with
  | inl e => synced mws (ns, mname) obj (ws_key ws0) s s' e
  | inr ws => s' = <[ws_key ws0 := ws]> s ∧ ws_key ws = ws_key ws0 ∧ no_patch obj ws ∧ refers obj ws ∧
      ¬ unmanaged mws (ns, mname)
  end.
Proof.
  intros Hc Hst Hnone.
  assert (∀ e, e ≠ None → synced mws (ns, mname) obj (ws_key ws0) s s e) as Hfail.
  { intros e He. split; [apply only_at_refl|apply source_kept_refl|eauto|done|done]. }
  inversion Hst as [|? ev s1 evs1 ? Hstep Hrest]; subst; [inversion Hc|].
  inversion Hc as [err e|mw Hun|mw e Hm| |mw ws r out' Hm Hcr Hout]; subst; cbn [hub_step] in Hstep;
    destruct Hstep as [-> Hmw].
  - inversion Hrest; subst. by apply Hfail.
  - inversion Hrest; subst. assert (unmanaged mws (ns, mname)) by (exists mw; done).
    split; [apply only_at_refl|apply source_kept_refl|eauto|done|auto].
  - inversion Hrest; subst. by apply Hfail.
  - inversion Hrest as [|? ? s2 ? ? Hstep2 Hnil]; subst. inversion Hnil; subst. cbn in Hstep2.
    pose proof (managed_not_unmanaged mws (ns, mname) mw Hmw Hm) as Hno.
    destruct r as [ws'|err]; [injection Hout as ->|destruct Hout as [e [= ->]]].
    + destruct (create_store _ _ _ _ _ _ _ _ Hcr Hstep2) as (-> & ? & ? & ?). done.
    + destruct Hstep2 as [->|[ws' Hw]]; [by apply Hfail|].
      destruct (create_store _ _ _ _ _ _ _ _ Hcr Hw) as (-> & ? & ? & ?).
      split; [apply only_at_insert| |by rewrite Hnone|done|done].
      intros w. rewrite lookup_insert_eq. intros [= <-]. by left.
Qed.

Lemma sync_session_store mws ns mname obj name evs e s s' :
  let ws0 := new_WorkStatus ns name in
  sync_session ns mname obj ws0 evs (Done e) → hub_steps mws s evs s' → well_keyed s → plain_label obj →
  synced mws (ns, mname) obj (ns, name) s s' e.
Proof.
  intros ws0 Hsess Hst Hkey Hpl. set (k := (ns, name)).
  inversion Hsess as [err Hnf|ws evs' e' Hup|err evs' e' Hnf Hcr| |err evs1 ws evs2 e' Hnf Hcr Hup]; subst;
    inversion Hst as [|? ? s1 ? ? Hstep Hrest]; subst; destruct Hstep as [-> Hg]; cbn in Hg.
  - inversion Hrest; subst. split; [apply only_at_refl|apply source_kept_refl|eauto|done|done].
  - destruct (update_session_store _ _ k _ _ _ _ _ Hup Hrest Hg) as [? ?]; [by apply Hkey|done|].
    by eapply kept_synced.
  - by apply (create_session_store _ _ _ _ _ _ (inl e) _ _ Hcr Hrest), Hg.
  - specialize (Hg Hnf). apply hub_steps_app in Hrest as (s1 & H1 & H2).
    destruct (create_session_store _ _ _ _ _ _ (inr ws) _ _ Hcr H1 Hg) as (-> & Hw & Hn & Hr & Hno).
    change (ws_key ws0) with k in *.
    destruct (update_session_store _ _ k ws _ _ _ _ Hup H2) as [[Ho (ws' & Hk' & _ & Hs & Hm)] Hok];
      [apply lookup_insert_eq|done|done|].
    split.
    + eapply only_at_trans; [apply only_at_insert|exact Ho].
    + intros w Hw'. rewrite Hk' in Hw'. injection Hw' as <-. left. unfold refers. by rewrite Hs.
    + change (s !! k = None) in Hg. by rewrite Hg.
    + done.
    + auto.
Qed.

(** The WorkStatus objects whose deletion the hub has refused: it has answered an
    error other than that there is no such object. *)
Definition refused_deletion (ev : HubEvent) : option (string * string) :=
  match ev with
  | HDelete ws (Some err) => if IsNotFound err then None else Some (ws_key ws)
  | _ => None
  end.
Definition refused_deletions (evs : list HubEvent) : list (string * string) := omap refused_deletion evs.

Lemma refused_deletions_app evs1 evs2 : refused_deletions (evs1 ++ evs2) = refused_deletions evs1 ++ refused_deletions evs2.
Proof. apply omap_app. Qed.

(** A session that deletes: what remains, when the hub did not refuse it. *)
Lemma delete_session_store mws ns name evs e s s' :
  let ws0 := new_WorkStatus ns name in
  delete_session ws0 evs e → hub_steps mws s evs s' → well_keyed s →
  only_at (ns, name) s s' ∧ (s' !! (ns, name) = None ∨ s' !! (ns, name) = s !! (ns, name)) ∧
  (e = None → s' !! (ns, name) = None ∨ (ns, name) ∈ refused_deletions evs).
Proof.
  intros ws0 Hsess Hst Hkey. set (k := (ns, name)).
  assert (only_at k s (delete k s)) as Hd by (intros k' Hk; by apply lookup_delete_ne).
  assert (∀ ws d s', ws_key ws = k → hub_step mws s (HDelete ws d) s' →
    only_at k s s' ∧ (s' !! k = None ∨ s' !! k = s !! k) ∧
    (s' !! k = None ∨ k ∈ refused_deletions [HDelete ws d])) as Hdel.
  { intros ws d s'' Hw. destruct d as [err|]; cbn [hub_step].
    - cbn. destruct (IsNotFound err) eqn:Hnf; [intros [-> Hn]; rewrite Hw in Hn; auto using only_at_refl|].
      intros [-> | ->]; [split; [apply only_at_refl|split; [by right|right; rewrite Hw; left]]|].
      rewrite Hw, !lookup_delete_eq. auto.
    - intros ->. rewrite Hw, !lookup_delete_eq. auto. }
  assert (∀ ws d r, evs = [HGet ns name r; HDelete ws d] → ws_key ws = k →
    only_at k s s' ∧ (s' !! k = None ∨ s' !! k = s !! k) ∧
    (s' !! k = None ∨ k ∈ refused_deletions evs)) as Htwo.
  { intros ws d r -> Hw. inversion Hst as [|? ? s1 ? ? Hstep Hrest]; subst; destruct Hstep as [-> _].
    inversion Hrest as [|? ? s2 ? ? Hstep Hnil]; inversion Hnil; subst.
    by apply Hdel. }
  inversion Hsess as [err Hnf|err d Hnf|ws d]; subst.
  - inversion Hst as [|? ? s1 ? ? Hstep Hnil]; inversion Hnil; subst; destruct Hstep as [-> _]. split_and!; [apply only_at_refl|by right|done].
  - destruct (Htwo ws0 d _ eq_refl eq_refl) as (? & ? & ?). done.
  - destruct (Htwo ws d _ eq_refl) as (? & ? & ?); [|done]. inversion Hst as [|? ? s1 ? ? Hstep Hrest]; subst; destruct Hstep as [-> Hg]. by apply Hkey.
Qed.
End store.
