(* ===== verification/Informers.v ===== *)
(** * pkg/agent/informers.go: starting and stopping informers *)

From S2P Require Export Listers.

Section informers.
Context {RT : GoRuntime} {K : Kube}.
Abbreviation M := (prog Op).

(** [excludedGVKs] of pkg/agent/agent.go. *)
Definition excludedGVKs : list string := [
  "rbac.authorization.k8s.io/v1, Kind=ClusterRoleBinding";
  "rbac.authorization.k8s.io/v1, Kind=ClusterRole";
  "rbac.authorization.k8s.io/v1, Kind=Role";
  "rbac.authorization.k8s.io/v1, Kind=RoleBinding";
  "/v1, Kind=Secret";
  "/v1, Kind=ConfigMap";
  "/v1, Kind=ServiceAccount"
].
Definition excluded (gvk : GroupVersionKind) : bool :=
  bool_decide (GroupVersionKind_String gvk ∈ excludedGVKs).

(** [getRestMapper] of pkg/agent/agent.go. *)
Definition getRestMapper : M (result RESTMapper) :=
  r ← act (Lib CGetAPIGroupResources);
  match r with
  | GErr err => mret (GErr err)
  | GOk groupResources => mret (GOk (NewDiscoveryRESTMapper groupResources))
  end.

(** [a.restMapper, err = getRestMapper(..)]: on an error the field becomes nil
    (the error is logged). *)
Definition updateRestMapper : M unit :=
  r ← getRestMapper;
  match r with
  | GErr _ => act (MapperWrite None)
  | GOk m => act (MapperWrite (Some m))
  end.

(** [a.restMapper.KindFor(gvr)], a nil dereference when the field is nil. *)
Definition mapperKindFor (gvr : GroupVersionResource) : M (result GroupVersionKind) :=
  mapper ← act MapperRead;
  match mapper with
  | None => Crash PanicNilDeref
  | Some mapper => mret (KindFor mapper gvr)
  end.

Definition gvk_key (gvk : GroupVersionKind) : string :=
  KeyForGroupVersionKind (gvk_Group gvk) (gvk_Version gvk) (gvk_Kind gvk).

Definition startInformer (gvr : GroupVersionResource) (gvk : GroupVersionKind) (stopper : Chan) (restartable : bool)
    : M unit :=
  let key := gvk_key gvk in
  informer ← act (Lib (CNewInformer (negb restartable) gvr));
  _ ← act (SMSet FInformers key informer);
  _ ← act (Lib (CAddEventHandler informer));
  let lister := NewGenericLister informer gvr in
  _ ← act (SMSet FListers key lister);
  _ ← act (SMSet FStoppers key stopper);
  act (GoStmt (GInformerRun informer stopper)).

Definition startAppliedManifestWorkInformer (stopper : Chan) : M unit :=
  let gvr := GVR workv1_Group workv1_Version AppliedManifestWorkResource in
  let gvk := GVK (gvr_Group gvr) (gvr_Version gvr) AppliedManifestWorkKind in
  startInformer gvr gvk stopper false.

(** The body of the loop of [startInformers] for one resource of kind [gvk]. *)
Definition startObject (gvr : GroupVersionResource) (gvk : GroupVersionKind) (uid : string) : M unit :=
  let key := gvk_key gvk in
  _ ← act (UIDAdd key uid);
  count ← act (UIDCount key);
  if decide (count = 1) then
    stopper ← act ChanMake;
    startInformer gvr gvk stopper true
  else mret tt.

(** The loop of [startInformers], at position [i] of [gvrs]. *)
Fixpoint startInformers_loop (uids : list string) (i : nat) (gvrs : list GroupVersionResource) : M unit :=
  match gvrs with
  | [] => mret tt
  | gvr :: gvrs =>
      r ← mapperKindFor gvr;
      match r with
      | GErr _ => mret tt
      | GOk gvk =>
          if excluded gvk then startInformers_loop uids (S i) gvrs
          else
            uid ← lift (index uids i);
            _ ← startObject gvr gvk uid;
            startInformers_loop uids (S i) gvrs
      end
  end.

Definition startInformers (gvrs : list GroupVersionResource) (uids : list string) : M unit :=
  _ ← updateRestMapper;
  startInformers_loop uids 0 gvrs.

(** A key without a stopper: the error is logged and the assertion
    [stopper.(chan struct{})] on a nil interface panics. *)
Definition stopInformer (key : string) : M unit :=
  stopper ← act (SMGet FStoppers key);
  match stopper with
  | None => Crash PanicTypeAssert
  | Some stopper =>
      _ ← act (ChanClose stopper);
      _ ← act (SMDelete FInformers key);
      _ ← act (SMDelete FListers key);
      act (SMDelete FStoppers key)
  end.

(** The body of the loop of [stopInformers] for one tracked object of kind [gvk];
    the uid is read only when the key has an informer. *)
Definition stopObject (gvk : GroupVersionKind) (uid : outcome string) : M unit :=
  let key := gvk_key gvk in
  informer ← act (SMGet FInformers key);
  match informer with
  | None => mret tt
  | Some _ =>
      uid ← lift uid;
      _ ← act (UIDDelete key uid);
      count ← act (UIDCount key);
      if decide (count = 0) then stopInformer key else mret tt
  end.

(** The loop of [stopInformers]; false when it returned from the function. *)
Fixpoint stopInformers_loop (uids : list string) (i : nat) (gvrs : list GroupVersionResource) : M bool :=
  match gvrs with
  | [] => mret true
  | gvr :: gvrs =>
      r ← mapperKindFor gvr;
      match r with
      | GErr _ => mret false
      | GOk gvk =>
          _ ← stopObject gvk (index uids i);
          stopInformers_loop uids (S i) gvrs
      end
  end.

Definition stopInformers (appliedManifestInfo : AppliedManifestInfo) : M unit :=
  completed ← stopInformers_loop (ObjectUIDs appliedManifestInfo) 0 (GVRs appliedManifestInfo);
  if completed : bool then updateRestMapper else mret tt.
End informers.
