(* ===== verification/Lifecycle.v ===== *)
(** * The life cycle of the informers, run sequentially

    The invariant between the maps of the agent and its channels, the set of
    tracked objects that [objectsCount] stands for, and what [startInformers] and
    [stopInformers] do to it when no other goroutine interferes (interleavings are
    in [Races.v] and [Safety.v]). *)

From S2P Require Export Informers.

Section lifecycle.
Context {RT : GoRuntime} {K : Kube} {E : Type} `{Env : !Environment E}.
Implicit Types p : Process E.

Abbreviation run := (run (exec (E := E))).

(** ** The invariant *)

Definition tracked_uids p (key : string) : gset string := uids_of (objectsCount (agent p)) key.

Record lifecycle_inv p : Prop := {
  (* the three maps have the same keys *)
  inv_listers key : is_Some (listers (agent p) !! key) ↔ is_Some (stoppers (agent p) !! key);
  inv_informers key : is_Some (informers (agent p) !! key) ↔ is_Some (stoppers (agent p) !! key);
  (* the stoppers are open channels, one per key *)
  inv_open key c : stoppers (agent p) !! key = Some c → chans p !! c = Some false;
  inv_inj key key' c :
    stoppers (agent p) !! key = Some c → stoppers (agent p) !! key' = Some c → key = key';
  (* identities are allocated in order *)
  inv_fresh c : is_Some (chans p !! c) → (c < next p)%N;
  (* a kind has an informer exactly when an object of it is tracked *)
  inv_tracked key :
    key ≠ AppliedManifestWorkKey → is_Some (informers (agent p) !! key) ↔ tracked_uids p key ≠ ∅
}.

(** Every informer that has not been told to stop is the one its key refers to. *)
Definition no_leak p : Prop :=
  ∀ c, chans p !! c = Some false → ∃ key, stoppers (agent p) !! key = Some c.

(** ** Single steps *)

Lemma startInformer_run gvr gvk c b p :
  ∃ i e, run (startInformer gvr gvk c b) p = Done (tt,
    MkProcess (MkAgent (<[gvk_key gvk := NewGenericLister i gvr]> (listers (agent p)))
                       (<[gvk_key gvk := i]> (informers (agent p)))
                       (trackedAppliedManifests (agent p)) (objectsCount (agent p))
                       (<[gvk_key gvk := c]> (stoppers (agent p)))
                       (restMapper (agent p)) (initialized (agent p)))
      (chans p) (cells p) (next p) (spawned p ++ [GInformerRun i c]) e).
Proof.
  unfold startInformer. cbn. destruct (respond (CNewInformer (negb b) gvr) (env p)) as [i e1].
  cbn. destruct (respond (CAddEventHandler i) e1) as [[] e2]. cbn. eauto.
Qed.

#[local] Arguments startInformer : simpl never.
#[local] Arguments stopInformer : simpl never.

Lemma stopInformer_run key p c :
  stoppers (agent p) !! key = Some c → chans p !! c = Some false →
  run (stopInformer key) p = Done (tt,
    MkProcess (MkAgent (delete key (listers (agent p))) (delete key (informers (agent p)))
                       (trackedAppliedManifests (agent p)) (objectsCount (agent p))
                       (delete key (stoppers (agent p)))
                       (restMapper (agent p)) (initialized (agent p)))
      (<[c := true]> (chans p)) (cells p) (next p) (spawned p) (env p)).
Proof.
  intros Hs Hc. unfold stopInformer. cbn. unfold SafeMap_Get. rewrite Hs. cbn. by rewrite Hc.
Qed.

(** The maps after an informer has been started for [key] with a new channel. *)
Lemma inv_started p p' key l i c :
  lifecycle_inv p → key ≠ AppliedManifestWorkKey → chans p !! c = None → (c < next p')%N → (next p ≤ next p')%N →
  listers (agent p') = <[key := l]> (listers (agent p)) →
  informers (agent p') = <[key := i]> (informers (agent p)) →
  stoppers (agent p') = <[key := c]> (stoppers (agent p)) →
  chans p' = <[c := false]> (chans p) →
  (∀ k, k ≠ key → tracked_uids p' k = tracked_uids p k) → tracked_uids p' key ≠ ∅ →
  lifecycle_inv p'.
Proof.
  intros [Hl Hi Ho Hj Hf Ht] Hkey Hc Hcn Hn El Ei Es Ec Hu Hne. split.
  - intros k. rewrite El, Es, !lookup_insert_is_Some. rewrite Hl. tauto.
  - intros k. rewrite Ei, Es, !lookup_insert_is_Some. rewrite Hi. tauto.
  - intros k c'. rewrite Es, Ec, !lookup_insert_Some. intros [[-> ->]|[Hk Hs]]; [by left|].
    right. split; [|by eapply Ho]. intros ->. apply Ho in Hs. congruence.
  - intros k k' c'. rewrite Es, !lookup_insert_Some.
    intros [[<- <-]|[Hk Hs]] [[<- E']|[Hk' Hs']]; [done| | |by eapply Hj].
    + apply Ho in Hs'. congruence.
    + subst. apply Ho in Hs. congruence.
  - intros c'. rewrite Ec, lookup_insert_is_Some. intros [->|[_ Hc']]; [done|]. apply Hf in Hc'. lia.
  - intros k Hk. rewrite Ei, lookup_insert_is_Some. destruct (decide (k = key)) as [->|Hne']; [naive_solver|].
    rewrite Hu by done. rewrite <- Ht by done. naive_solver.
Qed.

(** The maps after only the set of a key that stays non-empty has changed. *)
Lemma inv_counted p p' key :
  lifecycle_inv p → key ≠ AppliedManifestWorkKey →
  listers (agent p') = listers (agent p) → informers (agent p') = informers (agent p) →
  stoppers (agent p') = stoppers (agent p) → chans p' = chans p → (next p ≤ next p')%N →
  (∀ k, k ≠ key → tracked_uids p' k = tracked_uids p k) →
  (tracked_uids p key ≠ ∅ ↔ tracked_uids p' key ≠ ∅) →
  lifecycle_inv p'.
Proof.
  intros [Hl Hi Ho Hj Hf Ht] Hkey El Ei Es Ec Hn Hu Hne. split; rewrite ?El, ?Ei, ?Es, ?Ec; auto.
  - intros c Hc. apply Hf in Hc. lia.
  - intros k Hk. destruct (decide (k = key)) as [->|Hk']; [by rewrite <- Hne, Ht|by rewrite Hu, Ht].
Qed.

(** The maps after the informer of [key] has been stopped. *)
Lemma inv_stopped p p' key c :
  lifecycle_inv p → key ≠ AppliedManifestWorkKey → stoppers (agent p) !! key = Some c →
  listers (agent p') = delete key (listers (agent p)) →
  informers (agent p') = delete key (informers (agent p)) →
  stoppers (agent p') = delete key (stoppers (agent p)) →
  chans p' = <[c := true]> (chans p) → (next p ≤ next p')%N →
  (∀ k, k ≠ key → tracked_uids p' k = tracked_uids p k) → tracked_uids p' key = ∅ →
  lifecycle_inv p'.
Proof.
  intros [Hl Hi Ho Hj Hf Ht] Hkey Hs El Ei Es Ec Hn Hu Hne. split.
  - intros k. rewrite El, Es, !lookup_delete_is_Some. rewrite Hl. tauto.
  - intros k. rewrite Ei, Es, !lookup_delete_is_Some. rewrite Hi. tauto.
  - intros k c'. rewrite Es, Ec, lookup_delete_Some. intros [Hk Hs'].
    rewrite lookup_insert_ne; [by eapply Ho|]. intros ->. apply Hk. by eapply Hj.
  - intros k k' c'. rewrite Es, !lookup_delete_Some. intros [_ ?] [_ ?]. by eapply Hj.
  - intros c'. rewrite Ec, lookup_insert_is_Some. intros [->|[_ Hc']]; [|apply Hf in Hc'; lia].
    pose proof (Ho _ _ Hs) as Hoc. specialize (Hf c' ltac:(eauto)). lia.
  - intros k Hk. rewrite Ei, lookup_delete_is_Some. destruct (decide (k = key)) as [->|Hne']; [naive_solver|].
    rewrite Hu by done. rewrite <- Ht by done. naive_solver.
Qed.

Lemma fresh_chan p : lifecycle_inv p → chans p !! next p = None.
Proof. intros Hinv. apply eq_None_not_Some. intros Hs. apply (inv_fresh _ Hinv) in Hs. lia. Qed.

Lemma one_tracked (X : gset string) uid : size ({[uid]} ∪ X) = 1 ↔ X = ∅ ∨ X = {[uid]}.
Proof.
  split.
  - intros [x Hx]%size_1_elem_of. destruct (decide (X = ∅)) as [->|[y Hy]%set_choose_L]; [by left|].
    right. assert (uid = x) as -> by set_solver. assert (y = x) as -> by set_solver. set_solver.
  - intros [-> | ->]; [rewrite union_empty_r_L|rewrite union_idemp_L]; apply size_singleton.
Qed.

Lemma startObject_run gvr gvk uid p :
  lifecycle_inv p → gvk_key gvk ≠ AppliedManifestWorkKey →
  ∃ p', run (startObject gvr gvk uid) p = Done (tt, p') ∧ lifecycle_inv p' ∧
    restMapper (agent p') = restMapper (agent p) ∧
    trackedAppliedManifests (agent p') = trackedAppliedManifests (agent p) ∧
    (∀ key, tracked_uids p' key = if decide (gvk_key gvk = key) then {[uid]} ∪ tracked_uids p key else tracked_uids p key) ∧
    (no_leak p → tracked_uids p (gvk_key gvk) ≠ {[uid]} → no_leak p').
Proof.
  intros Hinv Hkey. unfold startObject. cbn.
  assert (∀ key, uids_of (AddUID (objectsCount (agent p)) (gvk_key gvk) uid) key =
    if decide (gvk_key gvk = key) then {[uid]} ∪ tracked_uids p key else tracked_uids p key) as Hu
    by (intros; apply uids_of_AddUID).
  destruct (decide (GetUIDCount _ (gvk_key gvk) = 1)) as [H1|H1]; cbn.
  - match goal with |- context [Runtime.run _ (startInformer _ _ _ _) ?q] =>
      destruct (startInformer_run gvr gvk (next p) true q) as (i & e & ->) end.
    eexists. split; [done|]. split; [|split; [done|split; [done|split; [done|]]]].
    + eapply (inv_started p _ (gvk_key gvk)); cbn; try done; [by apply fresh_chan|lia|lia| |].
      * intros k Hk. unfold tracked_uids at 1. cbn. rewrite Hu. by rewrite decide_False.
      * unfold tracked_uids. cbn. rewrite Hu, decide_True by done. set_solver.
    + intros Hleak Hne c. cbn. rewrite lookup_insert_Some. intros [[<- _]|[Hc Hcl]].
      * exists (gvk_key gvk). apply lookup_insert_eq.
      * destruct (Hleak c Hcl) as [key Hk]. exists key. rewrite lookup_insert_ne; [done|]. intros <-.
        rewrite GetUIDCount_uids, Hu, decide_True in H1 by done.
        apply one_tracked in H1 as [He|He]; [|done].
        apply (inv_tracked _ Hinv (gvk_key gvk)); [done| |done].
        apply (inv_informers _ Hinv). eauto.
  - eexists. split; [done|]. split; [|split; [done|split; [done|split; [done|done]]]].
    eapply (inv_counted p _ (gvk_key gvk)); cbn; try done.
    + intros k Hk. unfold tracked_uids at 1. cbn. rewrite Hu. by rewrite decide_False.
    + unfold tracked_uids at 2. cbn. rewrite Hu, decide_True by done.
      rewrite GetUIDCount_uids, Hu, decide_True, one_tracked in H1 by done. set_solver.
Qed.

Lemma stopObject_run gvk uid p :
  lifecycle_inv p → gvk_key gvk ≠ AppliedManifestWorkKey →
  ∃ p', run (stopObject gvk (Done uid)) p = Done (tt, p') ∧ lifecycle_inv p' ∧
    restMapper (agent p') = restMapper (agent p) ∧
    trackedAppliedManifests (agent p') = trackedAppliedManifests (agent p) ∧
    spawned p' = spawned p ∧
    (∀ key, tracked_uids p' key = if decide (gvk_key gvk = key) then tracked_uids p key ∖ {[uid]} else tracked_uids p key) ∧
    (no_leak p → no_leak p').
Proof.
  intros Hinv Hkey. unfold stopObject. cbn. unfold SafeMap_Get.
  assert (∀ key, uids_of (DeleteUID (objectsCount (agent p)) (gvk_key gvk) uid) key =
    if decide (gvk_key gvk = key) then tracked_uids p key ∖ {[uid]} else tracked_uids p key) as Hu
    by (intros; apply uids_of_DeleteUID).
  destruct (informers (agent p) !! gvk_key gvk) as [inf|] eqn:Ei; cbn.
  2:{ eexists. split; [done|]. split_and!; try done. intros key. case_decide as Hk; [subst|done].
      assert (tracked_uids p (gvk_key gvk) = ∅); [|set_solver].
      destruct (decide (tracked_uids p (gvk_key gvk) = ∅)) as [|Hne]; [done|].
      apply (inv_tracked _ Hinv) in Hne; [|done]. rewrite Ei in Hne. by destruct Hne. }
  destruct (decide (GetUIDCount _ (gvk_key gvk) = 0)) as [H0|H0]; cbn.
  - assert (is_Some (stoppers (agent p) !! gvk_key gvk)) as [c Hc]
      by (apply (inv_informers _ Hinv); eauto).
    rewrite (stopInformer_run _ _ c); [|done|exact (inv_open _ Hinv _ _ Hc)]. cbn.
    rewrite GetUIDCount_uids, Hu, decide_True in H0 by done. apply size_empty_inv in H0.
    eexists. split; [done|]. split_and!; try done.
    + eapply (inv_stopped p _ (gvk_key gvk) c); cbn; try done.
      * intros k Hk. unfold tracked_uids at 1. cbn. rewrite Hu. by rewrite decide_False.
      * unfold tracked_uids. cbn. rewrite Hu, decide_True by done. by apply leibniz_equiv.
    + intros Hleak c'. cbn. rewrite lookup_insert_Some. intros [[? ?]|[Hne Hcl]]; [done|].
      destruct (Hleak c' Hcl) as [key Hk]. exists key. rewrite lookup_delete_ne; [done|]. intros <-. congruence.
  - eexists. split; [done|]. split_and!; try done.
    eapply (inv_counted p _ (gvk_key gvk)); cbn; try done.
    + intros k Hk. unfold tracked_uids at 1. cbn. rewrite Hu. by rewrite decide_False.
    + unfold tracked_uids at 2. cbn. rewrite GetUIDCount_uids, Hu, decide_True in H0 by done.
      rewrite Hu, decide_True by done. apply size_non_empty_iff in H0. set_solver.
Qed.

(** ** The loops, against a discovery that knows the kinds *)

(** The part of the API server's resources that discovery always finds. *)
Variable known : GroupVersionResource → option GroupVersionKind.

Definition resolves (m : RESTMapper) : Prop :=
  ∀ gvr gvk, known gvr = Some gvk → KindFor m gvr = GOk gvk.
Definition mapper_ok p : Prop := ∃ m, restMapper (agent p) = Some m ∧ resolves m.

(** From an environment that is [good], discovery always answers, with at least
    the known resources. *)
Record StableDiscovery (good : E → Prop) : Prop := {
  stable_step R (c : Call R) e : good e → good (respond c e).2;
  stable_ok e : good e →
    ∃ gr e', respond CGetAPIGroupResources e = (GOk gr, e') ∧ resolves (NewDiscoveryRESTMapper gr)
}.

Lemma run_env (good : E → Prop) {A} (t : prog Op A) p a p' :
  (∀ R (c : Call R) e, good e → good (respond c e).2) →
  run t p = Done (a, p') → good (env p) → good (env p').
Proof.
  intros Hg. revert p. induction t as [b|q|R o k IH]; intros p; cbn; [by intros [= <- <-]|done|].
  destruct (exec R o p) as [[r p1]|q] eqn:Ee; [|done]. intros Hr Hp. eapply (IH r); [done|].
  destruct o; cbn in Ee; simplify_eq/=; try done.
  - destruct (chans p !! c) as [[]|]; by simplify_eq/=.
  - destruct (cells p !! addr); by simplify_eq/=.
  - match goal with c : Call _ |- _ => specialize (Hg _ c (env p) Hp); destruct (respond c (env p)) end.
    by simplify_eq/=.
Qed.

(** Every resource is known, and none of them is the agent's own. *)
Definition known_objects (gvrs : list GroupVersionResource) : Prop :=
  Forall (λ gvr, ∃ gvk, known gvr = Some gvk ∧ gvk_key gvk ≠ AppliedManifestWorkKey) gvrs.

(** Object [uid] of a kind with key [key] is among the entries. *)
Definition listed (entries : list (string * GroupVersionResource)) (key uid : string) : Prop :=
  ∃ gvr gvk, (uid, gvr) ∈ entries ∧ known gvr = Some gvk ∧ gvk_key gvk = key.
Definition listed_tracked (entries : list (string * GroupVersionResource)) (key uid : string) : Prop :=
  ∃ gvr gvk, (uid, gvr) ∈ entries ∧ known gvr = Some gvk ∧ excluded gvk = false ∧ gvk_key gvk = key.

Lemma updateRestMapper_run good p :
  StableDiscovery good → good (env p) → ∃ e m, resolves m ∧ run updateRestMapper p =
    Done (tt, MkProcess (set_restMapper (agent p) (Some m)) (chans p) (cells p) (next p) (spawned p) e).
Proof.
  intros Hd Hg. destruct (stable_ok _ Hd _ Hg) as (gr & e' & Hr & Hm). unfold updateRestMapper, getRestMapper. cbn.
  rewrite Hr. cbn. eauto.
Qed.

Lemma mapperKindFor_run p gvr gvk :
  mapper_ok p → known gvr = Some gvk → run (mapperKindFor gvr) p = Done (GOk gvk, p).
Proof. intros (m & Hm & Hr) Hk. unfold mapperKindFor. cbn. rewrite Hm. cbn. by rewrite (Hr _ _ Hk). Qed.

Lemma lifecycle_inv_mapper p m e :
  lifecycle_inv p →
  lifecycle_inv (MkProcess (set_restMapper (agent p) m) (chans p) (cells p) (next p) (spawned p) e).
Proof. intros []. by split. Qed.
End lifecycle.
