(* ===== verification/LifecycleProps.v ===== *)
(** * What [startInformers] and [stopInformers] promise

    The loops over the resources of an AppliedManifestWork, run sequentially:
    refinement of a map from kinds to sets of objects, no leaked informer, and the
    two situations in which the code breaks these promises. *)

From S2P Require Export Lifecycle SimEnv.

Section lifecycle_props.
Context {RT : GoRuntime} {K : Kube} {E : Type} `{Env : !Environment E}.
Context (known : GroupVersionResource → option GroupVersionKind).
Context (good : E → Prop).
Implicit Types p : Process E.
Abbreviation run := (run (exec (E := E))).
Abbreviation listed := (listed known).
Abbreviation listed_tracked := (listed_tracked known).

#[local] Arguments startObject : simpl never.
#[local] Arguments stopObject : simpl never.
#[local] Arguments mapperKindFor : simpl never.
#[local] Arguments startInformer : simpl never.
#[local] Arguments updateRestMapper : simpl never.

Lemma listed_tracked_cons gvr gvk uid l key u :
  known gvr = Some gvk →
  listed_tracked ((uid, gvr) :: l) key u ↔
  (excluded gvk = false ∧ gvk_key gvk = key ∧ u = uid) ∨ listed_tracked l key u.
Proof.
  intros Hk. split.
  - intros (gvr' & gvk' & [[= -> ->]|Hin]%elem_of_cons & Hk' & Hex & He); simplify_eq; [by left|].
    right. by exists gvr', gvk'.
  - intros [(Hex & He & ->)|(gvr' & gvk' & Hin & H)]; [exists gvr, gvk|exists gvr', gvk']; set_solver.
Qed.

Lemma listed_cons gvr gvk uid l key u :
  known gvr = Some gvk →
  listed ((uid, gvr) :: l) key u ↔ (gvk_key gvk = key ∧ u = uid) ∨ listed l key u.
Proof.
  intros Hk. split.
  - intros (gvr' & gvk' & [[= -> ->]|Hin]%elem_of_cons & Hk' & He); simplify_eq; [by left|].
    right. by exists gvr', gvk'.
  - intros [(He & ->)|(gvr' & gvk' & Hin & H)]; [exists gvr, gvk|exists gvr', gvk']; set_solver.
Qed.

Lemma startInformers_loop_run gvrs uids i p :
  lifecycle_inv p → mapper_ok known p → known_objects known gvrs → length uids = i + length gvrs →
  ∃ p', run (startInformers_loop uids i gvrs) p = Done (tt, p') ∧ lifecycle_inv p' ∧ mapper_ok known p' ∧
    trackedAppliedManifests (agent p') = trackedAppliedManifests (agent p) ∧
    (∀ key u, u ∈ tracked_uids p' key ↔ u ∈ tracked_uids p key ∨ listed_tracked (zip (drop i uids) gvrs) key u) ∧
    (no_leak p → NoDup (drop i uids) → (∀ key u, u ∈ drop i uids → u ∉ tracked_uids p key) → no_leak p').
Proof.
  revert i p. induction gvrs as [|gvr gvrs IH]; intros i p Hinv Hm Hkn Hlen.
  { exists p. split; [done|]. split_and!; try done. intros key u. split; [by left|].
    intros [?|(? & ? & Hin & _)]; [done|]. by rewrite zip_with_nil_r in Hin; apply elem_of_nil in Hin. }
  apply Forall_cons in Hkn as [(gvk & Hk & Hkey) Hkn].
  destruct (lookup_lt_is_Some_2 uids i) as [uid Hu]; [simpl in *; lia|].
  rewrite (drop_S _ uid) by done. cbn [zip zip_with startInformers_loop].
  rewrite run_bind, (mapperKindFor_run known _ _ gvk) by done. cbn.
  destruct (excluded gvk) eqn:Hex.
  - destruct (IH (S i) p) as (p' & Hrun & ? & ? & ? & Ht & Hl); [done..|simpl in *; lia|].
    exists p'. split_and!; try done.
    + intros key u. rewrite Ht, (listed_tracked_cons _ gvk) by done. clear -Hex. intuition congruence.
    + intros Hleak [_ Hnd]%NoDup_cons Hnew. apply Hl; [done..|].
      intros key u Hin. apply Hnew, elem_of_cons. by right.
  - unfold index. rewrite Hu. cbn. rewrite run_bind.
    destruct (startObject_run gvr gvk uid p) as (p1 & -> & Hinv1 & Hm1 & Ha1 & Ht1 & Hl1); [done..|]. cbn.
    destruct (IH (S i) p1) as (p' & Hrun & ? & ? & Ha & Ht & Hl);
      [done|unfold mapper_ok; by rewrite Hm1|done|simpl in *; lia|].
    exists p'. split_and!; try done; [congruence| |].
    + intros key u. rewrite Ht, (listed_tracked_cons _ gvk), Ht1 by done.
      case_decide as Hd; [rewrite elem_of_union, elem_of_singleton|]; clear -Hex Hd; intuition congruence.
    + intros Hleak [Hni Hnd]%NoDup_cons Hnew. apply Hl; [|done|].
      * apply Hl1; [done|]. specialize (Hnew (gvk_key gvk) uid). set_solver.
      * intros key u Hin. rewrite Ht1. specialize (Hnew key u).
        assert (u ≠ uid) by congruence.
        case_decide; [rewrite elem_of_union, elem_of_singleton|]; intuition eauto using list_elem_of_further.
Qed.

Lemma stopInformers_loop_run gvrs uids i p :
  lifecycle_inv p → mapper_ok known p → known_objects known gvrs → length uids = i + length gvrs →
  ∃ p', run (stopInformers_loop uids i gvrs) p = Done (true, p') ∧ lifecycle_inv p' ∧
    trackedAppliedManifests (agent p') = trackedAppliedManifests (agent p) ∧ spawned p' = spawned p ∧
    (∀ key u, u ∈ tracked_uids p' key ↔ u ∈ tracked_uids p key ∧ ¬ listed (zip (drop i uids) gvrs) key u) ∧
    (no_leak p → no_leak p').
Proof.
  revert i p. induction gvrs as [|gvr gvrs IH]; intros i p Hinv Hm Hkn Hlen.
  { exists p. split; [done|]. split_and!; try done. intros key u. split; [|by intros []].
    intros ?. split; [done|]. intros (? & ? & Hin & _). by rewrite zip_with_nil_r in Hin; apply elem_of_nil in Hin. }
  apply Forall_cons in Hkn as [(gvk & Hk & Hkey) Hkn].
  destruct (lookup_lt_is_Some_2 uids i) as [uid Hu]; [simpl in *; lia|].
  rewrite (drop_S _ uid) by done. cbn [zip zip_with stopInformers_loop].
  rewrite run_bind, (mapperKindFor_run known _ _ gvk) by done. cbn.
  unfold index at 1. rewrite Hu, run_bind.
  destruct (stopObject_run gvk uid p) as (p1 & -> & Hinv1 & Hm1 & Ha1 & Hs1 & Ht1 & Hl1); [done..|]. cbn.
  destruct (IH (S i) p1) as (p' & Hrun & ? & Ha & Hs & Ht & Hl);
    [done|unfold mapper_ok; by rewrite Hm1|done|simpl in *; lia|].
  exists p'. split_and!; try done; [congruence..| |auto].
  intros key u. rewrite Ht, (listed_cons _ gvk), Ht1 by done.
  case_decide as Hd; [rewrite elem_of_difference, elem_of_singleton|]; clear -Hd; intuition congruence.
Qed.

Lemma startInformers_run gvrs uids p :
  StableDiscovery known good → good (env p) → lifecycle_inv p → known_objects known gvrs → length uids = length gvrs →
  ∃ p', run (startInformers gvrs uids) p = Done (tt, p') ∧ lifecycle_inv p' ∧ mapper_ok known p' ∧
    trackedAppliedManifests (agent p') = trackedAppliedManifests (agent p) ∧
    (∀ key u, u ∈ tracked_uids p' key ↔ u ∈ tracked_uids p key ∨ listed_tracked (zip uids gvrs) key u) ∧
    (no_leak p → NoDup uids → (∀ key u, u ∈ uids → u ∉ tracked_uids p key) → no_leak p').
Proof.
  intros Hd Hg Hinv Hkn Hlen. unfold startInformers. rewrite run_bind.
  destruct (updateRestMapper_run known good p Hd Hg) as (e & m & Hm & ->). cbn.
  set (p1 := MkProcess _ _ _ _ _ _).
  destruct (startInformers_loop_run gvrs uids 0 p1) as (p' & ?);
    [by apply (lifecycle_inv_mapper p)|by exists m|done|done|by exists p'].
Qed.

(** C13: with a discovery that knows the resources, [startInformers] returns (no
    panic), keeps the invariant of the informer maps, and refines the addition of
    objects to the sets of tracked objects: afterwards an object is tracked under
    a kind exactly when it was, or it is listed with a resource of that kind that
    is not excluded.  The informer map then has a kind exactly when one of its
    objects is tracked. *)
Theorem startInformers_refines gvrs uids p :
  StableDiscovery known good → good (env p) → lifecycle_inv p → known_objects known gvrs → length uids = length gvrs →
  ∃ p', run (startInformers gvrs uids) p = Done (tt, p') ∧ lifecycle_inv p' ∧
    trackedAppliedManifests (agent p') = trackedAppliedManifests (agent p) ∧
    (∀ key u, u ∈ tracked_uids p' key ↔ u ∈ tracked_uids p key ∨ listed_tracked (zip uids gvrs) key u) ∧
    (∀ key, key ≠ AppliedManifestWorkKey → is_Some (informers (agent p') !! key) ↔
       ∃ u, u ∈ tracked_uids p key ∨ listed_tracked (zip uids gvrs) key u).
Proof.
  intros Hd Hg Hinv Hkn Hlen.
  destruct (startInformers_run gvrs uids p) as (p' & -> & Hinv' & _ & Ha & Ht & _); [done..|].
  exists p'. split_and!; try done. intros key Hkey. rewrite (inv_tracked _ Hinv') by done.
  setoid_rewrite <- (Ht key). split; [by intros ?%set_choose_L|set_solver].
Qed.

(** When the listed objects are distinct and none of them is tracked yet,
    [startInformers] leaks no informer: every stop channel that is still open is
    the one the maps have for its kind, so that [stopInformers] can close it. *)
Lemma startInformers_no_leak gvrs uids p p' :
  StableDiscovery known good → good (env p) → lifecycle_inv p → no_leak p → known_objects known gvrs → length uids = length gvrs →
  NoDup uids → (∀ key u, u ∈ uids → u ∉ tracked_uids p key) →
  run (startInformers gvrs uids) p = Done (tt, p') →
  no_leak p'.
Proof.
  intros Hd Hg Hinv Hleak Hkn Hlen Hnd Hnew.
  destruct (startInformers_run gvrs uids p) as (p1 & -> & _ & _ & _ & _ & Hl); [done..|].
  intros [= <-]. by apply Hl.
Qed.

Lemma stopInformers_run info p :
  StableDiscovery known good → good (env p) → lifecycle_inv p → mapper_ok known p →
  known_objects known (GVRs info) → info_wf info →
  ∃ p', run (stopInformers info) p = Done (tt, p') ∧ lifecycle_inv p' ∧ mapper_ok known p' ∧
    trackedAppliedManifests (agent p') = trackedAppliedManifests (agent p) ∧
    spawned p' = spawned p ∧ (no_leak p → no_leak p') ∧
    (∀ key u, u ∈ tracked_uids p' key ↔ u ∈ tracked_uids p key ∧ ¬ listed (entries info) key u).
Proof.
  intros Hd Hg Hinv Hm Hkn Hwf. unfold stopInformers. rewrite run_bind.
  destruct (stopInformers_loop_run (GVRs info) (ObjectUIDs info) 0 p)
    as (p1 & Hr1 & Hinv1 & Ha1 & Hs1 & Ht1 & Hl1); [done..|]. rewrite Hr1. cbn.
  destruct (updateRestMapper_run known good p1 Hd) as (e & m & Hm1 & ->);
    [by eapply run_env; [apply Hd|..]|].
  eexists. split; [done|]. split; [by apply lifecycle_inv_mapper|].
  split_and!; try done. by exists m.
Qed.

(** C14: with a discovery that knows the resources, [stopInformers] returns (no
    panic, no channel closed twice), keeps the invariant, leaks nothing, starts
    nothing, and refines the removal of objects: afterwards an object is tracked
    exactly when it was and is not listed.  The informers of the kinds without
    objects are gone. *)
Theorem stopInformers_refines info p :
  StableDiscovery known good → good (env p) → lifecycle_inv p → mapper_ok known p →
  known_objects known (GVRs info) → info_wf info →
  ∃ p', run (stopInformers info) p = Done (tt, p') ∧ lifecycle_inv p' ∧ mapper_ok known p' ∧
    spawned p' = spawned p ∧ (no_leak p → no_leak p') ∧
    (∀ key u, u ∈ tracked_uids p' key ↔ u ∈ tracked_uids p key ∧ ¬ listed (entries info) key u) ∧
    (∀ key, key ≠ AppliedManifestWorkKey → is_Some (informers (agent p') !! key) ↔
       ∃ u, u ∈ tracked_uids p key ∧ ¬ listed (entries info) key u).
Proof.
  intros Hd Hg Hinv Hm Hkn Hwf.
  destruct (stopInformers_run info p) as (p' & Hr & Hinv' & Hm' & Ha & Hs & Hl & Ht); [done..|].
  exists p'. split_and!; try done. intros key Hkey. rewrite (inv_tracked _ Hinv') by done.
  setoid_rewrite <- (Ht key). split; [by intros ?%set_choose_L|set_solver].
Qed.

(** A failed discovery breaks the agent: the error of [getRestMapper] is
    logged, the mapper becomes nil and the first use of it panics, whatever
    resources and state [startInformers] is called with. *)
Lemma startInformers_discovery_failure gvr gvrs uids p err e' :
  respond CGetAPIGroupResources (env p) = (GErr err, e') →
  run (startInformers (gvr :: gvrs) uids) p = Panic PanicNilDeref.
Proof. intros Hr. unfold startInformers, updateRestMapper, getRestMapper. cbn. by rewrite Hr. Qed.

(** Starting informers again for the only tracked object of a kind starts a
    second informer: the count of the kind is 1 although its informer is running.
    The maps keep the new stop channel and lose the old one, which stays open and
    which nothing can close any more. *)
Lemma startInformers_again_leaks gvr gvk uid key c p :
  StableDiscovery known good → good (env p) → lifecycle_inv p → known gvr = Some gvk → excluded gvk = false →
  gvk_key gvk = key → key ≠ AppliedManifestWorkKey →
  tracked_uids p key = {[uid]} → stoppers (agent p) !! key = Some c →
  ∃ p', run (startInformers [gvr] [uid]) p = Done (tt, p') ∧
    chans p' !! c = Some false ∧ (∀ key', stoppers (agent p') !! key' ≠ Some c).
Proof.
  intros Hd Hg Hinv Hk Hex <- Hkey Ht Hc. unfold startInformers. rewrite run_bind.
  destruct (updateRestMapper_run known good p Hd Hg) as (e & m & Hm & ->). cbn.
  rewrite run_bind, (mapperKindFor_run known _ _ gvk); [|by exists m|done]. cbn. rewrite Hex. cbn.
  rewrite run_bind. unfold startObject. cbn. rewrite decide_True.
  2:{ rewrite GetUIDCount_uids, uids_of_AddUID, decide_True by done. apply one_tracked. right. apply Ht. }
  cbn. match goal with |- context [Runtime.run _ (startInformer _ _ _ _) ?q] =>
      destruct (startInformer_run gvr gvk (next p) true q) as (i & e1 & ->) end.
  cbn. eexists. split; [done|]. cbn.
  assert (c ≠ next p) as Hne.
  { intros ->. pose proof (inv_fresh _ Hinv (next p)) as Hf. rewrite (inv_open _ Hinv _ _ Hc) in Hf.
    specialize (Hf ltac:(eauto)). lia. }
  split; [by rewrite lookup_insert_ne, (inv_open _ Hinv _ _ Hc)|].
  intros key' [[? ?]|[Hk' Hs]]%lookup_insert_Some; [done|]. apply Hk'. by eapply inv_inj.
Qed.
End lifecycle_props.

(** ** Closed instances *)

Definition sc_known (gvr : GroupVersionResource) : option GroupVersionKind :=
  if decide (gvr = sc_gvr) then Some sc_gvk else None.
Definition sc_good (e : SimEnv) : Prop := se_discovery e = GOk sc_table.

Lemma sc_stable : StableDiscovery sc_known sc_good.
Proof.
  split.
  - intros R c e He. destruct c; try done; unfold sc_good in *; cbn; unfold sim_write; cbn;
      repeat case_match; by simplify_eq/=.
  - intros e He. eexists _, _. split; [cbn; unfold sc_good in He; by rewrite He|].
    intros gvr gvk. unfold sc_known. by case_decide; intros [= <-]; subst.
Qed.

Definition sc_empty : Process SimEnv := sim_process sc_table (sc_env [] [] [] [] None []).
(** After [startInformers] for one deployment. *)
Definition sc_started : Process SimEnv :=
  match run (exec (E := SimEnv)) (startInformers [sc_gvr] ["dep-uid"]) sc_empty with
  | Done (_, p) => p
  | Panic _ => sc_empty
  end.

Lemma sc_empty_inv : lifecycle_inv sc_empty ∧ no_leak sc_empty.
Proof.
  split; [split|]; intros *; unfold tracked_uids, uids_of; cbn; rewrite ?lookup_empty; cbn; try done.
Qed.

Lemma sc_known_objects : known_objects sc_known [sc_gvr].
Proof. constructor; [|done]. by exists sc_gvk. Qed.

Lemma sc_empty_new key u : u ∈ ["dep-uid"] → u ∉ tracked_uids sc_empty key.
Proof. intros _. unfold tracked_uids, uids_of. cbn. rewrite lookup_empty. apply not_elem_of_empty. Qed.

Lemma sc_started_run :
  run (exec (E := SimEnv)) (startInformers [sc_gvr] ["dep-uid"]) sc_empty = Done (tt, sc_started) ∧
  lifecycle_inv sc_started ∧ no_leak sc_started.
Proof.
  destruct (startInformers_run sc_known sc_good [sc_gvr] ["dep-uid"] sc_empty sc_stable eq_refl
    (proj1 sc_empty_inv) sc_known_objects eq_refl) as (p' & Hr & Hi & _ & _ & _ & Hl).
  assert (sc_started = p') as -> by (unfold sc_started; by rewrite Hr).
  split; [done|]. split; [done|]. apply Hl; [apply sc_empty_inv|apply NoDup_singleton|apply sc_empty_new].
Qed.

Lemma startInformers_refines_witness :
  ∃ p', run (exec (E := SimEnv)) (startInformers [sc_gvr] ["dep-uid"]) sc_empty = Done (tt, p') ∧
    ∀ u, u ∈ tracked_uids p' sc_key ↔ u ∈ tracked_uids sc_empty sc_key ∨ listed_tracked sc_known [("dep-uid", sc_gvr)] sc_key u.
Proof.
  destruct (startInformers_refines sc_known sc_good [sc_gvr] ["dep-uid"] sc_empty sc_stable eq_refl
    (proj1 sc_empty_inv) sc_known_objects eq_refl) as (p' & Hr & _ & _ & Ht & _).
  exists p'. split; [exact Hr|]. intros u. apply Ht.
Defined.

Lemma startInformers_no_leak_witness : no_leak sc_started.
Proof.
  apply (startInformers_no_leak sc_known sc_good [sc_gvr] ["dep-uid"] sc_empty sc_started sc_stable eq_refl
    (proj1 sc_empty_inv) (proj2 sc_empty_inv) sc_known_objects eq_refl).
  - apply NoDup_singleton.
  - apply sc_empty_new.
  - apply sc_started_run.
Defined.

Lemma stopInformers_refines_witness :
  ∃ p', run (exec (E := SimEnv)) (stopInformers (MkInfo ["dep-uid"] [sc_gvr])) sc_started = Done (tt, p') ∧
    lifecycle_inv p' ∧ no_leak p' ∧ spawned p' = [GInformerRun 0%N 0%N].
Proof.
  destruct (stopInformers_refines sc_known sc_good (MkInfo ["dep-uid"] [sc_gvr]) sc_started sc_stable
    ltac:(vm_compute; reflexivity) (proj1 (proj2 sc_started_run)))
    as (p' & Hr & Hi & _ & Hs & Hl & _).
  - exists sc_table. split; [vm_compute; reflexivity|].
    intros gvr gvk. unfold sc_known. case_decide; [|discriminate]. intros [= <-]. subst. reflexivity.
  - apply sc_known_objects.
  - reflexivity.
  - exists p'. split; [exact Hr|]. split; [exact Hi|]. split; [apply Hl, sc_started_run|].
    rewrite Hs. vm_compute. reflexivity.
Defined.

Lemma startInformers_discovery_failure_witness :
  run (exec (E := SimEnv)) (startInformers [sc_gvr] ["dep-uid"])
    (sim_process sc_table (MkSimEnv 0 (GErr (ErrLib false "discovery failed")) [] ∅ ∅ ∅ None [] [])) = Panic PanicNilDeref.
Proof. eapply (startInformers_discovery_failure sc_gvr []). reflexivity. Defined.

Lemma startInformers_again_leaks_witness :
  ∃ p', run (exec (E := SimEnv)) (startInformers [sc_gvr] ["dep-uid"]) sc_started = Done (tt, p') ∧ ¬ no_leak p'.
Proof.
  destruct (startInformers_again_leaks sc_known sc_good sc_gvr sc_gvk "dep-uid" sc_key 0%N sc_started sc_stable
    ltac:(vm_compute; reflexivity) (proj1 (proj2 sc_started_run)) eq_refl eq_refl eq_refl) as (p' & Hr & Hc & Hs).
  - vm_compute. discriminate.
  - vm_compute. reflexivity.
  - vm_compute. reflexivity.
  - exists p'. split; [exact Hr|]. intros Hl. destruct (Hl _ Hc) as [key Hk]. by apply (Hs key).
Defined.
