(* ===== verification/Reconcilers.v ===== *)
(** * pkg/agent/reconcilers.go: reconcile and handleAppliedManifestWork *)

From S2P Require Export Informers WorkStatuses.

Section reconcilers.
Context {RT : GoRuntime} {K : Kube}.
Abbreviation M := (prog Op).

(** The pair (requeue, err) that a reconciler returns. *)
Definition handleAppliedManifestWork (obj : Object) (isBeingDeleted : bool) : M (bool * option error) :=
  u ← lift (as_unstructured obj);
  match ToAppliedManifestWork u with
  | GErr err => mret (true, Some err)
  | GOk aWork =>
      if isBeingDeleted then
        oldinfo ← act (SMGet FTracked (GetName obj));
        match oldinfo with
        | None => mret (false, None)
        | Some appliedManifestWorkInfo =>
            _ ← stopInformers appliedManifestWorkInfo;
            _ ← act (SMDelete FTracked (GetName obj));
            mret (false, None)
        end
      else
        let gvrs := ListGVRs aWork in
        if decide (length gvrs = 0) then mret (true, None)
        else
          let uids := GetTrackedObjectsUID aWork in
          let info := MkInfo uids gvrs in
          oldinfo ← act (SMGet FTracked (GetName obj));
          match oldinfo with
          | Some oldinfo =>
              if decide (info = oldinfo) then mret (false, None)
              else
                seed_base ← act (Lib CSeed);
                seed_updated ← act (Lib CSeed);
                diff ← lift (GetAddedRemovedInfo seed_base seed_updated oldinfo info);
                let '(addedInfo, removedInfo) := diff in
                _ ← act (SMSet FTracked (GetName obj) info);
                _ ← act (GoStmt (GStartInformers (GVRs addedInfo) (ObjectUIDs addedInfo)));
                _ ← stopInformers removedInfo;
                mret (false, None)
          | None =>
              _ ← act (SMSet FTracked (GetName obj) info);
              _ ← act (GoStmt (GStartInformers gvrs uids));
              mret (false, None)
          end
  end.

(** The part of [reconcile] after the object has been found. *)
Definition reconcileObject (cfg : AgentConfig) (obj : Object) (isBeingDeleted : bool) : M (bool * option error) :=
  if IsAppliedManifestWork (VObject obj) then handleAppliedManifestWork obj isBeingDeleted
  else if negb (IsManagedByAppliedManifestWork obj) then mret (false, None)
  else
    err ← handleWorkStatus cfg obj isBeingDeleted;
    mret (false, err).

Definition reconcile (cfg : AgentConfig) (key : Key) : M (bool * option error) :=
  r ← GetObjectFromKey key;
  match r with
  | GOk obj => reconcileObject cfg obj false
  | GErr err =>
      if IsNotFound err then
        match DeletedObject key with
        | Some addr => obj ← act (CellRead addr); reconcileObject cfg obj true
        | None => mret (false, None)
        end
      else if IsListerNotFound err then mret (false, None)
      else mret (true, Some err)
  end.
End reconcilers.
