(* ===== verification/Manifests.v ===== *)
(** * Keeping the informers in step with the applied manifest works

    [handleAppliedManifestWork] followed by the goroutine it starts: the abstract
    state is the table of tracked manifests, and the promise is that the tracked
    objects of each kind, hence the running informers, are those the table lists. *)

From S2P Require Export Reconcilers LifecycleProps.

Section manifests.
Context {RT : GoRuntime} {K : Kube} {E : Type} `{Env : !Environment E}.
Context (known : GroupVersionResource → option GroupVersionKind) (good : E → Prop).
Implicit Types p : Process E.
Abbreviation run := (run (exec (E := E))).
Abbreviation listed := (listed known).
Abbreviation listed_tracked := (listed_tracked known).

(** The goroutines of a handler that start informers, run one after the other;
    the library's own loop of an informer does nothing to the agent's state. *)
Fixpoint run_started (gs : list Goroutine) : prog Op unit :=
  match gs with
  | [] => mret tt
  | GStartInformers gvrs uids :: gs => _ ← startInformers gvrs uids; run_started gs
  | _ :: gs => run_started gs
  end.

(** The process when its environment has moved on and its goroutines are [gs]. *)
Definition resume p (gs : list Goroutine) (e : E) : Process E :=
  MkProcess (agent p) (chans p) (cells p) (next p) gs e.

(** What an info must satisfy to be tracked: an applied manifest work lists an
    object once, and discovery knows its resource. *)
Definition info_ok (info : AppliedManifestInfo) : Prop :=
  info_wf info ∧ NoDup (ObjectUIDs info) ∧ known_objects known (GVRs info).

(** No object is in two tracked manifests. *)
Definition disjoint_infos (tracked : SafeMap AppliedManifestInfo) : Prop :=
  ∀ name name' info info' u, name ≠ name' → tracked !! name = Some info → tracked !! name' = Some info' →
    u ∈ ObjectUIDs info → u ∉ ObjectUIDs info'.

(** The tracked objects are the ones the tracked manifests list. *)
Definition in_step p : Prop :=
  ∀ key u, u ∈ tracked_uids p key ↔
    ∃ name info, trackedAppliedManifests (agent p) !! name = Some info ∧ listed_tracked (entries info) key u.

Record agent_ok p : Prop := {
  ok_good : good (env p);
  ok_lifecycle : lifecycle_inv p;
  ok_no_leak : no_leak p;
  ok_mapper : mapper_ok known p;
  ok_infos name info : trackedAppliedManifests (agent p) !! name = Some info → info_ok info;
  ok_disjoint : disjoint_infos (trackedAppliedManifests (agent p));
  ok_in_step : in_step p
}.

(** ** Lemmas *)

Lemma entries_In info u g : (u, g) ∈ entries info → u ∈ ObjectUIDs info ∧ g ∈ GVRs info.
Proof. unfold entries. intros [i (? & ? & [= <- <-] & H1 & H2)%lookup_zip_with_Some]%list_elem_of_lookup.
  split; by eapply list_elem_of_lookup_2. Qed.

Lemma listed_tracked_uid info key u : listed_tracked (entries info) key u → u ∈ ObjectUIDs info.
Proof. intros (gvr & gvk & Hin & _). by apply entries_In in Hin as [? _]. Qed.

Lemma listed_uid info key u : listed (entries info) key u → u ∈ ObjectUIDs info.
Proof. intros (gvr & gvk & Hin & _). by apply entries_In in Hin as [? _]. Qed.

Lemma listed_tracked_listed l key u : listed_tracked l key u → listed l key u.
Proof. intros (gvr & gvk & Hin & Hk & _ & He). by exists gvr, gvk. Qed.

Lemma entries_NoDup_fun info u g g' :
  info_wf info → NoDup (ObjectUIDs info) → (u, g) ∈ entries info → (u, g') ∈ entries info → g = g'.
Proof.
  intros Hwf Hnd H1 H2. rewrite <- entries_uids in Hnd by done.
  apply (elem_of_list_to_map_1 (M := gmap string)) in H1, H2; [congruence|done..].
Qed.

(** The entries of a part of a tracked info are as good. *)
Lemma info_ok_part info part (P : string * GroupVersionResource → Prop) `{!∀ kv, Decision (P kv)} :
  info_ok info → info_wf part → entries part ≡ₚ filter P (entries info) → info_ok part.
Proof.
  intros (Hwf & Hnd & Hkn) Hwp Hp. split; [done|]. split.
  - rewrite <- entries_uids by done. rewrite Hp. rewrite <- entries_uids in Hnd by done.
    eapply sublist_NoDup; [exact Hnd|]. apply fmap_sublist, sublist_filter.
  - assert (GVRs part = (entries part).*2) as -> by (symmetry; apply snd_zip; unfold info_wf in Hwp; lia).
    unfold known_objects. apply Forall_forall. intros g ([u g'] & -> & Hin)%list_elem_of_fmap.
    rewrite Hp in Hin. apply list_elem_of_filter in Hin as [_ Hin]. apply entries_In in Hin as [_ Hin].
    simpl. unfold known_objects in Hkn. rewrite Forall_forall in Hkn. by apply Hkn.
Qed.

Lemma listed_tracked_perm l l' key u : l ≡ₚ l' → listed_tracked l key u ↔ listed_tracked l' key u.
Proof. intros Hp. unfold Lifecycle.listed_tracked. by setoid_rewrite Hp. Qed.

Lemma listed_tracked_filter (us : list string) l key u :
  listed_tracked (filter (λ kv, kv.1 ∉ us) l) key u ↔ (u ∉ us) ∧ listed_tracked l key u.
Proof. unfold Lifecycle.listed_tracked. setoid_rewrite list_elem_of_filter. naive_solver. Qed.

Lemma run_started_one gvrs uids p :
  run (run_started [GStartInformers gvrs uids]) p = run (startInformers gvrs uids) p.
Proof. cbn -[startInformers]. rewrite run_bind. by destruct (run _ p) as [[[] ?]|]. Qed.

(** What the manifests of a table list. *)
Definition table_lists (t : SafeMap AppliedManifestInfo) (key u : string) : Prop :=
  ∃ name info, t !! name = Some info ∧ listed_tracked (entries info) key u.

(** No object of a kind is in two manifests of the table. *)
Definition listed_once (t : SafeMap AppliedManifestInfo) : Prop :=
  ∀ name name' info info' key u, name ≠ name' → t !! name = Some info → t !! name' = Some info' →
    listed (entries info) key u → ¬ listed (entries info') key u.

Lemma disjoint_listed_once t : disjoint_infos t → listed_once t.
Proof.
  intros Hdis n n' i i' key u Hn Hi Hi' Hl%listed_uid Hl'%listed_uid. by apply (Hdis n n' i i' u).
Qed.

(** An object does not change its resource from one version to the next. *)
Definition same_resources (old info : AppliedManifestInfo) : Prop :=
  ∀ u g g', (u, g) ∈ entries old → (u, g') ∈ entries info → g = g'.

Lemma same_listed old info key u :
  info_ok old → info_ok info → same_resources old info → u ∈ ObjectUIDs old → u ∈ ObjectUIDs info →
  listed_tracked (entries old) key u ↔ listed_tracked (entries info) key u.
Proof.
  intros (Hwo & Hno & _) (Hwi & Hni & _) Hsame Huo Hui. rewrite <- !entries_uids in Huo, Hui by done.
  apply list_elem_of_fmap in Huo as ([? g] & -> & Huo), Hui as ([? g'] & Eu & Hui). simpl in *. subst.
  pose proof (Hsame _ _ _ Huo Hui) as ->.
  split; intros (gvr & gvk & Hin & Hk); exists gvr, gvk; (split; [|done]).
  - by rewrite (entries_NoDup_fun old _ gvr g' Hwo Hno Hin Huo).
  - by rewrite (entries_NoDup_fun info _ gvr g' Hwi Hni Hin Hui).
Qed.

(** Taking out what the difference of two versions removes and putting in what it
    adds replaces the version in the table. *)
Lemma replaced_listed t name info old seed_base seed_updated added removed key u :
  listed_once t → t !! name = Some old → info_ok old → info_ok info → same_resources old info →
  GetAddedRemovedInfo seed_base seed_updated old info = Done (added, removed) →
  (table_lists t key u ∧ ¬ listed (entries removed) key u) ∨ listed_tracked (entries added) key u ↔
  table_lists (<[name := info]> t) key u.
Proof.
  intros Hdis Hold Hoinfo Hinfo Hsame Hdiff.
  destruct (GetAddedRemovedInfo_uids seed_base seed_updated old info) as (a & r & Hdiff' & _ & _ & _ & Hur);
    [apply Hoinfo|apply Hinfo|].
  rewrite Hdiff in Hdiff'. injection Hdiff' as <- <-.
  destruct (GetAddedRemovedInfo_split seed_base seed_updated old info) as (added' & removed' & Hdiff' & Ha & Hr);
    [apply Hoinfo|apply Hinfo|apply Hoinfo|apply Hinfo|].
  rewrite Hdiff in Hdiff'. injection Hdiff' as <- <-.
  assert (∀ v, listed (entries removed) key v → listed (entries old) key v ∧ v ∉ ObjectUIDs info) as Hrem.
  { intros v Hl. split; [|by apply listed_uid, Hur in Hl as [_ ?]]. destruct Hl as (gvr & gvk & Hin & Hk).
    exists gvr, gvk. split; [|done]. rewrite Hr in Hin. by apply list_elem_of_filter in Hin as [_ ?]. }
  rewrite (listed_tracked_perm _ _ _ _ Ha), listed_tracked_filter. split.
  - intros [[(n & i & Hi & Hl) Hnr]|[Hno Hl]].
    + destruct (decide (n = name)) as [->|Hn]; [|exists n, i; by rewrite lookup_insert_ne].
      rewrite Hold in Hi. injection Hi as <-. exists name, info. rewrite lookup_insert_eq. split; [done|].
      pose proof (listed_tracked_uid _ _ _ Hl) as Huo. destruct (decide (u ∈ ObjectUIDs info)) as [Hu|Hu].
      * by apply (same_listed old info).
      * destruct Hnr. apply listed_tracked_listed. by rewrite (listed_tracked_perm _ _ _ _ Hr), listed_tracked_filter.
    + exists name, info. by rewrite lookup_insert_eq.
  - intros (n & i & [[<- <-]|[Hn Hi]]%lookup_insert_Some & Hl); pose proof (listed_tracked_uid _ _ _ Hl) as Hu.
    + destruct (decide (u ∈ ObjectUIDs old)) as [Huo|]; [left|by right].
      split; [exists name, old; split; [done|by apply (same_listed old info)]|]. by intros [_ ?]%Hrem.
    + left. split; [by exists n, i|]. intros [Huo _]%Hrem.
      by apply (Hdis n name i old key u); [..|apply listed_tracked_listed|].
Qed.

Lemma inserted_listed t name info key u :
  t !! name = None → table_lists t key u ∨ listed_tracked (entries info) key u ↔ table_lists (<[name := info]> t) key u.
Proof.
  intros Hno. split.
  - intros [(n & i & Hi & Hl)|Hl]; [exists n, i; rewrite lookup_insert_ne by congruence|exists name, info; rewrite lookup_insert_eq]; done.
  - intros (n & i & [[<- <-]|[Hn Hi]]%lookup_insert_Some & Hl); [by right|left]. by exists n, i.
Qed.

Lemma deleted_listed t name info key u :
  listed_once t → t !! name = Some info →
  table_lists t key u ∧ ¬ listed (entries info) key u ↔ table_lists (delete name t) key u.
Proof.
  intros Hdis Hold. split.
  - intros [(n & i & Hi & Hl) Hno]. exists n, i. rewrite lookup_delete_Some. split; [split; [|done]|done].
    intros <-. rewrite Hold in Hi. injection Hi as <-. by apply Hno, listed_tracked_listed.
  - intros (n & i & [Hn Hi]%lookup_delete_Some & Hl). split; [by exists n, i|]. intros Hlu.
    apply (Hdis name n info i key u Hn Hold Hi Hlu). by apply listed_tracked_listed.
Qed.

(** The info that a manifest's status lists. *)
Definition manifest_info (aWork : AppliedManifestWork) : AppliedManifestInfo :=
  MkInfo (GetTrackedObjectsUID aWork) (ListGVRs aWork).

(** What the objects of a manifest [name] must satisfy next to the tracked ones:
    they are in no other manifest, and an object does not change its resource. *)
Definition fits p (name : string) (info : AppliedManifestInfo) : Prop :=
  (∀ name' info' u, name' ≠ name → trackedAppliedManifests (agent p) !! name' = Some info' →
     u ∈ ObjectUIDs info → u ∉ ObjectUIDs info') ∧
  (∀ old u g g', trackedAppliedManifests (agent p) !! name = Some old →
     (u, g) ∈ entries old → (u, g') ∈ entries info → g = g').

Lemma disjoint_insert p name info :
  disjoint_infos (trackedAppliedManifests (agent p)) → fits p name info →
  disjoint_infos (<[name := info]> (trackedAppliedManifests (agent p))).
Proof.
  intros Hdis [Hfit _] n n' i i' u Hn [[<- <-]|[Hn1 Hi]]%lookup_insert_Some [[Ee <-]|[Hn2 Hi']]%lookup_insert_Some Hu Hu'.
  - done.
  - by eapply (Hfit n').
  - by eapply (Hfit n i u).
  - by eapply (Hdis n n').
Qed.

(** The process after the handler has stored [info]. *)
Definition stored p (name : string) (info : AppliedManifestInfo) (started : list Goroutine) (e : E) : Process E :=
  MkProcess (set_field FTracked (agent p) (<[name := info]> (trackedAppliedManifests (agent p))))
    (chans p) (cells p) (next p) started e.

Lemma stored_inv p name info started e : lifecycle_inv p → lifecycle_inv (stored p name info started e).
Proof. intros []. by split. Qed.

Lemma resume_inv p gs e : lifecycle_inv p → lifecycle_inv (resume p gs e).
Proof. intros []. by split. Qed.

Lemma resume_ok p gs e : agent_ok p → good e → agent_ok (resume p gs e).
Proof. intros [] ?. split; try done. by apply resume_inv. Qed.

Lemma resume_id p : resume p (spawned p) (env p) = p.
Proof. by destruct p. Qed.

Lemma stored_good p name info started e : good e → good (env (stored p name info started e)).
Proof. done. Qed.
Lemma stored_mapper p name info started e : mapper_ok known p → mapper_ok known (stored p name info started e).
Proof. done. Qed.
Lemma stored_uids p name info started e key : tracked_uids (stored p name info started e) key = tracked_uids p key.
Proof. done. Qed.

(** From an agent whose informers are in step, replacing the info of a manifest:
    stopping what the difference removes, then starting what it adds, leaves the
    informers in step with the new table. *)
Lemma replace_run p name info old seed_base seed_updated added removed started e :
  StableDiscovery known good → agent_ok p → info_ok info → fits p name info →
  trackedAppliedManifests (agent p) !! name = Some old → good e →
  GetAddedRemovedInfo seed_base seed_updated old info = Done (added, removed) →
  ∃ p2,
    run (stopInformers removed) (stored p name info started e) = Done (tt, p2) ∧ spawned p2 = started ∧
    ∀ gs e2, good e2 → ∃ p3, run (startInformers (GVRs added) (ObjectUIDs added)) (resume p2 gs e2) = Done (tt, p3) ∧
      agent_ok p3 ∧ trackedAppliedManifests (agent p3) = <[name := info]> (trackedAppliedManifests (agent p)).
Proof.
  intros Hd Hok Hinfo Hfit Hold Hg1 Hdiff. set (p1 := stored p name info started e).
  assert (info_ok old) as Hoinfo by (by eapply ok_infos).
  destruct (GetAddedRemovedInfo_uids seed_base seed_updated old info) as (a & r & Hdiff' & Hwa & Hwr & Hua & Hur);
    [apply Hoinfo|apply Hinfo|].
  rewrite Hdiff in Hdiff'. injection Hdiff' as <- <-.
  destruct (GetAddedRemovedInfo_split seed_base seed_updated old info) as (added' & removed' & Hdiff' & Ha & Hr);
    [apply Hoinfo|apply Hinfo|apply Hoinfo|apply Hinfo|].
  rewrite Hdiff in Hdiff'. injection Hdiff' as <- <-.
  pose proof (info_ok_part _ _ _ Hinfo Hwa Ha) as Hadded.
  pose proof (info_ok_part _ _ _ Hoinfo Hwr Hr) as Hremoved.
  assert (lifecycle_inv p1) as Hinv1 by apply stored_inv, Hok.
  assert (mapper_ok known p1) as Hm1 by (destruct (ok_mapper _ Hok) as (m & Hm & ?); by exists m).
  assert (no_leak p1) as Hl1 by exact (ok_no_leak _ Hok).
  destruct (stopInformers_run known good removed p1) as (p2 & Hstop & Hinv2 & Hm2 & Htr2 & Hs2 & Hl2 & Ht2);
    [done..|apply Hremoved|done|].
  exists p2. split_and!; [done..|]. intros gs e2 Hg2.
  destruct (startInformers_run known good (GVRs added) (ObjectUIDs added) (resume p2 gs e2))
    as (p3 & Hstart & Hinv3 & Hm3 & Htr3 & Ht3 & Hl3);
    [done|done|by apply resume_inv|apply Hadded|by apply Hadded|].
  assert (∀ key, tracked_uids (resume p2 gs e2) key = tracked_uids p2 key) as Hr2 by done.
  setoid_rewrite Hr2 in Ht3. setoid_rewrite Hr2 in Hl3.
  assert (∀ key, tracked_uids p1 key = tracked_uids p key) as Ht1 by done.
  assert (trackedAppliedManifests (agent p3) = <[name := info]> (trackedAppliedManifests (agent p))) as Etr
    by (rewrite Htr3; cbn; by rewrite Htr2).
  exists p3. split_and!; try done. split; try done.
  - by eapply run_env; [apply Hd|exact Hstart|].
  - apply Hl3; [by apply Hl2|apply Hadded|].
    intros key u [Hu Hno]%Hua. rewrite Ht2, Ht1. intros [Hin _].
    apply (ok_in_step _ Hok) in Hin as (n & i & Hi & Hlu%listed_tracked_uid).
    destruct (decide (n = name)) as [->|Hn]; [congruence|]. by eapply (proj1 Hfit n i u).
  - intros n i. rewrite Etr. intros [[<- <-]|[_ ?]]%lookup_insert_Some; [done|by eapply ok_infos].
  - rewrite Etr. by apply disjoint_insert; [apply Hok|].
  - intros key u. rewrite Ht3, Ht2, Ht1, Etr, (ok_in_step _ Hok key u).
    apply (replaced_listed _ name info old seed_base seed_updated); try done; [apply disjoint_listed_once, Hok|].
    intros v g g'. by apply (proj2 Hfit old).
Qed.

(** A manifest that is not tracked yet. *)
Lemma new_run p name info started e :
  StableDiscovery known good → agent_ok p → info_ok info → fits p name info →
  trackedAppliedManifests (agent p) !! name = None → good e →
  ∃ p2, run (startInformers (GVRs info) (ObjectUIDs info)) (stored p name info started e) = Done (tt, p2) ∧
    agent_ok p2 ∧ trackedAppliedManifests (agent p2) = <[name := info]> (trackedAppliedManifests (agent p)).
Proof.
  intros Hd Hok Hinfo Hfit Hold Hg1. set (p1 := stored p name info started e).
  assert (lifecycle_inv p1) as Hinv1 by apply stored_inv, Hok.
  assert (no_leak p1) as Hl1 by exact (ok_no_leak _ Hok).
  destruct (startInformers_run known good (GVRs info) (ObjectUIDs info) p1)
    as (p2 & Hstart & Hinv2 & Hm2 & Htr2 & Ht2 & Hl2); [done|done|done|apply Hinfo|by apply Hinfo|].
  assert (∀ key, tracked_uids p1 key = tracked_uids p key) as Ht1 by done.
  assert (trackedAppliedManifests (agent p2) = <[name := info]> (trackedAppliedManifests (agent p))) as Etr
    by (by rewrite Htr2).
  exists p2. split_and!; try done. split; try done.
  - eapply run_env; [apply Hd|exact Hstart|done].
  - apply Hl2; [done|apply Hinfo|]. intros key u Hu. rewrite Ht1. intros Hin.
    apply (ok_in_step _ Hok) in Hin as (n & i & Hi & Hlu%listed_tracked_uid).
    destruct (decide (n = name)) as [->|Hn]; [congruence|]. by eapply (proj1 Hfit n i u).
  - intros n i. rewrite Etr. intros [[<- <-]|[_ ?]]%lookup_insert_Some; [done|by eapply ok_infos].
  - rewrite Etr. by apply disjoint_insert; [apply Hok|].
  - intros key u. rewrite Ht2, Ht1, Etr, (ok_in_step _ Hok key u). by apply inserted_listed.
Qed.

(** A manifest that is gone. *)
Lemma delete_run p name info :
  StableDiscovery known good → agent_ok p → trackedAppliedManifests (agent p) !! name = Some info →
  ∃ p1, run (_ ← stopInformers info; act (SMDelete FTracked name)) p = Done (tt, p1) ∧ spawned p1 = spawned p ∧
    agent_ok p1 ∧ trackedAppliedManifests (agent p1) = delete name (trackedAppliedManifests (agent p)).
Proof.
  intros Hd Hok Hold. assert (info_ok info) as (Hwf & Hnd & Hkn) by (by eapply ok_infos).
  destruct (stopInformers_run known good info p) as (p1 & Hstop & Hinv1 & Hm1 & Htr1 & Hs1 & Hl1 & Ht1);
    [apply Hd|apply Hok|apply Hok|apply Hok|done|done|].
  rewrite run_bind, Hstop. cbn. eexists. split; [done|]. split; [done|]. split; [|cbn; by rewrite Htr1].
  assert (good (env p1)) as Hg1 by (eapply run_env; [apply Hd|exact Hstop|apply Hok]).
  split; cbn; unfold SafeMap_Delete; rewrite ?Htr1; try done; try (by apply Hl1, Hok).
  - destruct Hinv1. by split.
  - intros n i [_ Hi]%lookup_delete_Some. by eapply ok_infos.
  - intros n n' i i' u Hn [_ Hi]%lookup_delete_Some [_ Hi']%lookup_delete_Some. by eapply (ok_disjoint _ Hok n n').
  - intros key u. change (u ∈ tracked_uids p1 key ↔ ∃ n i,
      delete name (trackedAppliedManifests (agent p)) !! n = Some i ∧ listed_tracked (entries i) key u).
    rewrite Ht1, (ok_in_step _ Hok key u). apply deleted_listed; [apply disjoint_listed_once, Hok|done].
Qed.
End manifests.
