(* ===== verification/ManifestProps.v ===== *)
(** * What [handleAppliedManifestWork] promises *)

From S2P Require Export Manifests.

Section manifest_props.
Context {RT : GoRuntime} {K : Kube} {E : Type} `{Env : !Environment E}.
Context (known : GroupVersionResource → option GroupVersionKind) (good : E → Prop).
Implicit Types p : Process E.
Abbreviation run := (run (exec (E := E))).

#[local] Arguments startInformers : simpl never.
#[local] Arguments stopInformers : simpl never.
#[local] Arguments run_started : simpl never.

Lemma handle_live obj aWork :
  is_unstructured obj = true → ToAppliedManifestWork obj = GOk aWork → ListGVRs aWork ≠ [] →
  handleAppliedManifestWork obj false =
    (oldinfo ← act (SMGet FTracked (GetName obj));
     match oldinfo with
     | Some oldinfo =>
         if decide (manifest_info aWork = oldinfo) then mret (false, None)
         else
           seed_base ← act (Lib CSeed);
           seed_updated ← act (Lib CSeed);
           diff ← lift (GetAddedRemovedInfo seed_base seed_updated oldinfo (manifest_info aWork));
           let '(addedInfo, removedInfo) := diff in
           _ ← act (SMSet FTracked (GetName obj) (manifest_info aWork));
           _ ← act (GoStmt (GStartInformers (GVRs addedInfo) (ObjectUIDs addedInfo)));
           _ ← stopInformers removedInfo;
           mret (false, None)
     | None =>
         _ ← act (SMSet FTracked (GetName obj) (manifest_info aWork));
         _ ← act (GoStmt (GStartInformers (ListGVRs aWork) (GetTrackedObjectsUID aWork)));
         mret (false, None)
     end).
Proof.
  intros Hu Hw Hg. unfold handleAppliedManifestWork, as_unstructured. rewrite Hu. cbn. rewrite Hw.
  by nonempty.
Qed.

(** The handler, and what the goroutine it starts does whenever it runs. *)
Lemma handle_live_run obj aWork p :
  StableDiscovery known good → agent_ok known good p →
  is_unstructured obj = true → ToAppliedManifestWork obj = GOk aWork → ListGVRs aWork ≠ [] →
  info_ok known (manifest_info aWork) → fits p (GetName obj) (manifest_info aWork) →
  ∃ p1 gs,
    run (handleAppliedManifestWork obj false) p = Done ((false, None), p1) ∧ spawned p1 = spawned p ++ gs ∧
    ∀ l e, good e → ∃ p2, run (run_started gs) (resume p1 l e) = Done (tt, p2) ∧ agent_ok known good p2 ∧
      trackedAppliedManifests (agent p2) =
        <[GetName obj := manifest_info aWork]> (trackedAppliedManifests (agent p)).
Proof.
  intros Hd Hok Hu Hw Hg Hinfo Hfit. rewrite (handle_live obj aWork) by done. cbn. unfold SafeMap_Get.
  destruct (trackedAppliedManifests (agent p) !! GetName obj) as [old|] eqn:Eo; cbn.
  - destruct (decide (manifest_info aWork = old)) as [<-|Hne]; cbn.
    { exists p, []. split_and!; [done|by rewrite app_nil_r|]. intros l e He.
      exists (resume p l e). split_and!; [done|by apply resume_ok|by cbn; rewrite insert_id]. }
    destruct (respond CSeed (env p)) as [s1 e1] eqn:E1. cbn.
    destruct (respond CSeed e1) as [s2 e2] eqn:E2. cbn.
    assert (good e2) as Hg2.
    { pose proof (stable_step _ _ Hd _ CSeed _ (ok_good _ _ _ Hok)) as Hg1. rewrite E1 in Hg1. cbn in Hg1.
      pose proof (stable_step _ _ Hd _ CSeed _ Hg1) as Hg2. by rewrite E2 in Hg2. }
    destruct (GetAddedRemovedInfo_uids s1 s2 old (manifest_info aWork)) as (added & removed & Hdiff & _);
      [by eapply ok_infos|apply Hinfo|].
    rewrite Hdiff. cbn. rewrite run_bind.
    edestruct (replace_run known good p (GetName obj) (manifest_info aWork) old)
      as (p2 & Hstop & Hs & Hstart); [done..|].
    replace (Runtime.run _ (stopInformers removed) _) with (Done (tt, p2)) by (symmetry; exact Hstop).
    exists p2, [GStartInformers (GVRs added) (ObjectUIDs added)]. split_and!; [done..|].
    intros l e He. rewrite run_started_one. by apply Hstart.
  - eexists _, [GStartInformers _ _]. split; [done|]. split; [done|]. intros l e He. rewrite run_started_one.
    by apply (new_run known good p (GetName obj) (manifest_info aWork)).
Qed.


Lemma handle_deleted_run obj aWork info p :
  StableDiscovery known good → agent_ok known good p →
  is_unstructured obj = true → ToAppliedManifestWork obj = GOk aWork →
  trackedAppliedManifests (agent p) !! GetName obj = Some info →
  ∃ p1, run (handleAppliedManifestWork obj true) p = Done ((false, None), p1) ∧ spawned p1 = spawned p ∧
    agent_ok known good p1 ∧
    trackedAppliedManifests (agent p1) = delete (GetName obj) (trackedAppliedManifests (agent p)).
Proof.
  intros Hd Hok Hu Hw Ht. unfold handleAppliedManifestWork, as_unstructured. rewrite Hu. cbn. rewrite Hw. cbn.
  unfold SafeMap_Get. rewrite Ht. cbn.
  destruct (delete_run known good p (GetName obj) info) as (p1 & Hr & Hs & Hok1 & Ht1); [done..|].
  exists p1. split_and!; try done. revert Hr. rewrite !run_bind.
  destruct (Runtime.run _ (stopInformers info) p) as [[[] p']|]; [|done]. cbn. by intros [= <-].
Qed.

(** C9: an applied manifest work that was deleted.  From an agent whose informers
    are in step with the table of tracked manifests, in which no object is in two
    manifests, and when discovery succeeds and knows the resources, the handler of
    the deletion of a tracked manifest returns, starts nothing, drops the manifest
    from the table and leaves the informers in step with what remains, and no
    object is in two of the manifests that remain.  (When two manifests share an
    object the informer it needs is stopped: the theorem on shared objects below.) *)
Theorem handleAppliedManifestWork_deleted obj aWork info p :
  StableDiscovery known good → agent_ok known good p →
  is_unstructured obj = true → ToAppliedManifestWork obj = GOk aWork →
  trackedAppliedManifests (agent p) !! GetName obj = Some info →
  ∃ p1, run (handleAppliedManifestWork obj true) p = Done ((false, None), p1) ∧ spawned p1 = spawned p ∧
    agent_ok known good p1 ∧
    trackedAppliedManifests (agent p1) = delete (GetName obj) (trackedAppliedManifests (agent p)).
Proof. apply handle_deleted_run. Qed.

Lemma handle_no_effect_run obj p :
  is_unstructured obj = true →
  (∀ err del, ToAppliedManifestWork obj = GErr err →
     run (handleAppliedManifestWork obj del) p = Done ((true, Some err), p)) ∧
  (∀ aWork, ToAppliedManifestWork obj = GOk aWork → ListGVRs aWork = [] →
     run (handleAppliedManifestWork obj false) p = Done ((true, None), p)) ∧
  (∀ aWork, ToAppliedManifestWork obj = GOk aWork → ListGVRs aWork ≠ [] →
     trackedAppliedManifests (agent p) !! GetName obj = Some (manifest_info aWork) →
     run (handleAppliedManifestWork obj false) p = Done ((false, None), p)) ∧
  (∀ aWork, ToAppliedManifestWork obj = GOk aWork →
     trackedAppliedManifests (agent p) !! GetName obj = None →
     run (handleAppliedManifestWork obj true) p = Done ((false, None), p)).
Proof.
  intros Hu. unfold handleAppliedManifestWork, as_unstructured. rewrite Hu. cbn. unfold SafeMap_Get.
  split_and!.
  - by intros err del ->.
  - by intros aWork -> ->.
  - intros aWork -> Hg Ht. cbn. nonempty. cbn.
    unfold SafeMap_Get. rewrite Ht. cbn. by rewrite decide_True.
  - intros aWork -> Ht. cbn. unfold SafeMap_Get. by rewrite Ht.
Qed.

(** The handler leaves the process as it is when there is nothing to do: an
    object it cannot convert is requeued with the error, a manifest whose status
    lists no resource yet is requeued without one, and a manifest that has not
    changed, or is deleted without having been tracked, is done. *)
Lemma handleAppliedManifestWork_no_effect obj p :
  is_unstructured obj = true →
  (∀ err del, ToAppliedManifestWork obj = GErr err →
     run (handleAppliedManifestWork obj del) p = Done ((true, Some err), p)) ∧
  (∀ aWork, ToAppliedManifestWork obj = GOk aWork → ListGVRs aWork = [] →
     run (handleAppliedManifestWork obj false) p = Done ((true, None), p)) ∧
  (∀ aWork, ToAppliedManifestWork obj = GOk aWork → ListGVRs aWork ≠ [] →
     trackedAppliedManifests (agent p) !! GetName obj = Some (manifest_info aWork) →
     run (handleAppliedManifestWork obj false) p = Done ((false, None), p)) ∧
  (∀ aWork, ToAppliedManifestWork obj = GOk aWork →
     trackedAppliedManifests (agent p) !! GetName obj = None →
     run (handleAppliedManifestWork obj true) p = Done ((false, None), p)).
Proof. apply handle_no_effect_run. Qed.

(** C40: an object that two manifests list loses its informer when one of them is
    deleted: the objects are counted once, not once per manifest, so the kind's
    last informer stops although the other manifest is still tracked and lists
    the object. *)
Theorem handleAppliedManifestWork_shared_object obj aWork info name' info' key u p :
  StableDiscovery known good → good (env p) → lifecycle_inv p → mapper_ok known p →
  is_unstructured obj = true → ToAppliedManifestWork obj = GOk aWork →
  trackedAppliedManifests (agent p) !! GetName obj = Some info →
  name' ≠ GetName obj → trackedAppliedManifests (agent p) !! name' = Some info' →
  info_ok known info → key ≠ AppliedManifestWorkKey →
  listed_tracked known (entries info) key u → listed_tracked known (entries info') key u →
  tracked_uids p key = {[u]} →
  ∃ p1, run (handleAppliedManifestWork obj true) p = Done ((false, None), p1) ∧
    trackedAppliedManifests (agent p1) !! name' = Some info' ∧
    informers (agent p1) !! key = None ∧ listers (agent p1) !! key = None.
Proof.
  intros Hd Hgood Hinv Hm Hu Hw Ht Hn Ht' (Hwf & _ & Hkn) Hkey Hl Hl' Htu.
  unfold handleAppliedManifestWork, as_unstructured. rewrite Hu. cbn. rewrite Hw. cbn.
  unfold SafeMap_Get. rewrite Ht. cbn. rewrite run_bind.
  destruct (stopInformers_run known good info p) as (p1 & -> & Hinv1 & Hm1 & Htr1 & Hs1 & _ & Ht1); [done..|].
  cbn. eexists. split; [done|]. cbn. unfold SafeMap_Delete. rewrite lookup_delete_ne, Htr1 by done. split; [done|].
  assert (informers (agent p1) !! key = None) as Hi.
  { apply eq_None_not_Some. rewrite (inv_tracked _ Hinv1) by done. apply listed_tracked_listed in Hl.
    intros [v Hv]%set_choose_L. apply Ht1 in Hv as [Hv Hno]. rewrite Htu in Hv. apply elem_of_singleton in Hv. congruence. }
  split; [done|]. apply eq_None_not_Some. rewrite (inv_listers _ Hinv1), <- (inv_informers _ Hinv1), Hi.
  by intros [? [=]].
Qed.
End manifest_props.

(** ** Closed instances *)

(** The applied manifest work of the scenario, listing its deployment, its info
    and the two after it has been tracked. *)
Definition sc_manifest : Object := sc_amw [sc_entry sc_gvr "dep-uid"].
Definition sc_work : AppliedManifestWork :=
  MkAppliedManifestWork "amw1" "amw-uid" "mw1" [MkResource "apps" "v1" "deployments" "" "" "dep-uid"].
Definition sc_info : AppliedManifestInfo := MkInfo ["dep-uid"] [sc_gvr].
Definition sc_tracked : Process SimEnv :=
  match run (exec (E := SimEnv)) (startInformers (GVRs sc_info) (ObjectUIDs sc_info)) (stored sc_empty "amw1" sc_info [] (env sc_empty)) with
  | Done (_, p) => p
  | Panic _ => sc_empty
  end.
Abbreviation sc_run t p := (run (exec (E := SimEnv)) t p).
Abbreviation sc_ok := (agent_ok sc_known sc_good).

Lemma sc_empty_ok : sc_ok sc_empty.
Proof.
  split; [done|apply sc_empty_inv|apply sc_empty_inv| |by intros|by intros|].
  - exists sc_table. split; [done|]. intros gvr gvk. unfold sc_known. case_decide; [|done]. intros [= <-]. by subst.
  - intros key u. unfold tracked_uids, uids_of. cbn. rewrite lookup_empty. split; [by intros ?%elem_of_empty|].
    by intros (n & i & Hi & _).
Qed.

Lemma sc_info_ok : info_ok sc_known sc_info.
Proof. split; [done|]. split; [apply NoDup_singleton|apply sc_known_objects]. Qed.

Lemma sc_fits name : fits sc_empty name sc_info.
Proof. split; intros *; cbn; by rewrite lookup_empty. Qed.

Lemma sc_tracked_ok :
  sc_ok sc_tracked ∧ trackedAppliedManifests (agent sc_tracked) = {["amw1" := sc_info]}.
Proof.
  destruct (new_run sc_known sc_good sc_empty "amw1" sc_info [] (env sc_empty) sc_stable sc_empty_ok sc_info_ok
    (sc_fits "amw1") eq_refl eq_refl) as (p & Hr & Hok & Ht).
  assert (sc_tracked = p) as -> by (unfold sc_tracked; by rewrite Hr).
  by split; [|rewrite Ht].
Qed.


Lemma sc_tracked_amw1 : trackedAppliedManifests (agent sc_tracked) !! "amw1" = Some sc_info.
Proof. by rewrite (proj2 sc_tracked_ok), lookup_singleton_eq. Qed.

Lemma handleAppliedManifestWork_deleted_witness :
  ∃ p1, sc_run (handleAppliedManifestWork sc_manifest true) sc_tracked = Done ((false, None), p1) ∧ sc_ok p1 ∧
    trackedAppliedManifests (agent p1) !! "amw1" = None.
Proof.
  destruct (handleAppliedManifestWork_deleted sc_known sc_good sc_manifest sc_work sc_info sc_tracked sc_stable
    (proj1 sc_tracked_ok) eq_refl ltac:(vm_compute; reflexivity) sc_tracked_amw1) as (p1 & Hr & _ & Hok & Ht).
  exists p1. split; [exact Hr|]. split; [exact Hok|]. rewrite Ht. apply lookup_delete_eq.
Defined.

Lemma handleAppliedManifestWork_no_effect_witness :
  sc_run (handleAppliedManifestWork (sc_amw []) false) sc_empty = Done ((true, None), sc_empty) ∧
  sc_run (handleAppliedManifestWork sc_manifest false) sc_tracked = Done ((false, None), sc_tracked) ∧
  sc_run (handleAppliedManifestWork sc_manifest true) sc_empty = Done ((false, None), sc_empty).
Proof.
  split; [|split].
  - apply (proj1 (proj2 (handleAppliedManifestWork_no_effect (sc_amw []) sc_empty eq_refl))
      (MkAppliedManifestWork "amw1" "amw-uid" "mw1" [])); vm_compute; reflexivity.
  - apply (proj1 (proj2 (proj2 (handleAppliedManifestWork_no_effect sc_manifest sc_tracked eq_refl))) sc_work).
    + vm_compute. reflexivity.
    + vm_compute. discriminate.
    + apply sc_tracked_amw1.
  - apply (proj2 (proj2 (proj2 (handleAppliedManifestWork_no_effect sc_manifest sc_empty eq_refl))) sc_work);
      vm_compute; reflexivity.
Defined.

(** A second manifest lists the deployment too. *)
Definition sc_shared : Process SimEnv :=
  stored sc_tracked "amw2" sc_info (spawned sc_tracked) (env sc_tracked).

Lemma sc_info_listed : listed_tracked sc_known (entries sc_info) sc_key "dep-uid".
Proof. exists sc_gvr, sc_gvk. split; [left|]. split; [done|]. by split; [vm_compute|]. Qed.

Lemma sc_shared_uids : tracked_uids sc_shared sc_key = {["dep-uid"]}.
Proof.
  apply set_eq. intros u. rewrite elem_of_singleton.
  unfold sc_shared. rewrite stored_uids, (ok_in_step _ _ _ (proj1 sc_tracked_ok) sc_key u), (proj2 sc_tracked_ok). split.
  - intros (n & i & [<- <-]%lookup_singleton_Some & Hl). apply listed_tracked_uid in Hl. by apply list_elem_of_singleton in Hl.
  - intros ->. exists "amw1", sc_info. split; [apply lookup_singleton_eq|apply sc_info_listed].
Qed.

Lemma handleAppliedManifestWork_shared_object_witness :
  ∃ p1, sc_run (handleAppliedManifestWork sc_manifest true) sc_shared = Done ((false, None), p1) ∧
    trackedAppliedManifests (agent p1) !! "amw2" = Some sc_info ∧ informers (agent p1) !! sc_key = None.
Proof.
  destruct (handleAppliedManifestWork_shared_object sc_known sc_good sc_manifest sc_work sc_info "amw2" sc_info
    sc_key "dep-uid" sc_shared sc_stable) as (p1 & Hr & Ht & Hi & _).
  - exact (stored_good sc_good sc_tracked "amw2" sc_info _ _ (ok_good _ _ _ (proj1 sc_tracked_ok))).
  - apply stored_inv, (ok_lifecycle _ _ _ (proj1 sc_tracked_ok)).
  - apply stored_mapper, (ok_mapper _ _ _ (proj1 sc_tracked_ok)).
  - reflexivity.
  - vm_compute. reflexivity.
  - etrans; [apply lookup_insert_ne; discriminate|exact sc_tracked_amw1].
  - vm_compute. discriminate.
  - apply lookup_insert_eq.
  - exact sc_info_ok.
  - vm_compute. discriminate.
  - exact sc_info_listed.
  - exact sc_info_listed.
  - exact sc_shared_uids.
  - exists p1. split; [exact Hr|]. split; [exact Ht|exact Hi].
Defined.
