(* ===== verification/Worker.v ===== *)
(** * pkg/agent/agent.go: construction, start, event handlers and workers *)

From S2P Require Export Reconcilers.

Section worker.
Context {RT : GoRuntime} {K : Kube}.
Abbreviation M := (prog Op).

(** The new agent: its maps are empty, its mapper is the discovered one. *)
Definition NewAgent : M (result Agent) :=
  err ← act (Lib CNewDynamicClient);
  match err with
  | Some err => mret (GErr err)
  | None =>
      err ← act (Lib CNewHubClient);
      match err with
      | Some err => mret (GErr err)
      | None =>
          err ← act (Lib CNewKubernetesClient);
          match err with
          | Some err => mret (GErr err)
          | None =>
              r ← getRestMapper;
              match r with
              | GErr err => mret (GErr err)
              | GOk restMapper =>
                  mret (GOk (MkAgent NewSafeMap NewSafeMap NewSafeMap NewSafeUIDMap NewSafeMap
                               (Some restMapper) false))
              end
          end
      end
  end.

(** [wait for all informers caches to be synced]: false at the first failure. *)
Fixpoint waitForCaches (infs : list Informer) : M bool :=
  match infs with
  | [] => mret true
  | informer :: infs =>
      ok ← act (Lib (CWaitForCacheSync informer));
      if ok : bool then waitForCaches infs else mret false
  end.

(** [for i := 0; i < workers; i++ { go .. }] *)
Fixpoint startWorkers (n : nat) : M unit :=
  match n with
  | 0 => mret tt
  | S n => _ ← act (GoStmt GWorker); startWorkers n
  end.

(** The deferred calls run in reverse order: [close(stopper)], [cancel()], which
    nothing observes, and [a.workqueue.ShutDown()]. *)
Definition run_agent (workers : Z) : M (option error) :=
  defer (act (Lib CQueueShutDown)) (
    stopper ← act ChanMake;
    defer (act (ChanClose stopper)) (
      _ ← startAppliedManifestWorkInformer stopper;
      seed ← act (Lib CSeed);
      infs ← act (SMListValues FInformers seed);
      synced ← waitForCaches infs;
      if negb synced then mret (Some (ErrF "failed to wait for caches to sync"))
      else
        _ ← startWorkers (Z.to_nat workers);
        _ ← act InitializedWrite;
        _ ← act (Lib CContextDone);
        mret None)).

(** [Start]: the error of [run] when it returns within three seconds. *)
Definition Start (workers : Z) : M (option error) :=
  _ ← act (GoStmt (GRun workers));
  r ← act (Lib CSelectErrOrTimeout);
  match r with
  | Some err => mret err
  | None => mret None
  end.

Definition enqueueObject (obj : AnyValue) (skipCheckIsDeleted : bool) : M unit :=
  r ← lift (KeyForGroupVersionKindNamespaceName obj);
  match r with
  | GErr err => act (Lib (CHandleError err))
  | GOk key =>
      if negb skipCheckIsDeleted then
        r ← GetObjectFromKey key;
        match r with
        | GErr err =>
            if IsNotFound err then
              rObj ← lift (as_object obj);
              deletedObj ← act (CellNew (CopyObjectMetaAndType rObj));
              act (Lib (CQueueAdd (QKey (MkKey (GvkKey key) (NamespaceNameKey key) (Some deletedObj)))))
            else mret tt
        | GOk _ => act (Lib (CQueueAdd (QKey key)))
        end
      else act (Lib (CQueueAdd (QKey key)))
  end.

(** The event handler: both type assertions come first. *)
Definition handleObject (obj : AnyValue) : M unit :=
  _ ← lift (as_object obj);
  enqueueObject obj false.

Definition shouldSkipDelete (obj : AnyValue) : bool := false.

Definition shouldSkipUpdate (old new : AnyValue) : outcome bool :=
  oldMObj ← as_object old;
  newMObj ← as_object new;
  Done (bool_decide (GetResourceVersion newMObj = GetResourceVersion oldMObj)).

(** The handlers [startInformer] registers with an informer. *)
Definition onAdd (obj : AnyValue) : M unit := handleObject obj.
Definition onUpdate (old new : AnyValue) : M unit :=
  skip ← lift (shouldSkipUpdate old new);
  if skip : bool then mret tt else handleObject new.
Definition onDelete (obj : AnyValue) : M unit :=
  if shouldSkipDelete obj then mret tt else handleObject obj.

(** The function literal of [processNextWorkItem]; the text of the error it
    returns after a failed reconciliation renders the item with [%#v], which only
    reaches the log, and keeps here the error's own text. *)
Definition processItem (cfg : AgentConfig) (obj : QueueItem) : M (option error) :=
  defer (act (Lib (CQueueDone obj)))
    match obj with
    | QOther _ =>
        _ ← act (Lib (CQueueForget obj));
        _ ← act (Lib (CHandleError (ErrF "expected util.Key in workqueue")));
        mret None
    | QKey key =>
        '(requeue, err) ← reconcile cfg key;
        match err with
        | Some err =>
            _ ← act (Lib (CQueueAddRateLimited obj));
            mret (Some (ErrF ("error syncing key: " +:+ Error err +:+ ", requeuing")))
        | None =>
            if requeue : bool then
              _ ← act (Lib (CQueueAddRateLimited obj));
              mret None
            else
              _ ← act (Lib (CQueueForget obj));
              mret None
        end
    end.

Definition processNextWorkItem (cfg : AgentConfig) : M bool :=
  r ← act (Lib CQueueGet);
  match r with
  | None => mret false
  | Some obj =>
      err ← processItem cfg obj;
      match err with
      | Some err => _ ← act (Lib (CHandleError err)); mret true
      | None => mret true
      end
  end.

(** [for a.processNextWorkItem() {}]: the runs of the loop that end, as the
    sequences of actions of its iterations. *)
Inductive worker_loop (cfg : AgentConfig) : list (event Op) → Prop :=
| LoopEnds tr : traces (processNextWorkItem cfg) tr (Done false) → worker_loop cfg tr
| LoopTurns tr tr' :
    traces (processNextWorkItem cfg) tr (Done true) → worker_loop cfg tr' → worker_loop cfg (tr ++ tr').

(** The same loop as a goroutine, for at most [fuel] iterations, so that its runs
    are the beginnings of those of the loop: true when the loop has ended, false
    when the fuel has.  [WorkerProps] shows how the two agree. *)
Fixpoint runWorker (fuel : nat) (cfg : AgentConfig) : M bool :=
  match fuel with
  | 0 => mret false
  | S fuel =>
      more ← processNextWorkItem cfg;
      if more : bool then runWorker fuel cfg else mret true
  end.
End worker.
