(* ===== verification/Footprint.v ===== *)
(** * What each function does to the shared state, under any interleaving

    The classes of atomic actions, the assumptions on the answers an action may
    get from the other goroutines and the libraries, and for each function of the
    agent a triple that bounds its actions and panics. *)

From S2P Require Export Worker HubTraces.

Section footprint.
Context {RT : GoRuntime} {K : Kube}.

(** ** Classes of actions *)

(** Lookups through a lister. *)
Definition lookup_op {R} (o : Op R) : bool :=
  match o with
  | SMGet f _ => match f with FListers => true | _ => false end
  | Lib c => match c with CListerGet _ _ | CListerNamespaceGet _ _ _ => true | _ => false end
  | _ => false
  end.

(** What reporting the status of an object does: it reads the agent's state and
    talks to the hub. *)
Definition status_op {R} (o : Op R) : bool :=
  lookup_op o ||
  match o with
  | MapperRead => true
  | Lib c =>
      match c with
      | CSeed | CGetWorkStatus _ _ | CGetManifestWork _ _ | CCreateWorkStatus _ | CDeleteWorkStatus _
      | CPatchWorkStatus _ _ | CUpdateStatus _ => true
      | _ => false
      end
  | _ => false
  end.

(** What starting and stopping informers does. *)
Definition informer_op {R} (o : Op R) : bool :=
  match o with
  | SMGet f _ | SMSet f _ _ | SMDelete f _ => match f with FTracked => false | _ => true end
  | UIDAdd _ _ | UIDDelete _ _ | UIDCount _ | MapperRead | MapperWrite _ | ChanMake | ChanClose _ => true
  | GoStmt g => match g with GInformerRun _ _ => true | _ => false end
  | Lib c => match c with CGetAPIGroupResources | CNewInformer _ _ | CAddEventHandler _ => true | _ => false end
  | _ => false
  end.

(** What handling an applied manifest work adds to that: the table of manifests,
    with well-formed infos only, and goroutines that start informers for as many
    uids as resources. *)
Definition manifest_op {R} (o : Op R) : Prop :=
  informer_op o = true ∨
  match o with
  | SMGet f _ | SMDelete f _ => match f with FTracked => True | _ => False end
  | SMSet f _ v => (match f in Field V return V → Prop with FTracked => λ i, info_wf i | _ => λ _, False end) v
  | GoStmt g => match g with GStartInformers gvrs uids => length uids = length gvrs | _ => False end
  | Lib c => match c with CSeed => True | _ => False end
  | _ => False
  end.

(** What a reconciliation does. *)
Definition reconcile_op {R} (o : Op R) : Prop :=
  status_op o = true ∨ manifest_op o ∨ match o with CellRead _ => True | _ => False end.

(** The actions on the work queue and the copies of deleted objects. *)
Definition queue_op {R} (o : Op R) : Prop :=
  match o with
  | CellNew obj => is_unstructured obj = true
  | Lib c =>
      match c with
      | CQueueAdd _ | CQueueAddRateLimited _ | CQueueForget _ | CQueueDone _ | CQueueGet | CQueueShutDown
      | CHandleError _ => True
      | _ => False
      end
  | _ => False
  end.

Definition startup_op {R} (o : Op R) : Prop :=
  informer_op o = true ∨ queue_op o ∨
  match o with
  | GoStmt g => match g with GWorker => True | _ => False end
  | SMListValues _ _ | InitializedWrite => True
  | Lib c => match c with CSeed | CWaitForCacheSync _ | CContextDone => True | _ => False end
  | _ => False
  end.

(** ** Assumptions on the answers *)

Definition unstructured_answer (r : result Object) : Prop :=
  match r with GOk o => is_unstructured o = true | GErr _ => True end.

(** The mapper has been discovered, discovery succeeds, listers hold unstructured
    objects (they are over dynamic informers), so do the cells, and the tracked
    infos are well formed. *)
Definition answers (R : Type) (o : Op R) : R → Prop :=
  match o in Op R return R → Prop with
  | MapperRead => λ r, r ≠ None
  | SMGet f _ =>
      match f in Field V return option V → Prop with
      | FTracked => λ r, ∀ i, r = Some i → info_wf i
      | _ => λ _, True
      end
  | CellRead _ => λ o, is_unstructured o = true
  | Lib c =>
      match c in Call R return R → Prop with
      | CListerGet _ _ | CListerNamespaceGet _ _ _ => unstructured_answer
      | CGetAPIGroupResources => λ r, ∃ g, r = GOk g
      | _ => λ _, True
      end
  | _ => λ _, True
  end.

(** [MapperWrite] never stores nil, given that discovery succeeds. *)
Definition stores (R : Type) (o : Op R) : Prop := match o with MapperWrite m => m ≠ None | _ => True end.

Definition no_panic (q : panic) : Prop := False.
(** The assertion on the stopper of a kind that has none, and that of a handler on
    a tombstone. *)
Definition stopper_panic (q : panic) : Prop := q = PanicTypeAssert.

Lemma safe_weaken (rely rely' : ∀ R, Op R → R → Prop) (ok ok' : ∀ R, Op R → Prop) (crash crash' : panic → Prop)
    {A} (Q Q' : A → Prop) (t : prog Op A) :
  (∀ R (o : Op R) r, rely' R o r → rely R o r) → (∀ R (o : Op R), ok R o → ok' R o) →
  (∀ q, crash q → crash' q) → (∀ a, Q a → Q' a) →
  safe rely ok crash Q t → safe rely' ok' crash' Q' t.
Proof.
  intros Hr Ho Hc HQ. induction t as [a|q|R o k IH]; cbn; [auto..|]. intros [Hok Hk]. split; [auto|]. intros r ?. auto.
Qed.
End footprint.

(** Symbolic execution of a triple: one action, branch or pure call at a time. *)
Ltac safe_step :=
  match goal with
  | |- safe _ _ _ _ (lift ?m ≫= _) => destruct m eqn:?; cbn [lift]
  | |- safe _ _ _ _ (match ?x with _ => _ end) => destruct x eqn:?
  | |- safe _ _ _ _ (match ?x with _ => _ end ≫= _) => destruct x eqn:?
  | |- safe _ _ _ _ (act _ ≫= _) => split; [|intros ? ?]
  | |- safe _ _ _ _ (act _) => split; [|intros ? ?]
  | |- safe _ _ _ _ (Act _ _) => split; [|intros ? ?]
  | |- safe _ _ _ _ (mret _ ≫= _) => cbn [mbind mret prog_bind prog_ret]
  | |- safe _ _ _ _ (mret _) => cbn [safe mret prog_ret]
  | |- safe _ _ _ _ (lift ?m) => destruct m eqn:?; cbn [lift safe]
  | |- safe _ _ _ _ (Ret _) => cbn [safe]
  | |- safe _ _ _ _ (Crash _) => cbn [safe]
  | |- safe _ _ _ _ _ => progress cbn [mbind mret prog_bind prog_ret act lift negb]
  end.
(** An action whose footprint is a computation and whose answer is any. *)
Ltac safe_call := split; [done|intros ? _].
Ltac safe_auto := repeat safe_step; simplify_eq; try done; try (exact I).

Section triples.
Context {RT : GoRuntime} {K : Kube}.

Abbreviation lookup_safe := (safe answers (λ R o, lookup_op o = true) no_panic).
Abbreviation status_safe := (safe answers (λ R o, status_op o = true) no_panic).
Abbreviation informer_safe := (safe answers (λ R o, informer_op o = true ∧ stores R o)).
Abbreviation manifest_safe := (safe answers (λ R o, manifest_op o ∧ stores R o) stopper_panic).
Abbreviation reconcile_safe := (safe answers (λ R o, reconcile_op o ∧ stores R o) stopper_panic).

(** ** Lookups *)

Lemma GetObjectFromKey_safe key :
  lookup_safe (λ r, unstructured_answer r) (GetObjectFromKey key).
Proof. unfold GetObjectFromKey, getObject. safe_auto. Qed.

Lemma ToAppliedManifestWork_lift obj : is_unstructured obj = true → as_unstructured obj = Done obj.
Proof. unfold as_unstructured. by intros ->. Qed.

Lemma GetAppliedManifestWork_safe obj : lookup_safe (λ _, True) (GetAppliedManifestWork obj).
Proof.
  unfold GetAppliedManifestWork. safe_auto.
  cbn in *. unfold as_unstructured in *. by case_match; simplify_eq.
Qed.

(** ** Statuses *)

Lemma lookup_status {A} (Q : A → Prop) (t : prog Op A) : lookup_safe Q t → status_safe Q t.
Proof. apply safe_weaken; auto. intros R o. unfold status_op. by intros ->. Qed.

Lemma managed_by_KS_safe labels : status_safe (λ b, b = true → KS_managed labels) (managed_by_KS labels).
Proof.
  unfold managed_by_KS. safe_auto; intros Hb; unfold KS_managed.
  - match goal with H : HasPrefixInMap _ _ _ = true |- _ => apply HasPrefixInMap_spec in H as (k & v & ? & ?) end. eauto 7.
  - apply HasPrefixInMap_spec in Hb as (k & v & ? & ?). eauto 7.
Qed.

Lemma createWorkStatus_safe cfg obj aWork ws : status_safe (λ _, True) (createWorkStatus cfg obj aWork ws).
Proof.
  unfold createWorkStatus, GetManifestWork. safe_auto. cbn [mbind mret prog_bind prog_ret].
  eapply safe_bind; [apply managed_by_KS_safe|]. intros b Hb. safe_auto.
  - unfold GetGVR in *. cbn in *. repeat case_match; simplify_eq.
  - destruct b; [|done]. destruct (copy_singleton_label_Done (mw_Labels a) (GetLabels obj)) as [l Hl]; [by apply Hb|].
    congruence.
Qed.

Lemma updateWorkStatus_safe obj ws : status_safe (λ _, True) (updateWorkStatus obj ws).
Proof. unfold updateWorkStatus, patchSingletonLabel. safe_auto. Qed.

Lemma deleteWorkStatus_safe ws : status_safe (λ _, True) (deleteWorkStatus ws).
Proof. unfold deleteWorkStatus. safe_auto. Qed.

Lemma reportWorkStatus_safe cfg obj aWork del : status_safe (λ _, True) (reportWorkStatus cfg obj aWork del).
Proof.
  unfold reportWorkStatus. destruct (BuildWorkstatusName_Done aWork obj) as (name & ->). cbn [lift mbind prog_bind].
  destruct del; [apply deleteWorkStatus_safe|]. split; [done|]. intros [ws|err] _; cbn [mbind prog_bind].
  - apply updateWorkStatus_safe.
  - destruct (IsNotFound err); [|done]. eapply safe_bind; [apply createWorkStatus_safe|].
    intros [e|ws] _; [done|apply updateWorkStatus_safe].
Qed.

Lemma handleWorkStatus_triple cfg obj del : status_safe (λ _, True) (handleWorkStatus cfg obj del).
Proof.
  unfold handleWorkStatus. eapply safe_bind; [apply lookup_status, GetAppliedManifestWork_safe|].
  intros [aWork|err] _; [apply reportWorkStatus_safe|done].
Qed.

(** ** Informers *)

Lemma getRestMapper_safe crash : informer_safe crash (λ r, ∃ m, r = GOk m) getRestMapper.
Proof.
  unfold getRestMapper. split; [done|]. intros r [g ->]. cbn. eauto.
Qed.

Lemma updateRestMapper_safe crash : informer_safe crash (λ _, True) updateRestMapper.
Proof.
  unfold updateRestMapper. eapply safe_bind; [apply getRestMapper_safe|]. intros r [m ->]. cbn.
  split; [done|]. done.
Qed.

Lemma mapperKindFor_safe crash gvr : informer_safe crash (λ _, True) (mapperKindFor gvr).
Proof. unfold mapperKindFor. split; [done|]. intros [m|] Hm; [done|]. by destruct Hm. Qed.

Lemma startInformer_safe crash gvr gvk c b : informer_safe crash (λ _, True) (startInformer gvr gvk c b).
Proof. unfold startInformer. repeat safe_call. done. Qed.

Lemma startObject_safe crash gvr gvk uid : informer_safe crash (λ _, True) (startObject gvr gvk uid).
Proof.
  unfold startObject. do 2 safe_call. cbn [mbind prog_bind]. case_decide; [|done].
  split; [done|intros c _]. apply startInformer_safe.
Qed.

Lemma startInformers_loop_safe crash uids i gvrs :
  length uids = i + length gvrs → informer_safe crash (λ _, True) (startInformers_loop uids i gvrs).
Proof.
  revert i. induction gvrs as [|gvr gvrs IH]; intros i Hlen; [done|]. cbn [startInformers_loop].
  eapply safe_bind; [apply mapperKindFor_safe|]. intros [gvk|err] _; [|done].
  destruct (excluded gvk); [apply IH; simpl in *; lia|].
  destruct (lookup_lt_is_Some_2 uids i) as [uid Hu]; [simpl in *; lia|]. unfold index. rewrite Hu.
  cbn [lift mbind prog_bind]. eapply safe_bind; [apply startObject_safe|]. intros _ _. apply IH. simpl in *. lia.
Qed.

Lemma startInformers_triple crash gvrs uids :
  length uids = length gvrs → informer_safe crash (λ _, True) (startInformers gvrs uids).
Proof.
  intros Hlen. unfold startInformers. eapply safe_bind; [apply updateRestMapper_safe|].
  intros _ _. by apply startInformers_loop_safe.
Qed.

Lemma stopInformer_safe key : informer_safe stopper_panic (λ _, True) (stopInformer key).
Proof.
  unfold stopInformer. split; [done|]. intros [c|] _; [|done]. repeat safe_call. done.
Qed.

Lemma stopObject_safe gvk uid : informer_safe stopper_panic (λ _, True) (stopObject gvk (Done uid)).
Proof.
  unfold stopObject. split; [done|]. intros [inf|] _; [|done]. do 2 safe_call. cbn [mbind prog_bind].
  case_decide; [apply stopInformer_safe|done].
Qed.

Lemma stopInformers_loop_safe uids i gvrs :
  length uids = i + length gvrs → informer_safe stopper_panic (λ _, True) (stopInformers_loop uids i gvrs).
Proof.
  revert i. induction gvrs as [|gvr gvrs IH]; intros i Hlen; [done|]. cbn [stopInformers_loop].
  eapply safe_bind; [apply mapperKindFor_safe|]. intros [gvk|err] _; [|done].
  destruct (lookup_lt_is_Some_2 uids i) as [uid Hu]; [simpl in *; lia|]. unfold index. rewrite Hu.
  eapply safe_bind; [apply stopObject_safe|]. intros _ _. apply IH. simpl in *. lia.
Qed.

Lemma stopInformers_triple info : info_wf info → informer_safe stopper_panic (λ _, True) (stopInformers info).
Proof.
  intros Hwf. unfold stopInformers. eapply safe_bind; [by apply stopInformers_loop_safe|].
  intros [] _; [apply updateRestMapper_safe|done].
Qed.

(** ** Manifests *)

Lemma informer_manifest crash {A} (Q : A → Prop) (t : prog Op A) :
  (∀ q, crash q → q = PanicTypeAssert) → informer_safe crash Q t → manifest_safe Q t.
Proof. intros Hc. apply safe_weaken; auto. intros R o [Ho Hs]. split; [by left|done]. Qed.

Lemma handleAppliedManifestWork_triple obj del :
  is_unstructured obj = true → manifest_safe (λ _, True) (handleAppliedManifestWork obj del).
Proof.
  intros Hu. unfold handleAppliedManifestWork. rewrite (ToAppliedManifestWork_lift _ Hu). cbn [lift mbind prog_bind].
  destruct (ToAppliedManifestWork obj) as [aWork|err]; [|done]. pose proof (manifest_info_wf aWork) as Hwf.
  destruct del.
  - split; [split; [by right|done]|]. intros [info|] Hi; [|done]. cbn [mbind prog_bind]. eapply safe_bind.
    { eapply (informer_manifest stopper_panic), stopInformers_triple; [done|]. by apply Hi. }
    intros _ _. split; [split; [by right|done]|]. done.
  - case_decide; [done|]. split; [split; [by right|done]|]. intros [info|] Hi; cbn [mbind prog_bind].
    + case_decide; [done|]. do 2 (split; [split; [by right|done]|intros ? _]). cbn [mbind prog_bind].
      destruct (GetAddedRemovedInfo_uids r r0 info (MkInfo (GetTrackedObjectsUID aWork) (ListGVRs aWork)))
        as (added & removed & -> & Hwa & Hwr & _); [by apply Hi|done|].
      do 2 (split; [split; [by right|done]|intros ? _]). cbn [mbind prog_bind].
      eapply safe_bind; [by eapply (informer_manifest stopper_panic), stopInformers_triple|]. done.
    + do 2 (split; [split; [by right|done]|intros ? _]). done.
Qed.

(** ** Reconciliation *)

Lemma status_reconcile {A} (Q : A → Prop) (t : prog Op A) : status_safe Q t → reconcile_safe Q t.
Proof.
  apply safe_weaken; auto; [|by intros q []]. intros R o Ho. split; [by left|]. by destruct o.
Qed.

Lemma manifest_reconcile {A} (Q : A → Prop) (t : prog Op A) : manifest_safe Q t → reconcile_safe Q t.
Proof. apply safe_weaken; auto. intros R o [Ho Hs]. split; [right; by left|done]. Qed.

Lemma reconcileObject_triple cfg obj del :
  is_unstructured obj = true → reconcile_safe (λ _, True) (reconcileObject cfg obj del).
Proof.
  intros Hu. unfold reconcileObject. destruct (IsAppliedManifestWork _).
  { by apply manifest_reconcile, handleAppliedManifestWork_triple. }
  destruct (IsManagedByAppliedManifestWork obj); cbn [negb]; [|done].
  eapply safe_bind; [apply status_reconcile, handleWorkStatus_triple|]. done.
Qed.

Lemma reconcile_triple cfg key : reconcile_safe (λ _, True) (reconcile cfg key).
Proof.
  unfold reconcile. eapply safe_bind; [apply status_reconcile, lookup_status, GetObjectFromKey_safe|].
  intros [obj|err] Hr; [by apply reconcileObject_triple|].
  destruct (IsNotFound err); [|by destruct (IsListerNotFound err)].
  destruct (DeletedObject key) as [a|]; [|done].
  split; [split; [by right; right|done]|]. intros obj Ho. by apply reconcileObject_triple.
Qed.
End triples.

(** ** Event handlers, workers and startup *)

Section agent.
Context {RT : GoRuntime} {K : Kube}.

(** Everything the goroutines of the agent do. *)
Definition agent_op (R : Type) (o : Op R) : Prop := (reconcile_op o ∨ queue_op o ∨ startup_op o) ∧ stores R o.
Abbreviation agent_safe := (safe answers agent_op stopper_panic).
#[local] Arguments GetObjectFromKey : simpl never.

Lemma reconcile_agent {A} (Q : A → Prop) (t : prog Op A) :
  safe answers (λ R o, reconcile_op o ∧ stores R o) stopper_panic Q t → agent_safe Q t.
Proof. apply safe_weaken; auto. intros R o [Ho Hs]. split; [by left|done]. Qed.

Lemma lookup_agent {A} (Q : A → Prop) (t : prog Op A) :
  safe answers (λ R o, lookup_op o = true) no_panic Q t → agent_safe Q t.
Proof. intros H. by apply reconcile_agent, status_reconcile, lookup_status. Qed.

Lemma informer_agent {A} (Q : A → Prop) crash (t : prog Op A) :
  (∀ q, crash q → q = PanicTypeAssert) →
  safe answers (λ R o, informer_op o = true ∧ stores R o) crash Q t → agent_safe Q t.
Proof. intros Hc. apply safe_weaken; auto. intros R o [Ho Hs]. split; [right; right; by left|done]. Qed.

Lemma queue_safe {R} (o : Op R) : queue_op o → stores R o → agent_safe (λ _, True) (act o).
Proof. intros Ho Hs. split; [split; [right; by left|done]|]. done. Qed.

Lemma CopyObjectMetaAndType_kind obj : is_unstructured (CopyObjectMetaAndType obj) = is_unstructured obj.
Proof.
  unfold CopyObjectMetaAndType, with_struct, zero_field, is_unstructured. cbn.
  destruct (struct_of obj) as [c|fs]; [done|]. cbn. repeat case_match; simplify_eq/=; done.
Qed.

Lemma enqueueObject_triple obj skip :
  is_unstructured obj = true → agent_safe (λ _, True) (enqueueObject (VObject obj) skip).
Proof.
  intros Hu. unfold enqueueObject, KeyForGroupVersionKindNamespaceName. cbn.
  destruct (MetaNamespaceKeyFunc obj) as [nn|err]; cbn; [|by apply queue_safe].
  destruct skip; cbn; [by apply queue_safe|].
  eapply safe_bind; [apply lookup_agent, GetObjectFromKey_safe|]. intros [o|err] _; [by apply queue_safe|].
  destruct (IsNotFound err); [|done]. cbn. split; [split; [right; left|done]|].
  { cbn. by rewrite CopyObjectMetaAndType_kind. }
  intros addr _. by apply queue_safe.
Qed.

Lemma handleObject_triple obj : is_unstructured obj = true → agent_safe (λ _, True) (handleObject (VObject obj)).
Proof. intros Hu. by apply enqueueObject_triple. Qed.

(** What the informers hand to the handlers: objects, and for a deletion that the
    informer missed a tombstone, with the last state it knew. *)
Inductive handler_event : prog Op unit → Prop :=
| EvAdd obj : is_unstructured obj = true → handler_event (onAdd (VObject obj))
| EvUpdate old new : is_unstructured new = true → handler_event (onUpdate (VObject old) (VObject new))
| EvDelete obj : is_unstructured obj = true → handler_event (onDelete (VObject obj))
| EvDeleteMissed key obj : handler_event (onDelete (VDeletedFinalStateUnknown key obj)).

Lemma handler_triple t : handler_event t → agent_safe (λ _, True) t.
Proof.
  intros [obj Hu|old new Hu|obj Hu|key obj]; [by apply handleObject_triple| |by apply handleObject_triple|done].
  unfold onUpdate, shouldSkipUpdate. cbn. case_bool_decide; [done|by apply handleObject_triple].
Qed.

Lemma processItem_triple cfg item : agent_safe (λ _, True) (processItem cfg item).
Proof.
  unfold processItem, defer. eapply (safe_bind _ _ _ (λ _, True)).
  2:{ intros err _. eapply safe_bind; [by apply queue_safe|done]. }
  destruct item as [key|n].
  2:{ eapply safe_bind; [by apply queue_safe|]. intros _ _. by eapply safe_bind; [apply queue_safe|]. }
  eapply safe_bind; [apply reconcile_agent, reconcile_triple|]. intros [requeue [err|]] _; cbn.
  - by split; [split; [right; left|]|].
  - by destruct requeue; (split; [split; [right; left|]|]).
Qed.

Lemma processNextWorkItem_triple cfg : agent_safe (λ _, True) (processNextWorkItem cfg).
Proof.
  unfold processNextWorkItem. split; [split; [right; by left|done]|]. intros [item|] _; [|done].
  eapply safe_bind; [apply processItem_triple|]. intros [err|] _; [|done].
  by split; [split; [right; left|]|].
Qed.

Lemma runWorker_triple fuel cfg : agent_safe (λ _, True) (runWorker fuel cfg).
Proof.
  induction fuel as [|fuel IH]; [done|]. cbn [runWorker].
  eapply safe_bind; [apply processNextWorkItem_triple|]. intros [] _; [apply IH|done].
Qed.

Lemma waitForCaches_safe infs : agent_safe (λ _, True) (waitForCaches infs).
Proof.
  induction infs as [|i infs IH]; [done|]. cbn. split; [split; [right; right; by right; right|done]|].
  by intros [] _.
Qed.

Lemma startWorkers_safe n : agent_safe (λ _, True) (startWorkers n).
Proof. induction n as [|n IH]; [done|]. cbn. split; [split; [right; right; by right; right|done]|]. done. Qed.

Lemma run_agent_triple workers : agent_safe (λ _, True) (run_agent workers).
Proof.
  assert (∀ {R} (o : Op R), startup_op o → stores R o → agent_op R o) as Hs.
  { intros R o Ho Hst. split; [right; by right|done]. }
  unfold run_agent, defer. eapply (safe_bind _ _ _ (λ _, True)).
  2:{ intros err _. split; [apply Hs; [right; by left|done]|]. done. }
  split; [apply Hs; [by left|done]|]. intros c _. eapply (safe_bind _ _ _ (λ _, True)).
  2:{ intros err _. split; [apply Hs; [by left|done]|]. done. }
  eapply safe_bind; [eapply (informer_agent _ no_panic); [by intros ? []|apply startInformer_safe]|]. intros _ _.
  do 2 (split; [apply Hs; [by right; right|done]|intros ? _]). cbn [mbind prog_bind].
  eapply safe_bind; [apply waitForCaches_safe|]. intros [] _; cbn [negb]; [|done].
  eapply safe_bind; [apply startWorkers_safe|]. intros _ _.
  do 2 (split; [apply Hs; [by right; right|done]|intros ? _]). done.
Qed.
End agent.
