(* ===== verification/WorkerProps.v ===== *)
(** * Properties of the event handlers, the workers and the reconciliation *)

From S2P Require Export Footprint WorkStatusProps SimEnv.

Section worker_props.
Context {RT : GoRuntime} {K : Kube}.

#[local] Arguments reconcile : simpl never.
#[local] Arguments GetObjectFromKey : simpl never.
#[local] Arguments IsListerNotFound : simpl never.

(** ** Lemmas *)

(** The traces of a deferred call. *)
Lemma traces_defer {A} (d : Op unit) (t : prog Op A) tr a :
  traces (defer (act d) t) tr (Done a) → ∃ tr' u, tr = tr' ++ [Ev d u] ∧ traces t tr' (Done a).
Proof.
  unfold defer. intros [(tr1 & tr2 & b & -> & H1 & H2)|(q & [=] & _)]%traces_bind.
  cbn in H2. destruct H2 as (u & tr' & -> & -> & [= <-]). eauto.
Qed.

Lemma missing_lister_error k : IsListerNotFound (ErrF ("could not get lister for key: " +:+ k)) = true.
Proof. exact (Contains_app "" "could not get lister for key" (": " +:+ k)). Qed.

Section run.
Context {E : Type} `{Env : !Environment E}.
Implicit Types p : Process E.
Abbreviation run := (run (exec (E := E))).

(** ** The work queue *)

(** C22: the discipline of the work queue: an item is reconciled once, then, by its
    result, added back with a delay (on an error, which is returned for logging,
    or on a requeue) or forgotten, never both; and its processing always ends with
    [Done].  An item that is not a key is forgotten and reported. *)
Theorem processItem_queue cfg item tr err :
  traces (processItem cfg item) tr (Done err) →
  match item with
  | QKey key =>
      ∃ requeue rerr trr, traces (reconcile cfg key) trr (Done (requeue, rerr)) ∧
        tr = trr ++ [Ev (Lib (if bool_decide (rerr ≠ None) || requeue then CQueueAddRateLimited item
                              else CQueueForget item)) tt;
                     Ev (Lib (CQueueDone item)) tt] ∧
        (err = None ↔ rerr = None)
  | QOther _ =>
      err = None ∧ ∃ e, tr = [Ev (Lib (CQueueForget item)) tt; Ev (Lib (CHandleError e)) tt;
                              Ev (Lib (CQueueDone item)) tt]
  end.
Proof.
  unfold processItem. intros (tr' & [] & -> & H)%traces_defer. destruct item as [key|n].
  - apply traces_bind in H as [(tr1 & tr2 & [requeue rerr] & -> & H1 & H2)|(q & [=] & _)].
    exists requeue, rerr, tr1. split; [done|].
    destruct rerr as [e|]; [|destruct requeue]; cbn in H2; destruct H2 as ([] & tr & -> & -> & [= ->]);
      rewrite <- app_assoc; done.
  - cbn in H. destruct H as ([] & tr1 & -> & [] & tr2 & -> & -> & [= ->]). eauto.
Qed.

(** What the queue told a worker: the items it handed out, and that it was shut
    down. *)
Definition delivered (e : event Op) : option QueueItem :=
  match e with
  | Ev o r =>
      (match o in Op R return R → option QueueItem with
       | Lib c => match c in Call R return R → option QueueItem with CQueueGet => λ r, r | _ => λ _, None end
       | _ => λ _, None
       end) r
  end.
Abbreviation shut_down := (@Ev Op (option QueueItem) (Lib CQueueGet) None).

(** Actions between which no item is handed out and no shutdown is told. *)
Definition no_get (tr : list (event Op)) : Prop := (shut_down ∉ tr) ∧ omap delivered tr = [].

Lemma no_get_app tr1 tr2 : no_get tr1 → no_get tr2 → no_get (tr1 ++ tr2).
Proof. intros [H1 H2] [H3 H4]. split; [by intros [?|?]%elem_of_app|]. by rewrite omap_app, H2, H4. Qed.

Definition is_get_op {R} (o : Op R) : bool :=
  match o with Lib c => match c with CQueueGet => true | _ => false end | _ => false end.

Lemma no_get_cons {R} (o : Op R) r tr : is_get_op o = false → no_get tr → no_get (Ev o r :: tr).
Proof.
  intros Ho [H1 H2]. assert (delivered (Ev o r) = None ∧ Ev o r ≠ shut_down) as [Hd Hn].
  { destruct o; try done. by destruct c. }
  split; [|cbn [omap list_omap]; by rewrite Hd]. intros [Heq|?]%elem_of_cons; [by destruct Hn|done].
Qed.

(** A program that never asks the queue for an item. *)
Lemma safe_no_get {A} (Q : A → Prop) (t : prog Op A) tr out :
  safe (λ _ _ _, True) (λ R o, is_get_op o = false) (λ _, True) Q t → traces t tr out → no_get tr.
Proof.
  revert tr. induction t as [a|q|R o k IH]; intros tr; cbn; [by intros _ [-> _]; split; [apply not_elem_of_nil|]..|].
  intros [Ho Hk] (r & tr' & -> & Ht). apply no_get_cons; [done|]. by apply (IH r); [apply Hk|].
Qed.
Abbreviation getless := (safe (λ _ _ _, True) (λ R (o : Op R), is_get_op o = false) (λ _, True) (λ _, True)).

(** A call of another function of the program, and then the rest. *)
Ltac getless_call L := eapply (safe_bind _ _ _ (λ _, True)); [apply L|intros ? _].

Lemma stopInformers_getless info : getless (stopInformers info).
Proof.
  unfold stopInformers. eapply (safe_bind _ _ _ (λ _, True)).
  - generalize 0 (GVRs info). intros i gvrs. revert i. induction gvrs as [|gvr gvrs IH]; intros i; [done|].
    cbn [stopInformers_loop]. eapply (safe_bind _ _ _ (λ _, True)); [unfold mapperKindFor; safe_auto|].
    intros [gvk|err] _; [|done].
    eapply (safe_bind _ _ _ (λ _, True)); [|intros [] _; apply IH]. unfold stopObject, stopInformer. safe_auto.
  - intros [] _; [|done]. unfold updateRestMapper, getRestMapper. safe_auto.
Qed.

Lemma handleAppliedManifestWork_getless obj del : getless (handleAppliedManifestWork obj del).
Proof.
  unfold handleAppliedManifestWork. destruct (as_unstructured obj) as [u|q]; cbn [lift mbind prog_bind]; [|done].
  destruct (ToAppliedManifestWork u) as [aWork|err]; [|done]. destruct del.
  - safe_call. destruct (_ : option AppliedManifestInfo) as [info|]; [|done]. cbn [mbind prog_bind].
    getless_call stopInformers_getless. by split.
  - case_decide; [done|]. safe_call. destruct (_ : option AppliedManifestInfo) as [old|]; cbn [mbind prog_bind]; [|safe_auto].
    case_decide; [done|]. do 2 safe_call. cbn [mbind prog_bind].
    destruct (GetAddedRemovedInfo _ _ _ _) as [[added removed]|q]; cbn [lift mbind prog_bind]; [|done].
    do 2 safe_call. cbn [mbind prog_bind]. by getless_call stopInformers_getless.
Qed.

Lemma handleWorkStatus_getless cfg obj del : getless (handleWorkStatus cfg obj del).
Proof.
  assert (∀ ws, getless (updateWorkStatus obj ws)) as Hupdate.
  { intros ws. unfold updateWorkStatus, patchSingletonLabel. safe_auto. }
  assert (∀ aWork ws, getless (createWorkStatus cfg obj aWork ws)) as Hcreate.
  { intros aWork ws. unfold createWorkStatus, GetManifestWork, managed_by_KS. safe_auto. }
  unfold handleWorkStatus. eapply (safe_bind _ _ _ (λ _, True)); [unfold GetAppliedManifestWork; safe_auto|].
  intros [aWork|err] _; [|done]. unfold reportWorkStatus.
  destruct (BuildWorkstatusName aWork obj) as [name|q]; cbn [lift mbind prog_bind]; [|done].
  destruct del; [unfold deleteWorkStatus; safe_auto|]. split; [done|]. intros [ws|err] _; cbn [mbind prog_bind]; [apply Hupdate|].
  destruct (IsNotFound err); [|done]. eapply (safe_bind _ _ _ (λ _, True)); [apply Hcreate|].
  intros [e|ws] _; [done|apply Hupdate].
Qed.

Lemma reconcile_getless cfg key : getless (reconcile cfg key).
Proof.
  assert (∀ obj del, getless (reconcileObject cfg obj del)) as Hobj.
  { intros obj del. unfold reconcileObject. destruct (IsAppliedManifestWork _); [apply handleAppliedManifestWork_getless|].
    destruct (negb _); [done|]. by getless_call handleWorkStatus_getless. }
  unfold reconcile. eapply (safe_bind _ _ _ (λ _, True)); [unfold GetObjectFromKey, getObject; safe_auto|].
  intros [obj|err] _; [apply Hobj|]. destruct (IsNotFound err); [|by destruct (IsListerNotFound err)].
  destruct (DeletedObject key); [|done]. split; [done|]. intros o _. apply Hobj.
Qed.

Lemma processItem_getless cfg item : getless (processItem cfg item).
Proof.
  unfold processItem, defer. eapply (safe_bind _ _ _ (λ _, True)); [|by split].
  destruct item as [key|n]; [|safe_auto]. getless_call reconcile_getless. safe_auto.
Qed.

(** An iteration: it asks the queue once, and stops when that says that it is shut
    down. *)
Lemma processNextWorkItem_gets cfg tr out :
  traces (processNextWorkItem cfg) tr out →
  (tr = [shut_down] ∧ out = Done false) ∨
  ∃ item tr', tr = Ev (Lib CQueueGet) (Some item) :: tr' ∧ no_get tr' ∧ out ≠ Done false.
Proof.
  unfold processNextWorkItem. cbn. intros ([item|] & tr' & -> & Ht); [right|left; by destruct Ht as [-> ->]].
  exists item, tr'. split; [done|]. split.
  - eapply (safe_no_get (λ _, True)); [|exact Ht]. getless_call processItem_getless. by destruct a.
  - intros ->. apply traces_bind in Ht as [(tr1 & tr2 & [e|] & -> & _ & H2)|(q & [=] & _)]; cbn in H2; naive_solver.
Qed.

Lemma turn_gets item tr1 tr2 :
  no_get tr1 → let tr := Ev (Lib CQueueGet) (Some item) :: tr1 ++ tr2 in
  (shut_down ∈ tr → shut_down ∈ tr2) ∧ length (omap delivered tr) = S (length (omap delivered tr2)).
Proof.
  intros [Hn Hg]. cbn [omap list_omap delivered]. fold (omap delivered (tr1 ++ tr2)). rewrite omap_app, Hg. split; [|done].
  intros [Heq|[?|?]%elem_of_app]%elem_of_cons; [|done..]. by apply (f_equal delivered) in Heq.
Qed.

Lemma runWorker_gets cfg fuel tr out :
  traces (runWorker fuel cfg) tr out →
  match out with
  | Done true => ∃ tr', tr = tr' ++ [shut_down] ∧ (shut_down ∉ tr') ∧ length (omap delivered tr') < fuel
  | Done false => (shut_down ∉ tr) ∧ length (omap delivered tr) = fuel
  | Panic _ => shut_down ∉ tr
  end.
Proof.
  revert tr out. induction fuel as [|fuel IH]; intros tr out; cbn [runWorker].
  { intros [-> ->]. split; [apply not_elem_of_nil|done]. }
  intros [(tr1 & tr2 & [] & -> & H1 & H2)|(q & -> & H1)]%traces_bind; apply processNextWorkItem_gets in H1
    as [[-> Ho]|(item & tr' & -> & Hno & Ho)]; simplify_eq.
  - specialize (IH tr2 out H2). rewrite <- app_comm_cons. destruct out as [[]|q].
    + destruct IH as (tr3 & -> & Hn & Hl). exists (Ev (Lib CQueueGet) (Some item) :: tr' ++ tr3).
      destruct (turn_gets item tr' tr3 Hno) as [Hin Hlen]. rewrite <- app_comm_cons, <- app_assoc.
      split; [done|]. split; [by intros ?%Hin|]. rewrite Hlen. lia.
    + destruct (turn_gets item tr' tr2 Hno) as [Hin Hlen], IH as [Hn Hl]. split; [by intros ?%Hin|]. by rewrite Hlen, Hl.
    + destruct (turn_gets item tr' tr2 Hno) as [Hin _]. by intros ?%Hin.
  - destruct H2 as [-> ->]. exists []. split; [done|]. split; [apply not_elem_of_nil|cbn; lia].
  - destruct (turn_gets item tr' [] Hno) as [Hin _]. rewrite app_nil_r in Hin. intros ?%Hin. by eapply not_elem_of_nil.
Qed.

(** C27: a worker's loop ends exactly when the queue is shut down.  Of the actions of
    the loop, for any number of iterations: when it has ended, the last answer of the
    queue was that it is shut down, and no earlier one was; when it is cut off
    for want of fuel, the queue has never said so, and has handed out an item for each
    iteration; and when it panics the queue has not said so either.  So a worker
    that is told is at its end, without another action.  The runs that end are
    those of the source's unbounded loop. *)
Theorem worker_stops_at_shutdown cfg :
  (∀ fuel tr out, traces (runWorker fuel cfg) tr out →
     match out with
     | Done true => ∃ tr', tr = tr' ++ [shut_down] ∧ (shut_down ∉ tr') ∧ length (omap delivered tr') < fuel
     | Done false => (shut_down ∉ tr) ∧ length (omap delivered tr) = fuel
     | Panic _ => shut_down ∉ tr
     end) ∧
  (∀ tr, worker_loop cfg tr ↔ ∃ fuel, traces (runWorker fuel cfg) tr (Done true)).
Proof.
  split; [apply runWorker_gets|]. intros tr. split.
  - induction 1 as [tr Ht|tr tr' Ht _ [fuel IH]].
    + exists 1. apply traces_bind. left. exists tr, [], false. by rewrite app_nil_r.
    + exists (S fuel). apply traces_bind. left. by exists tr, tr', true.
  - intros [fuel Ht]. revert tr Ht. induction fuel as [|fuel IH]; intros tr; cbn [runWorker]; [by intros [_ [=]]|].
    intros [(tr1 & tr2 & [] & -> & H1 & H2)|(q & [=] & _)]%traces_bind; [by apply LoopTurns; [|apply IH]|].
    destruct H2 as [-> _]. rewrite app_nil_r. by apply LoopEnds.
Qed.

(** C23: an event handler puts at most one item on the queue, after one lookup:
    the key of the object when the lister still has it, the key with a new copy
    of the object when the lister says that it is gone, and nothing on any other
    error of the lookup (a stopped informer, for instance). *)
Theorem handler_enqueues obj tr :
  traces (handleObject (VObject obj)) tr (Done tt) →
  (∃ err, KeyForGroupVersionKindNamespaceName (VObject obj) = Done (GErr err) ∧
     tr = [Ev (Lib (CHandleError err)) tt]) ∨
  ∃ key trl r, KeyForGroupVersionKindNamespaceName (VObject obj) = Done (GOk key) ∧
    traces (GetObjectFromKey key) trl (Done r) ∧
    match r with
    | GOk _ => tr = trl ++ [Ev (Lib (CQueueAdd (QKey key))) tt]
    | GErr err =>
        if IsNotFound err then
          ∃ addr, tr = trl ++ [Ev (CellNew (CopyObjectMetaAndType obj)) addr;
                               Ev (Lib (CQueueAdd (QKey (MkKey (GvkKey key) (NamespaceNameKey key) (Some addr))))) tt]
        else tr = trl
    end.
Proof.
  unfold handleObject, enqueueObject. cbn.
  destruct (MetaNamespaceKeyFunc obj) as [nn|err]; cbn;
    [|intros ([] & ? & -> & -> & _); left; eauto].
  set (key := MkKey _ nn None).
  intros [(tr1 & tr2 & r & -> & H1 & H2)|(q & [=] & _)]%traces_bind.
  right. exists key, tr1, r. split; [done|]. split; [done|]. destruct r as [o|err].
  - cbn in H2. destruct H2 as ([] & ? & -> & -> & _). done.
  - destruct (IsNotFound err); cbn in H2.
    + destruct H2 as (addr & ? & -> & [] & ? & -> & -> & _). by exists addr.
    + destruct H2 as [-> _]. by rewrite app_nil_r.
Qed.

(** A resync, an update event that does not change the resource version, does
    nothing; any other update is handled as the new object. *)
Lemma onUpdate_resync old new :
  onUpdate (VObject old) (VObject new) =
    if decide (GetResourceVersion new = GetResourceVersion old) then mret tt else handleObject (VObject new).
Proof. unfold onUpdate, shouldSkipUpdate. cbn. by case_bool_decide; case_decide. Qed.

(** A deletion that the informer missed reaches the handler as a tombstone
    [cache.DeletedFinalStateUnknown], which implements neither interface the
    handler asserts: the goroutine panics, in any state. *)
Lemma onDelete_tombstone_panics key obj p :
  run (onDelete (VDeletedFinalStateUnknown key obj)) p = Panic PanicTypeAssert.
Proof. done. Qed.

(** ** Reconciliation *)

(** Nothing is done and nothing is requeued for a key whose kind has no lister
    (its informer was stopped), for an object that is gone and came without a
    copy, and for an object that is neither an applied manifest work nor owned by
    one. *)
Lemma reconcile_ignores cfg key p :
  (listers (agent p) !! GvkKey key = None → run (reconcile cfg key) p = Done ((false, None), p)) ∧
  (∀ err p', run (GetObjectFromKey key) p = Done (GErr err, p') → IsNotFound err = true → DeletedObject key = None →
     run (reconcile cfg key) p = Done ((false, None), p')) ∧
  (∀ obj p', run (GetObjectFromKey key) p = Done (GOk obj, p') →
     IsAppliedManifestWork (VObject obj) = false → GetAppliedManifestWorkName obj = "" →
     run (reconcile cfg key) p = Done ((false, None), p')).
Proof.
  unfold reconcile. split_and!.
  - intros Hl. rewrite run_bind. unfold GetObjectFromKey. cbn. unfold SafeMap_Get. rewrite Hl. cbn.
    by rewrite missing_lister_error.
  - intros err p' Hr Hn Hd. rewrite run_bind, Hr. cbn. by rewrite Hn, Hd.
  - intros obj p' Hr Ha Hm. rewrite run_bind, Hr. cbn. unfold reconcileObject. rewrite Ha.
    unfold IsManagedByAppliedManifestWork. rewrite Hm. done.
Qed.

(** C21: the round trip of a deletion.  The handler of the deletion of an object
    whose lister says it is gone stores a copy and queues its key with the copy's
    address; reconciling that key, while the lister still has no object, handles
    the copy as being deleted.  The copy is of the same kind, is managed by the
    same applied manifest work and has the same WorkStatus name, so that it is the
    WorkStatus of the object that is deleted. *)
Theorem deletion_roundtrip cfg obj key err p p1 p2 p3 err' :
  KeyForGroupVersionKindNamespaceName (VObject obj) = Done (GOk key) →
  run (GetObjectFromKey key) p = Done (GErr err, p1) → IsNotFound err = true →
  let copy := CopyObjectMetaAndType obj in
  let key' := MkKey (GvkKey key) (NamespaceNameKey key) (Some (next p1)) in
  run (GetObjectFromKey key) p2 = Done (GErr err', p3) → IsNotFound err' = true →
  cells p3 !! next p1 = Some copy →
  (∃ p', run (onDelete (VObject obj)) p = Done (tt, p') ∧ cells p' !! next p1 = Some copy ∧
     env p' = (respond (CQueueAdd (QKey key')) (env p1)).2) ∧
  run (reconcile cfg key') p2 = run (reconcileObject cfg copy true) p3 ∧
  IsAppliedManifestWork (VObject copy) = IsAppliedManifestWork (VObject obj) ∧
  GetAppliedManifestWorkName copy = GetAppliedManifestWorkName obj ∧
  (∀ aWork, BuildWorkstatusName aWork copy = BuildWorkstatusName aWork obj).
Proof.
  intros Hkey Hr Hn copy key' Hr2 Hn2 Hc. split_and!; try done.
  - unfold onDelete, handleObject, enqueueObject. rewrite Hkey. cbn.
    rewrite run_bind, Hr. cbn. rewrite Hn. cbn.
    destruct (respond (CQueueAdd (QKey key')) (env p1)) as [[] e] eqn:Ee. cbn.
    replace (respond _ _) with (tt, e) by (symmetry; exact Ee). eexists. split; [done|]. cbn.
    split; [apply lookup_insert_eq|done].
  - unfold reconcile. rewrite run_bind. change (GetObjectFromKey key') with (GetObjectFromKey key).
    rewrite Hr2. cbn. rewrite Hn2. cbn. by rewrite Hc.
Qed.
End run.

End worker_props.

(** ** Closed instances *)

(** The deployment of the scenario, unlabelled, and the key its handler makes. *)
Definition ex_obj : Object := sc_deployment None.
Definition ex_key : Key := MkKey sc_key "default/web" None.

(** A process whose caches hold the given objects. *)
Definition ex_process (objs : list Object) : Process SimEnv :=
  sc_process (sc_env [ex_amw] objs [sc_manifestwork] [] None []).

Abbreviation ex_log t p := (run_log (exec (E := SimEnv)) t p).
Definition ex_item_log := ex_log (processItem sc_config (QKey ex_key)) (ex_process [ex_obj]).
Definition ex_handler_log := ex_log (handleObject (VObject ex_obj)) (ex_process []).

Lemma processItem_queue_witness :
  ∃ requeue rerr trr, traces (reconcile sc_config ex_key) trr (Done (requeue, rerr)) ∧
    ex_item_log.1 = trr ++ [Ev (Lib (if bool_decide (rerr ≠ None) || requeue then CQueueAddRateLimited (QKey ex_key)
                              else CQueueForget (QKey ex_key))) tt; Ev (Lib (CQueueDone (QKey ex_key))) tt] ∧
    (None = (None : option error) ↔ rerr = None).
Proof.
  refine (processItem_queue sc_config (QKey ex_key) ex_item_log.1 None _).
  apply log_value_traces. vm_compute. reflexivity.
Defined.

Lemma handler_enqueues_witness :
  length ex_handler_log.1 = 4 ∧
  ((∃ err, KeyForGroupVersionKindNamespaceName (VObject ex_obj) = Done (GErr err) ∧
     ex_handler_log.1 = [Ev (Lib (CHandleError err)) tt]) ∨
   ∃ key trl r, KeyForGroupVersionKindNamespaceName (VObject ex_obj) = Done (GOk key) ∧
     traces (GetObjectFromKey key) trl (Done r) ∧
     match r with
     | GOk _ => ex_handler_log.1 = trl ++ [Ev (Lib (CQueueAdd (QKey key))) tt]
     | GErr err =>
         if IsNotFound err then
           ∃ addr, ex_handler_log.1 = trl ++ [Ev (CellNew (CopyObjectMetaAndType ex_obj)) addr;
             Ev (Lib (CQueueAdd (QKey (MkKey (GvkKey key) (NamespaceNameKey key) (Some addr))))) tt]
         else ex_handler_log.1 = trl
     end).
Proof.
  split; [vm_compute; reflexivity|]. apply handler_enqueues. apply log_value_traces. vm_compute. reflexivity.
Defined.

(** The process after the deletion of the deployment has been handled. *)
Definition ex_after_delete : Process SimEnv :=
  match run (exec (E := SimEnv)) (onDelete (VObject ex_obj)) (ex_process []) with
  | Done (_, p) => p
  | Panic _ => ex_process []
  end.
Definition ex_lookup (p : Process SimEnv) : Process SimEnv :=
  match run (exec (E := SimEnv)) (GetObjectFromKey ex_key) p with Done (_, p') => p' | Panic _ => p end.

Lemma ex_lookup_before :
  run (exec (E := SimEnv)) (GetObjectFromKey ex_key) (ex_process []) = Done (GErr not_found, ex_lookup (ex_process [])).
Proof. vm_cast_no_check (eq_refl (Done (GErr (A := Object) not_found, ex_lookup (ex_process [])))). Qed.
Lemma ex_lookup_after :
  run (exec (E := SimEnv)) (GetObjectFromKey ex_key) ex_after_delete = Done (GErr not_found, ex_lookup ex_after_delete).
Proof. vm_cast_no_check (eq_refl (Done (GErr (A := Object) not_found, ex_lookup ex_after_delete))). Qed.
Lemma ex_copy_stored :
  cells (ex_lookup ex_after_delete) !! next (ex_lookup (ex_process [])) = Some (CopyObjectMetaAndType ex_obj).
Proof. vm_cast_no_check (eq_refl (Some (CopyObjectMetaAndType ex_obj))). Qed.

Lemma deletion_roundtrip_witness :
  ∃ a, run (exec (E := SimEnv)) (reconcile sc_config (MkKey sc_key "default/web" (Some a))) ex_after_delete =
    run (exec (E := SimEnv)) (reconcileObject sc_config (CopyObjectMetaAndType ex_obj) true) (ex_lookup ex_after_delete).
Proof.
  exists (next (ex_lookup (ex_process []))).
  exact (proj1 (proj2 (deletion_roundtrip sc_config ex_obj ex_key not_found (ex_process []) (ex_lookup (ex_process []))
    ex_after_delete (ex_lookup ex_after_delete) not_found eq_refl ex_lookup_before eq_refl ex_lookup_after eq_refl
    ex_copy_stored))).
Defined.

Lemma reconcile_ignores_witness :
  run (exec (E := SimEnv)) (reconcile sc_config (MkKey "batch/v1/Job" "default/web" None)) (ex_process []) =
  Done ((false, None), ex_process []).
Proof. apply reconcile_ignores. vm_compute. reflexivity. Defined.
