(* ===== verification/Concurrency.v ===== *)
(** * The agent as a pool of goroutines

    Goroutines interleave at their atomic actions; [go] statements and the events
    of the informers add goroutines.  The safety of the pool follows from the
    triples of [Footprint.v]. *)

From S2P Require Export Footprint.

Section concurrency.
Context {RT : GoRuntime} {K : Kube} {E : Type} `{Env : !Environment E}.
Context (cfg : AgentConfig).
Implicit Types p : Process E.

(** ** The pool *)

(** What a goroutine runs.  [wait.UntilWithContext] calls [runWorker] again and
    again: its body is the loop for any number of items.  The loop of an informer
    is the library's, and shows as the events below. *)
Inductive goroutine_body : Goroutine → prog Op unit → Prop :=
| BodyRun workers : goroutine_body (GRun workers) (_ ← run_agent workers; mret tt)
| BodyWorker fuel : goroutine_body GWorker (_ ← runWorker fuel cfg; mret tt)
| BodyStart gvrs uids : goroutine_body (GStartInformers gvrs uids) (startInformers gvrs uids)
| BodyInformer i c : goroutine_body (GInformerRun i c) (mret tt).

Record System : Type := MkSystem { proc : Process E; threads : list (prog Op unit) }.

Definition set_spawned p (l : list Goroutine) : Process E :=
  MkProcess (agent p) (chans p) (cells p) (next p) l (env p).

Inductive step : System → System → Prop :=
| StepAct p ts i R (o : Op R) k r p' :
    ts !! i = Some (Act o k) → exec R o p = Done (r, p') →
    step (MkSystem p ts) (MkSystem p' (<[i := k r]> ts))
| StepGo p ts i g t :
    spawned p !! i = Some g → goroutine_body g t →
    step (MkSystem p ts) (MkSystem (set_spawned p (delete i (spawned p))) (ts ++ [t]))
| StepEvent p ts t :
    handler_event t → step (MkSystem p ts) (MkSystem p (ts ++ [t])).

(** ** Schedules, for closed executions *)

Inductive choice : Type :=
| CAct (i : nat)                       (* the next action of a goroutine *)
| CActs (i n : nat)                    (* its next [n] actions *)
| CGo (i : nat) (fuel : nat).          (* the goroutine of a [go] statement starts *)

Definition body_of (g : Goroutine) (fuel : nat) : prog Op unit :=
  match g with
  | GRun workers => _ ← run_agent workers; mret tt
  | GWorker => _ ← runWorker fuel cfg; mret tt
  | GStartInformers gvrs uids => startInformers gvrs uids
  | GInformerRun _ _ => mret tt
  end.

Definition act_thread (i : nat) (s : System) : option System :=
  match threads s !! i with
  | Some (Act o k) =>
      match exec _ o (proc s) with
      | Done (r, p') => Some (MkSystem p' (<[i := k r]> (threads s)))
      | Panic _ => None
      end
  | _ => None
  end.

Fixpoint act_times (n i : nat) (s : System) : option System :=
  match n with
  | 0 => Some s
  | S n => act_thread i s ≫= act_times n i
  end.

Definition choose (c : choice) (s : System) : option System :=
  match c with
  | CAct i => act_thread i s
  | CActs i n => act_times n i s
  | CGo i fuel =>
      match spawned (proc s) !! i with
      | Some g => Some (MkSystem (set_spawned (proc s) (delete i (spawned (proc s)))) (threads s ++ [body_of g fuel]))
      | None => None
      end
  end.

Fixpoint schedule (cs : list choice) (s : System) : option System :=
  match cs with
  | [] => Some s
  | c :: cs => choose c s ≫= schedule cs
  end.

Lemma act_thread_step i s s' : act_thread i s = Some s' → step s s'.
Proof.
  unfold act_thread. destruct s as [p ts]. cbn. destruct (ts !! i) as [[a|q|R o k]|] eqn:Ei; [by intros|by intros| |by intros].
  destruct (exec R o p) as [[r p']|q] eqn:Ee; [|done]. intros [= <-]. eapply StepAct; [exact Ei|exact Ee].
Qed.

Lemma body_of_body g fuel : goroutine_body g (body_of g fuel).
Proof. destruct g; constructor. Qed.

Lemma choose_steps c s s' : choose c s = Some s' → rtc step s s'.
Proof.
  destruct c as [i|i n|i fuel]; cbn.
  - intros H. by eapply rtc_once, act_thread_step.
  - revert s. induction n as [|n IH]; cbn; intros s; [by intros [= <-]|].
    destruct (act_thread i s) as [s1|] eqn:E1; cbn; [|done]. intros H.
    eapply rtc_l; [by eapply act_thread_step|by apply IH].
  - destruct (spawned (proc s) !! i) as [g|] eqn:Eg; [|done]. intros [= <-].
    destruct s as [p ts]. eapply rtc_once, StepGo; [done|apply body_of_body].
Qed.

Lemma schedule_steps cs s s' : schedule cs s = Some s' → rtc step s s'.
Proof.
  revert s. induction cs as [|c cs IH]; cbn; intros s; [by intros [= <-]|].
  destruct (choose c s) as [s1|] eqn:E1; cbn; [|done]. intros H.
  etrans; [by eapply choose_steps|by apply IH].
Qed.

(** ** Safety of every interleaving *)

(** The part of the state that the assumptions on the answers speak about. *)
Record shared_ok (good : E → Prop) p : Prop := {
  so_env : good (env p);
  so_mapper : restMapper (agent p) ≠ None;
  so_infos name info : trackedAppliedManifests (agent p) !! name = Some info → info_wf info;
  so_cells a o : cells p !! a = Some o → is_unstructured o = true;
  so_spawned gvrs uids : GStartInformers gvrs uids ∈ spawned p → length uids = length gvrs
}.

(** The libraries answer as assumed. *)
Definition env_answers (good : E → Prop) : Prop :=
  ∀ R (c : Call R) e, good e → answers R (Lib c) (respond c e).1 ∧ good (respond c e).2.

Abbreviation agent_safe := (safe answers agent_op stopper_panic (λ _ : unit, True)).

Definition system_ok (good : E → Prop) (s : System) : Prop :=
  shared_ok good (proc s) ∧ Forall agent_safe (threads s).

Lemma exec_shared_ok good p R (o : Op R) r p' :
  env_answers good → shared_ok good p → agent_op R o → exec R o p = Done (r, p') →
  answers R o r ∧ shared_ok good p'.
Proof.
  intros Henv [He Hm Hi Hc Hs] [Ho Hst] Hex. destruct o; cbn in Hex; simplify_eq/=.
  - split; [|by split]. destruct f; try done. apply Hi.
  - split; [done|]. destruct f; split; try done; intros name info; cbn; unfold SafeMap_Set; try apply Hi.
    intros [[<- <-]|[_ ?]]%lookup_insert_Some; [|by eapply Hi].
    destruct Ho as [[Ho|[[Ho|Ho]|[]]]|[[]|[Ho|[[]|[]]]]]; done.
  - split; [done|]. destruct f; split; try done; intros name info; cbn; unfold SafeMap_Delete; try apply Hi.
    intros [_ ?]%lookup_delete_Some. by eapply Hi.
  - by split.
  - by split.
  - by split.
  - by split.
  - by split.
  - split; [done|]. by split.
  - by split.
  - by split.
  - destruct (chans p !! c) as [[]|]; simplify_eq/=. by split.
  - split; [done|]. split; try done. intros a o'. cbn. intros [[<- <-]|[_ ?]]%lookup_insert_Some; [|by eapply Hc].
    destruct Ho as [[Ho|[[Ho|[]]|[]]]|[Ho|[Ho|[Ho|[]]]]]; done.
  - destruct (cells p !! addr) as [o'|] eqn:Ea; simplify_eq/=. split; [by eapply Hc|by split].
  - split; [done|]. split; try done. cbn. intros gvrs uids [Hin|Hin]%elem_of_app; [by eapply Hs|].
    apply list_elem_of_singleton in Hin as <-. destruct Ho as [[Ho|[[Ho|Ho]|[]]]|[[]|[Ho|[[]|[]]]]]; done.
  - destruct (respond c (env p)) as [r' e'] eqn:Er. simplify_eq/=.
    destruct (Henv _ c (env p) He) as [Ha Hg]. rewrite Er in Ha, Hg. split; [exact Ha|by split].
Qed.

(** The answers in a logged run. *)
Lemma run_log_answers good {A} (Q : A → Prop) (t : prog Op A) p :
  env_answers good → shared_ok good p → safe answers agent_op stopper_panic Q t →
  Forall (λ e, match e with Ev o r => answers _ o r end) (run_log (exec (E := E)) t p).1.
Proof.
  intros Henv. revert p. induction t as [a|q|R o k IH]; intros p Hp Hs; cbn; [done..|].
  destruct Hs as [Ho Hk]. destruct (exec R o p) as [[r p']|q] eqn:Hex; [|done].
  destruct (exec_shared_ok good p R o r p' Henv Hp Ho Hex) as [Ha Hp'].
  specialize (IH r p' Hp' (Hk r Ha)). destruct (run_log exec (k r) p'). by constructor.
Qed.

Lemma body_safe g t :
  (∀ gvrs uids, g = GStartInformers gvrs uids → length uids = length gvrs) → goroutine_body g t → agent_safe t.
Proof.
  intros Hlen Hb. destruct Hb as [w|fuel|gvrs uids|i c]; [| | |done].
  - eapply safe_bind; [apply run_agent_triple|done].
  - eapply safe_bind; [apply runWorker_triple|done].
  - eapply (informer_agent _ no_panic); [by intros ? []|]. by apply startInformers_triple, Hlen.
Qed.

Lemma step_ok good s s' : env_answers good → step s s' → system_ok good s → system_ok good s'.
Proof.
  intros Henv Hstep [Hp Hts]. destruct Hstep as [p ts i R o k r p' Hi Hex|p ts i g t Hg Hb|p ts t Ht]; cbn in *.
  - pose proof (proj1 (Forall_lookup _ _) Hts _ _ Hi) as [Ho Hk].
    destruct (exec_shared_ok good p R o r p' Henv Hp Ho Hex) as [Ha Hp'].
    split; [done|]. cbn. apply Forall_insert; [done|]. by apply Hk.
  - split; cbn.
    + destruct Hp as [He Hm Hi Hc Hs]. split; try done. cbn. intros gvrs uids Hin.
      apply Hs. rewrite (delete_Permutation (spawned p) i g) by done. apply elem_of_cons. by right.
    + apply Forall_app. split; [done|]. constructor; [|done]. apply (body_safe g); [|done].
      intros gvrs uids ->. by eapply (so_spawned _ _ Hp), list_elem_of_lookup_2.
  - split; [done|]. cbn. apply Forall_app. split; [done|]. constructor; [|done]. by apply handler_triple.
Qed.

Lemma steps_ok good s s' : env_answers good → rtc step s s' → system_ok good s → system_ok good s'.
Proof. intros Henv. induction 1 as [|s1 s2 s3 Hs _ IH]; [done|]. intros Hok. by eapply IH, step_ok. Qed.

(** The actions that can panic in a pool that is [system_ok]: a close, and the
    read of a cell that was never allocated, which no Go pointer is. *)
Definition may_panic p {R} (o : Op R) : Prop :=
  match o with
  | ChanClose c => chans p !! c ≠ Some false
  | CellRead a => cells p !! a = None
  | _ => False
  end.

Lemma exec_panics p R (o : Op R) q : exec R o p = Panic q → may_panic p o.
Proof.
  destruct o; cbn; try done.
  - by destruct (chans p !! c) as [[]|].
  - by destruct (cells p !! addr).
  - by destruct (respond c (env p)).
Qed.
End concurrency.
