(* ===== verification/Races.v ===== *)
(** * What interleavings can and cannot do to the agent *)

From S2P Require Export Concurrency ManifestProps WorkStatusProps.

Section safety.
Context {RT : GoRuntime} {K : Kube} {E : Type} `{Env : !Environment E}.
Context (cfg : AgentConfig).

(** The agent [NewAgent] returns, with a discovered mapper, when [run] starts. *)
Definition initial (m : RESTMapper) (workers : Z) (e : E) : System :=
  MkSystem (MkProcess (MkAgent NewSafeMap NewSafeMap NewSafeMap NewSafeUIDMap NewSafeMap (Some m) false) ∅ ∅ 0 [] e)
    [_ ← run_agent workers; mret tt].

Lemma initial_ok good m workers e : good e → system_ok good (initial m workers e).
Proof.
  intros He. split.
  - split; try done. by intros gvrs uids ?%elem_of_nil.
  - constructor; [|done]. eapply safe_bind; [apply run_agent_triple|done].
Qed.

(** C20: in any environment and interleaving whose answers are as assumed (a
    discovered mapper, listers of unstructured objects), [handleWorkStatus] never
    panics, and it only reads the agent's state: it does nothing but look objects
    up and call the hub. *)
Theorem handleWorkStatus_no_panic obj isBeingDeleted tr out :
  traces (handleWorkStatus cfg obj isBeingDeleted) tr out →
  Forall (λ e, match e with Ev o r => answers _ o r end) tr →
  (∃ err, out = Done err) ∧ Forall (λ e, match e with Ev o _ => status_op o = true end) tr.
Proof.
  intros Ht Ha. destruct (safe_traces _ _ _ _ _ _ _ (handleWorkStatus_triple cfg obj isBeingDeleted) Ht Ha) as [Ho Hout].
  split; [|done]. destruct out as [e|q]; [eauto|done].
Qed.


(** Run alone, [handleWorkStatus] ends and leaves the agent's state as it is. *)
Lemma handleWorkStatus_keeps_agent good obj isBeingDeleted (p : Process E) :
  env_answers good → shared_ok good p →
  match run (exec (E := E)) (handleWorkStatus cfg obj isBeingDeleted) p with
  | Done (_, p') => agent p' = agent p
  | Panic _ => False
  end.
Proof.
  intros Henv Hp.
  assert (∀ R (o : Op R), status_op o = true → agent_op R o) as Hst.
  { intros R o Ho. split; [left; by left|by destruct o]. }
  pose proof (safe_run (exec (E := E)) answers (λ R o, status_op o = true) no_panic
    (λ p', shared_ok good p' ∧ agent p' = agent p) (λ _, True) (handleWorkStatus cfg obj isBeingDeleted) p) as Hrun.
  destruct (run _ _ p) as [[e p']|q]; (apply Hrun; clear Hrun; [| |apply handleWorkStatus_triple|done]).
  all: try by (intros R o s q' Ho _ Hex; apply exec_panics in Hex; destruct o).
  all: intros R o s r s' Ho [Hs Ha] Hex;
    destruct (exec_shared_ok good s R o _ _ Henv Hs (Hst R o Ho) Hex) as [Hr Hs'];
    (split; [done|]); (split; [done|]); rewrite <- Ha;
    destruct o; try done; cbn in Hex; simplify_eq/=; try done;
    by destruct (respond c (env s)); simplify_eq/=.
Qed.
End safety.

(** ** Closed executions *)

(** Two manifests, each listing one deployment. *)
Definition other_manifest : Object :=
  MkObject amw_gvk "" "amw2" None None [] "amw-uid2" "1" 1 None [] None
    (SUnstructured [("spec", JObject [("manifestWorkName", JString "mw2")]);
                    ("status", JObject [("appliedResources", JArray [sc_entry sc_gvr "dep-uid2"])])]).

Definition handler (obj : Object) (del : bool) : prog Op unit := _ ← handleAppliedManifestWork obj del; mret tt.

Definition race_start (ts : list (prog Op unit)) : System := MkSystem sc_empty ts.

Definition finished (t : prog Op unit) : bool := match t with Ret _ => true | _ => false end.

(** Closed executions reach what their final state shows. *)
Lemma schedule_reaches {E} `{!Environment E} cfg cs (s0 : System (E := E)) (P : System → Prop) `{!∀ s, Decision (P s)} :
  match schedule cfg cs s0 with Some s => bool_decide (P s) | None => false end = true →
  ∃ s, rtc (step cfg) s0 s ∧ P s.
Proof.
  destruct (schedule cfg cs s0) as [s|] eqn:Hs; [|done]. intros HP%bool_decide_eq_true.
  exists s. split; [by eapply schedule_steps|done].
Qed.

(** No goroutine has anything left to do, and none waits to start. *)
Definition quiescent {E} (s : System (E := E)) : Prop :=
  forallb finished (threads s) = true ∧
  forallb (λ g, match g with GInformerRun _ _ => true | _ => false end) (spawned (proc s)) = true.
#[export] Instance quiescent_dec {E} (s : System (E := E)) : Decision (quiescent s).
Proof. unfold quiescent. apply _. Defined.

Definition panic_of (t : prog Op unit) (p : Process SimEnv) : option panic :=
  match t with
  | Ret _ => None
  | Crash q => Some q
  | Act o _ => match exec _ o p with Panic q => Some q | Done _ => None end
  end.

(** C29: an informer can be lost.  Two workers handle two new manifests, with one
    object of the same kind each: when both goroutines add their uid before either
    counts, both count two, none starts the informer, and everything comes to rest
    with the objects tracked and no informer for them. *)
Theorem two_starts_lose_the_informer :
  ∃ s, rtc (step sc_config) (race_start [handler sc_manifest false; handler other_manifest false]) s ∧
    quiescent s ∧
    trackedAppliedManifests (agent (proc s)) !! "amw1" = Some (MkInfo ["dep-uid"] [sc_gvr]) ∧
    trackedAppliedManifests (agent (proc s)) !! "amw2" = Some (MkInfo ["dep-uid2"] [sc_gvr]) ∧
    tracked_uids (proc s) sc_key = {["dep-uid"; "dep-uid2"]} ∧
    informers (agent (proc s)) !! sc_key = None.
Proof.
  apply (schedule_reaches _ [CActs 0 3; CActs 1 3; CGo 0 0; CGo 0 0; CActs 2 4; CActs 3 4; CActs 2 1; CActs 3 1] _
    (λ s, _ ∧ _)).
  vm_compute. reflexivity.
Qed.

(** C32: an informer can outlive its manifest.  A manifest is created and deleted:
    when the deletion is handled before the goroutine of the creation has run, it
    finds no informer to stop, and the goroutine then starts one for an object
    that no tracked manifest lists. *)
Theorem delete_before_start_leaks :
  ∃ s, rtc (step sc_config) (race_start [handler sc_manifest false; handler sc_manifest true]) s ∧
    quiescent s ∧
    trackedAppliedManifests (agent (proc s)) = ∅ ∧
    tracked_uids (proc s) sc_key = {["dep-uid"]} ∧
    informers (agent (proc s)) !! sc_key ≠ None.
Proof.
  apply (schedule_reaches _ [CActs 0 3; CActs 1 6; CGo 0 0; CActs 2 12] _ (λ s, _ ∧ _)).
  vm_compute. reflexivity.
Qed.

(** A new version of the manifest [amw1], in which the deployment has been
    replaced by another. *)
Definition replaced_manifest : Object :=
  MkObject amw_gvk "" "amw1" None None [] "amw-uid" "2" 1 None [] None
    (SUnstructured [("spec", JObject [("manifestWorkName", JString "mw1")]);
                    ("status", JObject [("appliedResources", JArray [sc_entry sc_gvr "dep-uid2"])])]).

(** C30: one ordinary update loses the informer of what it adds.  A manifest whose
    only object is replaced by another of the same kind is handled by a single
    worker, which stops what was removed while the goroutine it has started starts
    what was added: when the goroutine adds its uid after the worker has counted
    none, it starts an informer over the running one, and the worker then stops
    the new one.  Everything comes to rest with the new object tracked, no
    informer for it, and the informer of the old one, which was started with the
    first channel, left with a stop channel that is open and in no map. *)
Theorem update_races_itself :
  ∃ s, rtc (step sc_config) (race_start [handler sc_manifest false; handler replaced_manifest false]) s ∧
    quiescent s ∧
    trackedAppliedManifests (agent (proc s)) !! "amw1" = Some (MkInfo ["dep-uid2"] [sc_gvr]) ∧
    tracked_uids (proc s) sc_key = {["dep-uid2"]} ∧
    informers (agent (proc s)) !! sc_key = None ∧
    chans (proc s) !! 0%N = Some false ∧ stoppers (agent (proc s)) = ∅.
Proof.
  apply (schedule_reaches _ [CActs 0 3; CGo 0 0; CActs 2 12; CActs 1 9; CGo 1 0; CActs 3 12; CActs 1 7] _ (λ s, _ ∧ _)).
  vm_compute. reflexivity.
Qed.

(** C31: both panics that the safety theorem leaves open are reachable.  The
    deletion of a manifest that overlaps the goroutine of its creation finds an
    informer without a stopper and fails its type assertion; the deletions of the
    last two objects of a kind by two workers both count zero, and close the same
    channel twice. *)
Theorem overlapping_stops_panic :
  (∃ s, rtc (step sc_config) (race_start [handler sc_manifest false; handler sc_manifest true]) s ∧
     (λ t, panic_of t (proc s)) <$> (threads s !! 1) = Some (Some PanicTypeAssert)) ∧
  (∃ s, rtc (step sc_config) (race_start [handler sc_manifest false; handler other_manifest false;
                                          handler sc_manifest true; handler other_manifest true]) s ∧
     (λ t, panic_of t (proc s)) <$> (threads s !! 3) = Some (Some PanicCloseClosed)).
Proof.
  split.
  - apply (schedule_reaches _ [CActs 0 3; CGo 0 0; CActs 2 8; CActs 1 6] _ (λ s, _ = Some (Some PanicTypeAssert))). vm_compute. reflexivity.
  - apply (schedule_reaches _ [CActs 0 3; CGo 0 0; CActs 4 12; CActs 1 3; CGo 1 0; CActs 5 5;
      CActs 2 4; CActs 3 4; CActs 2 2; CActs 3 2; CActs 2 1] _
      (λ s, _ = Some (Some PanicCloseClosed))). vm_compute. reflexivity.
Qed.

(** The simulation answers as the agent assumes. *)
Definition sim_good (e : SimEnv) : Prop :=
  se_discovery e = GOk sc_table ∧ ∀ k o, se_cache e !! k = Some o → is_unstructured o = true.

Lemma sim_env_answers : env_answers sim_good.
Proof.
  intros R c e [Hd Hc]. split.
  - destruct c; try done; cbn.
    + eauto.
    + unfold sim_lookup. destruct (se_cache e !! name) eqn:E1; [by eapply Hc|done].
    + unfold sim_lookup. destruct (se_cache e !! hub_key namespace name) eqn:E1; [by eapply Hc|done].
  - destruct c; try done; cbn; unfold sim_write; cbn; repeat case_match; done.
Qed.

Lemma ex_process_ok (e : SimEnv) : sim_good e → shared_ok sim_good (sc_process e).
Proof. intros He. split; try done. by intros gvrs uids ?%elem_of_nil. Qed.

Lemma handleWorkStatus_no_panic_witness :
  (∃ err, Done (None : option error) = Done err) ∧
  Forall (λ e, match e with Ev o _ => status_op o = true end) ex_create.1.
Proof.
  refine (handleWorkStatus_no_panic _ _ _ _ _ ex_create_traces _).
  apply (run_log_answers sim_good (λ _, True)); [exact sim_env_answers| |].
  - apply ex_process_ok. split; [reflexivity|].
    intros k o. cbn. intros [[_ <-]|[_ [=]]]%lookup_insert_Some. reflexivity.
  - apply reconcile_agent, status_reconcile, handleWorkStatus_triple.
Defined.
