(* ===== verification/Histories.v ===== *)
(** * Whole histories of the work queue, served one item at a time

    A worker takes keys from the queue one after the other and reconciles each;
    what a reconciliation sees is what the lister, or the copy in the key, gives.
    Served serially, with the goroutines a reconciliation starts run before the
    next item, every history refines an abstract table of manifests: the last
    version of each manifest that was seen, less those that were seen deleted. *)

From S2P Require Export Races WorkerProps.

Section histories.
Context {RT : GoRuntime} {K : Kube} {E : Type} `{Env : !Environment E}.
Context (cfg : AgentConfig).
Context (known : GroupVersionResource → option GroupVersionKind) (good : E → Prop).
(** Each object is delivered by one applied manifest work, and has one resource. *)
Context (owner : string → string) (resource : string → GroupVersionResource).
Implicit Types p : Process E.
Abbreviation run := (run (exec (E := E))).

(** ** Serial execution *)

(** One item: the reconciliation, then the goroutines it has started. *)
Definition serve_key (key : Key) p : outcome ((bool * option error) * Process E) :=
  '(r, p1) ← run (reconcile cfg key) (set_spawned p []);
  '(_, p2) ← run (run_started (spawned p1)) (set_spawned p1 []);
  Done (r, p2).

(** What the reconciliation of a key sees: an object, and whether it is deleted. *)
Abbreviation observation := (option (Object * bool)).

Definition observe (key : Key) p : observation :=
  match run (GetObjectFromKey key) p with
  | Done (GOk obj, _) => Some (obj, false)
  | Done (GErr err, _) =>
      if IsNotFound err then addr ← DeletedObject key; obj ← cells p !! addr; Some (obj, true) else None
  | Panic _ => None
  end.

Fixpoint serve_all (keys : list Key) p : outcome (list observation * Process E) :=
  match keys with
  | [] => Done ([], p)
  | key :: keys =>
      '(_, p1) ← serve_key key p;
      '(obs, p2) ← serve_all keys p1;
      Done (observe key (set_spawned p []) :: obs, p2)
  end.

(** ** The abstract table *)

Definition observed_table (t : SafeMap AppliedManifestInfo) (o : observation) : SafeMap AppliedManifestInfo :=
  match o with
  | Some (obj, isBeingDeleted) =>
      if IsAppliedManifestWork (VObject obj) then
        match ToAppliedManifestWork obj with
        | GErr _ => t
        | GOk aWork =>
            if isBeingDeleted : bool then delete (GetName obj) t
            else if decide (ListGVRs aWork = []) then t
            else <[GetName obj := manifest_info aWork]> t
        end
      else t
  | None => t
  end.

(** ** Assumptions on the objects *)

(** A manifest lists distinct objects of its own, with known resources. *)
Definition owned (name : string) (info : AppliedManifestInfo) : Prop :=
  info_ok known info ∧ ∀ u g, (u, g) ∈ entries info → owner u = name ∧ resource u = g.

Definition valid_object (obj : Object) : Prop :=
  is_unstructured obj = true ∧
  (IsAppliedManifestWork (VObject obj) = true → ∀ aWork, ToAppliedManifestWork obj = GOk aWork →
   owned (GetName obj) (manifest_info aWork)).

Definition valid_answer (r : result Object) : Prop :=
  match r with GOk obj => valid_object obj | GErr _ => True end.

(** The libraries answer as assumed in [Footprint.v] and [Lifecycle.v], and the
    caches of the listers hold valid objects. *)
Record ValidEnvironment : Prop := {
  valid_answers : env_answers good;
  valid_discovery : StableDiscovery known good;
  valid_get l n e : good e → valid_answer (respond (CListerGet l n) e).1;
  valid_namespace_get l ns n e : good e → valid_answer (respond (CListerNamespaceGet l ns n) e).1
}.

Record history_ok p : Prop := {
  history_agent : agent_ok known good p;
  history_owned name info : trackedAppliedManifests (agent p) !! name = Some info → owned name info;
  history_cells a obj : cells p !! a = Some obj → valid_object obj
}.

(** The copy a key points to exists. *)
Definition key_ok p (key : Key) : Prop := ∀ a, DeletedObject key = Some a → is_Some (cells p !! a).

(** ** Lemmas *)

Lemma agent_ok_spawned p l : agent_ok known good p → agent_ok known good (set_spawned p l).
Proof. intros [? Hl ? ? ? ? ?]. split; try done. destruct Hl. by split. Qed.

Lemma history_spawned p l : history_ok p → history_ok (set_spawned p l).
Proof. intros []. split; [by apply agent_ok_spawned|done..]. Qed.

Lemma agent_shared p :
  history_ok p → (∀ gvrs uids, GStartInformers gvrs uids ∈ spawned p → length uids = length gvrs) →
  shared_ok good p.
Proof.
  intros [[] Ho Hc] Hs. split; try done.
  - by destruct ok_mapper as (m & -> & _).
  - intros n i Hi. by apply (ok_infos n).
  - intros a o Ha. by apply (Hc a).
Qed.

(** Reporting a status changes nothing but the environment. *)
Lemma status_run {A} (Q : A → Prop) (t : prog Op A) p :
  env_answers good → shared_ok good p →
  safe answers (λ R o, status_op o = true) no_panic Q t →
  ∃ a e, run t p = Done (a, MkProcess (agent p) (chans p) (cells p) (next p) (spawned p) e) ∧ Q a ∧ good e.
Proof.
  intros Henv. revert p. induction t as [a|q|R o k IH]; intros p Hp; cbn; [|done|].
  - intros HQ. exists a, (env p). destruct p. split_and!; [done|done|apply Hp].
  - intros [Ho Hk].
    assert (agent_op R o) as Hop by (split; [left; by left|by destruct o]).
    destruct (exec R o p) as [[r p']|q] eqn:Hex.
    2:{ apply exec_panics in Hex. by destruct o. }
    destruct (exec_shared_ok good p R o r p' Henv Hp Hop Hex) as [Hr Hp'].
    destruct (IH r p' Hp' (Hk r Hr)) as (a & e & Hrun & HQ & He). exists a, e. rewrite Hrun. split; [|done].
    destruct o; try done; cbn in Hex; simplify_eq/=; try done;
      by destruct (respond c (env p)); simplify_eq/=.
Qed.

(** The cells change only with the event handlers. *)
Lemma cells_run {A} (Q : A → Prop) (t : prog Op A) p a p' :
  env_answers good → shared_ok good p →
  safe answers (λ R o, reconcile_op o ∧ stores R o) stopper_panic Q t →
  run t p = Done (a, p') → cells p' = cells p ∧ shared_ok good p'.
Proof.
  intros Henv Hp Ht Hr.
  assert (∀ R (o : Op R), reconcile_op o ∧ stores R o → agent_op R o) as Hop by (by intros R o []; split; [left|]).
  pose proof (safe_run (exec (E := E)) answers (λ R o, reconcile_op o ∧ stores R o) (λ _, True)
    (λ p', cells p' = cells p ∧ shared_ok good p') Q t p) as Hrun.
  rewrite Hr in Hrun. apply Hrun; clear Hrun; [|done| |done].
  - intros R o s r s' Ho [Hc Hs] Hex. destruct (exec_shared_ok good s R o r s' Henv Hs (Hop R o Ho) Hex) as [? ?].
    split; [done|]. split; [|done]. rewrite <- Hc.
    destruct o; cbn in Hex; simplify_eq/=; try done.
    + by destruct (chans s !! c) as [[]|]; simplify_eq/=.
    + destruct Ho as [[Ho|[[Ho|[]]|[]]] _]; done.
    + by destruct (cells s !! addr); simplify_eq/=.
    + by destruct (respond c (env s)); simplify_eq/=.
  - by eapply safe_weaken; [..|exact Ht].
Qed.

#[local] Arguments startInformers : simpl never.
#[local] Arguments stopInformers : simpl never.

Lemma run_started_triple gs :
  (∀ gvrs uids, GStartInformers gvrs uids ∈ gs → length uids = length gvrs) →
  safe answers (λ R o, reconcile_op o ∧ stores R o) stopper_panic (λ _, True) (run_started gs).
Proof.
  induction gs as [|g gs IH]; intros Hlen; [done|].
  assert (safe answers (λ R o, reconcile_op o ∧ stores R o) stopper_panic (λ _, True) (run_started gs)) as Hgs.
  { apply IH. intros gvrs uids Hin. apply Hlen. by right. }
  destruct g; try exact Hgs. cbn [run_started]. eapply safe_bind; [|by intros [] _].
  apply manifest_reconcile, (informer_manifest no_panic); [by intros ? []|].
  apply startInformers_triple, Hlen. left.
Qed.

Lemma lookup_valid (Hv : ValidEnvironment) key p obj p' :
  good (env p) → run (GetObjectFromKey key) p = Done (GOk obj, p') → valid_object obj.
Proof.
  intros Hg. unfold GetObjectFromKey. cbn. destruct (SafeMap_Get _ _) as [l|]; cbn; [|done].
  destruct (SplitMetaNamespaceKey _) as [[ns n]|]; cbn; [|done]. unfold getObject. case_decide; cbn.
  - pose proof (valid_namespace_get Hv l ns n _ Hg) as Ha. destruct (respond _ _) as [r e]. by intros [= -> _].
  - pose proof (valid_get Hv l n _ Hg) as Ha. destruct (respond _ _) as [r e]. by intros [= -> _].
Qed.

(** Owned manifests fit next to each other. *)
Lemma owned_fits p name info :
  (∀ n i, trackedAppliedManifests (agent p) !! n = Some i → owned n i) → owned name info → fits p name info.
Proof.
  assert (∀ n i u, owned n i → u ∈ ObjectUIDs i → owner u = n) as Hown.
  { intros n i u [(Hwf & _) Ho] Hu. rewrite <- entries_uids in Hu by done.
    apply list_elem_of_fmap in Hu as ([u' g] & -> & Hin). by apply (Ho u' g). }
  intros Ht Hi. split.
  - intros n' i' u Hn Hi' Hu Hu'. apply Hn. rewrite <- (Hown n' i' u); [by apply (Hown name info)|by apply Ht|done].
  - intros old u g g' Ho Hg Hg'. destruct (Ht _ _ Ho) as [_ H1], Hi as [_ H2].
    destruct (H1 _ _ Hg), (H2 _ _ Hg'). congruence.
Qed.

Lemma spawned_lengths p :
  spawned p = [] → ∀ gvrs uids, GStartInformers gvrs uids ∈ spawned p → length uids = length gvrs.
Proof. intros -> gvrs uids Hin. by apply elem_of_nil in Hin. Qed.

(** The process after a reconciliation that only the table shows. *)
Lemma history_step p p' t :
  history_ok p → agent_ok known good p' → cells p' = cells p → trackedAppliedManifests (agent p') = t →
  (∀ name info, t !! name = Some info → owned name info) → history_ok p'.
Proof. intros [_ _ Hc] Ha Ec Et Ho. split; [done|by rewrite Et|by rewrite Ec]. Qed.

(** A reconciliation, and what the goroutines it starts do whenever they run. *)
Definition reconciles (t : prog Op (bool * option error)) p (tbl : SafeMap AppliedManifestInfo) : Prop :=
  ∃ r p1, run t p = Done (r, p1) ∧ good (env p1) ∧ ∀ e, good e →
    ∃ p2, run (run_started (spawned p1)) (resume p1 [] e) = Done (tt, p2) ∧
      agent_ok known good p2 ∧ trackedAppliedManifests (agent p2) = tbl.

Lemma reconciles_nothing t p r :
  run t p = Done (r, p) → history_ok p → spawned p = [] → reconciles t p (trackedAppliedManifests (agent p)).
Proof.
  intros Hr Hp Hs. exists r, p. rewrite Hs. split_and!; [done|apply Hp|]. intros e He.
  exists (resume p [] e). split_and!; try done. apply resume_ok; [apply Hp|done].
Qed.

Lemma reconcile_manifest (Hv : ValidEnvironment) obj del p :
  history_ok p → spawned p = [] → valid_object obj → IsAppliedManifestWork (VObject obj) = true →
  reconciles (handleAppliedManifestWork obj del) p
    (observed_table (trackedAppliedManifests (agent p)) (Some (obj, del))).
Proof.
  intros Hp Hs [Hu Ho] Ha. cbn [observed_table]. rewrite Ha.
  destruct (handle_no_effect_run (E := E) obj p Hu) as (He & Hn & _ & Hd).
  destruct (ToAppliedManifestWork obj) as [aWork|err] eqn:Hw; [|by eapply reconciles_nothing; [apply He|..]].
  destruct del.
  - destruct (trackedAppliedManifests (agent p) !! GetName obj) as [info|] eqn:Ht.
    + destruct (handle_deleted_run known good obj aWork info p) as (p1 & Hr & Hs1 & Hok1 & Ht1);
        [apply Hv|apply Hp|done..|].
      exists (false, None), p1. rewrite Hs1, Hs. split_and!; [done|apply Hok1|]. intros e Hg.
      exists (resume p1 [] e). split_and!; [done|by apply resume_ok|done].
    + rewrite delete_id by done. by eapply reconciles_nothing; [eapply Hd|..].
  - case_decide as Hg; [by eapply reconciles_nothing; [eapply Hn|..]|].
    specialize (Ho Ha aWork eq_refl).
    destruct (handle_live_run known good obj aWork p) as (p1 & gs & Hr & Hs1 & Hgs);
      [apply Hv|apply Hp|done..|apply Ho|by apply owned_fits, Ho; apply Hp|].
    rewrite Hs in Hs1. exists (false, None), p1. rewrite Hs1. split_and!; [done| |by intros e; apply Hgs].
    eapply run_env; [apply Hv|exact Hr|apply Hp].
Qed.

Lemma observed_owned t o :
  (∀ name info, t !! name = Some info → owned name info) → (∀ obj del, o = Some (obj, del) → valid_object obj) →
  ∀ name info, observed_table t o !! name = Some info → owned name info.
Proof.
  intros Ht Ho name info. destruct o as [[obj del]|]; cbn [observed_table]; [|by apply Ht].
  destruct (Ho obj del eq_refl) as [_ Hobj].
  destruct (IsAppliedManifestWork _); [|by apply Ht]. destruct (ToAppliedManifestWork obj) as [w|]; [|by apply Ht].
  destruct del; [by intros [_ ?]%lookup_delete_Some; apply Ht|]. case_decide; [by apply Ht|].
  intros [[<- <-]|[_ ?]]%lookup_insert_Some; [by apply Hobj|by apply Ht].
Qed.

#[local] Arguments reconcile : simpl never.
#[local] Arguments reconcileObject : simpl never.
#[local] Arguments GetObjectFromKey : simpl never.
#[local] Arguments IsListerNotFound : simpl never.

Lemma reconcileObject_serves (Hv : ValidEnvironment) obj del p :
  history_ok p → spawned p = [] → valid_object obj →
  reconciles (reconcileObject cfg obj del) p
    (observed_table (trackedAppliedManifests (agent p)) (Some (obj, del))).
Proof.
  intros Hp Hs Ho. pose proof (reconcile_manifest Hv obj del p Hp Hs Ho) as Hm.
  unfold reconcileObject. destruct (IsAppliedManifestWork (VObject obj)) eqn:Ha; [by apply Hm|].
  cbn [observed_table]. rewrite Ha.
  destruct (IsManagedByAppliedManifestWork obj); cbn [negb]; [|by eapply reconciles_nothing].
  destruct (status_run (λ _, True) (handleWorkStatus cfg obj del) p) as (err & e & Hr & _ & He);
    [apply Hv|by apply agent_shared, spawned_lengths|apply handleWorkStatus_triple|].
  eexists (false, err), _. rewrite run_bind, Hr. split; [done|]. split; [done|]. intros e' He'.
  exists (resume p [] e'). cbn [spawned]. rewrite Hs. split_and!; [done| |done]. apply resume_ok; [apply Hp|done].
Qed.

(** A lookup keeps the process, and what it shows is a valid object. *)
Lemma lookup_serves (Hv : ValidEnvironment) key p :
  history_ok p → spawned p = [] →
  ∃ a p1, run (GetObjectFromKey key) p = Done (a, p1) ∧ history_ok p1 ∧ spawned p1 = [] ∧
    cells p1 = cells p ∧ agent p1 = agent p.
Proof.
  intros Hp Hs. destruct (status_run (λ _, True) (GetObjectFromKey key) p) as (a & e & Hl & _ & He).
  { apply Hv. } { by apply agent_shared, spawned_lengths. }
  { eapply lookup_status, safe_weaken; [..|apply GetObjectFromKey_safe]; auto. }
  eexists a, _. split; [exact Hl|]. split_and!; try done.
  destruct Hp as [[? [] ? ? ? ? ?] ? ?]. repeat (split; try done).
Qed.

Lemma observe_valid (Hv : ValidEnvironment) key p obj del :
  history_ok p → observe key p = Some (obj, del) → valid_object obj.
Proof.
  intros Hp. unfold observe. destruct (run _ p) as [[[o|err] p1]|] eqn:Hr; [| |done].
  - intros [= <- _]. by apply (lookup_valid Hv) in Hr; [|apply Hp].
  - destruct (IsNotFound err); [|done]. destruct (DeletedObject key) as [a|]; cbn; [|done].
    destruct (cells p !! a) as [o|] eqn:Ho; cbn; [|done]. intros [= <- _]. by apply (history_cells _ Hp a).
Qed.

Lemma reconcile_serves (Hv : ValidEnvironment) key p :
  history_ok p → spawned p = [] → key_ok p key →
  reconciles (reconcile cfg key) p (observed_table (trackedAppliedManifests (agent p)) (observe key p)).
Proof.
  intros Hp Hs Hkey. destruct (lookup_serves Hv key p Hp Hs) as (a & p1 & Hl & Hp1 & Hs1 & Hc1 & Ha1).
  pose proof (λ obj del, observe_valid Hv key p obj del Hp) as Hobs. rewrite <- Ha1.
  assert (∀ t, run (reconcile cfg key) p = run t p1 → ∀ tbl, reconciles t p1 tbl → reconciles (reconcile cfg key) p tbl)
    as Hlift by (intros t Heq tbl (r & q1 & ? & ?); exists r, q1; by rewrite Heq).
  assert (∀ r, run (reconcile cfg key) p = run (mret r) p1 →
    reconciles (reconcile cfg key) p (trackedAppliedManifests (agent p1))) as Hnone.
  { intros r Heq. eapply (Hlift (mret r)); [done|]. by eapply reconciles_nothing. }
  unfold observe in *. unfold reconcile in Hlift, Hnone |- *. rewrite run_bind, Hl in Hlift, Hnone.
  rewrite Hl in Hobs |- *. cbn [mbind outcome_bind fst snd] in Hlift, Hnone.
  destruct a as [obj|err].
  - eapply Hlift; [done|]. apply (reconcileObject_serves Hv); [done..|by eapply Hobs].
  - destruct (IsNotFound err); [|by destruct (IsListerNotFound err); eapply Hnone].
    destruct (DeletedObject key) as [a|] eqn:Hd; [|by eapply Hnone].
    destruct (Hkey a Hd) as [obj Ho]. cbn in Hobs |- *. rewrite Ho in Hobs |- *. cbn in Hobs |- *.
    eapply (Hlift (reconcileObject cfg obj true)); [cbn; by rewrite Hc1, Ho|].
    apply (reconcileObject_serves Hv); [done..|by eapply Hobs].
Qed.

Lemma serve_key_serves (Hv : ValidEnvironment) key p :
  history_ok p → key_ok p key →
  ∃ r p', serve_key key p = Done (r, p') ∧ history_ok p' ∧ cells p' = cells p ∧
    trackedAppliedManifests (agent p') =
      observed_table (trackedAppliedManifests (agent p)) (observe key (set_spawned p [])).
Proof.
  intros Hp0 Hkey. unfold serve_key. set (p0 := set_spawned p []).
  assert (history_ok p0) as Hp by (by apply history_spawned).
  destruct (reconcile_serves Hv key p0 Hp eq_refl Hkey) as (r & p1 & Hr & Hg1 & Hgs).
  destruct (Hgs (env p1) Hg1) as (p2 & Hrs & Hok & Ht). change (resume p1 [] (env p1)) with (set_spawned p1 []) in Hrs.
  rewrite Hr. cbn. rewrite Hrs. cbn. eexists _, _. split; [done|].
  destruct (cells_run (λ _, True) (reconcile cfg key) p0 r p1) as [Hc1 Hsh1];
    [apply Hv|by apply agent_shared, spawned_lengths|apply reconcile_triple|done|].
  destruct (cells_run (λ _, True) (run_started (spawned p1)) (set_spawned p1 []) tt p2) as [Hc2 _].
  { apply Hv. } { destruct Hsh1. split; try done. by intros ? ? ?%elem_of_nil. }
  { apply run_started_triple. apply Hsh1. } { done. }
  assert (cells p2 = cells p) as Hc by (rewrite Hc2; exact Hc1).
  split_and!; [|done|done]. eapply (history_step p0); [done|done|done|done|].
  apply observed_owned; [apply Hp|]. intros obj del. by apply (observe_valid Hv).
Qed.


(** The agent that [NewAgent] returns, once [run] has started the informer of the
    applied manifest works. *)
Lemma started_agent_ok m e :
  ValidEnvironment → good e → resolves known m →
  ∃ p, run (stopper ← act ChanMake; startAppliedManifestWorkInformer stopper)
      (proc (initial m 0 e)) = Done (tt, p) ∧ history_ok p ∧ trackedAppliedManifests (agent p) = ∅.
Proof.
  intros Hv He Hm. unfold startAppliedManifestWorkInformer. cbn -[startInformer].
  match goal with |- context [Runtime.run _ (startInformer ?g ?k ?c ?b) ?q] =>
    destruct (startInformer_run g k c b q) as (i & e' & Hr) end.
  eexists. split; [exact Hr|]. split; [|done].
  assert (good e') as He'.
  { change e' with (env (MkProcess (agent (proc (initial m 0 e))) ∅ ∅ 0 [] e')).
    eapply (run_env good) in Hr; [exact Hr|apply Hv|exact He]. }
  change (gvk_key _) with AppliedManifestWorkKey. cbn.
  assert (∀ X (x : X) k, is_Some ((<[AppliedManifestWorkKey := x]> ∅ : gmap string X) !! k) ↔ k = AppliedManifestWorkKey) as His.
  { intros X x k. rewrite lookup_insert_is_Some, lookup_empty. split; [by intros [->|[_ [? [=]]]]|by left]. }
  split; cbn; [|done..]. split; cbn; try done.
  - split; cbn.
    + intros k. by rewrite !His.
    + intros k. by rewrite !His.
    + intros k c [[<- <-]|[_ ?]]%lookup_insert_Some; [apply lookup_insert_eq|done].
    + by intros k k' c [[<- <-]|[_ ?]]%lookup_insert_Some [[<- _]|[_ ?]]%lookup_insert_Some.
    + intros c. rewrite lookup_insert_is_Some. intros [<-|[_ [? [=]]]]. lia.
    + intros k Hk. rewrite His. split; [done|]. by unfold tracked_uids, uids_of.
  - intros c. cbn. intros [[<- _]|[_ ?]]%lookup_insert_Some; [|done]. exists AppliedManifestWorkKey. apply lookup_insert_eq.
  - by exists m.
  - intros key u. split; [by intros ?%elem_of_empty|]. by intros (? & ? & ? & _).
Qed.
End histories.

(** ** Closed instances *)

Definition sc_owner (u : string) : string := "amw1".
Definition sc_resource (u : string) : GroupVersionResource := sc_gvr.
Abbreviation sc_valid := (valid_object sc_known sc_owner sc_resource).
Definition sc_cached (e : SimEnv) : Prop :=
  se_discovery e = GOk sc_table ∧ ∀ k o, se_cache e !! k = Some o → sc_valid o.

Lemma sc_cached_valid : ValidEnvironment sc_known sc_cached sc_owner sc_resource.
Proof.
  assert (∀ e, sc_cached e → sim_good e) as Hs by (intros e [Hd Hc]; split; [done|]; intros k o Ho; by destruct (Hc k o Ho)).
  assert (∀ R (c : Call R) e, sc_cached e → sc_cached (respond c e).2) as Hstep.
  { intros R c e [Hd Hc]. destruct c; try done; cbn; unfold sim_write; cbn; repeat case_match; done. }
  split.
  - intros R c e He. split; [apply sim_env_answers, Hs, He|by apply Hstep].
  - split; [exact Hstep|]. intros e [Hd _]. destruct (stable_ok _ _ sc_stable e Hd) as (gr & e' & ? & ?). eauto.
  - intros l n e [_ Hc]. cbn. unfold sim_lookup. destruct (se_cache e !! n) eqn:E1; [by eapply Hc|done].
  - intros l ns n e [_ Hc]. cbn. unfold sim_lookup. destruct (se_cache e !! hub_key ns n) eqn:E1; [by eapply Hc|done].
Qed.

Lemma sc_manifest_valid : sc_valid sc_manifest.
Proof.
  split; [done|]. intros _ w. assert (ToAppliedManifestWork sc_manifest = GOk sc_work) as -> by (vm_compute; reflexivity).
  intros [= <-]. split; [apply sc_info_ok|]. intros u g Hin.
  change (entries _) with [("dep-uid", sc_gvr)] in Hin. apply list_elem_of_singleton in Hin as [= -> ->]. done.
Qed.

(** The keys of the manifest, alive and deleted, and of its deployment. *)
Definition sc_amw_key : Key := MkKey amw_key "amw1" None.


(** The same history, computed: the manifest is seen, its deployment is not in the
    cache, and the table holds the manifest. *)
Example serve_all_example :
  match
    match run (exec (E := SimEnv)) (stopper ← act ChanMake; startAppliedManifestWorkInformer stopper)
        (proc (initial (K := sim_kube) sc_table 0 (sc_env [sc_manifest] [] [] [] None []))) with
    | Done (_, p) => serve_all sc_config [sc_amw_key; ex_key] p
    | Panic q => Panic q
    end
  with
  | Done (obs, p) => bool_decide (length obs = 2 ∧ trackedAppliedManifests (agent p) = {["amw1" := sc_info]} ∧
                                  is_Some (informers (agent p) !! sc_key))
  | Panic _ => false
  end = true.
Proof. vm_compute. reflexivity. Qed.
