(* ===== verification/Ownership.v ===== *)
(** * Goroutines that own their kinds

    A small program logic for goroutines that share the agent: each owns some keys
    of the shared maps, some names of the table of manifests and some channels, and
    its proof sees no more of the state than that.  A [go] statement hands a part of
    what the goroutine owns to the new one.  [Disjoint.v] composes the proofs. *)

From S2P Require Export Histories.

Section logic.
Context {RT : GoRuntime} {K : Kube} {E : Type} `{Env : !Environment E}.
Context (known : GroupVersionResource → option GroupVersionKind) (good : E → Prop).
Implicit Types p : Process E.

(** ** What a goroutine owns *)

(** The maps of the agent and the channels, of which an owner uses its share. *)
Record Part : Type := MkPart {
  pt_listers : gmap string Lister;
  pt_informers : gmap string Informer;
  pt_stoppers : gmap string N;
  pt_tracked : gmap string AppliedManifestInfo;
  pt_counts : SafeUIDMap;
  pt_chans : gmap N bool
}.

(** The share: keys of kinds, names of manifests, channels. *)
Record Owner : Type := MkOwner {
  o_keys : gset string;
  o_names : gset string;
  o_chans : gset N;
  o_part : Part
}.

Record holds (o : Owner) p : Prop := {
  h_listers key : key ∈ o_keys o → listers (agent p) !! key = pt_listers (o_part o) !! key;
  h_informers key : key ∈ o_keys o → informers (agent p) !! key = pt_informers (o_part o) !! key;
  h_stoppers key : key ∈ o_keys o → stoppers (agent p) !! key = pt_stoppers (o_part o) !! key;
  h_counts key : key ∈ o_keys o → uids_of (objectsCount (agent p)) key = uids_of (pt_counts (o_part o)) key;
  h_tracked name : name ∈ o_names o → trackedAppliedManifests (agent p) !! name = pt_tracked (o_part o) !! name;
  h_chans c : c ∈ o_chans o → chans p !! c = pt_chans (o_part o) !! c;
  h_dom c : c ∈ o_chans o → is_Some (chans p !! c)
}.

(** What every goroutine keeps for all. *)
Record global p : Prop := {
  gl_good : good (env p);
  gl_mapper : mapper_ok known p;
  gl_fresh c : is_Some (chans p !! c) → (c < next p)%N
}.

(** An action of the owner, seen by the others; [C] are the channels it has after
    it, some of which may be new. *)
Record frame (o : Owner) (C : gset N) p p' : Prop := {
  fr_listers key : key ∉ o_keys o → listers (agent p') !! key = listers (agent p) !! key;
  fr_informers key : key ∉ o_keys o → informers (agent p') !! key = informers (agent p) !! key;
  fr_stoppers key : key ∉ o_keys o → stoppers (agent p') !! key = stoppers (agent p) !! key;
  fr_counts key : key ∉ o_keys o → uids_of (objectsCount (agent p')) key = uids_of (objectsCount (agent p)) key;
  fr_tracked name : name ∉ o_names o →
    trackedAppliedManifests (agent p') !! name = trackedAppliedManifests (agent p) !! name;
  fr_chans c : is_Some (chans p !! c) → c ∉ o_chans o → chans p' !! c = chans p !! c;
  fr_dom c : is_Some (chans p !! c) → is_Some (chans p' !! c);
  fr_new c : c ∈ C → c ∈ o_chans o ∨ chans p !! c = None;
  fr_old c : c ∈ o_chans o → c ∈ C;
  fr_made c : is_Some (chans p' !! c) → is_Some (chans p !! c) ∨ c ∈ C
}.

Lemma frame_refl o p p' :
  agent p' = agent p → chans p' = chans p → frame o (o_chans o) p p'.
Proof. intros Ha Hc. split; intros *; rewrite ?Ha, ?Hc; auto. Qed.

(** Two shares have nothing in common. *)
Record sep (o o' : Owner) : Prop := {
  sep_keys : o_keys o ## o_keys o';
  sep_names : o_names o ## o_names o';
  sep_chans : o_chans o ## o_chans o'
}.

#[export] Instance sep_symmetric : Symmetric sep.
Proof. intros o o' []. by split. Qed.

Fixpoint apart (l : list Owner) : Prop :=
  match l with [] => True | o :: l => Forall (sep o) l ∧ apart l end.

Lemma holds_framed o o' C p p' : sep o o' → frame o' C p p' → holds o p → holds o p'.
Proof.
  intros [HK HN HC] [] []. split; intros x Hx.
  - rewrite fr_listers0; [auto|set_solver].
  - rewrite fr_informers0; [auto|set_solver].
  - rewrite fr_stoppers0; [auto|set_solver].
  - rewrite fr_counts0; [auto|set_solver].
  - rewrite fr_tracked0; [auto|set_solver].
  - rewrite fr_chans0; [auto|auto|set_solver].
  - auto.
Qed.

(** The shares [l] are what the keys and names of [o], with the channels [C], have
    been divided into. *)
Record divides (o : Owner) (C : gset N) (l : list Owner) : Prop := {
  dv_apart : apart l;
  dv_keys key : key ∈ o_keys o ↔ ∃ o', o' ∈ l ∧ key ∈ o_keys o';
  dv_names name : name ∈ o_names o ↔ ∃ o', o' ∈ l ∧ name ∈ o_names o';
  dv_chans c : c ∈ C ↔ ∃ o', o' ∈ l ∧ c ∈ o_chans o'
}.

(** ** Consistent parts *)

(** The part is consistent, without leaks, and the tracked objects of each key are
    those of [T]. *)
Record part_ok (D : gset string) (C : gset N) (T : string → gset string) (g : Part) : Prop := {
  po_uids key : key ∈ D → uids_of (pt_counts g) key = T key;
  po_listers key : key ∈ D → is_Some (pt_listers g !! key) ↔ T key ≠ ∅;
  po_informers key : key ∈ D → is_Some (pt_informers g !! key) ↔ T key ≠ ∅;
  po_stoppers key : key ∈ D → is_Some (pt_stoppers g !! key) ↔ T key ≠ ∅;
  po_open key c : key ∈ D → pt_stoppers g !! key = Some c → c ∈ C ∧ pt_chans g !! c = Some false;
  po_inj key key' c : key ∈ D → key' ∈ D → pt_stoppers g !! key = Some c → pt_stoppers g !! key' = Some c → key = key';
  po_no_leak c : c ∈ C → pt_chans g !! c = Some false → ∃ key, key ∈ D ∧ pt_stoppers g !! key = Some c
}.

(** The kinds of the resources are owned. *)
Definition owns_keys (D : gset string) (gvrs : list GroupVersionResource) : Prop :=
  Forall (λ gvr, ∃ gvk, known gvr = Some gvk ∧ gvk_key gvk ∈ D) gvrs.

(** What the owners work towards: the tracked objects of each kind, and the table. *)
Context (spec : string → string → Prop) (goal : SafeMap AppliedManifestInfo).

Definition achieved (o : Owner) : Prop :=
  ∃ T, part_ok (o_keys o) (o_chans o) T (o_part o) ∧
    (∀ key u, key ∈ o_keys o → u ∈ T key ↔ spec key u) ∧
    ∀ name, name ∈ o_names o → pt_tracked (o_part o) !! name = goal !! name.

(** What a goroutine that starts informers needs: the objects are new, and once
    they are tracked the kinds are as they should be. *)
Record start_ok (gvrs : list GroupVersionResource) (uids : list string) (o : Owner) : Prop := {
  st_owns : owns_keys (o_keys o) gvrs;
  st_length : length uids = length gvrs;
  st_uids : NoDup uids;
  st_names : o_names o = ∅;
  st_part : ∃ T, part_ok (o_keys o) (o_chans o) T (o_part o) ∧
    (∀ key u, listed_tracked known (zip uids gvrs) key u → u ∉ T key) ∧
    ∀ key u, key ∈ o_keys o → spec key u ↔ u ∈ T key ∨ listed_tracked known (zip uids gvrs) key u
}.

(** The goroutines that one of level [n] may start; what they start has a lower
    level. *)
Definition may_start (n : nat) (gr : Goroutine) (o : Owner) : Prop :=
  match gr with
  | GStartInformers gvrs uids => 2 ≤ n ∧ start_ok gvrs uids o
  | GInformerRun _ _ => 1 ≤ n ∧ o_keys o = ∅ ∧ o_names o = ∅ ∧ o_chans o = ∅
  | _ => False
  end.

(** ** Weakest preconditions *)

(** In any state where the owner holds its part, the next action does not panic,
    leaves the rest alone, divides what is owned between the goroutine and the ones
    it starts, and leads to where the goroutine is right again. *)
Fixpoint wp (n : nat) {A} (t : prog Op A) (Q : A → Owner → Prop) (o : Owner) : Prop :=
  match t with
  | Ret a => Q a o
  | Crash _ => False
  | Act op k => ∀ p, global p → holds o p →
      ∃ r p' C o' kids started,
        exec _ op p = Done (r, p') ∧ global p' ∧ frame o C p p' ∧
        spawned p' = spawned p ++ started ∧ Forall2 (may_start n) started kids ∧
        divides o C (o' :: kids) ∧ Forall (λ o1, holds o1 p') (o' :: kids) ∧ wp n (k r) Q o'
  end.

Lemma wp_bind n {A B} (t : prog Op A) (f : A → prog Op B) Q o :
  wp n t (λ a o', wp n (f a) Q o') o → wp n (t ≫= f) Q o.
Proof.
  revert o. induction t as [a|q|R op k IH]; cbn; intros o; [done..|].
  intros H p Hg Hh. destruct (H p Hg Hh) as (r & p' & C & o' & kids & st & ? & ? & ? & ? & ? & ? & ? & ?).
  exists r, p', C, o', kids, st. eauto 10.
Qed.

Lemma wp_mono n {A} (t : prog Op A) (Q Q' : A → Owner → Prop) o :
  (∀ a o', Q a o' → Q' a o') → wp n t Q o → wp n t Q' o.
Proof.
  intros HQ. revert o. induction t as [a|q|R op k IH]; cbn; intros o; [auto|done|].
  intros H p Hg Hh. destruct (H p Hg Hh) as (r & p' & C & o' & kids & st & ? & ? & ? & ? & ? & ? & ? & ?).
  exists r, p', C, o', kids, st. eauto 10.
Qed.

Lemma divides_self D N C C' g g' : divides (MkOwner D N C g) C' [MkOwner D N C' g'].
Proof.
  split; [by split|intros x..]; cbn; (split; [intros ?; eexists; split; [by left|done]|]);
    intros (o' & ->%list_elem_of_singleton & ?); done.
Qed.

(** An action that starts nothing. *)
Lemma wp_step n {A R} (op : Op R) (k : R → prog Op A) Q D N C g :
  (∀ p, global p → holds (MkOwner D N C g) p → ∃ r p' C' g',
     exec _ op p = Done (r, p') ∧ global p' ∧ frame (MkOwner D N C g) C' p p' ∧ spawned p' = spawned p ∧
     holds (MkOwner D N C' g') p' ∧ wp n (k r) Q (MkOwner D N C' g')) →
  wp n (Act op k) Q (MkOwner D N C g).
Proof.
  intros H p Hg Hh. destruct (H p Hg Hh) as (r & p' & C' & g' & He & Hg' & Hf & Hs & Hh' & Hw).
  exists r, p', C', (MkOwner D N C' g'), [], []. rewrite app_nil_r. split_and!; auto. apply divides_self.
Qed.

(** ** Rules of the actions *)

Definition part_field {V} (f : Field V) (g : Part) : gmap string V :=
  match f with
  | FListers => pt_listers g
  | FInformers => pt_informers g
  | FStoppers => pt_stoppers g
  | FTracked => pt_tracked g
  end.
Definition set_part {V} (f : Field V) (g : Part) : gmap string V → Part :=
  match f with
  | FListers => λ m, MkPart m (pt_informers g) (pt_stoppers g) (pt_tracked g) (pt_counts g) (pt_chans g)
  | FInformers => λ m, MkPart (pt_listers g) m (pt_stoppers g) (pt_tracked g) (pt_counts g) (pt_chans g)
  | FStoppers => λ m, MkPart (pt_listers g) (pt_informers g) m (pt_tracked g) (pt_counts g) (pt_chans g)
  | FTracked => λ m, MkPart (pt_listers g) (pt_informers g) (pt_stoppers g) m (pt_counts g) (pt_chans g)
  end.
Definition set_counts (g : Part) (c : SafeUIDMap) : Part :=
  MkPart (pt_listers g) (pt_informers g) (pt_stoppers g) (pt_tracked g) c (pt_chans g).
Definition set_chans (g : Part) (c : gmap N bool) : Part :=
  MkPart (pt_listers g) (pt_informers g) (pt_stoppers g) (pt_tracked g) (pt_counts g) c.
(** What must be owned to access a field. *)
Definition owns {V} (f : Field V) (D N : gset string) : gset string :=
  match f with FTracked => N | _ => D end.

Lemma holds_field {V} (f : Field V) D N C g p key :
  holds (MkOwner D N C g) p → key ∈ owns f D N → get_field f (agent p) !! key = part_field f g !! key.
Proof. intros [] Hk. destruct f; cbn in *; auto. Qed.

(** A locked map changes under an owned key. *)
Lemma field_changed {V} (f : Field V) (m m' : gmap string V) D N C g p key :
  global p → holds (MkOwner D N C g) p → key ∈ owns f D N →
  (∀ key', key ≠ key' → m !! key' = get_field f (agent p) !! key') →
  (∀ key', key ≠ key' → m' !! key' = part_field f g !! key') → m !! key = m' !! key →
  let p' := MkProcess (set_field f (agent p) m) (chans p) (cells p) (next p) (spawned p) (env p) in
  global p' ∧ frame (MkOwner D N C g) C p p' ∧ spawned p' = spawned p ∧ holds (MkOwner D N C (set_part f g m')) p'.
Proof.
  intros Hg Hh Hk Hm Hm' Heq p'. split; [|split; [|split; [done|]]].
  - destruct Hg. split; try done. by destruct f.
  - destruct f; cbn in *; split; cbn; auto; intros key' Hk'; apply Hm; by intros <-.
  - destruct Hh, f; cbn in *; split; cbn in *; auto; intros key' Hk';
      (destruct (decide (key = key')) as [<-|?]; [done|]; rewrite Hm, Hm'; auto).
Qed.

Context (Hd : StableDiscovery known good).

Section rules.
Context (n : nat) (D Ns : gset string) (C : gset N) {A : Type} (Q : A → Owner → Prop) (g : Part).
Abbreviation mine := (MkOwner D Ns C).

Lemma wp_get {V} (f : Field V) key k :
  key ∈ owns f D Ns → wp n (k (part_field f g !! key)) Q (mine g) → wp n (Act (SMGet f key) k) Q (mine g).
Proof.
  intros Hk H. apply wp_step. intros p Hg Hh. exists (part_field f g !! key), p, C, g. cbn. unfold SafeMap_Get.
  rewrite (holds_field f D Ns C g) by done. split_and!; auto. by apply frame_refl.
Qed.

Lemma wp_set {V} (f : Field V) key v k :
  key ∈ owns f D Ns → wp n (k tt) Q (mine (set_part f g (<[key := v]> (part_field f g)))) →
  wp n (Act (SMSet f key v) k) Q (mine g).
Proof.
  intros Hk H. apply wp_step. intros p Hg Hh.
  destruct (field_changed f (<[key := v]> (get_field f (agent p))) (<[key := v]> (part_field f g)) D Ns C g p key)
    as (? & ? & ? & ?); [done|done|done|intros; by rewrite lookup_insert_ne..|by rewrite !lookup_insert_eq|].
  eexists tt, _, C, _. split; [reflexivity|]. split_and!; [eassumption..|exact H].
Qed.

Lemma wp_delete {V} (f : Field V) key k :
  key ∈ owns f D Ns → wp n (k tt) Q (mine (set_part f g (delete key (part_field f g)))) →
  wp n (Act (SMDelete f key) k) Q (mine g).
Proof.
  intros Hk H. apply wp_step. intros p Hg Hh.
  destruct (field_changed f (delete key (get_field f (agent p))) (delete key (part_field f g)) D Ns C g p key)
    as (? & ? & ? & ?); [done|done|done|intros; by rewrite lookup_delete_ne..|by rewrite !lookup_delete_eq|].
  eexists tt, _, C, _. split; [reflexivity|]. split_and!; [eassumption..|exact H].
Qed.

(** The counts change under an owned key, for both alike. *)
Lemma counts_changed p f key :
  (∀ c key', key ≠ key' → uids_of (f c) key' = uids_of c key') →
  (∀ c c', uids_of c key = uids_of c' key → uids_of (f c) key = uids_of (f c') key) →
  global p → holds (mine g) p → key ∈ D →
  let p' := MkProcess (set_objectsCount (agent p) (f (objectsCount (agent p)))) (chans p) (cells p) (next p) (spawned p) (env p) in
  global p' ∧ frame (mine g) C p p' ∧ spawned p' = spawned p ∧ holds (mine (set_counts g (f (pt_counts g)))) p'.
Proof.
  intros Hne Heq Hg Hh Hk p'. split; [|split; [|split; [done|]]].
  - by destruct Hg.
  - split; cbn; auto. intros key' Hk'. apply Hne. by intros <-.
  - destruct Hh. split; cbn in *; auto. intros key' Hk'.
    destruct (decide (key = key')) as [<-|?]; [auto|rewrite !Hne by done; auto].
Qed.

Lemma wp_uid_add key uid k :
  key ∈ D → wp n (k tt) Q (mine (set_counts g (AddUID (pt_counts g) key uid))) → wp n (Act (UIDAdd key uid) k) Q (mine g).
Proof.
  intros Hk H. apply wp_step. intros p Hg Hh.
  destruct (counts_changed p (λ c, AddUID c key uid) key) as (? & ? & ? & ?); [| |done..|].
  - intros c key' ?. by rewrite uids_of_AddUID, decide_False.
  - intros c c' Hc. by rewrite !uids_of_AddUID, !decide_True, Hc.
  - eexists tt, _, C, _. split; [reflexivity|]. split_and!; [eassumption..|exact H].
Qed.

Lemma wp_uid_delete key uid k :
  key ∈ D → wp n (k tt) Q (mine (set_counts g (DeleteUID (pt_counts g) key uid))) → wp n (Act (UIDDelete key uid) k) Q (mine g).
Proof.
  intros Hk H. apply wp_step. intros p Hg Hh.
  destruct (counts_changed p (λ c, DeleteUID c key uid) key) as (? & ? & ? & ?); [| |done..|].
  - intros c key' ?. by rewrite uids_of_DeleteUID, decide_False.
  - intros c c' Hc. by rewrite !uids_of_DeleteUID, !decide_True, Hc.
  - eexists tt, _, C, _. split; [reflexivity|]. split_and!; [eassumption..|exact H].
Qed.

Lemma wp_uid_count key k :
  key ∈ D → wp n (k (size (uids_of (pt_counts g) key))) Q (mine g) → wp n (Act (UIDCount key) k) Q (mine g).
Proof.
  intros Hk H. apply wp_step. intros p Hg Hh. eexists _, p, C, g. split; [reflexivity|]. split; [done|].
  split; [by apply frame_refl|]. split; [done|]. split; [done|]. by rewrite GetUIDCount_uids, (h_counts _ _ Hh).
Qed.

Lemma wp_mapper_read k : (∀ m, resolves known m → wp n (k (Some m)) Q (mine g)) → wp n (Act MapperRead k) Q (mine g).
Proof.
  intros H. apply wp_step. intros p Hg Hh. destruct (gl_mapper _ Hg) as (m & Hm & Hr).
  eexists _, p, C, g. split; [cbn; by rewrite Hm|]. split_and!; auto. by apply frame_refl.
Qed.

Lemma wp_mapper_write m k : resolves known m → wp n (k tt) Q (mine g) → wp n (Act (MapperWrite (Some m)) k) Q (mine g).
Proof.
  intros Hm H. apply wp_step. intros p Hg Hh. eexists tt, _, C, g. split; [reflexivity|]. split_and!; auto.
  - destruct Hg. split; try done. by exists m.
  - by split; cbn; auto.
  - by destruct Hh.
Qed.

Lemma lib_keeps {R} (c : Call R) p : global p → holds (mine g) p →
  let p' := MkProcess (agent p) (chans p) (cells p) (next p) (spawned p) (respond c (env p)).2 in
  exec R (Lib c) p = Done ((respond c (env p)).1, p') ∧ global p' ∧ frame (mine g) C p p' ∧ holds (mine g) p'.
Proof.
  intros Hg Hh p'. cbn. unfold p'. destruct (respond c (env p)) as [r e] eqn:Hr. split; [done|].
  split; [|split; [by apply frame_refl|by destruct Hh]].
  destruct Hg. split; try done. cbn. change e with (r, e).2. rewrite <- Hr. by apply (stable_step _ _ Hd).
Qed.

Lemma wp_lib {R} (c : Call R) k : (∀ r, wp n (k r) Q (mine g)) → wp n (Act (Lib c) k) Q (mine g).
Proof.
  intros H. apply wp_step. intros p Hg Hh. destruct (lib_keeps c p Hg Hh) as (He & Hg' & Hf & Hh').
  eexists _, _, C, g. split; [exact He|]. auto.
Qed.

Lemma wp_discovery k :
  (∀ gr, resolves known (NewDiscoveryRESTMapper gr) → wp n (k (GOk gr)) Q (mine g)) →
  wp n (Act (Lib CGetAPIGroupResources) k) Q (mine g).
Proof.
  intros H. apply wp_step. intros p Hg Hh. destruct (lib_keeps CGetAPIGroupResources p Hg Hh) as (He & Hg' & Hf & Hh').
  destruct (stable_ok _ _ Hd _ (gl_good _ Hg)) as (gr & e' & Hr & Hm).
  eexists _, _, C, g. split; [exact He|]. split; [done|]. split; [done|]. split; [done|]. split; [done|].
  rewrite Hr. by apply H.
Qed.

(** The new channel is nobody's. *)
Lemma wp_chan_make k :
  (∀ c, c ∉ C → wp n (k c) Q (MkOwner D Ns ({[c]} ∪ C) (set_chans g (<[c := false]> (pt_chans g))))) →
  wp n (Act ChanMake k) Q (mine g).
Proof.
  intros H. apply wp_step. intros p Hg Hh. assert (chans p !! next p = None) as Hn.
  { apply eq_None_not_Some. intros Hs. apply (gl_fresh _ Hg) in Hs. lia. }
  assert (next p ∉ C) as HnC by (intros Hc; apply (h_dom _ _ Hh) in Hc; rewrite Hn in Hc; by destruct Hc).
  eexists (next p), _, ({[next p]} ∪ C), _. split; [reflexivity|].
  split; [|split; [|split; [done|split; [|by apply H]]]].
  - destruct Hg. split; try done. cbn. intros c. rewrite lookup_insert_is_Some. intros [<-|[_ Hc]]; [lia|].
    apply gl_fresh0 in Hc. lia.
  - split; cbn; auto; try set_solver.
    + intros c Hc _. rewrite lookup_insert_ne; [done|]. intros <-. rewrite Hn in Hc. by destruct Hc.
    + intros c Hc. rewrite lookup_insert_is_Some. destruct (decide (next p = c)); auto.
    + intros c. rewrite lookup_insert_is_Some. intros [<-|[_ ?]]; [right; set_solver|by left].
  - destruct Hh. split; cbn in *; auto; intros c [->%elem_of_singleton|Hc]%elem_of_union; rewrite ?lookup_insert_eq; [done| |by eexists|].
    + rewrite !lookup_insert_ne by (by intros <-). auto.
    + rewrite lookup_insert_ne by (by intros <-). auto.
Qed.

Lemma wp_chan_close c k :
  c ∈ C → pt_chans g !! c = Some false → wp n (k tt) Q (mine (set_chans g (<[c := true]> (pt_chans g)))) →
  wp n (Act (ChanClose c) k) Q (mine g).
Proof.
  intros Hc Hop H. apply wp_step. intros p Hg Hh. pose proof (h_chans _ _ Hh c Hc) as Hpc. cbn in Hpc. rewrite Hop in Hpc.
  assert (∀ c', is_Some (<[c := true]> (chans p) !! c') ↔ is_Some (chans p !! c')) as Hdom.
  { intros c'. rewrite lookup_insert_is_Some. destruct (decide (c = c')) as [<-|]; rewrite ?Hpc; naive_solver. }
  eexists tt, _, C, _. split; [cbn; by rewrite Hpc|]. split; [|split; [|split; [done|split; [|exact H]]]].
  - destruct Hg. split; try done. cbn. intros c'. rewrite Hdom. auto.
  - split; cbn; auto.
    + intros c' _ Hc'. by rewrite lookup_insert_ne by (by intros <-).
    + intros c' Hc'. by apply Hdom.
    + intros c' Hc'. left. by apply Hdom.
  - destruct Hh. split; cbn in *; auto; intros c' Hc'; [|apply Hdom; auto].
    destruct (decide (c = c')) as [<-|?]; rewrite ?lookup_insert_eq, ?lookup_insert_ne by done; auto.
Qed.
End rules.

(** A [go] statement hands over a share. *)
Lemma wp_go n gr {A} (k : unit → prog Op A) Q o o' kid :
  may_start n gr kid → divides o (o_chans o) [o'; kid] → o_part o' = o_part o → o_part kid = o_part o →
  wp n (k tt) Q o' → wp n (Act (GoStmt gr) k) Q o.
Proof.
  intros Hm Hdv Hp Hp' H p Hg Hh. eexists tt, _, (o_chans o), o', [kid], [gr].
  split; [reflexivity|]. split; [by destruct Hg|]. split; [by apply frame_refl|]. split; [done|].
  split; [by constructor|]. split; [done|]. split; [|exact H].
  apply Forall_forall. intros o1 Hin. assert (o_part o1 = o_part o) as Hpart.
  { apply elem_of_cons in Hin as [-> | ->%list_elem_of_singleton]; done. }
  destruct Hh. split; cbn; rewrite ?Hpart; intros x Hx.
  - apply h_listers0, (dv_keys _ _ _ Hdv). eauto.
  - apply h_informers0, (dv_keys _ _ _ Hdv). eauto.
  - apply h_stoppers0, (dv_keys _ _ _ Hdv). eauto.
  - apply h_counts0, (dv_keys _ _ _ Hdv). eauto.
  - apply h_tracked0, (dv_names _ _ _ Hdv). eauto.
  - apply h_chans0, (dv_chans _ _ _ Hdv). eauto.
  - apply h_dom0, (dv_chans _ _ _ Hdv). eauto.
Qed.

Lemma divides_two D D' Ns C C' g g' g1 :
  D ## D' → C ## C' → divides (MkOwner (D ∪ D') Ns (C ∪ C') g1) (C ∪ C') [MkOwner D Ns C g; MkOwner D' ∅ C' g'].
Proof.
  intros HD HC. split; cbn.
  - split; [|done]. constructor; [|done]. split; cbn; set_solver.
  - intros x. rewrite elem_of_union. setoid_rewrite elem_of_cons. setoid_rewrite list_elem_of_singleton. naive_solver.
  - intros x. setoid_rewrite elem_of_cons. setoid_rewrite list_elem_of_singleton. split.
    + intros Hx. eexists. split; [by left|done].
    + intros (o' & [-> | ->] & Hx); [done|by apply elem_of_empty in Hx].
  - intros x. rewrite elem_of_union. setoid_rewrite elem_of_cons. setoid_rewrite list_elem_of_singleton. naive_solver.
Qed.

Lemma wp_go_informer n i c {A} (k : unit → prog Op A) Q D Ns C g :
  1 ≤ n → wp n (k tt) Q (MkOwner D Ns C g) → wp n (Act (GoStmt (GInformerRun i c)) k) Q (MkOwner D Ns C g).
Proof.
  intros Hn. apply (wp_go _ _ _ _ _ _ (MkOwner ∅ ∅ ∅ g)); [done| |done..]. cbn.
  replace (MkOwner D Ns C g) with (MkOwner (D ∪ ∅) Ns (C ∪ ∅) g) at 1 by (f_equal; set_solver).
  replace C with (C ∪ ∅) at 2 by set_solver. apply divides_two; set_solver.
Qed.

(** ** Starting and stopping informers *)

Definition change (T : string → gset string) (key : string) (X : gset string) : string → gset string :=
  λ k, if decide (key = k) then X else T k.

Lemma change_eq T key X : change T key X key = X.
Proof. unfold change. by rewrite decide_True. Qed.

Section programs.
Context (n : nat) (Hn : 1 ≤ n) (D Ns : gset string).
Implicit Types (C : gset N) (T : string → gset string) (g : Part).
Abbreviation mine := (MkOwner D Ns).

Lemma wp_updateRestMapper C (Q : unit → Owner → Prop) g : Q tt (mine C g) → wp n updateRestMapper Q (mine C g).
Proof.
  intros H. unfold updateRestMapper, getRestMapper. apply wp_bind, wp_bind, wp_discovery. intros gr Hm.
  cbn [mbind mret prog_bind prog_ret wp]. by apply wp_mapper_write.
Qed.

Lemma wp_mapperKindFor C gvr gvk (Q : result GroupVersionKind → Owner → Prop) g :
  known gvr = Some gvk → Q (GOk gvk) (mine C g) → wp n (mapperKindFor gvr) Q (mine C g).
Proof.
  intros Hk H. unfold mapperKindFor. apply wp_bind, wp_mapper_read. intros m Hm.
  cbn [mret prog_ret wp]. by rewrite (Hm _ _ Hk).
Qed.

(** The part once an informer has been started with the channel [c]. *)
Lemma part_started C T g key uid c i l counts :
  part_ok D C T g → key ∈ D → c ∉ C → T key = ∅ →
  (∀ k, k ∈ D → uids_of counts k = change T key ({[uid]} ∪ T key) k) →
  part_ok D ({[c]} ∪ C) (change T key ({[uid]} ∪ T key))
    (MkPart (<[key := l]> (pt_listers g)) (<[key := i]> (pt_informers g)) (<[key := c]> (pt_stoppers g)) (pt_tracked g)
       counts (<[c := false]> (pt_chans g))).
Proof.
  intros [Hu Hl Hi Hs Ho Hj Hnl] Hk Hc Hnone Hcounts.
  assert (∀ V (m : gmap string V) (v : V), (∀ k, k ∈ D → is_Some (m !! k) ↔ T k ≠ ∅) →
    ∀ k, k ∈ D → is_Some (<[key := v]> m !! k) ↔ change T key ({[uid]} ∪ T key) k ≠ ∅) as Hins.
  { intros V m v Hm k Hkd. unfold change. rewrite lookup_insert_is_Some. case_decide as Heq.
    - split; [set_solver|by left].
    - rewrite Hm by done. naive_solver. }
  split; cbn; try by auto.
  - intros k c' Hkd [[<- <-]|[Hne Hk']]%lookup_insert_Some; [rewrite lookup_insert_eq; set_solver|].
    destruct (Ho k c' Hkd Hk') as [Hc' ?]. rewrite lookup_insert_ne by (by intros <-). set_solver.
  - intros k k' c' Hkd Hkd' [[<- <-]|[Hne Hk1]]%lookup_insert_Some [[<- Heq]|[Hne' Hk2]]%lookup_insert_Some; [done| | |by eapply Hj].
    + destruct (Ho _ _ Hkd' Hk2). done.
    + subst. by destruct (Ho _ _ Hkd Hk1).
  - intros c' Hc' [[<- _]|[Hne Hop]]%lookup_insert_Some; [exists key; by rewrite lookup_insert_eq|].
    destruct (Hnl c') as (k & Hkd & Hst); [set_solver|done|]. exists k. split; [done|].
    rewrite lookup_insert_ne; [done|]. intros <-. assert (T key ≠ ∅) by (apply Hs; eauto). done.
Qed.

(** The part once only a count has changed, and not to or from nothing. *)
Lemma part_counted C T g key X counts :
  part_ok D C T g → key ∈ D → (∀ k, k ∈ D → uids_of counts k = change T key X k) → (X ≠ ∅ ↔ T key ≠ ∅) →
  part_ok D C (change T key X) (set_counts g counts).
Proof.
  intros [Hu Hl Hi Hs Ho Hj Hnl] Hk Hcounts HX. split; cbn; auto; intros k Hkd.
  - rewrite Hl by done. unfold change. case_decide; [subst; tauto|done].
  - rewrite Hi by done. unfold change. case_decide; [subst; tauto|done].
  - rewrite Hs by done. unfold change. case_decide; [subst; tauto|done].
Qed.

Lemma wp_startObject C T gvr gvk uid (Q : unit → Owner → Prop) g :
  part_ok D C T g → gvk_key gvk ∈ D → uid ∉ T (gvk_key gvk) →
  (∀ C' g', part_ok D C' (change T (gvk_key gvk) ({[uid]} ∪ T (gvk_key gvk))) g' → pt_tracked g' = pt_tracked g →
     Q tt (mine C' g')) →
  wp n (startObject gvr gvk uid) Q (mine C g).
Proof.
  intros Hok Hk Hnew HQ. set (key := gvk_key gvk) in *. unfold startObject. fold key.
  assert (∀ k, k ∈ D → uids_of (AddUID (pt_counts g) key uid) k = change T key ({[uid]} ∪ T key) k) as Hcounts.
  { intros k Hkd. rewrite uids_of_AddUID. unfold change. case_decide; subst; by rewrite (po_uids _ _ _ _ Hok). }
  apply wp_bind, wp_uid_add; [done|]. cbn [wp]. apply wp_bind, wp_uid_count; [done|]. cbn [wp set_counts pt_counts].
  rewrite Hcounts, change_eq by done. case_decide as H1.
  - rewrite one_tracked in H1. assert (T key = ∅) as Hnone by (destruct H1 as [H1|H1]; [done|set_solver]).
    apply wp_bind, wp_chan_make. intros c Hc. cbn [wp]. unfold startInformer. fold key.
    apply wp_bind, wp_lib. intros i. cbn [wp]. apply wp_bind, wp_set; [done..|]. cbn [wp].
    apply wp_bind, wp_lib. intros []. cbn [wp]. apply wp_bind, wp_set; [done..|]. cbn [wp].
    apply wp_bind, wp_set; [done..|]. cbn [wp]. apply wp_go_informer; [done|]. cbn [wp].
    apply HQ; [|done]. exact (part_started C T g key uid c i _ _ Hok Hk Hc Hnone Hcounts).
  - apply HQ; [|done]. apply part_counted; [done..|]. rewrite one_tracked in H1. split; [|set_solver].
    intros _ ?. apply H1. by left.
Qed.

(** The part once an informer has been stopped. *)
Lemma part_stopped C T g key c counts :
  part_ok D C T g → key ∈ D → pt_stoppers g !! key = Some c → (∀ k, k ∈ D → uids_of counts k = change T key ∅ k) →
  part_ok D C (change T key ∅)
    (MkPart (delete key (pt_listers g)) (delete key (pt_informers g)) (delete key (pt_stoppers g)) (pt_tracked g) counts
       (<[c := true]> (pt_chans g))).
Proof.
  intros [Hu Hl Hi Hs Ho Hj Hnl] Hk Hc Hcounts.
  assert (∀ V (m : gmap string V), (∀ k, k ∈ D → is_Some (m !! k) ↔ T k ≠ ∅) →
    ∀ k, k ∈ D → is_Some (delete key m !! k) ↔ change T key ∅ k ≠ ∅) as Hdel.
  { intros V m Hm k Hkd. unfold change. rewrite lookup_delete_is_Some. case_decide as Heq; [naive_solver|].
    rewrite Hm by done. naive_solver. }
  split; cbn; try by auto.
  - intros k c' Hkd [Hne Hk']%lookup_delete_Some. destruct (Ho k c' Hkd Hk') as [Hc' ?].
    rewrite lookup_insert_ne; [done|]. intros <-. apply Hne. by eapply Hj.
  - intros k k' c' Hkd Hkd' [_ ?]%lookup_delete_Some [_ ?]%lookup_delete_Some. by eapply Hj.
  - intros c' Hc' [[_ [=]]|[Hne Hop]]%lookup_insert_Some. destruct (Hnl c' Hc' Hop) as (k & Hkd & Hst).
    exists k. split; [done|]. rewrite lookup_delete_ne; [done|]. congruence.
Qed.

Lemma wp_stopObject C T gvk uid (Q : unit → Owner → Prop) g :
  part_ok D C T g → gvk_key gvk ∈ D →
  (∀ C' g', part_ok D C' (change T (gvk_key gvk) (T (gvk_key gvk) ∖ {[uid]})) g' → pt_tracked g' = pt_tracked g →
     Q tt (mine C' g')) →
  wp n (stopObject gvk (Done uid)) Q (mine C g).
Proof.
  intros Hok Hk HQ. set (key := gvk_key gvk) in *. unfold stopObject. fold key.
  assert (∀ k, k ∈ D → uids_of (DeleteUID (pt_counts g) key uid) k = change T key (T key ∖ {[uid]}) k) as Hcounts.
  { intros k Hkd. rewrite uids_of_DeleteUID. unfold change. case_decide; subst; by rewrite (po_uids _ _ _ _ Hok). }
  apply wp_bind, wp_get; [done..|]. cbn [wp part_field]. destruct (pt_informers g !! key) as [i|] eqn:Hi.
  2:{ cbn [wp mret prog_ret]. apply HQ; [|done].
      assert (T key = ∅) as Ht.
      { destruct (decide (T key = ∅)) as [|Hne]; [done|].
        apply (po_informers _ _ _ _ Hok) in Hne; [|done]. rewrite Hi in Hne. by destruct Hne. }
      cut (part_ok D C (change T key (T key ∖ {[uid]})) (set_counts g (pt_counts g))); [by destruct g|].
      apply part_counted; [done..| |rewrite Ht; set_solver].
      intros k Hkd. rewrite (po_uids _ _ _ _ Hok) by done. unfold change. case_decide; [subst|done]. rewrite Ht. set_solver. }
  assert (T key ≠ ∅) as Hne by (apply (po_informers _ _ _ _ Hok); [done|by eexists]).
  cbn [lift mbind prog_bind]. apply wp_uid_delete; [done|]. apply wp_bind, wp_uid_count; [done|]. cbn [wp set_counts pt_counts].
  rewrite Hcounts, change_eq by done. case_decide as H0.
  - apply size_empty_inv in H0. apply leibniz_equiv in H0. rewrite H0 in Hcounts, HQ.
    destruct (proj2 (po_stoppers _ _ _ _ Hok key Hk) Hne) as [c Hc]. destruct (po_open _ _ _ _ Hok key c Hk Hc) as [HcC Hop].
    unfold stopInformer. apply wp_bind, wp_get; [done..|]. cbn [wp part_field set_counts pt_stoppers]. rewrite Hc.
    apply wp_bind, wp_chan_close; [done..|]. cbn [wp]. apply wp_bind, wp_delete; [done..|]. cbn [wp].
    apply wp_bind, wp_delete; [done..|]. cbn [wp]. apply wp_delete; [done..|]. cbn [wp].
    apply HQ; [|done]. exact (part_stopped C T g key c _ Hok Hk Hc Hcounts).
  - cbn [wp mret prog_ret]. apply HQ; [|done]. apply part_counted; [done..|]. apply size_non_empty_iff in H0. set_solver.
Qed.

(** ** The loops *)

Abbreviation listed := (listed known).
Abbreviation listed_tracked := (listed_tracked known).

Lemma wp_startInformers C T gvrs uids g :
  part_ok D C T g → owns_keys D gvrs → length uids = length gvrs → NoDup uids →
  (∀ key u, listed_tracked (zip uids gvrs) key u → u ∉ T key) →
  wp n (startInformers gvrs uids) (λ _ o, ∃ C' T' g', o = mine C' g' ∧ part_ok D C' T' g' ∧ pt_tracked g' = pt_tracked g ∧
    ∀ key u, u ∈ T' key ↔ u ∈ T key ∨ listed_tracked (zip uids gvrs) key u) (mine C g).
Proof.
  intros Hok Hown Hlen Hnd Hnew. unfold startInformers. apply wp_bind, wp_updateRestMapper.
  change uids with (drop 0 uids) in Hnd, Hnew. change uids with (drop 0 uids) at 2.
  change (length uids = 0 + length gvrs) in Hlen.
  revert Hlen Hnd C T g Hok Hnew. generalize 0 as i.
  induction gvrs as [|gvr gvrs IH]; intros i Hlen Hnd C T g Hok Hnew.
  { cbn [startInformers_loop wp mret prog_ret]. exists C, T, g. split_and!; [done..|]. intros key u. split; [by left|].
    intros [?|(? & ? & Hin & _)]; [done|]. by rewrite zip_with_nil_r in Hin; apply elem_of_nil in Hin. }
  apply Forall_cons in Hown as [(gvk & Hk & HkD) Hown].
  destruct (lookup_lt_is_Some_2 uids i) as [uid Hu]; [simpl in *; lia|].
  rewrite (drop_S _ uid) in Hnd, Hnew |- * by done. apply NoDup_cons in Hnd as [Hnin Hnd].
  cbn [zip zip_with startInformers_loop].
  apply wp_bind, (wp_mapperKindFor _ _ gvk); [done|]. destruct (excluded gvk) eqn:Hex.
  - eapply wp_mono; [|apply (IH Hown (S i)); [simpl in *; lia|done|exact Hok|]].
    2:{ intros key u Hl. apply Hnew. apply (listed_tracked_cons _ _ gvk); auto. }
    cbn. intros _ o (C' & T' & g' & -> & Hok' & Htr & Ht). exists C', T', g'. split_and!; [done..|].
    intros key u. rewrite Ht, (listed_tracked_cons _ _ gvk) by done. clear -Hex. intuition congruence.
  - unfold index. rewrite Hu. cbn [lift mbind prog_bind]. apply wp_bind.
    eapply wp_startObject; [done|done|apply Hnew, (listed_tracked_cons _ _ gvk); auto|].
    intros C1 g1 Hok1 Htr1. eapply wp_mono; [|apply (IH Hown (S i)); [simpl in *; lia|done|exact Hok1|]].
    + cbn. intros _ o (C' & T' & g' & -> & Hok' & Htr & Ht). exists C', T', g'. split_and!; [done..|congruence|].
      intros key u. rewrite Ht, (listed_tracked_cons _ _ gvk) by done. unfold change.
      case_decide as Heq; [rewrite elem_of_union, elem_of_singleton, Heq|]; clear -Hex Heq; intuition congruence.
    + intros key u Hl. assert (u ∉ T key) by (apply Hnew, (listed_tracked_cons _ _ gvk); auto).
      assert (u ≠ uid) by (intros ->; destruct Hl as (? & ? & Hin & _); by apply elem_of_zip_l in Hin).
      unfold change. case_decide; [subst; rewrite elem_of_union, elem_of_singleton; tauto|done].
Qed.

Lemma wp_stopInformers_loop C T uids i gvrs g :
  part_ok D C T g → owns_keys D gvrs → length uids = i + length gvrs →
  wp n (stopInformers_loop uids i gvrs) (λ b o, b = true ∧ ∃ C' T' g', o = mine C' g' ∧ part_ok D C' T' g' ∧
    pt_tracked g' = pt_tracked g ∧ ∀ key u, u ∈ T' key ↔ u ∈ T key ∧ ¬ listed (zip (drop i uids) gvrs) key u) (mine C g).
Proof.
  revert i C T g. induction gvrs as [|gvr gvrs IH]; intros i C T g Hok Hown Hlen.
  { cbn [stopInformers_loop wp mret prog_ret]. split; [done|]. exists C, T, g. split_and!; [done..|].
    intros key u. split; [|by intros []]. intros ?. split; [done|]. intros (? & ? & Hin & _).
    by rewrite zip_with_nil_r in Hin; apply elem_of_nil in Hin. }
  apply Forall_cons in Hown as [(gvk & Hk & HkD) Hown].
  destruct (lookup_lt_is_Some_2 uids i) as [uid Hu]; [simpl in *; lia|].
  rewrite (drop_S _ uid) by done. cbn [zip zip_with stopInformers_loop].
  apply wp_bind, (wp_mapperKindFor _ _ gvk); [done|]. unfold index at 1. rewrite Hu.
  apply wp_bind. eapply wp_stopObject; [done..|].
  intros C1 g1 Hok1 Htr1. eapply wp_mono; [|apply (IH (S i)); [exact Hok1|done|simpl in *; lia]].
  cbn. intros b o (-> & C' & T' & g' & -> & Hok' & Htr & Ht). split; [done|]. exists C', T', g'.
  split_and!; [done..|congruence|]. intros key u.
  rewrite Ht, (listed_cons _ _ gvk) by done. unfold change.
  case_decide as Heq; [rewrite elem_of_difference, elem_of_singleton, Heq|]; clear -Heq; intuition congruence.
Qed.

Lemma wp_stopInformers C T info g :
  part_ok D C T g → owns_keys D (GVRs info) → info_wf info →
  wp n (stopInformers info) (λ _ o, ∃ C' T' g', o = mine C' g' ∧ part_ok D C' T' g' ∧ pt_tracked g' = pt_tracked g ∧
    ∀ key u, u ∈ T' key ↔ u ∈ T key ∧ ¬ listed (entries info) key u) (mine C g).
Proof.
  intros Hok Hown Hwf. unfold stopInformers. apply wp_bind.
  eapply wp_mono; [|by apply wp_stopInformers_loop]. intros b o (-> & C' & T' & g' & -> & HT).
  apply wp_updateRestMapper. eauto.
Qed.
End programs.

(** ** Dividing a consistent part *)

(** The channels of the stop entries of some keys. *)
Definition stoppers_of (D : gset string) (stoppers : gmap string N) : gset N :=
  list_to_set (omap (λ key, stoppers !! key) (elements D)).

Lemma stoppers_of_elem D (m : gmap string N) c : c ∈ stoppers_of D m ↔ ∃ key, key ∈ D ∧ m !! key = Some c.
Proof.
  unfold stoppers_of. rewrite elem_of_list_to_set, list_elem_of_omap. setoid_rewrite elem_of_elements. done.
Qed.

(** A part is consistent for fewer keys, with the channels of their stop entries. *)
Lemma part_restrict D D1 C C1 T g :
  part_ok D C T g → (∀ key, key ∈ D1 → key ∈ D) →
  (∀ c, c ∈ C1 → pt_chans g !! c = Some false → ∃ key, key ∈ D1 ∧ pt_stoppers g !! key = Some c) →
  (∀ key c, key ∈ D1 → pt_stoppers g !! key = Some c → c ∈ C1) → part_ok D1 C1 T g.
Proof.
  intros [Hu Hl Hi Hs Ho Hj Hnl] Hsub Hleak Hmine. split; eauto.
  intros key c Hk Hc. split; [by eapply Hmine|]. by apply (Ho key c); [apply Hsub|].
Qed.

Lemma part_split D D1 D2 C T g :
  part_ok D C T g → D = D1 ∪ D2 → D1 ## D2 →
  ∃ C1 C2, C = C1 ∪ C2 ∧ C1 ## C2 ∧ part_ok D1 C1 T g ∧ part_ok D2 C2 T g.
Proof.
  intros Hok -> Hdisj. set (C2 := stoppers_of D2 (pt_stoppers g)).
  assert (∀ c, c ∈ C2 ↔ ∃ key, key ∈ D2 ∧ pt_stoppers g !! key = Some c) as HC2 by (intros c; apply stoppers_of_elem).
  assert (∀ key, key ∈ D1 → key ∈ D1 ∪ D2) as H1 by (intros; apply elem_of_union; by left).
  assert (∀ key, key ∈ D2 → key ∈ D1 ∪ D2) as H2 by (intros; apply elem_of_union; by right).
  exists (C ∖ C2), C2. split; [|split; [|split; eapply part_restrict; try exact Hok; try done]].
  - apply set_eq. intros c. rewrite elem_of_union, elem_of_difference. destruct (decide (c ∈ C2)) as [Hc|]; [|tauto].
    split; [by right|]. intros _. apply HC2 in Hc as (key & Hk & Hc). by apply (po_open _ _ _ _ Hok key c); [apply H2|].
  - intros c [_ Hc]%elem_of_difference. by apply Hc.
  - intros c [HcC Hc2]%elem_of_difference Hop.
    destruct (po_no_leak _ _ _ _ Hok c HcC Hop) as (key & [Hk|Hk]%elem_of_union & Hc); [eauto|].
    destruct Hc2. apply HC2. eauto.
  - intros key c Hk Hc. apply elem_of_difference. split; [by apply (po_open _ _ _ _ Hok key c); [apply H1|]|].
    intros (key' & Hk' & Hc')%HC2. assert (key = key') as -> by (apply (po_inj _ _ _ _ Hok key key' c); auto).
    by apply (Hdisj key').
  - intros c Hc _. by apply HC2.
  - intros key c Hk Hc. apply HC2. eauto.
Qed.

(** A goroutine that starts informers is given its kinds. *)
Lemma wp_fork n D D1 D2 Ns C T g gvrs uids {A} (k : unit → prog Op A) Q :
  2 ≤ n → part_ok D C T g → D = D1 ∪ D2 → D1 ## D2 → owns_keys D2 gvrs → length uids = length gvrs → NoDup uids →
  (∀ key u, listed_tracked known (zip uids gvrs) key u → u ∉ T key) →
  (∀ key u, key ∈ D2 → spec key u ↔ u ∈ T key ∨ listed_tracked known (zip uids gvrs) key u) →
  (∀ C1, part_ok D1 C1 T g → wp n (k tt) Q (MkOwner D1 Ns C1 g)) →
  wp n (Act (GoStmt (GStartInformers gvrs uids)) k) Q (MkOwner D Ns C g).
Proof.
  intros Hn Hok HD Hdisj Hown Hlen Hnd Hnew Hspec Hk.
  destruct (part_split D D1 D2 C T g Hok HD Hdisj) as (C1 & C2 & HC & HCd & Hok1 & Hok2). subst.
  eapply (wp_go n _ _ _ _ (MkOwner D1 Ns C1 g) (MkOwner D2 ∅ C2 g)); [|by apply divides_two|done..|by apply Hk].
  split; [done|]. split; cbn; eauto.
Qed.

(** A goroutine that starts informers achieves what it was started for. *)
Lemma start_achieves n gvrs uids o :
  1 ≤ n → start_ok gvrs uids o → wp n (startInformers gvrs uids) (λ _, achieved) o.
Proof.
  intros Hn [Hown Hlen Hnd Hns (T & Hok & Hnew & Hspec)]. destruct o as [D Ns C g]. cbn in Hown, Hns, Hok, Hnew, Hspec.
  eapply wp_mono; [|by apply (wp_startInformers n Hn D Ns C T)]. intros _ o (C' & T' & g' & -> & Hok' & _ & Ht).
  exists T'. split; [done|]. split; [|rewrite Hns; set_solver]. intros key u Hk. cbn in Hk. rewrite Ht. symmetry. by apply Hspec.
Qed.
End logic.
