(* ===== verification/Handling.v ===== *)
(** * One handler of an applied manifest work, on its share of the agent

    [handleAppliedManifestWork] owns its manifest and the kinds it lists, before and
    after; the goroutine it starts gets the kinds that gain objects.  On any share
    that is in step with a table of manifests, the two bring what they own in step
    with the table after the handling, whatever the others do meanwhile. *)

From S2P Require Export Ownership.

Section handling.
Context {RT : GoRuntime} {K : Kube} {E : Type} `{Env : !Environment E}.
Context (known : GroupVersionResource → option GroupVersionKind) (good : E → Prop).
Context (Hd : StableDiscovery known good).
Implicit Types p : Process E.
Abbreviation table_lists := (table_lists known).

(** ** The handlers *)

(** The handling of an applied manifest work that was seen, or seen deleted. *)
Record Handling : Type := MkHandling { h_obj : Object; h_work : AppliedManifestWork; h_deleted : bool }.

Definition handler (h : Handling) : prog Op unit :=
  _ ← handleAppliedManifestWork (h_obj h) (h_deleted h); mret tt.

Abbreviation h_name h := (GetName (h_obj h)).
Abbreviation h_info h := (manifest_info (h_work h)).

(** What it makes of the table of manifests. *)
Definition handle_table (t : SafeMap AppliedManifestInfo) (h : Handling) : SafeMap AppliedManifestInfo :=
  if h_deleted h then delete (h_name h) t
  else if decide (length (ListGVRs (h_work h)) = 0) then t
  else <[h_name h := h_info h]> t.

(** The keys of the kinds of some resources. *)
Definition gvr_keys (gvrs : list GroupVersionResource) : gset string :=
  list_to_set (omap (λ gvr, gvk_key <$> known gvr) gvrs).

Definition tracked_gvrs (t : SafeMap AppliedManifestInfo) (name : string) : list GroupVersionResource :=
  match t !! name with Some info => GVRs info | None => [] end.

(** The kinds of what it lists and of what the last version listed. *)
Definition handling_keys (t : SafeMap AppliedManifestInfo) (h : Handling) : gset string :=
  gvr_keys (ListGVRs (h_work h) ++ tracked_gvrs t (h_name h)).

(** Some object of the kind is in the second version but not in the first. *)
Definition gains (old info : AppliedManifestInfo) (key : string) : Prop :=
  ∃ u, listed known (entries info) key u ∧ u ∉ ObjectUIDs old.

(** The manifest is one that can be handled next to the table: its objects have
    known kinds and keep their resources, and no kind both gains and loses some. *)
Record handling_ok (t : SafeMap AppliedManifestInfo) (h : Handling) : Prop := {
  ho_unstructured : is_unstructured (h_obj h) = true;
  ho_work : ToAppliedManifestWork (h_obj h) = GOk (h_work h);
  ho_info : info_ok known (h_info h);
  ho_same old : t !! h_name h = Some old → same_resources old (h_info h);
  ho_one_way old key : t !! h_name h = Some old → gains old (h_info h) key → ¬ gains (h_info h) old key
}.

Lemma gvr_keys_elem gvrs key :
  key ∈ gvr_keys gvrs ↔ ∃ gvr gvk, gvr ∈ gvrs ∧ known gvr = Some gvk ∧ gvk_key gvk = key.
Proof.
  unfold gvr_keys. rewrite elem_of_list_to_set, list_elem_of_omap. split.
  - intros (gvr & Hin & (gvk & Hk & ->)%fmap_Some). eauto.
  - intros (gvr & gvk & Hin & Hk & <-). exists gvr. split; [done|]. apply fmap_Some. eauto.
Qed.

Lemma owns_gvr_keys D gvrs : known_objects known gvrs → (∀ key, key ∈ gvr_keys gvrs → key ∈ D) → owns_keys known D gvrs.
Proof.
  intros Hkn Hsub. unfold known_objects in Hkn. rewrite Forall_forall in Hkn. apply Forall_forall. intros gvr Hin.
  destruct (Hkn gvr Hin) as (gvk & Hk & _). exists gvk. split; [done|]. apply Hsub, gvr_keys_elem. eauto.
Qed.

Lemma gvr_keys_foreign gvrs key : known_objects known gvrs → key ∈ gvr_keys gvrs → key ≠ AppliedManifestWorkKey.
Proof.
  intros Hkn (gvr & gvk & Hin & Hk & <-)%gvr_keys_elem. unfold known_objects in Hkn. rewrite Forall_forall in Hkn.
  destruct (Hkn gvr Hin) as (gvk' & Hk' & ?). congruence.
Qed.

Lemma listed_keys info key u : listed known (entries info) key u → key ∈ gvr_keys (GVRs info).
Proof. intros (gvr & gvk & [_ Hin]%entries_In & Hk & He). apply gvr_keys_elem. eauto. Qed.

Lemma listed_tracked_keys info key u : listed_tracked known (entries info) key u → key ∈ gvr_keys (GVRs info).
Proof. intros ?%listed_tracked_listed. by eapply listed_keys. Qed.

Lemma handle_table_other t h name : name ≠ h_name h → handle_table t h !! name = t !! name.
Proof.
  intros Hn. unfold handle_table. destruct (h_deleted h); [by rewrite lookup_delete_ne|].
  case_decide; [done|by rewrite lookup_insert_ne].
Qed.

Lemma handle_table_own t t' h : t !! h_name h = t' !! h_name h → handle_table t h !! h_name h = handle_table t' h !! h_name h.
Proof.
  intros Ht. unfold handle_table. destruct (h_deleted h); [by rewrite !lookup_delete_eq|].
  case_decide; [done|by rewrite !lookup_insert_eq].
Qed.

(** A handling concerns the kinds of its manifest only, before and after. *)
Lemma gvr_keys_sub gvrs gvrs' key : (∀ gvr, gvr ∈ gvrs → gvr ∈ gvrs') → key ∈ gvr_keys gvrs → key ∈ gvr_keys gvrs'.
Proof. intros Hsub (gvr & gvk & Hin & ? & ?)%gvr_keys_elem. apply gvr_keys_elem. exists gvr, gvk. auto. Qed.

Lemma before_keys t h info key u :
  t !! h_name h = Some info → listed known (entries info) key u → key ∈ handling_keys t h.
Proof.
  intros Hi Hl%listed_keys. unfold handling_keys, tracked_gvrs. rewrite Hi. eapply gvr_keys_sub, Hl.
  intros gvr ?. apply elem_of_app. by right.
Qed.

Lemma new_keys t h key u : listed known (entries (h_info h)) key u → key ∈ handling_keys t h.
Proof.
  intros Hl%listed_keys. eapply gvr_keys_sub, Hl. intros gvr ?. apply elem_of_app. by left.
Qed.

Lemma after_keys t h info key u :
  handle_table t h !! h_name h = Some info → listed known (entries info) key u → key ∈ handling_keys t h.
Proof.
  unfold handle_table. destruct (h_deleted h); [by rewrite lookup_delete_eq|].
  case_decide; [apply before_keys|]. rewrite lookup_insert_eq. intros [= <-]. apply new_keys.
Qed.

Lemma handle_lists_other t h key u : key ∉ handling_keys t h → table_lists (handle_table t h) key u ↔ table_lists t key u.
Proof.
  intros Hk. split; intros (n & i & Hi & Hl); exists n, i; (split; [|done]);
    (destruct (decide (n = h_name h)) as [->|Hn]; [destruct Hk|by rewrite handle_table_other in * by done]).
  - by eapply after_keys, listed_tracked_listed.
  - by eapply before_keys, listed_tracked_listed.
Qed.

Lemma live_table t h :
  h_deleted h = false → ListGVRs (h_work h) ≠ [] → handle_table t h = <[h_name h := h_info h]> t.
Proof. intros Hdel Hne. unfold handle_table. rewrite Hdel. by nonempty. Qed.

(** ** The handler on its share *)

Section one.
Context (t : SafeMap AppliedManifestInfo) (h : Handling) (Hh : handling_ok t h).
Context (Hinfos : ∀ name info, t !! name = Some info → info_ok known info).
Context (Honce : listed_once known t) (Honce' : listed_once known (handle_table t h)).
Context (C : gset N) (T : string → gset string) (g : Part).
Abbreviation D := (handling_keys t h).
Context (Hok : part_ok D C T g) (HT : ∀ key u, key ∈ D → u ∈ T key ↔ table_lists t key u).
Context (Htr : pt_tracked g !! h_name h = t !! h_name h).

Abbreviation after := (handle_table t h).
Abbreviation wp := (wp known good (table_lists after) 2).
Abbreviation achieved := (achieved (table_lists after) after).
Abbreviation share := (MkOwner D {[h_name h]} C g).

Lemma part_tracked m : part_ok D C T (set_part FTracked g m).
Proof. by destruct Hok. Qed.

Lemma wp_tracked {A} n Ns (k : option AppliedManifestInfo → prog Op A) Q :
  h_name h ∈ Ns → Ownership.wp known good (table_lists after) n (k (t !! h_name h)) Q (MkOwner D Ns C g) →
  Ownership.wp known good (table_lists after) n (Act (SMGet FTracked (h_name h)) k) Q (MkOwner D Ns C g).
Proof. rewrite <- Htr. exact (wp_get known good (table_lists after) n D Ns C Q g FTracked (h_name h) k). Qed.

(** The manifest is as it was. *)
Lemma unchanged : after = t → achieved share.
Proof.
  intros Ht. exists T. cbn. split; [done|]. split.
  - intros key u Hk. by rewrite Ht, HT.
  - intros name ->%elem_of_singleton. by rewrite Ht.
Qed.

(** The objects it adds are not tracked yet. *)
Lemma new_untracked key u :
  after !! h_name h = Some (h_info h) → key ∈ D → listed_tracked known (entries (h_info h)) key u →
  (∀ old, t !! h_name h = Some old → u ∉ ObjectUIDs old) → u ∉ T key.
Proof.
  intros Hf Hk Hu Hnew (n & i & Hi & Hl)%HT; [|done].
  destruct (decide (n = h_name h)) as [->|Hn]; [by eapply Hnew, listed_tracked_uid|].
  rewrite <- (handle_table_other t h) in Hi by done.
  apply (Honce' n (h_name h) i (h_info h) key u); try done; by apply listed_tracked_listed.
Qed.
Lemma deleted_wp : h_deleted h = true → wp (handler h) (λ _, achieved) share.
Proof.
  intros Hdel. pose proof Hh as [Hun Hw _ _ _].
  assert (after = delete (h_name h) t) as Ht by (unfold handle_table; by rewrite Hdel).
  unfold handler, handleAppliedManifestWork, as_unstructured. rewrite Hun, Hdel. cbn [lift mbind prog_bind]. rewrite Hw.
  apply wp_bind, wp_bind, wp_tracked; [by apply elem_of_singleton|]. cbn [Ownership.wp].
  destruct (t !! h_name h) as [old|] eqn:Ho in |- *.
  2:{ cbn. apply unchanged. by rewrite Ht, delete_id. }
  pose proof (Hinfos _ _ Ho) as (Hwf & _ & Hkn).
  apply wp_bind. eapply wp_mono; [|apply (wp_stopInformers known good (table_lists after) Hd 2 ltac:(lia) D _ _ T)].
  - intros [] o (C' & T' & g' & -> & Hok' & Htr' & HT'). apply wp_bind, (wp_delete _ _ _ _ _ _ _ _ _ FTracked); [by apply elem_of_singleton|].
    cbn. exists T'. cbn. split; [by destruct Hok'|]. split.
    + intros key u Hk. rewrite Ht, HT', HT by done. by apply deleted_listed.
    + intros name ->%elem_of_singleton. by rewrite Ht, Htr', !lookup_delete_eq.
  - done.
  - apply owns_gvr_keys; [done|]. intros key. unfold handling_keys, tracked_gvrs. rewrite Ho.
    apply gvr_keys_sub. intros gvr ?. apply elem_of_app. by right.
  - done.
Qed.

(** A manifest that was not tracked. *)
Lemma created_wp :
  h_deleted h = false → ListGVRs (h_work h) ≠ [] → t !! h_name h = None → wp (handler h) (λ _, achieved) share.
Proof.
  intros Hdel Hne Ho. pose proof Hh as [Hun Hw (Hwf & Hnd & Hkn) _ _]. pose proof (live_table t h Hdel Hne) as Ht.
  unfold handler. rewrite Hdel, (handle_live _ (h_work h)) by done.
  apply wp_bind, wp_bind, wp_tracked; [by apply elem_of_singleton|]. cbn [Ownership.wp]. rewrite Ho.
  apply wp_bind, (wp_set _ _ _ _ _ _ _ _ _ FTracked); [by apply elem_of_singleton|]. cbn [Ownership.wp].
  assert (∀ key, key ∈ gvr_keys (GVRs (h_info h)) → key ∈ D) as Hsub.
  { intros key. apply gvr_keys_sub. intros gvr ?. apply elem_of_app. by left. }
  apply wp_bind. eapply (wp_fork known good (table_lists after) Hd 2 D ∅ D _ _ T);
    [lia|by apply part_tracked|set_solver|set_solver|by apply owns_gvr_keys|done|done| | |].
  - intros key u Hl. eapply new_untracked; [by rewrite Ht, lookup_insert_eq| |done|intros old; by rewrite Ho].
    by eapply Hsub, listed_tracked_keys.
  - intros key u Hk. rewrite Ht, HT by done. symmetry. by apply (inserted_listed known t (h_name h) (h_info h)).
  - intros C1 Hok1. exists T. cbn. split; [done|]. split; [by intros key u ?%elem_of_empty|].
    intros name ->%elem_of_singleton. by rewrite Ht, !lookup_insert_eq.
Qed.

(** What the difference of two versions adds and removes. *)
Lemma diff_kinds old seed_base seed_updated :
  t !! h_name h = Some old → ∃ added removed,
    GetAddedRemovedInfo seed_base seed_updated old (h_info h) = Done (added, removed) ∧
    info_ok known added ∧ info_ok known removed ∧
    (∀ key, key ∈ gvr_keys (GVRs added) → key ∈ D) ∧
    (∀ key, key ∈ gvr_keys (GVRs removed) → key ∈ D ∧ key ∉ gvr_keys (GVRs added)) ∧
    (∀ key u, listed_tracked known (entries added) key u →
       listed_tracked known (entries (h_info h)) key u ∧ u ∉ ObjectUIDs old).
Proof.
  intros Ho. pose proof Hh as [_ _ Hinfo _ Hway]. pose proof (Hinfos _ _ Ho) as Hoinfo.
  destruct (GetAddedRemovedInfo_uids seed_base seed_updated old (h_info h)) as (added & removed & Hdiff & Hwa & Hwr & Hua & Hur);
    [apply Hoinfo|apply Hinfo|].
  destruct (GetAddedRemovedInfo_split seed_base seed_updated old (h_info h)) as (added' & removed' & Hdiff' & Ha & Hr);
    [apply Hoinfo|apply Hinfo|apply Hoinfo|apply Hinfo|].
  rewrite Hdiff in Hdiff'. injection Hdiff' as <- <-.
  assert (∀ info key, info_wf info → key ∈ gvr_keys (GVRs info) → ∃ u, listed known (entries info) key u) as Hlist.
  { intros info key Hwf (gvr & gvk & Hin & Hk & He)%gvr_keys_elem.
    assert (GVRs info = (entries info).*2) as Hs by (symmetry; apply snd_zip; unfold info_wf in Hwf; lia).
    rewrite Hs in Hin. apply list_elem_of_fmap in Hin as ([u g'] & -> & Hin). by exists u, g', gvk. }
  assert (∀ key u, listed known (entries added) key u → listed known (entries (h_info h)) key u) as Hla.
  { intros key u (gvr & gvk & Hin & Hk). exists gvr, gvk. split; [|done]. rewrite Ha in Hin. by apply list_elem_of_filter in Hin as [_ ?]. }
  assert (∀ key u, listed known (entries removed) key u → listed known (entries old) key u) as Hlr.
  { intros key u (gvr & gvk & Hin & Hk). exists gvr, gvk. split; [|done]. rewrite Hr in Hin. by apply list_elem_of_filter in Hin as [_ ?]. }
  exists added, removed. split_and!; try done.
  - eapply info_ok_part; [exact Hinfo|done|exact Ha].
  - eapply info_ok_part; [exact Hoinfo|done|exact Hr].
  - intros key Hk. destruct (Hlist added key Hwa Hk) as [u Hl]. by eapply new_keys, Hla.
  - intros key Hk. destruct (Hlist removed key Hwr Hk) as [u Hl]. split; [by eapply before_keys, Hlr|].
    intros Hka. destruct (Hlist added key Hwa Hka) as [u' Hl']. apply (Hway old key Ho).
    + exists u'. split; [by apply Hla|]. by apply listed_uid, Hua in Hl' as [_ ?].
    + exists u. split; [by apply Hlr|]. by apply listed_uid, Hur in Hl as [_ ?].
  - intros key u Hl. rewrite (listed_tracked_perm _ _ _ _ _ Ha), listed_tracked_filter in Hl. tauto.
Qed.

(** A new version of a tracked manifest: the goroutine that starts informers gets
    the kinds that gain objects, the handler keeps the others. *)
Lemma updated_wp old :
  h_deleted h = false → ListGVRs (h_work h) ≠ [] → t !! h_name h = Some old → h_info h ≠ old →
  wp (handler h) (λ _, achieved) share.
Proof.
  intros Hdel Hne Ho Hdiff. pose proof Hh as [Hun Hw Hinfo Hsame _].
  pose proof (live_table t h Hdel Hne) as Ht. pose proof (Hinfos _ _ Ho) as Hoinfo.
  unfold handler. rewrite Hdel, (handle_live _ (h_work h)) by done.
  apply wp_bind, wp_bind, wp_tracked; [by apply elem_of_singleton|]. cbn [Ownership.wp]. rewrite Ho.
  rewrite decide_False by done. apply wp_bind, wp_lib; [done|]. intros s1. apply wp_bind, wp_lib; [done|]. intros s2.
  destruct (diff_kinds old s1 s2 Ho) as (added & removed & Hd' & Hai & Hri & Hak & Hrk & Hau).
  cbn [Ownership.wp]. rewrite Hd'. cbn [lift mbind prog_bind].
  assert (∀ key u, key ∈ D → table_lists after key u ↔
    (u ∈ T key ∧ ¬ listed known (entries removed) key u) ∨ listed_tracked known (entries added) key u) as Hspec.
  { intros key u Hk. rewrite Ht, HT by done. symmetry.
    apply (replaced_listed known t (h_name h) (h_info h) old s1 s2); try done. by apply Hsame. }
  set (D2 := gvr_keys (GVRs added)).
  apply (wp_set _ _ _ _ _ _ _ _ _ FTracked); [by apply elem_of_singleton|].
  eapply (wp_fork known good (table_lists after) Hd 2 D (D ∖ D2) D2 _ _ T);
    [lia|by apply part_tracked| | | |apply Hai|apply Hai| | |].
  - apply set_eq. intros key. rewrite elem_of_union, elem_of_difference. specialize (Hak key).
    destruct (decide (key ∈ D2)); tauto.
  - intros key [_ ?]%elem_of_difference. done.
  - by apply owns_gvr_keys; [apply Hai|].
  - intros key u Hl. pose proof (listed_tracked_keys _ _ _ Hl) as Hk. apply Hau in Hl as [Hl Huo].
    eapply new_untracked; [by rewrite Ht, lookup_insert_eq|by apply Hak|done|congruence].
  - intros key u Hk. rewrite Hspec by (by apply Hak).
    assert (¬ listed known (entries removed) key u) by (intros Hl%listed_keys%Hrk; by destruct Hl). unfold entries in *. tauto.
  - intros C1 Hok1. apply wp_bind.
    eapply wp_mono; [|apply (wp_stopInformers known good (table_lists after) Hd 2 ltac:(lia) (D ∖ D2) _ _ T); [exact Hok1| |apply Hri]].
    + intros [] o (C' & T' & g' & -> & Hok' & Htr' & HT'). cbn. exists T'. cbn. split; [done|]. split.
      * intros key u [Hk Hnk]%elem_of_difference. rewrite HT', Hspec by done.
        assert (¬ listed_tracked known (entries added) key u) by (by intros ?%listed_tracked_keys). tauto.
      * intros name ->%elem_of_singleton. rewrite Ht, Htr'. cbn. by rewrite !lookup_insert_eq.
    + apply owns_gvr_keys; [apply Hri|]. intros key Hk%Hrk. by apply elem_of_difference.
Qed.

Lemma handler_wp : wp (handler h) (λ _, achieved) share.
Proof.
  destruct (h_deleted h) eqn:Hdel; [by apply deleted_wp|].
  destruct (decide (ListGVRs (h_work h) = [])) as [He|Hne].
  { pose proof Hh as [Hun Hw _ _ _]. unfold handler, handleAppliedManifestWork, as_unstructured.
    rewrite Hun, Hdel. cbn [lift mbind prog_bind]. rewrite Hw. cbn. rewrite He. cbn.
    apply unchanged. unfold handle_table. by rewrite Hdel, He. }
  destruct (t !! h_name h) as [old|] eqn:Ho in |- *; [|by apply created_wp].
  destruct (decide (h_info h = old)) as [Heq|Hdiff]; [|by eapply updated_wp].
  pose proof Hh as [Hun Hw _ _ _]. unfold handler. rewrite Hdel, (handle_live _ (h_work h)) by done.
  apply wp_bind, wp_bind, wp_tracked; [by apply elem_of_singleton|]. cbn [Ownership.wp]. rewrite Ho.
  rewrite decide_True by done. cbn. apply unchanged. rewrite live_table by done. apply insert_id. congruence.
Qed.
End one.
End handling.
