(* ===== verification/Shares.v ===== *)
(** * Shares of the agent

    Owners that have nothing in common and together own some kinds, manifests and
    channels: what stays true when one of them acts, when shares are regrouped, and
    when all of them have achieved what they work for. *)

From S2P Require Export Handling.

Section shares.
Context {RT : GoRuntime} {K : Kube} {E : Type} `{Env : !Environment E}.
Context (known : GroupVersionResource → option GroupVersionKind) (good : E → Prop).
Implicit Types p : Process E.

(** ** Owners with nothing in common *)

(** Something of kind [f] is in one of the shares. *)
Definition owned {X} `{Countable X} (f : Owner → gset X) (l : list Owner) (x : X) : Prop := ∃ o, o ∈ l ∧ x ∈ f o.

Lemma owned_app {X} `{Countable X} (f : Owner → gset X) l l' x : owned f (l ++ l') x ↔ owned f l x ∨ owned f l' x.
Proof. unfold owned. setoid_rewrite elem_of_app. naive_solver. Qed.

Lemma owned_cons {X} `{Countable X} (f : Owner → gset X) o l x : owned f (o :: l) x ↔ x ∈ f o ∨ owned f l x.
Proof. unfold owned. setoid_rewrite elem_of_cons. naive_solver. Qed.

#[export] Instance owned_proper {X} `{Countable X} (f : Owner → gset X) :
  Proper ((≡ₚ) ==> (=) ==> iff) (owned f).
Proof. intros l l' Hl x ? <-. unfold owned. by setoid_rewrite Hl. Qed.

#[export] Instance apart_proper : Proper ((≡ₚ) ==> iff) apart.
Proof.
  intros l l'. induction 1 as [|o l l' Hl IH|o o' l|]; [done| | |by etrans]; cbn.
  - by rewrite IH, Hl.
  - rewrite !Forall_cons. assert (sep o o' ↔ sep o' o) by (by split; intros; symmetry). tauto.
Qed.

Lemma apart_app l l' : apart (l ++ l') ↔ apart l ∧ apart l' ∧ ∀ o o', o ∈ l → o' ∈ l' → sep o o'.
Proof.
  induction l as [|o l IH]; cbn; [split; [|tauto]; intros; split_and!; [done..|]; by intros ? ? ?%elem_of_nil|].
  rewrite IH, Forall_app, !Forall_forall. setoid_rewrite elem_of_cons. naive_solver.
Qed.

Context (p0 : Process E) (D0 Ns0 : gset string) (C0 : gset N).

(** ** What they own together *)

(** They own the keys [D0], the names [Ns0] and the channels [C0], and those it
    has made; the rest is as in [p0]. *)
Record owners_ok p (l : list Owner) : Prop := {
  ow_holds : Forall (λ o, holds o p) l;
  ow_apart : apart l;
  ow_keys key : key ∈ D0 ↔ owned o_keys l key;
  ow_names name : name ∈ Ns0 ↔ owned o_names l name;
  ow_kept c : c ∈ C0 → owned o_chans l c;
  ow_chans c : owned o_chans l c → c ∈ C0 ∨ chans p0 !! c = None;
  ow_listers key : key ∉ D0 → listers (agent p) !! key = listers (agent p0) !! key;
  ow_informers key : key ∉ D0 → informers (agent p) !! key = informers (agent p0) !! key;
  ow_stoppers key : key ∉ D0 → stoppers (agent p) !! key = stoppers (agent p0) !! key;
  ow_uids key : key ∉ D0 → tracked_uids p key = tracked_uids p0 key;
  ow_tracked name : name ∉ Ns0 →
    trackedAppliedManifests (agent p) !! name = trackedAppliedManifests (agent p0) !! name;
  ow_others c : is_Some (chans p0 !! c) → c ∉ C0 → chans p !! c = chans p0 !! c;
  ow_dom c : is_Some (chans p0 !! c) → is_Some (chans p !! c);
  ow_made c : is_Some (chans p !! c) → is_Some (chans p0 !! c) ∨ owned o_chans l c
}.

Lemma owners_perm p l l' : l ≡ₚ l' → owners_ok p l → owners_ok p l'.
Proof.
  intros Hl []. split; intros *; rewrite <- ?Hl; auto.
Qed.

#[local] Ltac tauto_keys := match goal with Hk : ∀ _, _ ∈ D0 ↔ _, Hn : _ ∉ D0 |- _ => rewrite Hk in Hn; tauto end.

(** One of the owners acts. *)
Lemma owners_act p p' o C l l1 :
  owners_ok p (o :: l) → frame o C p p' → divides o C l1 → Forall (λ o1, holds o1 p') l1 → owners_ok p' (l1 ++ l).
Proof.
  intros [Hh Hap Hk Hn Hkept Hc Hl Hi Hs Hu Ht Hot Hdm Hmd] Hf [Dap Dk Dn Dc] Hh1.
  apply Forall_cons in Hh as [Hho Hh]. destruct Hap as [Hsep Hap]. rewrite Forall_forall in Hsep, Hh.
  assert (∀ o', o' ∈ l → o_chans o' ## C) as HC.
  { intros o' Ho' c Hc' HcC. destruct (fr_new _ _ _ _ Hf c HcC) as [Hin|Hnone].
    - by apply (sep_chans _ _ (Hsep o' Ho') c).
    - destruct (h_dom _ _ (Hh o' Ho') c Hc') as [b Hb]. congruence. }
  setoid_rewrite owned_cons in Hk. setoid_rewrite owned_cons in Hn. setoid_rewrite owned_cons in Hkept.
  setoid_rewrite owned_cons in Hc. setoid_rewrite owned_cons in Hmd.
  assert (∀ c, owned o_chans l1 c ↔ c ∈ C) as Dc' by (intros c; symmetry; apply Dc).
  split.
  - apply Forall_app. split; [done|]. apply Forall_forall. intros o' Ho'.
    eapply holds_framed; [symmetry; by apply Hsep|exact Hf|by apply Hh].
  - apply apart_app. split_and!; [done..|]. intros o1 o' Ho1 Ho'. destruct (Hsep o' Ho') as [S1 S2 S3]. split.
    + intros key H1 H2. apply (S1 key); [|done]. apply Dk. by exists o1.
    + intros name H1 H2. apply (S2 name); [|done]. apply Dn. by exists o1.
    + intros c H1 H2. apply (HC o' Ho' c); [done|]. apply Dc. by exists o1.
  - intros key. rewrite Hk, owned_app, (Dk key). done.
  - intros name. rewrite Hn, owned_app, (Dn name). done.
  - intros c [Hc0|?]%Hkept; rewrite owned_app; [left|by right]. by apply Dc', (fr_old _ _ _ _ Hf).
  - intros c. rewrite owned_app, Dc'. intros [HcC|Hcl]; [|auto].
    destruct (fr_new _ _ _ _ Hf c HcC) as [?|Hnone]; [auto|]. right. apply eq_None_not_Some.
    intros [b Hb]%Hdm. congruence.
  - intros key Hkd. rewrite (fr_listers _ _ _ _ Hf) by tauto_keys. auto.
  - intros key Hkd. rewrite (fr_informers _ _ _ _ Hf) by tauto_keys. auto.
  - intros key Hkd. rewrite (fr_stoppers _ _ _ _ Hf) by tauto_keys. auto.
  - intros key Hkd. unfold tracked_uids. rewrite (fr_counts _ _ _ _ Hf) by tauto_keys. by apply Hu.
  - intros name Hnd. rewrite (fr_tracked _ _ _ _ Hf); [auto|]. rewrite Hn in Hnd. tauto.
  - intros c Hsome Hc0. rewrite (fr_chans _ _ _ _ Hf); [auto..|].
    intros Hco. destruct (Hc c) as [?|Hnone]; [by left|done|]. rewrite Hnone in Hsome. by destruct Hsome.
  - intros c Hsome. by apply (fr_dom _ _ _ _ Hf), Hdm.
  - intros c [Hsome|HcC]%(fr_made _ _ _ _ Hf); rewrite owned_app; [|right; left; by apply Dc'].
    destruct (Hmd c Hsome) as [?|[Hco|?]]; [by left| |by right; right].
    right. left. by apply Dc', (fr_old _ _ _ _ Hf).
Qed.

Lemma owners_same p p' l : agent p' = agent p → chans p' = chans p → owners_ok p l → owners_ok p' l.
Proof.
  intros Ha Hc [Hh]. split; unfold tracked_uids in *; rewrite ?Ha, ?Hc; try done.
  eapply Forall_impl; [exact Hh|]. intros o []. by split; rewrite ?Ha, ?Hc.
Qed.

(** The same things, divided among others. *)
Lemma owners_regroup p l l1 l2 :
  owners_ok p (l1 ++ l) → apart l2 → Forall (λ o, holds o p) l2 →
  (∀ key, owned o_keys l2 key ↔ owned o_keys l1 key) → (∀ name, owned o_names l2 name ↔ owned o_names l1 name) →
  (∀ c, owned o_chans l2 c ↔ owned o_chans l1 c) → owners_ok p (l2 ++ l).
Proof.
  intros [Hh Hap Hk Hn Hkept Hc Hl Hi Hs Hu Ht Hot Hdm Hmd] Hap2 Hh2 Ek En Ec.
  apply Forall_app in Hh as [_ Hh]. apply apart_app in Hap as (_ & Hap & Hsep).
  split; try done.
  - by apply Forall_app.
  - apply apart_app. split_and!; [done..|]. intros o o' Ho Ho'. split; intros x H1 H2.
    + destruct (proj1 (Ek x)) as (o1 & Ho1 & ?); [by exists o|]. by apply (sep_keys _ _ (Hsep o1 o' Ho1 Ho') x).
    + destruct (proj1 (En x)) as (o1 & Ho1 & ?); [by exists o|]. by apply (sep_names _ _ (Hsep o1 o' Ho1 Ho') x).
    + destruct (proj1 (Ec x)) as (o1 & Ho1 & ?); [by exists o|]. by apply (sep_chans _ _ (Hsep o1 o' Ho1 Ho') x).
  - intros x. by rewrite Hk, !owned_app, Ek.
  - intros x. by rewrite Hn, !owned_app, En.
  - intros c ?%Hkept. by rewrite owned_app, Ec, <- owned_app.
  - intros c. rewrite owned_app, Ec, <- owned_app. auto.
  - intros c ?%Hmd. by rewrite owned_app, Ec, <- owned_app.
Qed.

(** ** When all have achieved it *)

Lemma owned_dec {X} `{Countable X} (f : Owner → gset X) l x : owned f l x ∨ ¬ owned f l x.
Proof.
  destruct (decide (Exists (λ o, x ∈ f o) l)) as [He|He]; [left|right].
  - by apply Exists_exists in He.
  - intros Ho. by apply He, Exists_exists.
Qed.

Lemma apart_chan l o o' c : apart l → o ∈ l → o' ∈ l → c ∈ o_chans o → c ∈ o_chans o' → o = o'.
Proof.
  intros Hap. induction l as [|o1 l IH]; [by intros ?%elem_of_nil|]. destruct Hap as [Hsep Hap]. rewrite Forall_forall in Hsep.
  intros [-> |Ho]%elem_of_cons [-> |Ho']%elem_of_cons Hc Hc'; [done| | |by apply IH].
  - by destruct (sep_chans _ _ (Hsep o' Ho') c).
  - by destruct (sep_chans _ _ (Hsep o Ho) c).
Qed.

Section ended.
Context (spec : string → string → Prop) (goal : SafeMap AppliedManifestInfo).
Abbreviation achieved := (achieved spec goal).
Context p os (How : owners_ok p os) (Hach : Forall achieved os).
Context (Hinv0 : lifecycle_inv p0) (Hleak0 : no_leak p0) (HC0 : C0 = stoppers_of D0 (stoppers (agent p0))).

Lemma in_C0 c : c ∈ C0 ↔ ∃ key, key ∈ D0 ∧ stoppers (agent p0) !! key = Some c.
Proof. rewrite HC0. apply stoppers_of_elem. Qed.

Lemma ended_owner o : o ∈ os → holds o p ∧ ∃ T, part_ok (o_keys o) (o_chans o) T (o_part o) ∧
  (∀ key u, key ∈ o_keys o → u ∈ T key ↔ spec key u) ∧
  ∀ name, name ∈ o_names o → pt_tracked (o_part o) !! name = goal !! name.
Proof.
  intros Ho. pose proof (ow_holds _ _ How) as Hh. rewrite Forall_forall in Hh, Hach. split; [by apply Hh|].
  destruct (Hach o Ho) as (T & ? & ? & ?). by exists T.
Qed.

Lemma ended_stopper key c :
  stoppers (agent p) !! key = Some c → chans p !! c = Some false ∧
  ((∃ o, o ∈ os ∧ key ∈ o_keys o ∧ c ∈ o_chans o) ∨ stoppers (agent p0) !! key = Some c ∧ ¬ owned o_chans os c).
Proof.
  intros Hc. destruct (decide (key ∈ D0)) as [Hk|Hk].
  - apply (ow_keys _ _ How) in Hk as (o & Ho & Hk). destruct (ended_owner o Ho) as (Hh & T & Hp & _).
    rewrite (h_stoppers _ _ Hh) in Hc by done. destruct (po_open _ _ _ _ Hp key c Hk Hc) as [HcC Hop].
    rewrite (h_chans _ _ Hh) by done. split; [done|]. left. eauto.
  - rewrite (ow_stoppers _ _ How) in Hc by done. pose proof (inv_open _ Hinv0 key c Hc) as Hop.
    assert (c ∉ C0) as Hc0.
    { intros (key' & Hk' & Hc')%in_C0. assert (key = key') as <- by (by eapply inv_inj). done. }
    rewrite (ow_others _ _ How) by eauto. split; [done|]. right. split; [done|].
    intros [?|?]%(ow_chans _ _ How); [done|congruence].
Qed.

Lemma ended_entries key :
  (is_Some (listers (agent p) !! key) ↔ is_Some (stoppers (agent p) !! key)) ∧
  (is_Some (informers (agent p) !! key) ↔ is_Some (stoppers (agent p) !! key)) ∧
  (key ≠ AppliedManifestWorkKey → is_Some (informers (agent p) !! key) ↔ tracked_uids p key ≠ ∅).
Proof.
  destruct (decide (key ∈ D0)) as [Hk|Hk].
  - apply (ow_keys _ _ How) in Hk as (o & Ho & Hk).
    destruct (ended_owner o Ho) as ([Hl Hi Hs Hc _ _ _] & T & [Pu Pl Pi Ps _ _ _] & _). unfold tracked_uids.
    rewrite Hl, Hi, Hs, Hc, Pl, Pi, Ps, Pu by done. tauto.
  - rewrite (ow_listers _ _ How), (ow_informers _ _ How), (ow_stoppers _ _ How), (ow_uids _ _ How) by done.
    destruct Hinv0. auto.
Qed.

Lemma ended_inv : global known good p → lifecycle_inv p.
Proof.
  intros Hg. split.
  - apply ended_entries.
  - apply ended_entries.
  - intros key c Hc. by apply (ended_stopper key).
  - intros key key' c Hc Hc'. destruct (ended_stopper key c Hc) as [_ Ho]. destruct (ended_stopper key' c Hc') as [_ Ho'].
    destruct Ho as [(o & Ho & Hk & Hco)|[H0 Hno]], Ho' as [(o' & Ho' & Hk' & Hco')|[H0' Hno']].
    + assert (o = o') as <- by (eapply apart_chan; [apply (ow_apart _ _ How)|done..]).
      destruct (ended_owner o Ho) as (Hh & T & Hp & _).
      rewrite (h_stoppers _ _ Hh) in Hc, Hc' by done. by apply (po_inj _ _ _ _ Hp key key' c).
    + destruct Hno'. by exists o.
    + destruct Hno. by exists o'.
    + by apply (inv_inj _ Hinv0 key key' c).
  - apply (gl_fresh _ _ _ Hg).
  - apply ended_entries.
Qed.

Lemma ended_no_leak : no_leak p.
Proof.
  intros c Hop. destruct (owned_dec o_chans os c) as [(o & Ho & Hco)|Hno].
  - destruct (ended_owner o Ho) as (Hh & T & Hp & _). rewrite (h_chans _ _ Hh) in Hop by done.
    destruct (po_no_leak _ _ _ _ Hp c Hco Hop) as (key & Hk & Hc). exists key. by rewrite (h_stoppers _ _ Hh).
  - assert (c ∉ C0) as Hc0 by (intros ?%(ow_kept _ _ How); done).
    destruct (ow_made _ _ How c) as [Hs|?]; [eauto| |done]. rewrite (ow_others _ _ How) in Hop by done.
    destruct (Hleak0 c Hop) as [key Hc]. exists key. rewrite (ow_stoppers _ _ How); [done|].
    intros Hk. apply Hc0, in_C0. eauto.
Qed.

Lemma ended_tracked key u :
  (key ∈ D0 → u ∈ tracked_uids p key ↔ spec key u) ∧ (key ∉ D0 → tracked_uids p key = tracked_uids p0 key).
Proof.
  split; [|apply (ow_uids _ _ How)]. intros (o & Ho & Hk)%(ow_keys _ _ How).
  destruct (ended_owner o Ho) as (Hh & T & Hp & HT & _). unfold tracked_uids.
  rewrite (h_counts _ _ Hh), (po_uids _ _ _ _ Hp) by done. by apply HT.
Qed.

Lemma ended_table :
  (∀ name, name ∉ Ns0 → goal !! name = trackedAppliedManifests (agent p0) !! name) →
  trackedAppliedManifests (agent p) = goal.
Proof.
  intros Hgoal. apply map_eq. intros name. destruct (decide (name ∈ Ns0)) as [Hn|Hn].
  - apply (ow_names _ _ How) in Hn as (o & Ho & Hn). destruct (ended_owner o Ho) as (Hh & T & _ & _ & Ht).
    rewrite (h_tracked _ _ Hh) by done. by apply Ht.
  - by rewrite (ow_tracked _ _ How), Hgoal.
Qed.
End ended.
End shares.
