(* ===== verification/Pool.v ===== *)
(** * Pools of goroutines that own their kinds

    Goroutines interleave at their actions and start others; each works for a task,
    and has no more than the task's kinds and manifests.  When each is right on its
    share in the logic of [Ownership.v], none panics or gets stuck, and all can run
    to their ends. *)

From S2P Require Export Shares.

Section pool.
Context {RT : GoRuntime} {K : Kube} {E : Type} `{Env : !Environment E}.
Context (cfg : AgentConfig).
Context (known : GroupVersionResource → option GroupVersionKind) (good : E → Prop).
Context (Hd : StableDiscovery known good).
Implicit Types p : Process E.

(** ** Systems of goroutines, and the tasks they work for *)

(** A goroutine takes its next action, or one that was started by [go] begins; the
    events of the informers, which only queue keys, are left out. *)
Inductive turn : System (E := E) → System (E := E) → Prop :=
| TurnAct p ts i R (op : Op R) k r p' :
    ts !! i = Some (Act op k) → exec R op p = Done (r, p') → turn (MkSystem p ts) (MkSystem p' (<[i := k r]> ts))
| TurnGo p ts i gr t :
    spawned p !! i = Some gr → goroutine_body cfg gr t →
    turn (MkSystem p ts) (MkSystem (set_spawned p (delete i (spawned p))) (ts ++ [t])).

Lemma turn_step s s' : turn s s' → step cfg s s'.
Proof. destruct 1; by econstructor. Qed.

(** All goroutines have begun and returned. *)
Definition finished (s : System (E := E)) : Prop := Forall (eq (Ret tt)) (threads s) ∧ spawned (proc s) = [].

(** The system, with the task of each goroutine that has begun and of each that has
    not: what a goroutine starts works for the same task. *)
Record Work : Type := MkWork { w_sys : System (E := E); w_tags : list nat; w_started : list nat }.

Inductive work : Work → Work → Prop :=
| WorkAct p ts i R (op : Op R) k r p' tags started tag :
    ts !! i = Some (Act op k) → exec R op p = Done (r, p') → tags !! i = Some tag →
    work (MkWork (MkSystem p ts) tags started)
      (MkWork (MkSystem p' (<[i := k r]> ts)) tags (started ++ replicate (length (spawned p') - length (spawned p)) tag))
| WorkGo p ts i gr t tags started tag :
    spawned p !! i = Some gr → goroutine_body cfg gr t → started !! i = Some tag →
    work (MkWork (MkSystem p ts) tags started)
      (MkWork (MkSystem (set_spawned p (delete i (spawned p))) (ts ++ [t])) (tags ++ [tag]) (delete i started)).

Lemma work_turn w w' : work w w' → turn (w_sys w) (w_sys w').
Proof. destruct 1; by econstructor. Qed.

(** A task is running while a goroutine of it has not returned, or has yet to start
    informers. *)
Definition running (w : Work) (tag : nat) : Prop :=
  (∃ i thr, threads (w_sys w) !! i = Some thr ∧ w_tags w !! i = Some tag ∧ thr ≠ Ret tt) ∨
  (∃ i gvrs uids, spawned (proc (w_sys w)) !! i = Some (GStartInformers gvrs uids) ∧ w_started w !! i = Some tag).

(** ** The invariant *)

Context (tkeys tnames : nat → gset string).
Context (p0 : Process E) (D0 Ns0 : gset string) (C0 : gset N).
Context (spec : string → string → Prop) (goal : SafeMap AppliedManifestInfo).
Abbreviation achieved := (achieved spec goal).
Abbreviation wp := (wp known good spec).
Abbreviation may_start := (may_start known spec).
Abbreviation owners_ok := (owners_ok p0 D0 Ns0 C0).

(** The share is one of the task. *)
Definition within (tag : nat) (o : Owner) : Prop := o_keys o ⊆ tkeys tag ∧ o_names o ⊆ tnames tag.

(** The goroutines of the pool are right, and so are those not yet begun; [idle] is
    what none of them owns. *)
Record pool_inv (n : nat) (w : Work) (idle : Owner) (os sp : list Owner) : Prop := {
  pl_global : global known good (proc (w_sys w));
  pl_threads : Forall2 (λ t o, wp n t (λ _, achieved) o) (threads (w_sys w)) os;
  pl_spawned : Forall2 (may_start n) (spawned (proc (w_sys w))) sp;
  pl_tags : Forall2 within (w_tags w) os;
  pl_started : Forall2 within (w_started w) sp;
  pl_owners : owners_ok (proc (w_sys w)) (idle :: os ++ sp)
}.

Lemma wp_level n m {A} (t : prog Op A) Q o : n ≤ m → wp n t Q o → wp m t Q o.
Proof.
  intros Hnm. revert o. induction t as [a|q|R op k IH]; cbn; intros o; [done..|].
  intros H p Hg Hh. destruct (H p Hg Hh) as (r & p' & C & o' & kids & st & ? & ? & ? & ? & Hst & ? & ? & ?).
  exists r, p', C, o', kids, st. split_and!; try done; [|by apply IH]. eapply Forall2_impl; [exact Hst|].
  intros [] o1; cbn; try done; intros [? ?]; (split; [lia|done]).
Qed.

Lemma body_achieves n gr o t : may_start (S n) gr o → goroutine_body cfg gr t → wp n t (λ _, achieved) o.
Proof.
  intros Hm Hb. destruct Hb; cbn in Hm; try done.
  - destruct Hm as [Hn Hs]. apply start_achieves; [done|lia|done].
  - destruct Hm as (_ & Hk & Hns & Hc). exists (λ _, ∅). rewrite Hk, Hns, Hc.
    split; [split; set_solver|split; set_solver].
Qed.

Lemma may_start_body n gr o : may_start n gr o → ∃ t, goroutine_body cfg gr t.
Proof. destruct gr; cbn; try done; eexists; constructor. Qed.

(** What a share is divided into is within the same task. *)
Lemma within_divided tag o C l : within tag o → divides o C l → Forall (within tag) l.
Proof.
  intros [Hk Hn] Hdv. apply Forall_forall. intros o1 Ho1. split; intros x Hx.
  - apply Hk, (dv_keys _ _ _ Hdv). eauto.
  - apply Hn, (dv_names _ _ _ Hdv). eauto.
Qed.

Lemma Forall2_replicate_l {A B} (P : A → B → Prop) x l m : length l = m → Forall (P x) l → Forall2 P (replicate m x) l.
Proof. intros <-. induction 1; cbn; by constructor. Qed.

(** The next action of a goroutine. *)
Lemma pool_act n p ts tags started idle os sp i R (op : Op R) k :
  pool_inv n (MkWork (MkSystem p ts) tags started) idle os sp → ts !! i = Some (Act op k) →
  ∃ r p' tag os' sp', exec R op p = Done (r, p') ∧ tags !! i = Some tag ∧
    pool_inv n (MkWork (MkSystem p' (<[i := k r]> ts)) tags
                  (started ++ replicate (length (spawned p') - length (spawned p)) tag)) idle os' sp'.
Proof.
  intros [Hg Hth Hsp Htg Hst How] Hi. cbn in *. destruct (Forall2_lookup_l _ _ _ _ _ Hth Hi) as (o & Ho & Hw).
  destruct (Forall2_lookup_r _ _ _ _ _ Htg Ho) as (tag & Htag & Hin).
  pose proof (list_elem_of_split_length _ _ _ Ho) as (os1 & os2 & -> & ->).
  assert (idle :: (os1 ++ o :: os2) ++ sp ≡ₚ o :: idle :: os1 ++ os2 ++ sp) as Hperm.
  { solve_Permutation. }
  apply (owners_perm _ _ _ _ _ _ _ Hperm) in How. pose proof (ow_holds _ _ _ _ _ _ How) as Hh. apply Forall_cons in Hh as [Hh _].
  destruct (Hw p Hg Hh) as (r & p' & C & o' & kids & st & He & Hg' & Hf & Hs & Hms & Hdv & Hh' & Hw').
  pose proof (within_divided _ _ _ _ Hin Hdv) as Hwi. apply Forall_cons in Hwi as [Hwo Hwk].
  assert (os1 ++ o' :: os2 = <[length os1 := o']> (os1 ++ o :: os2)) as Hins.
  { rewrite <- (Nat.add_0_r (length os1)), insert_app_r. done. }
  exists r, p', tag, (os1 ++ o' :: os2), (sp ++ kids). split; [done|]. split; [done|]. split; cbn; [done| | | | |].
  - rewrite Hins. by apply Forall2_insert.
  - rewrite Hs. by apply Forall2_app.
  - rewrite Hins, <- (list_insert_id tags (length os1) tag) by done. by apply Forall2_insert.
  - apply Forall2_app; [done|]. apply Forall2_replicate_l; [|done]. rewrite Hs, length_app.
    apply Forall2_length in Hms. lia.
  - eapply owners_perm; [|by eapply owners_act]. solve_Permutation.
Qed.

(** A goroutine begins. *)
Lemma pool_go n p ts tags started idle os sp i gr t :
  pool_inv n (MkWork (MkSystem p ts) tags started) idle os sp → spawned p !! i = Some gr → goroutine_body cfg gr t →
  ∃ tag os' sp', started !! i = Some tag ∧
    pool_inv n (MkWork (MkSystem (set_spawned p (delete i (spawned p))) (ts ++ [t])) (tags ++ [tag]) (delete i started)) idle os' sp'.
Proof.
  intros [Hg Hth Hsp Htg Hst How] Hi Hb. cbn in *. destruct (Forall2_lookup_l _ _ _ _ _ Hsp Hi) as (o & Ho & Hm).
  destruct (Forall2_lookup_r _ _ _ _ _ Hst Ho) as (tag & Htag & Hin).
  exists tag, (os ++ [o]), (delete i sp). split; [done|]. split; cbn.
  - by destruct Hg.
  - apply Forall2_app; [done|]. constructor; [|done].
    destruct n as [|n]; [destruct gr; cbn in Hm; lia|]. eapply (wp_level n); [lia|]. by eapply body_achieves.
  - by apply Forall2_delete.
  - apply Forall2_app; [done|]. by constructor.
  - by apply Forall2_delete.
  - eapply (owners_same _ _ _ _ p); [done..|]. eapply owners_perm; [|exact How].
    rewrite <- app_assoc. cbn. by rewrite (delete_Permutation sp i o) at 1.
Qed.
Lemma pool_work n w w' idle os sp :
  work w w' → pool_inv n w idle os sp → ∃ os' sp', pool_inv n w' idle os' sp'.
Proof.
  destruct 1 as [p ts i R op k r p' tags started tag Hi He Htag|p ts i gr t tags started tag Hi Hb Htag]; intros Hinv.
  - destruct (pool_act _ _ _ _ _ _ _ _ _ _ _ _ Hinv Hi) as (r' & p1 & tag' & os' & sp' & He' & Htag' & Hinv').
    rewrite He in He'. simplify_eq. eauto.
  - destruct (pool_go _ _ _ _ _ _ _ _ _ _ _ Hinv Hi Hb) as (tag' & os' & sp' & Htag' & Hinv'). simplify_eq. eauto.
Qed.

(** Each goroutine has returned, or can act. *)
Lemma pool_progress n p ts tags started idle os sp i thr :
  pool_inv n (MkWork (MkSystem p ts) tags started) idle os sp → ts !! i = Some thr →
  thr = Ret tt ∨ ∃ R (op : Op R) k r p', thr = Act op k ∧ exec R op p = Done (r, p').
Proof.
  intros Hinv Hi. destruct thr as [[]|q|R op k]; [by left| |right].
  - destruct (Forall2_lookup_l _ _ _ _ _ (pl_threads _ _ _ _ _ Hinv) Hi) as (o & _ & []).
  - destruct (pool_act _ _ _ _ _ _ _ _ _ _ _ _ Hinv Hi) as (r & p' & _ & _ & _ & He & _). eauto 7.
Qed.

(** ** All can run to their ends *)

Lemma pool_thread_ends n i thr p ts tags started idle os sp :
  pool_inv n (MkWork (MkSystem p ts) tags started) idle os sp → ts !! i = Some thr →
  ∃ p' started' os' sp', rtc work (MkWork (MkSystem p ts) tags started) (MkWork (MkSystem p' (<[i := Ret tt]> ts)) tags started') ∧
    pool_inv n (MkWork (MkSystem p' (<[i := Ret tt]> ts)) tags started') idle os' sp'.
Proof.
  revert p ts started os sp. induction thr as [[]|q|R op k IH]; intros p ts started os sp Hinv Hi.
  - rewrite list_insert_id by done. eauto 6 using rtc_refl.
  - destruct (pool_progress _ _ _ _ _ _ _ _ _ _ Hinv Hi) as [|(? & ? & ? & ? & ? & ? & ?)]; done.
  - destruct (pool_act _ _ _ _ _ _ _ _ _ _ _ _ Hinv Hi) as (r & p1 & tag & os1 & sp1 & He & Htag & Hinv1).
    destruct (IH r _ _ _ _ _ Hinv1) as (p' & started' & os' & sp' & Hr & Hinv').
    { apply list_lookup_insert_eq. by eapply lookup_lt_Some. }
    rewrite list_insert_insert_eq in Hr, Hinv'. exists p', started', os', sp'. split; [|done].
    eapply rtc_l; [by eapply WorkAct|exact Hr].
Qed.

Lemma pool_threads_end n m p ts tags started idle os sp :
  pool_inv n (MkWork (MkSystem p ts) tags started) idle os sp → (∀ i thr, ts !! i = Some thr → m ≤ i → thr = Ret tt) →
  ∃ w' os' sp', rtc work (MkWork (MkSystem p ts) tags started) w' ∧ pool_inv n w' idle os' sp' ∧
    Forall (eq (Ret tt)) (threads (w_sys w')).
Proof.
  revert p ts started os sp. induction m as [|m IH]; intros p ts started os sp Hinv Hend.
  { exists (MkWork (MkSystem p ts) tags started), os, sp. split_and!; [done..|]. apply Forall_lookup. intros i thr Hi.
    symmetry. eapply Hend; [done|lia]. }
  destruct (ts !! m) as [thr|] eqn:Hm.
  - destruct (pool_thread_ends _ m thr _ _ _ _ _ _ _ Hinv Hm) as (p' & started1 & os1 & sp1 & Hr & Hinv').
    destruct (IH _ _ _ _ _ Hinv') as (w' & os' & sp' & Hr' & Hinv2 & Hf).
    { intros i thr' [(<- & <- & _)|[? Hi]]%list_lookup_insert_Some Hle; [done|]. eapply Hend; [done|lia]. }
    exists w', os', sp'. split_and!; [by etrans|done..].
  - eapply IH; [done|]. intros i thr Hi Hle. eapply Hend; [done|]. destruct (decide (i = m)) as [->|]; [congruence|lia].
Qed.

Lemma returned_level n m ts os :
  Forall (eq (Ret tt)) ts → Forall2 (λ t o, wp n t (λ _, achieved) o) ts os → Forall2 (λ t o, wp m t (λ _, achieved) o) ts os.
Proof. intros Hret. induction 1; [constructor|]. apply Forall_cons in Hret as [<- ?]. constructor; auto. Qed.

(** All goroutines that were started can begin; what they start is of a lower
    level. *)
Lemma pool_begin n sts p ts tags started idle os sp :
  spawned p = sts → global known good p → Forall2 (λ t o, wp n t (λ _, achieved) o) ts os →
  Forall2 (may_start (S n)) sts sp → Forall2 within tags os → Forall2 within started sp → owners_ok p (idle :: os ++ sp) →
  ∃ w' os' sp', rtc work (MkWork (MkSystem p ts) tags started) w' ∧ pool_inv n w' idle os' sp'.
Proof.
  revert p ts tags started os sp. induction sts as [|gr sts IH]; intros p ts tags started os sp Hs Hg Hth Hms Htg Hst How.
  { apply Forall2_nil_inv_l in Hms as ->. exists (MkWork (MkSystem p ts) tags started), os, []. split; [done|].
    split; cbn; try done. rewrite Hs. constructor. }
  apply Forall2_cons_inv_l in Hms as (o & sp' & Hm & Hms & ->). destruct (may_start_body _ _ _ Hm) as [t Hb].
  apply Forall2_cons_inv_r in Hst as (tag & started' & Hin & Hst & ->).
  destruct (IH (set_spawned p sts) (ts ++ [t]) (tags ++ [tag]) started' (os ++ [o]) sp') as (w' & os' & sp1 & Hr & Hinv);
    [done|by destruct Hg| |done| |done| |].
  - apply Forall2_app; [done|]. constructor; [by eapply body_achieves|done].
  - apply Forall2_app; [done|]. by constructor.
  - eapply (owners_same _ _ _ _ p); [done..|]. by rewrite <- app_assoc.
  - exists w', os', sp1. split; [|done]. eapply rtc_l; [|exact Hr].
    change sts with (delete 0 (gr :: sts)). change started' with (delete 0 (tag :: started')). rewrite <- Hs.
    apply (WorkGo _ _ 0 gr); [by rewrite Hs|done|done].
Qed.

Lemma pool_ends n w idle os sp :
  pool_inv n w idle os sp → ∃ w' os', rtc work w w' ∧ finished (w_sys w') ∧ pool_inv 0 w' idle os' [].
Proof.
  revert w os sp. induction n as [|n IH]; intros [[p ts] tags started] os sp Hinv.
  all: destruct (pool_threads_end _ (length ts) _ _ _ _ _ _ _ Hinv) as ([[p1 ts1] tags1 started1] & os1 & sp1 & Hr & Hinv1 & Hret);
    [intros i thr Hi%lookup_lt_Some; lia|]; pose proof Hinv1 as [Hg Hth Hms Htg Hst How]; cbn in *.
  - assert (spawned p1 = [] ∧ sp1 = []) as [Hs ->].
    { destruct Hms as [|gr o ? ? Hm]; [done|]. destruct gr; cbn in Hm; lia. }
    exists (MkWork (MkSystem p1 ts1) tags1 started1), os1. done.
  - destruct (pool_begin n (spawned p1) p1 ts1 tags1 started1 idle os1 sp1) as (w2 & os2 & sp2 & Hr2 & Hinv2);
      [done|done|by eapply returned_level|done|done|done|done|].
    destruct (IH _ _ _ Hinv2) as (w' & os' & Hr' & Hf). exists w', os'. split; [|done]. etrans; [exact Hr|]. by etrans.
Qed.
End pool.
