(* ===== verification/Idle.v ===== *)
(** * The idle part of the agent

    What a goroutine leaves when it returns joins the idle part, which is in step
    with the table of manifests; a new task takes its share from there. *)

From S2P Require Export Pool.

Section idle.
Context {RT : GoRuntime} {K : Kube} {E : Type} `{Env : !Environment E}.
Context (known : GroupVersionResource → option GroupVersionKind) (good : E → Prop).
Implicit Types p : Process E.

(** ** Parts of a process *)

Definition part_of p : Part :=
  MkPart (listers (agent p)) (informers (agent p)) (stoppers (agent p)) (trackedAppliedManifests (agent p))
    (objectsCount (agent p)) (chans p).

Lemma part_ok_held o p T :
  holds o p → part_ok (o_keys o) (o_chans o) T (o_part o) → part_ok (o_keys o) (o_chans o) (tracked_uids p) (part_of p).
Proof.
  intros [Hl Hi Hs Hc _ Hch _] [Pu Pl Pi Ps Po Pj Pn].
  assert (∀ key, key ∈ o_keys o → tracked_uids p key = T key) as Ht by (intros key Hk; unfold tracked_uids; rewrite Hc; auto).
  split; cbn.
  - done.
  - intros key Hk. rewrite Hl, Ht; auto.
  - intros key Hk. rewrite Hi, Ht; auto.
  - intros key Hk. rewrite Hs, Ht; auto.
  - intros key c Hk. rewrite Hs by done. intros Hc'. destruct (Po key c Hk Hc'). split; [done|]. by rewrite Hch.
  - intros key key' c Hk Hk'. rewrite !Hs by done. by apply Pj.
  - intros c Hcc. rewrite Hch by done. intros Hop. destruct (Pn c Hcc Hop) as (key & Hk & ?). exists key. by rewrite Hs.
Qed.

Lemma part_join D1 D2 C1 C2 T g :
  part_ok D1 C1 T g → part_ok D2 C2 T g → C1 ## C2 → part_ok (D1 ∪ D2) (C1 ∪ C2) T g.
Proof.
  intros [Pu Pl Pi Ps Po Pj Pn] [Pu' Pl' Pi' Ps' Po' Pj' Pn'] HC.
  split; try (intros key [Hk|Hk]%elem_of_union; by auto).
  - intros key c [Hk|Hk]%elem_of_union Hc; [destruct (Po key c Hk Hc)|destruct (Po' key c Hk Hc)];
      (split; [apply elem_of_union; auto|done]).
  - intros key key' c [Hk|Hk]%elem_of_union [Hk'|Hk']%elem_of_union Hc Hc'; eauto.
    + destruct (Po key c Hk Hc), (Po' key' c Hk' Hc'). by destruct (HC c).
    + destruct (Po' key c Hk Hc), (Po key' c Hk' Hc'). by destruct (HC c).
  - intros c [Hc|Hc]%elem_of_union Hop; [destruct (Pn c Hc Hop) as (key & ? & ?)|destruct (Pn' c Hc Hop) as (key & ? & ?)];
      (exists key; split; [apply elem_of_union; auto|done]).
Qed.

Lemma holds_part_of D Ns C p : (∀ c, c ∈ C → is_Some (chans p !! c)) → holds (MkOwner D Ns C (part_of p)) p.
Proof. intros HC. by split. Qed.

(** ** Targets *)

Implicit Types (spec : string → string → Prop) (goal : SafeMap AppliedManifestInfo).

(** What is achieved can be told from the process. *)
Lemma achieved_held spec goal o p :
  holds o p → achieved spec goal o →
  part_ok (o_keys o) (o_chans o) (tracked_uids p) (part_of p) ∧
  (∀ key u, key ∈ o_keys o → u ∈ tracked_uids p key ↔ spec key u) ∧
  (∀ name, name ∈ o_names o → trackedAppliedManifests (agent p) !! name = goal !! name).
Proof.
  intros Hh (T & Hp & HT & Hn). split; [by eapply part_ok_held|]. split.
  - intros key u Hk. unfold tracked_uids. rewrite (h_counts _ _ Hh), (po_uids _ _ _ _ Hp) by done. by apply HT.
  - intros name Hname. rewrite (h_tracked _ _ Hh) by done. by apply Hn.
Qed.

Definition nothing (o : Owner) : Prop := o_keys o = ∅ ∧ o_names o = ∅ ∧ o_chans o = ∅.

Lemma nothing_achieved spec goal o : nothing o → achieved spec goal o.
Proof. intros (Hk & Hn & Hc). exists (λ _, ∅). rewrite Hk, Hn, Hc. split; [split; set_solver|split; set_solver]. Qed.

(** Two shares that have achieved the targets make one that has. *)
Lemma achieved_join spec goal o1 o2 p :
  sep o1 o2 → holds o1 p → holds o2 p → achieved spec goal o1 → achieved spec goal o2 →
  let o := MkOwner (o_keys o1 ∪ o_keys o2) (o_names o1 ∪ o_names o2) (o_chans o1 ∪ o_chans o2) (part_of p) in
  holds o p ∧ achieved spec goal o.
Proof.
  intros Hsep Hh1 Hh2 Ha1 Ha2 o.
  destruct (achieved_held _ _ _ _ Hh1 Ha1) as (P1 & T1 & N1), (achieved_held _ _ _ _ Hh2 Ha2) as (P2 & T2 & N2). split.
  - apply holds_part_of. intros c [Hc|Hc]%elem_of_union; [by apply (h_dom _ _ Hh1)|by apply (h_dom _ _ Hh2)].
  - exists (tracked_uids p). cbn. split; [apply part_join; [done..|apply Hsep]|]. split.
    + intros key u [?|?]%elem_of_union; auto.
    + intros name [?|?]%elem_of_union; auto.
Qed.

(** The targets of a share can change elsewhere. *)
Definition agree_on spec goal spec' goal' (o : Owner) : Prop :=
  (∀ key u, key ∈ o_keys o → spec key u ↔ spec' key u) ∧ ∀ name, name ∈ o_names o → goal !! name = goal' !! name.

Lemma achieved_agree spec goal spec' goal' o : agree_on spec goal spec' goal' o → achieved spec goal o → achieved spec' goal' o.
Proof.
  intros [Hs Hg] (T & Hp & HT & Hn). exists T. split; [done|]. split.
  - intros key u Hk. by rewrite HT, Hs.
  - intros name Hname. by rewrite Hn, Hg.
Qed.

Lemma agree_divided spec goal spec' goal' o C l :
  agree_on spec goal spec' goal' o → divides o C l → Forall (agree_on spec goal spec' goal') l.
Proof.
  intros [Hs Hg] Hdv. apply Forall_forall. intros o1 Ho1. split.
  - intros key u Hk. apply Hs, (dv_keys _ _ _ Hdv). eauto.
  - intros name Hn. apply Hg, (dv_names _ _ _ Hdv). eauto.
Qed.

Lemma may_start_agree n spec goal spec' goal' gr o :
  agree_on spec goal spec' goal' o → may_start known spec n gr o → may_start known spec' n gr o.
Proof.
  intros [Hs _]. destruct gr; cbn; try done. intros [? [Ho Hl Hu Hn (T & Hp & Hnew & Ht)]]. split; [done|].
  split; try done. exists T. split; [done|]. split; [done|]. intros key u Hk. by rewrite <- Hs, Ht.
Qed.

Lemma wp_agree n spec goal spec' goal' (t : prog Op unit) o :
  agree_on spec goal spec' goal' o → wp known good spec n t (λ _, achieved spec goal) o →
  wp known good spec' n t (λ _, achieved spec' goal') o.
Proof.
  revert o. induction t as [a|q|R op k IH]; cbn; intros o Hag; [by apply achieved_agree|done|].
  intros H p Hg Hh. destruct (H p Hg Hh) as (r & p' & C & o' & kids & st & He & Hg' & Hf & Hs & Hst & Hdv & Hh' & Hw).
  pose proof (agree_divided _ _ _ _ _ _ _ Hag Hdv) as Hall. apply Forall_cons in Hall as [Hago Hagk].
  exists r, p', C, o', kids, st. split_and!; try done; [|by apply IH].
  clear -Hst Hagk. induction Hst; [constructor|]. apply Forall_cons in Hagk as [? ?]. constructor; [by eapply may_start_agree|auto].
Qed.

(** ** Tasks come and go *)

Section tasks.
Context (tkeys tnames : nat → gset string).
Context (p0 : Process E) (D0 Ns0 : gset string) (C0 : gset N).
Abbreviation pool_inv := (pool_inv known good tkeys tnames p0 D0 Ns0 C0).
Abbreviation owners_ok := (owners_ok p0 D0 Ns0 C0).

(** The goroutines that have returned own nothing. *)
Definition retired (w : Work (E := E)) (os : list Owner) : Prop :=
  ∀ i o, threads (w_sys w) !! i = Some (Ret tt) → os !! i = Some o → nothing o.

Lemma nothing_within tag o : nothing o → within tkeys tnames tag o.
Proof. intros (Hk & Hn & _). split; rewrite ?Hk, ?Hn; set_solver. Qed.

(** One that has returned gives what it owns to the idle part. *)
Lemma retire_one spec goal n w idle os sp i o :
  pool_inv spec goal n w idle os sp → achieved spec goal idle →
  threads (w_sys w) !! i = Some (Ret tt) → os !! i = Some o →
  ∃ idle' o', nothing o' ∧ achieved spec goal idle' ∧ pool_inv spec goal n w idle' (<[i := o']> os) sp.
Proof.
  intros [Hg Hth Hsp Htg Hst How] Hidle Hi Ho. set (p := proc (w_sys w)) in *.
  pose proof (Forall2_lookup_lr _ _ _ _ _ _ Hth Hi Ho) as Hach. cbn in Hach.
  pose proof (list_elem_of_split_length _ _ _ Ho) as (os1 & os2 & -> & ->).
  assert (idle :: (os1 ++ o :: os2) ++ sp ≡ₚ [idle; o] ++ os1 ++ os2 ++ sp) as Hperm by solve_Permutation.
  apply (owners_perm _ _ _ _ _ _ _ Hperm) in How.
  pose proof (ow_holds _ _ _ _ _ _ How) as Hh. apply Forall_cons in Hh as [Hh1 Hh]. apply Forall_cons in Hh as [Hh2 _].
  pose proof (ow_apart _ _ _ _ _ _ How) as Hap. cbn in Hap. destruct Hap as [Hsep _]. apply Forall_cons in Hsep as [Hsep _].
  destruct (achieved_join spec goal idle o p Hsep Hh1 Hh2 Hidle Hach) as [Hh' Hach'].
  set (idle' := MkOwner _ _ _ _) in Hh', Hach'. set (o' := MkOwner ∅ ∅ ∅ (part_of p)).
  assert (<[length os1 := o']> (os1 ++ o :: os2) = os1 ++ o' :: os2) as Hins.
  { rewrite <- (Nat.add_0_r (length os1)), insert_app_r. done. }
  exists idle', o'. split; [done|]. split; [done|]. split; [done| |done| |done|].
  - rewrite <- (list_insert_id _ _ _ Hi). apply Forall2_insert; [done|]. by apply nothing_achieved.
  - destruct (Forall2_lookup_r _ _ _ _ _ Htg Ho) as (tag & Htag & _).
    rewrite <- (list_insert_id _ _ _ Htag). apply Forall2_insert; [done|]. by apply nothing_within.
  - rewrite Hins. eapply (owners_perm _ _ _ _ _ ([idle'; o'] ++ os1 ++ os2 ++ sp)); [solve_Permutation|].
    eapply owners_regroup; [exact How| | | | |].
    + cbn. split_and!; [|by constructor|done]. constructor; [|done]. split; cbn; set_solver.
    + constructor; [done|]. constructor; [|done]. apply holds_part_of. by intros c ?%elem_of_empty.
    + intros x. rewrite !owned_cons. cbn. rewrite elem_of_union, elem_of_empty. unfold owned. set_solver.
    + intros x. rewrite !owned_cons. cbn. rewrite elem_of_union, elem_of_empty. unfold owned. set_solver.
    + intros x. rewrite !owned_cons. cbn. rewrite elem_of_union, elem_of_empty. unfold owned. set_solver.
Qed.

Lemma retire_some spec goal n w idle os sp m :
  pool_inv spec goal n w idle os sp → achieved spec goal idle →
  ∃ idle' os', pool_inv spec goal n w idle' os' sp ∧ achieved spec goal idle' ∧
    ∀ i o, i < m → threads (w_sys w) !! i = Some (Ret tt) → os' !! i = Some o → nothing o.
Proof.
  intros Hinv Hidle. induction m as [|m (idle1 & os1 & Hinv1 & Hidle1 & Hm)].
  { exists idle, os. split_and!; [done..|]. intros; lia. }
  destruct (threads (w_sys w) !! m) as [thr|] eqn:Hthr.
  2:{ exists idle1, os1. split_and!; [done..|]. intros i o Hi Hr. apply Hm; [|done].
      destruct (decide (i = m)) as [->|]; [congruence|lia]. }
  destruct (Forall2_lookup_l _ _ _ _ _ (pl_threads _ _ _ _ _ _ _ _ _ _ _ _ _ _ _ Hinv1) Hthr) as (om & Hom & _).
  destruct thr as [[]|q|R op k].
  2-3: exists idle1, os1; split_and!; [done..|]; intros i o Hi Hr; apply Hm; [|done];
    destruct (decide (i = m)) as [->|]; [congruence|lia].
  destruct (retire_one _ _ _ _ _ _ _ _ _ Hinv1 Hidle1 Hthr Hom) as (idle' & o' & Hnone & Hidle' & Hinv').
  exists idle', (<[m := o']> os1). split_and!; [done..|]. intros i o Hi Hr [(<- & <- & _)|[Hne Ho]]%list_lookup_insert_Some; [done|].
  eapply Hm; [|done|done]. lia.
Qed.

Lemma retire_all spec goal n w idle os sp :
  pool_inv spec goal n w idle os sp → achieved spec goal idle →
  ∃ idle' os', pool_inv spec goal n w idle' os' sp ∧ achieved spec goal idle' ∧ retired w os'.
Proof.
  intros Hinv Hidle. destruct (retire_some _ _ _ _ _ _ _ (length (threads (w_sys w))) Hinv Hidle) as (idle' & os' & ? & ? & Hr).
  exists idle', os'. split_and!; [done..|]. intros i o Hi. apply Hr; [by eapply lookup_lt_Some|done].
Qed.
(** The targets may change where no running task works. *)
Lemma pool_retarget spec goal spec' goal' n w idle os sp :
  pool_inv spec goal n w idle os sp → retired w os →
  (∀ tag, running w tag → (∀ key u, key ∈ tkeys tag → spec key u ↔ spec' key u) ∧
                          ∀ name, name ∈ tnames tag → goal !! name = goal' !! name) →
  pool_inv spec' goal' n w idle os sp.
Proof.
  intros [Hg Hth Hsp Htg Hst How] Hret Hrun. split; try done.
  - apply Forall2_same_length_lookup. split; [by eapply Forall2_length|]. intros i thr o Hi Ho.
    pose proof (Forall2_lookup_lr _ _ _ _ _ _ Hth Hi Ho) as Hw. cbn in Hw.
    destruct (Forall2_lookup_r _ _ _ _ _ Htg Ho) as (tag & Htag & Hk & Hn).
    assert (thr = Ret tt ∨ thr ≠ Ret tt) as [->|Hne] by (destruct thr as [[]|q|R op k]; [by left|by right..]).
    + by apply nothing_achieved, (Hret i).
    + destruct (Hrun tag) as [Hs Hgo]; [left; by exists i, thr|].
      eapply wp_agree; [|exact Hw]. split; [intros key u ?; apply Hs; set_solver|intros name ?; apply Hgo; set_solver].
  - apply Forall2_same_length_lookup. split; [by eapply Forall2_length|]. intros i gr o Hi Ho.
    pose proof (Forall2_lookup_lr _ _ _ _ _ _ Hsp Hi Ho) as Hm.
    destruct (Forall2_lookup_r _ _ _ _ _ Hst Ho) as (tag & Htag & Hk & Hn).
    destruct gr; cbn in Hm; try done.
    destruct (Hrun tag) as [Hs Hgo]; [right; eauto|].
    eapply (may_start_agree _ spec goal spec' goal'); [|exact Hm].
    split; [intros key u ?; apply Hs; set_solver|intros name ?; apply Hgo; set_solver].
Qed.

(** A new task takes its share of the idle part. *)
Lemma pool_take spec goal n p ts tags started idle os sp tag (t : prog Op unit) :
  pool_inv spec goal n (MkWork (MkSystem p ts) tags started) idle os sp →
  part_ok (o_keys idle) (o_chans idle) (tracked_uids p) (part_of p) →
  tkeys tag ⊆ o_keys idle → tnames tag ⊆ o_names idle →
  (∀ C, part_ok (tkeys tag) C (tracked_uids p) (part_of p) →
     wp known good spec n t (λ _, achieved spec goal) (MkOwner (tkeys tag) (tnames tag) C (part_of p))) →
  ∃ C C1, part_ok (o_keys idle ∖ tkeys tag) C1 (tracked_uids p) (part_of p) ∧
    pool_inv spec goal n (MkWork (MkSystem p (ts ++ [t])) (tags ++ [tag]) started)
      (MkOwner (o_keys idle ∖ tkeys tag) (o_names idle ∖ tnames tag) C1 (part_of p))
      (os ++ [MkOwner (tkeys tag) (tnames tag) C (part_of p)]) sp.
Proof.
  intros [Hg Hth Hsp Htg Hst How] Hp Hk Hn Hw. cbn in *.
  assert (o_keys idle = (o_keys idle ∖ tkeys tag) ∪ tkeys tag) as Ek.
  { apply set_eq. intros key. rewrite elem_of_union, elem_of_difference. destruct (decide (key ∈ tkeys tag)); set_solver. }
  assert (o_names idle = (o_names idle ∖ tnames tag) ∪ tnames tag) as En.
  { apply set_eq. intros name. rewrite elem_of_union, elem_of_difference. destruct (decide (name ∈ tnames tag)); set_solver. }
  destruct (part_split _ _ _ _ _ _ Hp Ek) as (C1 & C & HC & HCd & Hp1 & Hp2); [set_solver|].
  pose proof (ow_holds _ _ _ _ _ _ How) as Hh. apply Forall_cons in Hh as [Hidle Hh].
  assert (∀ D Ns C', C' ⊆ o_chans idle → holds (MkOwner D Ns C' (part_of p)) p) as Hheld.
  { intros D Ns C' Hsub. apply holds_part_of. intros c Hc. apply (h_dom _ _ Hidle). by apply Hsub. }
  exists C, C1. split; [done|]. split; cbn; [done| |done| |done|].
  - apply Forall2_app; [done|]. constructor; [by apply Hw|done].
  - apply Forall2_app; [done|]. by constructor.
  - set (idle' := MkOwner (_ ∖ _) _ _ _). set (o := MkOwner (tkeys tag) _ _ _).
    eapply (owners_perm _ _ _ _ _ ([idle'; o] ++ os ++ sp)); [solve_Permutation|].
    eapply (owners_regroup _ _ _ _ _ (os ++ sp) [idle]); [exact How| | | | |].
    + cbn. split_and!; [|by constructor|done]. constructor; [|done]. split; cbn; set_solver.
    + constructor; [apply Hheld; set_solver|]. constructor; [apply Hheld; set_solver|done].
    + intros x. rewrite !owned_cons, Ek. cbn. rewrite elem_of_union. unfold owned. set_solver.
    + intros x. rewrite !owned_cons, En. cbn. rewrite elem_of_union. unfold owned. set_solver.
    + intros x. rewrite !owned_cons, HC. cbn. rewrite elem_of_union. unfold owned. set_solver.
Qed.
End tasks.
End idle.
