(* ===== verification/Overlap.v ===== *)
(** * Manifests handled while others still are

    A history of handlings of applied manifest works, taken one after the other
    while the goroutines of earlier ones may still run, as long as those work on
    other manifests and other kinds.  The races of [Races.v] all need two goroutines
    on one kind; without that, the agent follows the table of manifests. *)

From S2P Require Export Idle.

Section overlap.
Context {RT : GoRuntime} {K : Kube} {E : Type} `{Env : !Environment E}.
Context (cfg : AgentConfig).
Context (known : GroupVersionResource → option GroupVersionKind) (good : E → Prop).
Implicit Types p : Process E.
Abbreviation table_lists := (table_lists known).
Abbreviation h_name h := (GetName (h_obj h)).

(** ** Histories *)

Context (p0 : Process E) (hs : list Handling).
Abbreviation t0 := (trackedAppliedManifests (agent p0)).

(** The table after the first [n] handlings. *)
Definition table (n : nat) : SafeMap AppliedManifestInfo := foldl handle_table t0 (take n hs).

#[local] Arguments table : simpl never.

(** The kinds and the manifest of a handling. *)
Definition keys_at (i : nat) : gset string :=
  match hs !! i with Some h => handling_keys known (table i) h | None => ∅ end.
Definition names_at (i : nat) : gset string :=
  match hs !! i with Some h => {[h_name h]} | None => ∅ end.

(** The goroutines, and how many handlings have been taken. *)
Record Overlap : Type := MkOverlap { o_work : Work (E := E); o_taken : nat }.

(** A goroutine acts or begins; or the next handling is taken, when none that is
    running shares its manifest or a kind. *)
Inductive overlap : Overlap → Overlap → Prop :=
| OverlapWork w w' n : work cfg w w' → overlap (MkOverlap w n) (MkOverlap w' n)
| OverlapTake p ts tags started n h :
    hs !! n = Some h →
    (∀ i, running (MkWork (MkSystem p ts) tags started) i → names_at i ## names_at n ∧ keys_at i ## keys_at n) →
    overlap (MkOverlap (MkWork (MkSystem p ts) tags started) n)
      (MkOverlap (MkWork (MkSystem p (ts ++ [handler h])) (tags ++ [n]) started) (S n)).

Definition start : Overlap := MkOverlap (MkWork (MkSystem p0 []) [] []) 0.

(** All handlings have been taken, and all goroutines have returned. *)
Definition done_all (s : Overlap) : Prop := o_taken s = length hs ∧ finished (w_sys (o_work s)).

(** ** Lemmas on the tables *)

Lemma table_S n h : hs !! n = Some h → table (S n) = handle_table (table n) h.
Proof. intros Hn. unfold table. by rewrite (take_S_r _ _ h), foldl_app. Qed.

Lemma table_S_none n : hs !! n = None → table (S n) = table n.
Proof. intros Hn%lookup_ge_None. unfold table. by rewrite !take_ge by lia. Qed.

(** What the tables of two moments have in common. *)
Lemma table_step_lists n key u : key ∉ keys_at n → table_lists (table n) key u ↔ table_lists (table (S n)) key u.
Proof.
  unfold keys_at. destruct (hs !! n) as [h|] eqn:Hn; [|by rewrite table_S_none].
  intros Hk. rewrite (table_S n h Hn). symmetry. by apply handle_lists_other.
Qed.

Lemma table_step_lookup n name : name ∉ names_at n → table n !! name = table (S n) !! name.
Proof.
  unfold names_at. destruct (hs !! n) as [h|] eqn:Hn; [|by rewrite table_S_none].
  intros Hne. rewrite (table_S n h Hn), handle_table_other; [done|set_solver].
Qed.

Context (Hd : StableDiscovery known good).
Context (Hok0 : agent_ok known good p0) (Hspawned : spawned p0 = []).
Context (Hhs : ∀ n h, hs !! n = Some h → handling_ok known (table n) h).
Context (Honce : ∀ n, listed_once known (table n)).

Lemma table_infos n name info : table n !! name = Some info → info_ok known info.
Proof.
  revert name info. induction n as [|n IH]; intros name info; [apply Hok0|].
  destruct (hs !! n) as [h|] eqn:Hn; [|by rewrite table_S_none; [apply IH|]].
  rewrite (table_S n h Hn). unfold handle_table. destruct (h_deleted h).
  - intros [_ ?]%lookup_delete_Some. by eapply IH.
  - case_decide; [apply IH|]. intros [[_ <-]|[_ ?]]%lookup_insert_Some; [apply (Hhs n h Hn)|by eapply IH].
Qed.

Lemma keys_at_foreign i key : key ∈ keys_at i → key ≠ AppliedManifestWorkKey.
Proof.
  unfold keys_at. destruct (hs !! i) as [h|] eqn:Hi; [|by intros ?%elem_of_empty].
  apply gvr_keys_foreign. apply Forall_app. split; [apply (Hhs i h Hi)|].
  unfold tracked_gvrs. destruct (table i !! h_name h) as [old|] eqn:Ho; [|by constructor]. by eapply table_infos.
Qed.

(** ** The invariant of a history *)

Definition all_keys : gset string := ⋃ (keys_at <$> seq 0 (length hs)).
Definition all_names : gset string := ⋃ (names_at <$> seq 0 (length hs)).
Definition all_stoppers : gset N := stoppers_of all_keys (stoppers (agent p0)).

Lemma at_bound i : hs !! i = None → keys_at i = ∅ ∧ names_at i = ∅.
Proof. unfold keys_at, names_at. by intros ->. Qed.

Lemma in_all_seq (f : nat → gset string) i x :
  (hs !! i = None → f i = ∅) → x ∈ f i → x ∈ ⋃ (f <$> seq 0 (length hs)).
Proof.
  intros Hf Hx. apply elem_of_union_list. exists (f i). split; [|done]. apply list_elem_of_fmap. exists i. split; [done|].
  apply elem_of_seq. destruct (hs !! i) eqn:Hi; [apply lookup_lt_Some in Hi; lia|].
  rewrite Hf in Hx by done. by apply elem_of_empty in Hx.
Qed.

Lemma keys_at_all i key : key ∈ keys_at i → key ∈ all_keys.
Proof. apply in_all_seq. apply at_bound. Qed.
Lemma names_at_all i name : name ∈ names_at i → name ∈ all_names.
Proof. apply in_all_seq. apply at_bound. Qed.

Abbreviation pool n := (pool_inv known good keys_at names_at p0 all_keys all_names all_stoppers (table_lists (table n)) (table n)).
Abbreviation achieved n := (achieved (table_lists (table n)) (table n)).

(** The goroutines work towards the table of the handlings taken so far, and the
    idle part is in step with it. *)
Definition overlap_inv (s : Overlap) : Prop :=
  ∃ idle os sp, pool (o_taken s) 2 (o_work s) idle os sp ∧ achieved (o_taken s) idle.
Lemma overlap_start : overlap_inv start.
Proof.
  pose proof (ok_lifecycle _ _ _ Hok0) as Hinv.
  assert (∀ c, c ∈ all_stoppers → is_Some (chans p0 !! c)) as Hdom.
  { intros c (key & _ & Hc)%stoppers_of_elem. apply (inv_open _ Hinv) in Hc. eauto. }
  assert (∀ key, key ∈ all_keys → is_Some (informers (agent p0) !! key) ↔ tracked_uids p0 key ≠ ∅) as Hi.
  { intros key Hk. apply (inv_tracked _ Hinv). unfold all_keys in Hk. apply elem_of_union_list in Hk as (X & HX & Hk).
    apply list_elem_of_fmap in HX as (i & -> & _). by eapply keys_at_foreign. }
  set (idle := MkOwner all_keys all_names all_stoppers (part_of p0)).
  exists idle, [], []. cbn. split.
  - split; cbn; try by constructor.
    + split; [apply Hok0|apply Hok0|apply (inv_fresh _ Hinv)].
    + rewrite Hspawned. constructor.
    + assert (∀ {X} `{Countable X} (f : Owner → gset X) x, owned f [idle] x ↔ x ∈ f idle) as Hown.
      { intros. rewrite owned_cons. unfold owned. set_solver. }
      split; try done; try (intros x; rewrite Hown; cbn; auto).
      constructor; [|done]. by apply holds_part_of.
  - exists (tracked_uids p0). cbn. split; [|split].
    + split; cbn; auto.
      * intros key Hk. rewrite (inv_listers _ Hinv), <- (inv_informers _ Hinv). by apply Hi.
      * intros key Hk. rewrite <- (inv_informers _ Hinv). by apply Hi.
      * intros key c Hk Hc. split; [apply stoppers_of_elem; eauto|by eapply inv_open].
      * intros key key' c _ _. by apply inv_inj.
      * intros c Hc _. by apply stoppers_of_elem in Hc.
    + intros key u _. apply (ok_in_step _ _ _ Hok0).
    + done.
Qed.

(** What no running task works on is idle. *)
Lemma idle_owns w n idle os sp (f : Owner → gset string) (at_task : nat → gset string) x :
  pool n 2 w idle os sp → retired w os → owned f (idle :: os ++ sp) x → (∀ o, nothing o → f o = ∅) →
  (∀ i o, within keys_at names_at i o → f o ⊆ at_task i) → (∀ i, running w i → x ∉ at_task i) → x ∈ f idle.
Proof.
  intros [Hg Hth Hsp Htg Hst How] Hret (o & Ho & Hxo) Hnone Hwithin Hrun.
  apply elem_of_cons in Ho as [->|Ho]; [done|].
  assert (∀ tag, within keys_at names_at tag o → ¬ running w tag) as Hno.
  { intros tag Hin Hr. apply (Hrun tag Hr). by apply (Hwithin tag o). }
  apply elem_of_app in Ho as [[i Hi]%list_elem_of_lookup|[i Hi]%list_elem_of_lookup]; exfalso.
  - destruct (Forall2_lookup_r _ _ _ _ _ Htg Hi) as (tag & Htag & Hin).
    destruct (Forall2_lookup_r _ _ _ _ _ Hth Hi) as (thr & Hthr & _). apply (Hno tag Hin).
    left. exists i, thr. split_and!; [done..|]. intros ->.
    rewrite (Hnone o) in Hxo by (by apply (Hret i)). by apply elem_of_empty in Hxo.
  - destruct (Forall2_lookup_r _ _ _ _ _ Hst Hi) as (tag & Htag & Hin).
    destruct (Forall2_lookup_r _ _ _ _ _ Hsp Hi) as (gr & Hgr & Hm). apply (Hno tag Hin).
    destruct gr; cbn in Hm; try done; [right; by eexists i, _, _|].
    destruct Hm as (_ & ? & ? & ?). rewrite (Hnone o) in Hxo by done. by apply elem_of_empty in Hxo.
Qed.

Lemma idle_keys w n idle os sp key :
  pool n 2 w idle os sp → retired w os → key ∈ all_keys → (∀ i, running w i → key ∉ keys_at i) → key ∈ o_keys idle.
Proof.
  intros Hinv Hret Hk Hrun. eapply (idle_owns _ _ _ _ _ o_keys keys_at); [done..| | | |done].
  - by apply (ow_keys _ _ _ _ _ _ (pl_owners _ _ _ _ _ _ _ _ _ _ _ _ _ _ _ Hinv)).
  - by intros o (? & _).
  - by intros i o [? _].
Qed.

Lemma idle_names w n idle os sp name :
  pool n 2 w idle os sp → retired w os → name ∈ all_names → (∀ i, running w i → name ∉ names_at i) → name ∈ o_names idle.
Proof.
  intros Hinv Hret Hk Hrun. eapply (idle_owns _ _ _ _ _ o_names names_at); [done..| | | |done].
  - by apply (ow_names _ _ _ _ _ _ (pl_owners _ _ _ _ _ _ _ _ _ _ _ _ _ _ _ Hinv)).
  - by intros o (_ & ? & _).
  - by intros i o [_ ?].
Qed.

Lemma overlap_take p ts tags started n h :
  overlap_inv (MkOverlap (MkWork (MkSystem p ts) tags started) n) → hs !! n = Some h →
  (∀ i, running (MkWork (MkSystem p ts) tags started) i → names_at i ## names_at n ∧ keys_at i ## keys_at n) →
  overlap_inv (MkOverlap (MkWork (MkSystem p (ts ++ [handler h])) (tags ++ [n]) started) (S n)).
Proof.
  intros (idle0 & os0 & sp & Hinv0 & Hidle0) Hn Hfree. cbn in *.
  edestruct retire_all as (idle & os & Hinv & Hidle & Hret); [exact Hinv0|exact Hidle0|]. clear Hinv0 Hidle0.
  pose proof (pl_owners _ _ _ _ _ _ _ _ _ _ _ _ _ _ _ Hinv) as How.
  assert (keys_at n ⊆ o_keys idle) as Hk.
  { intros key Hkn. eapply idle_keys; [done..|by eapply keys_at_all|]. intros i [_ Hi]%Hfree Hki. by apply (Hi key). }
  assert (names_at n ⊆ o_names idle) as Hns.
  { intros name Hnn. eapply idle_names; [done..|by eapply names_at_all|]. intros i [Hi _]%Hfree Hni. by apply (Hi name). }
  pose proof (ow_holds _ _ _ _ _ _ How) as Hh. apply Forall_cons in Hh as [Hh _].
  destruct (achieved_held _ _ _ _ Hh Hidle) as (Hp & HT & Htab). cbn in *.
  eapply (pool_retarget _ _ _ _ _ _ _ _ _ _ (table_lists (table (S n))) (table (S n))) in Hinv; [|done|].
  2:{ intros tag [Hfn Hfk]%Hfree. split.
      - intros key u Hkey. apply table_step_lists. intros Hkn. by apply (Hfk key).
      - intros name Hname. apply table_step_lookup. intros Hnn. by apply (Hfn name). }
  eapply (pool_take _ _ _ _ _ _ _ _ _ _ _ _ _ _ _ _ _ _ n (handler h)) in Hinv as (C & C1 & Hp1 & Hinv'); [|done..|].
  - eexists _, _, sp. split; [exact Hinv'|]. exists (tracked_uids p). cbn. split; [done|]. split.
    + intros key u [Hi Hkn]%elem_of_difference. rewrite HT by done. by apply table_step_lists.
    + intros name [Hi Hnn]%elem_of_difference. rewrite Htab by done. by apply table_step_lookup.
  - intros C HpC. assert (keys_at n = handling_keys known (table n) h) as Ek by (unfold keys_at; by rewrite Hn).
    assert (names_at n = {[h_name h]}) as En by (unfold names_at; by rewrite Hn).
    rewrite Ek in HpC, Hk |- *. rewrite En in Hns |- *. rewrite (table_S n h Hn).
    eapply handler_wp; [done|by apply Hhs|apply table_infos|apply Honce|rewrite <- (table_S n h Hn); apply Honce|exact HpC| |].
    + intros key u Hkey. apply HT. by apply Hk.
    + apply Htab. set_solver.
Qed.

Lemma overlap_step s s' : overlap s s' → overlap_inv s → overlap_inv s'.
Proof.
  destruct 1 as [w w' n Hw|p ts tags started n h Hn Hfree]; [|intros; by eapply overlap_take].
  intros (idle & os & sp & Hinv & Hidle). cbn in *.
  destruct (pool_work _ _ _ Hd _ _ _ _ _ _ _ _ _ _ _ _ _ _ Hw Hinv) as (os' & sp' & Hinv'). exists idle, os', sp'. done.
Qed.

Lemma overlap_rtc s s' : rtc overlap s s' → overlap_inv s → overlap_inv s'.
Proof. induction 1 as [|s1 s2 s3 Ht _ IH]; [done|]. intros Hi. by eapply IH, overlap_step. Qed.

Lemma overlaps_inv s : rtc overlap start s → overlap_inv s.
Proof. intros Hr. by eapply overlap_rtc, overlap_start. Qed.

(** ** What holds along a history *)

Lemma table_outside n :
  (∀ key u, key ∉ all_keys → table_lists (table n) key u ↔ table_lists t0 key u) ∧
  ∀ name, name ∉ all_names → table n !! name = t0 !! name.
Proof.
  induction n as [|n [IHk IHn]]; [done|]. split.
  - intros key u Hk. rewrite <- IHk by done. symmetry. apply table_step_lists. intros Hkn. by apply Hk, (keys_at_all n).
  - intros name Hn. rewrite <- IHn by done. symmetry. apply table_step_lookup. intros Hnn. by apply Hn, (names_at_all n).
Qed.

(** A kind on which no handling is running is in step with the table. *)
Lemma overlap_kind s key :
  overlap_inv s → key ≠ AppliedManifestWorkKey → (∀ i, running (o_work s) i → key ∉ keys_at i) →
  (∀ u, u ∈ tracked_uids (proc (w_sys (o_work s))) key ↔ table_lists (table (o_taken s)) key u) ∧
  (is_Some (informers (agent (proc (w_sys (o_work s)))) !! key) ↔ tracked_uids (proc (w_sys (o_work s))) key ≠ ∅).
Proof.
  intros (idle0 & os0 & sp & Hinv0 & Hidle0) Hkey Hrun.
  edestruct retire_all as (idle & os & Hinv & Hidle & Hret); [exact Hinv0|exact Hidle0|]. clear Hinv0 Hidle0.
  pose proof (pl_owners _ _ _ _ _ _ _ _ _ _ _ _ _ _ _ Hinv) as How.
  destruct (decide (key ∈ all_keys)) as [Hk|Hk].
  - eapply idle_keys in Hk; [|done..].
    pose proof (ow_holds _ _ _ _ _ _ How) as Hh. apply Forall_cons in Hh as [Hh _].
    destruct (achieved_held _ _ _ _ Hh Hidle) as (Hp & HT & _). split; [intros u; by apply HT|].
    apply (po_informers _ _ _ _ Hp key Hk).
  - rewrite (ow_uids _ _ _ _ _ _ How), (ow_informers _ _ _ _ _ _ How) by done. split.
    + intros u. rewrite (proj1 (table_outside _)) by done. apply (ok_in_step _ _ _ Hok0).
    + by apply (inv_tracked _ (ok_lifecycle _ _ _ Hok0)).
Qed.

Lemma overlap_progress s i thr :
  overlap_inv s → threads (w_sys (o_work s)) !! i = Some thr →
  thr = Ret tt ∨ ∃ R (op : Op R) k r p', thr = Act op k ∧ exec R op (proc (w_sys (o_work s))) = Done (r, p').
Proof.
  destruct s as [[[p ts] tags started] n]. intros (idle & os & sp & Hinv & _). by eapply pool_progress.
Qed.

(** When nothing runs, the whole agent is in step. *)
Lemma overlap_finished s :
  overlap_inv s → finished (w_sys (o_work s)) → disjoint_infos (table (o_taken s)) →
  agent_ok known good (proc (w_sys (o_work s))) ∧
  trackedAppliedManifests (agent (proc (w_sys (o_work s)))) = table (o_taken s).
Proof.
  intros Hov [Hret0 Hsp] Hdis. pose proof Hov as (idle0 & os0 & sp & Hinv0 & Hidle0).
  edestruct retire_all as (idle & os & Hinv & Hidle & Hret); [exact Hinv0|exact Hidle0|]. clear Hinv0 Hidle0.
  destruct Hinv as [Hg Hth Hms _ _ How]. set (p := proc (w_sys (o_work s))) in *. rewrite Hsp in Hms.
  apply Forall2_nil_inv_l in Hms as ->. rewrite app_nil_r in How.
  assert (Forall (achieved (o_taken s)) (idle :: os)) as Hach.
  { constructor; [done|]. apply Forall_lookup. intros i o Hi. apply nothing_achieved, (Hret i); [|done].
    destruct (Forall2_lookup_r _ _ _ _ _ Hth Hi) as (thr & Hthr & _). rewrite Forall_lookup in Hret0.
    by rewrite (Hret0 i thr Hthr). }
  pose proof Hok0 as [_ Hinv0 Hleak0 _ _ _ Hstep0].
  assert (trackedAppliedManifests (agent p) = table (o_taken s)) as Htab.
  { eapply ended_table; [exact How|exact Hach|]. intros name Hn. by apply (proj2 (table_outside _)). }
  split; [|done]. split; try rewrite Htab; try apply Hg; try done.
  - by eapply ended_inv.
  - by eapply ended_no_leak.
  - apply table_infos.
  - intros key u. rewrite Htab. change (u ∈ tracked_uids p key ↔ table_lists (table (o_taken s)) key u).
    destruct (ended_tracked _ _ _ _ _ _ _ _ How Hach key u) as [Hin Hout].
    destruct (decide (key ∈ all_keys)) as [Hk|Hk]; [by apply Hin|]. rewrite Hout, (proj1 (table_outside _)) by done. apply Hstep0.
Qed.

(** The goroutines that run can end, and then the next handling can be taken. *)
Lemma overlap_rtc_work w w' n : rtc (work cfg) w w' → rtc overlap (MkOverlap w n) (MkOverlap w' n).
Proof. induction 1; [done|]. eapply rtc_l; [by apply OverlapWork|done]. Qed.

Lemma overlap_ends_one s : overlap_inv s → ∃ s', rtc overlap s s' ∧ overlap_inv s' ∧ o_taken s' = o_taken s ∧ finished (w_sys (o_work s')).
Proof.
  destruct s as [w n]. intros (idle & os & sp & Hinv & Hidle). cbn in *.
  destruct (pool_ends cfg known good Hd _ _ _ _ _ _ _ _ _ _ _ _ _ Hinv) as (w' & os' & Hr & Hf & _).
  assert (rtc overlap (MkOverlap w n) (MkOverlap w' n)) as Hr' by (by apply overlap_rtc_work).
  exists (MkOverlap w' n). split_and!; [done| |done..]. eapply overlap_rtc; [exact Hr'|]. by exists idle, os, sp.
Qed.

Lemma finished_idle (w : Work (E := E)) i : finished (w_sys w) → ¬ running w i.
Proof.
  intros [Hret Hsp] [(j & thr & Hj & _ & Hne)|(j & gvrs & uids & Hj & _)]; [|by rewrite Hsp in Hj].
  rewrite Forall_lookup in Hret. by rewrite (Hret j thr Hj) in Hne.
Qed.

Lemma overlap_ends s : overlap_inv s → o_taken s ≤ length hs → ∃ s', rtc overlap s s' ∧ done_all s'.
Proof.
  intros Hov Hle. remember (length hs - o_taken s) as m eqn:Hm. revert s Hov Hle Hm. induction m as [|m IH]; intros s Hov Hle Hm.
  all: destruct (overlap_ends_one s Hov) as (s1 & Hr & Hov1 & Ht & Hf).
  { exists s1. split; [done|]. split; [lia|done]. }
  destruct s1 as [[[p ts] tags started] n]. cbn in *. destruct (lookup_lt_is_Some_2 hs n) as [h Hn]; [lia|].
  edestruct (IH (MkOverlap (MkWork (MkSystem p (ts ++ [handler h])) (tags ++ [n]) started) (S n))) as (s' & Hr' & Hd').
  - eapply overlap_take; [done..|]. intros i Hi. by apply finished_idle in Hi.
  - cbn. lia.
  - cbn. lia.
  - exists s'. split; [|done]. etrans; [exact Hr|]. eapply rtc_l; [|exact Hr']. apply OverlapTake; [done|].
    intros i Hi. by apply finished_idle in Hi.
Qed.

Lemma overlap_taken s : rtc overlap start s → o_taken s ≤ length hs.
Proof.
  assert (o_taken start ≤ length hs) as Hs by (cbn; lia). induction 1 as [|s1 s2 s3 Ht _ IH]; [done|].
  apply IH. destruct Ht as [|p ts tags started n h Hn _]; [done|]. cbn. by apply lookup_lt_Some in Hn.
Qed.

(** Tags are always at hand. *)
Lemma turn_work s n w : overlap_inv (MkOverlap w n) → turn cfg (w_sys w) s → ∃ w', work cfg w w' ∧ w_sys w' = s.
Proof.
  destruct w as [sys tags started]. intros (idle & os & sp & Hinv & _) Ht. cbn in *.
  destruct Ht as [p ts i R op k r p' Hi He|p ts i gr t Hi Hb].
  - edestruct pool_act as (r' & p1 & tag & _ & _ & He' & Htag & _); [exact Hinv|exact Hi|].
    eexists. split; [eapply WorkAct; [exact Hi|exact He|exact Htag]|done].
  - edestruct pool_go as (tag & _ & _ & Htag & _); [exact Hd|exact Hinv|exact Hi|exact Hb|].
    eexists. split; [eapply WorkGo; [exact Hi|exact Hb|exact Htag]|done].
Qed.
End overlap.

(** ** The theorem *)

Section overlap_props.
Context {RT : GoRuntime} {K : Kube} {E : Type} `{Env : !Environment E}.
Context (cfg : AgentConfig).
Context (known : GroupVersionResource → option GroupVersionKind) (good : E → Prop).

End overlap_props.

(** ** Closed instance

    The manifest [amw2] is tracked with a service.  The manifest [amw1] with a
    deployment is seen, a second service is added to [amw2], and [amw1] is seen
    deleted, which can be while the goroutines of the second handling run. *)

Definition svc_gvr : GroupVersionResource := GVR "" "v1" "services".
Definition svc_gvk : GroupVersionKind := GVK "" "v1" "Service".
Definition pair_table : sim_table := (svc_gvr, svc_gvk) :: sc_table.
Definition pair_known (gvr : GroupVersionResource) : option GroupVersionKind :=
  if decide (gvr = svc_gvr) then Some svc_gvk else sc_known gvr.
Definition pair_good (e : SimEnv) : Prop := se_discovery e = GOk pair_table.

Lemma pair_resolves : resolves pair_known pair_table.
Proof.
  intros gvr gvk. unfold pair_known, sc_known. repeat case_decide; [intros [= <-]; by subst..|done].
Qed.

Lemma pair_stable : StableDiscovery pair_known pair_good.
Proof.
  split.
  - intros R c e He. destruct c; try done; unfold pair_good in *; cbn; unfold sim_write; cbn;
      repeat case_match; by simplify_eq/=.
  - intros e He. eexists _, _. split; [cbn; unfold pair_good in He; by rewrite He|apply pair_resolves].
Qed.

Definition pair_empty : Process SimEnv := sim_process pair_table (MkSimEnv 0 (GOk pair_table) [] ∅ ∅ ∅ None [] []).

Lemma pair_empty_ok : agent_ok pair_known pair_good pair_empty.
Proof.
  split; [done| | | |by intros|by intros|].
  - split; intros *; unfold tracked_uids, uids_of; cbn; rewrite ?lookup_empty; cbn; done.
  - done.
  - exists pair_table. split; [done|apply pair_resolves].
  - intros key u. unfold tracked_uids, uids_of. cbn. rewrite lookup_empty. split; [by intros ?%elem_of_empty|].
    by intros (n & i & Hi & _).
Qed.

Definition pair_amw (entries : list JSON) : Object :=
  MkObject amw_gvk "" "amw2" None None [] "amw-uid2" "1" 1 None [] None
    (SUnstructured [("spec", JObject [("manifestWorkName", JString "mw2")]);
                    ("status", JObject [("appliedResources", JArray entries)])]).
Definition svc_info : AppliedManifestInfo := MkInfo ["svc-uid"] [svc_gvr].
Definition pair_work : AppliedManifestWork :=
  MkAppliedManifestWork "amw2" "amw-uid2" "mw2"
    [MkResource "" "v1" "services" "" "" "svc-uid"; MkResource "" "v1" "services" "" "" "svc2-uid"].
(** After the first version of [amw2], and with no goroutine waiting to begin. *)
Definition pair_tracked : Process SimEnv :=
  match run (exec (E := SimEnv)) (startInformers (GVRs svc_info) (ObjectUIDs svc_info))
          (stored pair_empty "amw2" svc_info [] (env pair_empty)) with
  | Done (_, p) => set_spawned p []
  | Panic _ => pair_empty
  end.

Lemma pair_infos : info_ok pair_known svc_info ∧ info_ok pair_known (manifest_info sc_work) ∧ info_ok pair_known (manifest_info pair_work).
Proof.
  split_and!; (split; [done|split; [by apply (bool_decide_unpack _); vm_compute|]]);
    repeat constructor; eexists; (split; [reflexivity|discriminate]).
Qed.

Lemma pair_tracked_ok :
  agent_ok pair_known pair_good pair_tracked ∧ trackedAppliedManifests (agent pair_tracked) = {["amw2" := svc_info]}.
Proof.
  destruct (new_run pair_known pair_good pair_empty "amw2" svc_info [] (env pair_empty) pair_stable pair_empty_ok
    (proj1 pair_infos)) as (p & Hr & Hok & Ht); [split; intros *; cbn; by rewrite lookup_empty|done|done|].
  assert (pair_tracked = set_spawned p []) as -> by (unfold pair_tracked; by rewrite Hr).
  split; [|by cbn; rewrite Ht]. exact (resume_ok _ _ p [] (env p) Hok (ok_good _ _ _ Hok)).
Qed.

Definition pair_history : list Handling :=
  [MkHandling sc_manifest sc_work false;
   MkHandling (pair_amw [sc_entry svc_gvr "svc-uid"; sc_entry svc_gvr "svc2-uid"]) pair_work false;
   MkHandling sc_manifest sc_work true].

Definition pair_entry (name : string) (info : AppliedManifestInfo) : Prop :=
  name = "amw1" ∧ info = manifest_info sc_work ∨ name = "amw2" ∧ (info = svc_info ∨ info = manifest_info pair_work).

Lemma pair_tables n name info : table pair_tracked pair_history n !! name = Some info → pair_entry name info.
Proof.
  unfold table. rewrite (proj2 pair_tracked_ok). unfold pair_entry.
  destruct n as [|[|[|n]]]; cbn.
  - intros [<- <-]%lookup_singleton_Some. auto.
  - intros [[<- <-]|[_ [<- <-]%lookup_singleton_Some]]%lookup_insert_Some; auto.
  - intros [[<- <-]|[_ [[<- <-]|[_ [<- <-]%lookup_singleton_Some]]%lookup_insert_Some]]%lookup_insert_Some; auto.
  - rewrite take_nil. cbn.
    intros [_ [[<- <-]|[_ [[<- <-]|[_ [<- <-]%lookup_singleton_Some]]%lookup_insert_Some]]%lookup_insert_Some]%lookup_delete_Some; auto.
Qed.

Lemma pair_tables_disjoint n : disjoint_infos (table pair_tracked pair_history n).
Proof.
  intros name name' info info' u Hne Hi%pair_tables Hi'%pair_tables. revert Hne.
  destruct Hi as [[-> ->]|[-> [-> | ->]]], Hi' as [[-> ->]|[-> [-> | ->]]]; try done; intros _;
    cbn; rewrite !elem_of_cons, elem_of_nil; intuition congruence.
Qed.

(** The new version holds what the last one did. *)
Lemma pair_grows old info :
  info_ok pair_known info → old = info ∨ old = svc_info ∧ info = manifest_info pair_work →
  same_resources old info ∧ ∀ key, ¬ gains pair_known info old key.
Proof.
  intros (Hwf & Hnd & _) [->|[-> ->]]; (split; [intros u g g' H1 H2|intros key (u & Hl%listed_uid & Hu); apply Hu]).
  - by eapply entries_NoDup_fun.
  - done.
  - apply list_elem_of_singleton in H1 as [= -> ->].
    apply elem_of_cons in H2 as [[= ->]|[[=]|?%elem_of_nil]%elem_of_cons]; done.
  - apply list_elem_of_singleton in Hl as ->. by left.
Qed.

Lemma pair_history_ok n h : pair_history !! n = Some h → handling_ok pair_known (table pair_tracked pair_history n) h.
Proof.
  intros Hn. assert (info_ok pair_known (manifest_info (h_work h)) ∧
    ∀ old, table pair_tracked pair_history n !! GetName (h_obj h) = Some old →
      old = manifest_info (h_work h) ∨ old = svc_info ∧ manifest_info (h_work h) = manifest_info pair_work) as [Hi Hold].
  { split; [|intros old Ho%pair_tables];
      (destruct n as [|[|[|]]]; [injection Hn as <-..|done]); try apply pair_infos;
      destruct Ho as [[[=] ->]|[[=] [-> | ->]]]; auto. }
  split; [| |done| |].
  - destruct n as [|[|[|]]]; [injection Hn as <-; reflexivity..|done].
  - destruct n as [|[|[|]]]; [injection Hn as <-; vm_compute; reflexivity..|done].
  - intros old Ho%Hold. by apply pair_grows.
  - intros old key Ho%Hold _. by apply pair_grows.
Qed.

