(* ===== verification/Disjoint.v ===== *)
(** * Handlers of manifests with disjoint kinds do not interfere

    The handlers of different applied manifest works, started together, when no two
    list a resource of one kind: a history of [Overlap.v] whose handlings are all
    taken at once. *)

From S2P Require Export Overlap.

Section disjoint.
Context {RT : GoRuntime} {K : Kube} {E : Type} `{Env : !Environment E}.
Context (cfg : AgentConfig).
Context (known : GroupVersionResource → option GroupVersionKind) (good : E → Prop).
Context (Hd : StableDiscovery known good).
Implicit Types p : Process E.
Abbreviation h_name h := (GetName (h_obj h)).

Context (p0 : Process E) (hs : list Handling).
Abbreviation t0 := (trackedAppliedManifests (agent p0)).
Definition final_table : SafeMap AppliedManifestInfo := foldl handle_table t0 hs.
Context (Hok0 : agent_ok known good p0) (Hspawned : spawned p0 = []).
Context (Hhs : Forall (handling_ok known t0) hs).
Context (Hdisj : ∀ i j h h', hs !! i = Some h → hs !! j = Some h' → i ≠ j →
  h_name h ≠ h_name h' ∧ handling_keys known t0 h ## handling_keys known t0 h').
Context (Hfinal : disjoint_infos final_table).
Abbreviation table := (table p0 hs).

(** ** Each handling meets its manifest as it was *)

Lemma table_other n name : (∀ i h, i < n → hs !! i = Some h → name ≠ h_name h) → table n !! name = t0 !! name.
Proof.
  induction n as [|n IH]; [done|]. intros Hn. destruct (hs !! n) as [h|] eqn:Hh.
  - rewrite (table_S p0 hs n h Hh), handle_table_other; [|apply (Hn n); [lia|done]]. apply IH. intros i h' Hi. apply Hn; lia.
  - rewrite table_S_none by done. apply IH. intros i h' Hi. apply Hn; lia.
Qed.

Lemma table_before n h : hs !! n = Some h → table n !! h_name h = t0 !! h_name h.
Proof. intros Hh. apply table_other. intros i h' Hi Hh'. apply (Hdisj n i h h' Hh Hh'). lia. Qed.

(** A manifest is as it was, or as it ends. *)
Lemma table_at n name : table n !! name = t0 !! name ∧ (∀ i h, i < n → hs !! i = Some h → name ≠ h_name h) ∨
  table n !! name = final_table !! name ∧ ∃ i h, i < n ∧ hs !! i = Some h ∧ name = h_name h.
Proof.
  assert (∀ m i h, hs !! i = Some h → i < m → table m !! h_name h = table (S i) !! h_name h) as Hstay.
  { induction m as [|m IH]; intros i h Hh Hi; [lia|]. destruct (decide (i = m)) as [->|]; [done|].
    rewrite <- (IH i h) by (done || lia). symmetry. apply table_step_lookup. unfold names_at.
    destruct (hs !! m) as [h'|] eqn:Hh'; [|set_solver]. intros ?%elem_of_singleton. by apply (Hdisj i m h h'). }
  destruct (decide (Exists (λ i, (λ h, h_name h) <$> hs !! i = Some name) (seq 0 n))) as [He|Hne].
  - right. apply Exists_exists in He as (i & Hi%elem_of_seq & (h & Hh & ->)%fmap_Some).
    assert (i < length hs) by (by eapply lookup_lt_Some).
    split; [|exists i, h; split_and!; [lia|done..]]. rewrite (Hstay n i h) by (done || lia).
    rewrite <- (Hstay (length hs) i h) by done. unfold Overlap.table, final_table. by rewrite firstn_all.
  - left. assert (∀ i h, i < n → hs !! i = Some h → name ≠ h_name h) as Hno; [|by split; [apply table_other|]].
    intros i h Hi Hh ->. apply Hne, Exists_exists. exists i. split; [apply elem_of_seq; lia|by rewrite Hh].
Qed.

Lemma keys_at_start n h : hs !! n = Some h → keys_at known p0 hs n = handling_keys known t0 h.
Proof. intros Hh. unfold keys_at, handling_keys, tracked_gvrs. by rewrite Hh, table_before. Qed.

Lemma handling_at n h : hs !! n = Some h → handling_ok known (table n) h.
Proof.
  intros Hh. destruct (proj1 (Forall_lookup _ _) Hhs n h Hh) as [? ? ? Hs Hw].
  split; try done; intros old; rewrite (table_before n h Hh); [apply Hs|apply Hw].
Qed.

(** The kinds of a manifest that was or will be handled, now or before. *)
Lemma lists_handled n i h info key u :
  hs !! i = Some h → table n !! h_name h = Some info → listed known (entries info) key u → key ∈ handling_keys known t0 h.
Proof.
  intros Hh Hi Hl. destruct (decide (i < n)) as [Hlt|Hge].
  - eapply after_keys, Hl. rewrite <- Hi. symmetry. induction n as [|n IH]; [lia|].
    destruct (decide (i = n)) as [->|Hne].
    + rewrite (table_S p0 hs n h Hh). apply handle_table_own. by apply table_before.
    + rewrite <- table_step_lookup in Hi |- *; [apply IH; [done|lia]|..];
        (unfold names_at; destruct (hs !! n) as [h'|] eqn:Hh'; [|set_solver]; intros ?%elem_of_singleton; by apply (Hdisj i n h h')).
  - eapply before_keys, Hl. rewrite <- Hi. symmetry. apply table_other. intros j h' Hj Hh'.
    apply (Hdisj i j h h' Hh Hh'). lia.
Qed.
(** No two manifests list an object of one kind, at any moment. *)
Lemma tables_once n : listed_once known (table n).
Proof.
  intros name name' info info' key u Hne Hi Hi' Hl Hl'.
  assert (∀ i h i' h', hs !! i = Some h → hs !! i' = Some h' → name = h_name h → name' = h_name h' → False) as Hboth.
  { intros i h i' h' Hh Hh' -> ->. destruct (decide (i = i')) as [->|Hii]; [congruence|].
    destruct (Hdisj i i' h h' Hh Hh' Hii) as [_ Hk]. apply (Hk key); by eapply lists_handled. }
  pose proof (disjoint_listed_once known _ (ok_disjoint _ _ _ Hok0)) as H0.
  pose proof (disjoint_listed_once known _ Hfinal) as H1.
  assert (∀ m, (∀ i h, hs !! i = Some h → m ≠ h_name h) → final_table !! m = t0 !! m) as Hnever.
  { intros m Hm. rewrite <- (table_other (length hs)); [unfold Overlap.table, final_table; by rewrite firstn_all|eauto]. }
  assert (∀ m, (∃ i h, hs !! i = Some h ∧ m = h_name h) ∨ ∀ i h, hs !! i = Some h → m ≠ h_name h) as Hdec.
  { intros m. destruct (decide (Exists (λ h, m = h_name h) hs)) as [He|He]; [left|right].
    - apply Exists_exists in He as (h & [i Hh]%list_elem_of_lookup & ->). eauto.
    - intros i h Hh ->. apply He, Exists_exists. exists h. split; [by eapply list_elem_of_lookup_2|done]. }
  destruct (table_at n name) as [[E1 _]|[E1 (i & h & _ & Hh & Hn)]], (table_at n name') as [[E2 _]|[E2 (i' & h' & _ & Hh' & Hn')]];
    rewrite E1 in Hi; rewrite E2 in Hi'; [by apply (H0 name name' info info' key u)| | |by apply (H1 name name' info info' key u)].
  - destruct (Hdec name) as [(i & h & Hh & Hn)|Hno]; [by apply (Hboth i h i' h')|]. rewrite <- Hnever in Hi by done. by apply (H1 name name' info info' key u).
  - destruct (Hdec name') as [(i' & h' & Hh' & Hn')|Hno]; [by apply (Hboth i h i' h')|]. rewrite <- Hnever in Hi' by done. by apply (H1 name name' info info' key u).
Qed.

(** ** All taken at once *)

Lemma taken_at_once n :
  n ≤ length hs →
  rtc (overlap cfg known p0 hs) (start p0)
    (MkOverlap (MkWork (MkSystem p0 (handler <$> take n hs)) (seq 0 n) []) n).
Proof.
  induction n as [|n IH]; intros Hn; [done|]. destruct (lookup_lt_is_Some_2 hs n) as [h Hh]; [lia|].
  eapply rtc_r; [apply IH; lia|]. rewrite (take_S_r _ _ h), fmap_app, seq_S by done. apply OverlapTake; [done|].
  intros i [(j & thr & _ & Hj & _)|(j & gvrs & uids & Hj & _)]; cbn in Hj; [|by rewrite Hspawned in Hj].
  apply lookup_seq in Hj as [-> Hj]. destruct (lookup_lt_is_Some_2 hs j) as [h' Hh']; [lia|].
  destruct (Hdisj j n h' h Hh' Hh) as [Hne Hk]; [lia|]. cbn.
  rewrite (keys_at_start j h'), (keys_at_start n h) by done. split; [|done]. unfold names_at. rewrite Hh, Hh'. set_solver.
Qed.

(** What the system does is part of the history. *)
Lemma turns_overlap s : rtc (turn (E := E) cfg) (MkSystem p0 (handler <$> hs)) s →
  ∃ w, w_sys w = s ∧ rtc (overlap cfg known p0 hs) (start p0) (MkOverlap w (length hs)).
Proof.
  pose proof (taken_at_once (length hs)) as H0. rewrite firstn_all in H0. specialize (H0 ltac:(lia)).
  set (w0 := MkWork _ _ _) in H0. change (MkSystem p0 (handler <$> hs)) with (w_sys w0). generalize w0 H0. clear H0 w0.
  intros w Hw Hr. remember (w_sys w) as s0 eqn:Hs. revert w Hw Hs. induction Hr as [s0|s0 s1 s2 Ht _ IH]; intros w Hw ->; [eauto|].
  assert (overlap_inv known good p0 hs (MkOverlap w (length hs))) as Hinv.
  { eapply overlaps_inv; [done..|apply handling_at|apply tables_once|exact Hw]. }
  destruct (turn_work cfg known good p0 hs Hd s1 (length hs) w Hinv Ht) as (w' & Hw' & <-).
  apply (IH w'); [|done]. eapply rtc_r; [exact Hw|]. by apply OverlapWork.
Qed.

End disjoint.

(** ** Closed instance

    The manifest [amw1] with a deployment is seen for the first time, while a second
    service is added to the manifest [amw2]. *)

Definition pair_handlings : list Handling :=
  [MkHandling sc_manifest sc_work false;
   MkHandling (pair_amw [sc_entry svc_gvr "svc-uid"; sc_entry svc_gvr "svc2-uid"]) pair_work false].

Lemma pair_handlings_ok : Forall (handling_ok pair_known (trackedAppliedManifests (agent pair_tracked))) pair_handlings.
Proof.
  rewrite (proj2 pair_tracked_ok). constructor; [|constructor; [|done]]; split; try (vm_compute; reflexivity); try apply pair_infos.
  - intros old. cbn. by rewrite lookup_singleton_ne.
  - intros old key. cbn. by rewrite lookup_singleton_ne.
  - intros old. cbn. rewrite lookup_singleton_eq. intros [= <-] u g g'.
    intros [[= -> ->]|?%elem_of_nil]%elem_of_cons; [|done]. intros [[= ->]|[[=]|?%elem_of_nil]%elem_of_cons]%elem_of_cons; done.
  - intros old key. cbn. rewrite lookup_singleton_eq. intros [= <-] _ (u & Hl%listed_uid & Hu). destruct Hu.
    apply list_elem_of_singleton in Hl as ->. by left.
Qed.

Lemma pair_disjoint i j h h' :
  pair_handlings !! i = Some h → pair_handlings !! j = Some h' → i ≠ j →
  GetName (h_obj h) ≠ GetName (h_obj h') ∧
  handling_keys pair_known (trackedAppliedManifests (agent pair_tracked)) h ##
    handling_keys pair_known (trackedAppliedManifests (agent pair_tracked)) h'.
Proof.
  rewrite (proj2 pair_tracked_ok).
  destruct i as [|[|]], j as [|[|]]; try done; intros [= <-] [= <-] _; (split; [discriminate|]);
    by apply (bool_decide_unpack _); vm_compute.
Qed.

Lemma pair_final : disjoint_infos (final_table pair_tracked pair_handlings).
Proof.
  unfold final_table. rewrite (proj2 pair_tracked_ok).
  change (disjoint_infos (<["amw2" := manifest_info pair_work]> (<["amw1" := manifest_info sc_work]> {["amw2" := svc_info]}))).
  intros n n' i i' u Hn [[<- <-]|[Hn1 [[<- <-]|[? Hi]]%lookup_insert_Some]]%lookup_insert_Some
    [[E' <-]|[Hn2 [[<- <-]|[? Hi']]%lookup_insert_Some]]%lookup_insert_Some; try done.
  all: try (apply lookup_singleton_Some in Hi as [<- <-]); try (apply lookup_singleton_Some in Hi' as [<- <-]); try done.
  all: cbn; rewrite !elem_of_cons, elem_of_nil; intuition congruence.
Qed.

