(* ===== verification/Queue.v ===== *)
(** * The work queue and the workers

    The work queue of client-go is a library: here are the laws its documentation
    gives (fair: items come out in the order in which they were added; stingy: an
    item is not handed out again before it is done), and what the workers make of
    them: no two workers ever process the same item at the same time. *)

From S2P Require Export Histories.

#[export] Instance Key_countable : Countable Key.
Proof.
  apply (inj_countable' (λ k, (GvkKey k, NamespaceNameKey k, DeletedObject k)) (λ '(g, n, d), MkKey g n d)).
  by intros [].
Defined.

#[export] Instance QueueItem_countable : Countable QueueItem.
Proof.
  apply (inj_countable' (λ i, match i with QKey k => inl k | QOther n => inr n end)
    (λ s, match s with inl k => QKey k | inr n => QOther n end)).
  by intros [].
Defined.

(** ** The queue of an environment *)

(** The items waiting, in order, and those handed out and not done. *)
Class WorkQueue (E : Type) : Type := {
  waiting : E → list QueueItem;
  processing : E → gset QueueItem
}.

Section queue.
Context {RT : GoRuntime} {K : Kube} {E : Type} `{Env : !Environment E} `{WQ : !WorkQueue E}.
Context (cfg : AgentConfig).
Implicit Types p : Process E.

Definition is_get {R} (c : Call R) : bool := match c with CQueueGet => true | _ => false end.
Definition is_done_call {R} (c : Call R) : bool := match c with CQueueDone _ => true | _ => false end.

Record QueueLaws (good : E → Prop) : Prop := {
  (* fair: the item handed out is the first, and others join at the end *)
  queue_fair e i q : good e → waiting e = i :: q →
    (respond CQueueGet e).1 = Some i ∧ (∃ l, waiting (respond CQueueGet e).2 = q ++ l);
  queue_joins {R} (c : Call R) e : good e → is_get c = false → ∃ l, waiting (respond c e).2 = waiting e ++ l;
  (* stingy: an item that is being processed is not handed out *)
  queue_stingy e i : good e → (respond CQueueGet e).1 = Some i →
    (i ∉ processing e) ∧ processing (respond CQueueGet e).2 = {[i]} ∪ processing e;
  queue_shutdown e : good e → (respond CQueueGet e).1 = None → processing (respond CQueueGet e).2 = processing e;
  queue_done e i : good e → processing (respond (CQueueDone i) e).2 = processing e ∖ {[i]};
  queue_other {R} (c : Call R) e : good e → is_get c = false → is_done_call c = false →
    processing (respond c e).2 = processing e
}.

(** ** The discipline of a goroutine

    A goroutine holds at most one item: [CQueueGet] only when it holds none, and
    [CQueueDone] of the item it holds. *)
Definition queue_step (held : option QueueItem) (e : event Op) : option (option QueueItem) :=
  match e with
  | Ev o r =>
      (match o in Op R return R → option (option QueueItem) with
       | Lib c =>
           match c in Call R return R → option (option QueueItem) with
           | CQueueGet => λ r, match held with None => Some r | Some _ => None end
           | CQueueDone i => λ _, if decide (held = Some i) then Some None else None
           | _ => λ _, Some held
           end
       | _ => λ _, Some held
       end) r
  end.

Fixpoint owes (held : option QueueItem) {A} (Q : A → option QueueItem → Prop) (t : prog Op A) : Prop :=
  match t with
  | Ret a => Q a held
  | Crash _ => True
  | Act o k => ∀ r, answers _ o r → ∃ h, queue_step held (Ev o r) = Some h ∧ owes h Q (k r)
  end.

(** What a worker does with no item in its hands: it asks for one, or reports the
    error of the last. *)
Definition idle_op {R} (o : Op R) : bool :=
  match o with Lib c => match c with CQueueGet | CHandleError _ => true | _ => false end | _ => false end.

(** The discipline of a worker: besides, all that it does for an item it does
    while it holds it. *)
Fixpoint works (held : option QueueItem) {A} (Q : A → option QueueItem → Prop) (t : prog Op A) : Prop :=
  match t with
  | Ret a => Q a held
  | Crash _ => True
  | Act o k => (held = None → idle_op o = true) ∧
      ∀ r, answers _ o r → ∃ h, queue_step held (Ev o r) = Some h ∧ works h Q (k r)
  end.

(** A goroutine that ends holds nothing. *)
Abbreviation disciplined held t := (owes held (λ (_ : unit) h, h = None) t).

(** An action that neither takes an item nor finishes one. *)
Definition neutral {R} (o : Op R) : bool :=
  match o with Lib c => negb (is_get c) && negb (is_done_call c) | _ => true end.

Lemma neutral_step held {R} (o : Op R) r : neutral o = true → queue_step held (Ev o r) = Some held.
Proof. destruct o; try done. by destruct c. Qed.

Abbreviation neutral_safe := (safe answers (λ R o, neutral o = true) (λ _, True)).

Lemma owes_bind held {A B} (Q : A → option QueueItem → Prop) (Q' : B → option QueueItem → Prop)
    (t : prog Op A) (f : A → prog Op B) :
  owes held Q t → (∀ a h, Q a h → owes h Q' (f a)) → owes held Q' (t ≫= f).
Proof.
  intros Ht Hf. revert held Ht. induction t as [a|q|R o k IH]; cbn; intros held; [auto..|].
  intros Hk r Hr. destruct (Hk r Hr) as (h & Hh & Ht). eauto.
Qed.

Lemma owes_neutral held {A} (Q : A → Prop) (t : prog Op A) :
  neutral_safe Q t → owes held (λ a h, Q a ∧ h = held) t.
Proof.
  induction t as [a|q|R o k IH]; cbn; [done..|]. intros [Hn Hk] r Hr. exists held.
  split; [by apply neutral_step|]. by apply IH, Hk.
Qed.

Lemma works_owes held {A} (Q : A → option QueueItem → Prop) (t : prog Op A) : works held Q t → owes held Q t.
Proof.
  revert held. induction t as [a|q|R o k IH]; cbn; intros held; [done..|]. intros [_ Hk] r Hr.
  destruct (Hk r Hr) as (h & Hh & Ht). eauto.
Qed.

Lemma works_bind held {A B} (Q : A → option QueueItem → Prop) (Q' : B → option QueueItem → Prop)
    (t : prog Op A) (f : A → prog Op B) :
  works held Q t → (∀ a h, Q a h → works h Q' (f a)) → works held Q' (t ≫= f).
Proof.
  intros Ht Hf. revert held Ht. induction t as [a|q|R o k IH]; cbn; intros held; [auto..|].
  intros [Hi Hk]. split; [done|]. intros r Hr. destruct (Hk r Hr) as (h & Hh & Ht). eauto.
Qed.

Lemma works_neutral item {A} (Q : A → Prop) (t : prog Op A) :
  neutral_safe Q t → works (Some item) (λ a h, Q a ∧ h = Some item) t.
Proof.
  induction t as [a|q|R o k IH]; cbn; [done..|]. intros [Hn Hk]. split; [done|]. intros r Hr. exists (Some item).
  split; [by apply neutral_step|]. by apply IH, Hk.
Qed.

Lemma neutral_disciplined (t : prog Op unit) : neutral_safe (λ _, True) t → disciplined None t.
Proof.
  intros Ht%(owes_neutral None). revert Ht. generalize (None : option QueueItem) at 1 3.
  induction t as [a|q|R o k IH]; cbn; intros held; [by intros []|done|].
  intros Hk r Hr. destruct (Hk r Hr) as (h & ? & ?). eauto.
Qed.

Lemma reconcile_neutral {A} (Q : A → Prop) (t : prog Op A) :
  safe answers (λ R o, reconcile_op o ∧ stores R o) stopper_panic Q t → neutral_safe Q t.
Proof.
  apply safe_weaken; auto. intros R o [Ho _]. destruct o; try done.
  destruct c; try done; destruct Ho as [Ho|[[Ho|Ho]|[]]]; done.
Qed.

Lemma lookup_neutral {A} (Q : A → Prop) (t : prog Op A) :
  safe answers (λ R o, lookup_op o = true) no_panic Q t → neutral_safe Q t.
Proof. intros H. by apply reconcile_neutral, status_reconcile, lookup_status. Qed.

Lemma informer_neutral {A} (Q : A → Prop) crash (t : prog Op A) :
  safe answers (λ R o, informer_op o = true ∧ stores R o) crash Q t → neutral_safe Q t.
Proof. apply safe_weaken; auto. intros R o [Ho _]. destruct o; try done. by destruct c. Qed.

#[local] Arguments reconcile : simpl never.
#[local] Arguments GetObjectFromKey : simpl never.

Lemma processItem_works item : works (Some item) (λ _ h, h = None) (processItem cfg item).
Proof.
  unfold processItem, defer. eapply (works_bind _ (λ _ h, h = Some item)).
  2:{ intros err h ->. split; [done|]. intros [] _. exists None. split; [cbn; by rewrite decide_True|done]. }
  destruct item as [key|n].
  2:{ split; [done|]. intros [] _. exists (Some (QOther n)). split; [done|]. split; [done|]. intros [] _. by eexists. }
  eapply works_bind; [by eapply works_neutral, reconcile_neutral, reconcile_triple|].
  intros [requeue [err|]] h [_ ->]; [|destruct requeue]; (split; [done|]); intros [] _; by eexists.
Qed.

Lemma processNextWorkItem_works : works None (λ _ h, h = None) (processNextWorkItem cfg).
Proof.
  unfold processNextWorkItem. split; [done|]. intros [item|] _; [|by exists None]. exists (Some item). split; [done|].
  eapply works_bind; [apply processItem_works|]. intros [err|] h ->; [|done]. split; [done|]. intros [] _. by eexists.
Qed.

Lemma runWorker_works fuel : works None (λ _ h, h = None) (runWorker fuel cfg).
Proof.
  induction fuel as [|fuel IH]; [done|]. cbn [runWorker].
  eapply works_bind; [apply processNextWorkItem_works|]. by intros [] h ->.
Qed.

Lemma enqueueObject_neutral obj skip :
  is_unstructured obj = true → neutral_safe (λ _, True) (enqueueObject (VObject obj) skip).
Proof.
  intros Hu. unfold enqueueObject, KeyForGroupVersionKindNamespaceName. cbn.
  destruct (MetaNamespaceKeyFunc obj) as [nn|err]; cbn; [|done].
  destruct skip; cbn; [done|].
  eapply safe_bind; [apply lookup_neutral, GetObjectFromKey_safe|]. intros [o|err] _; [done|].
  by destruct (IsNotFound err).
Qed.

Lemma handler_neutral t : handler_event t → neutral_safe (λ _, True) t.
Proof.
  intros [obj Hu|old new Hu|obj Hu|key obj]; [by apply enqueueObject_neutral| |by apply enqueueObject_neutral|done].
  unfold onUpdate, shouldSkipUpdate. cbn. case_bool_decide; [done|by apply enqueueObject_neutral].
Qed.

Lemma handler_disciplined t : handler_event t → disciplined None t.
Proof. intros Ht. by apply neutral_disciplined, handler_neutral. Qed.

Lemma waitForCaches_neutral infs : neutral_safe (λ _, True) (waitForCaches infs).
Proof. induction infs as [|i infs IH]; [done|]. split; [done|]. by intros [] _. Qed.

Lemma startWorkers_neutral n : neutral_safe (λ _, True) (startWorkers n).
Proof. by induction n as [|n IH]. Qed.

Lemma run_agent_neutral workers : neutral_safe (λ _, True) (run_agent workers).
Proof.
  unfold run_agent, defer. eapply (safe_bind _ _ _ (λ _, True)); [|done].
  split; [done|]. intros c _. eapply (safe_bind _ _ _ (λ _, True)); [|done].
  eapply safe_bind; [eapply (informer_neutral _ no_panic), startInformer_safe|]. intros _ _.
  do 2 (split; [done|intros ? _]). cbn [mbind prog_bind].
  eapply safe_bind; [apply waitForCaches_neutral|]. intros [] _; [|done]. cbn [negb].
  eapply safe_bind; [apply startWorkers_neutral|]. done.
Qed.

(** A goroutine is a worker, or has nothing to do with the items of the queue. *)
Definition worker_or_neutral (t : prog Op unit) : Prop := works None (λ _ h, h = None) t ∨ neutral_safe (λ _, True) t.

Lemma body_worker_or_neutral g t :
  (∀ gvrs uids, g = GStartInformers gvrs uids → length uids = length gvrs) → goroutine_body cfg g t →
  worker_or_neutral t.
Proof.
  intros Hlen Hb. destruct Hb as [w|fuel|gvrs uids|i c]; [right|left|right|by right].
  - eapply safe_bind; [apply run_agent_neutral|done].
  - eapply works_bind; [apply runWorker_works|]. by intros b h ->.
  - eapply (informer_neutral _ no_panic). by apply startInformers_triple, Hlen.
Qed.

Lemma worker_or_neutral_disciplined t : worker_or_neutral t → disciplined None t.
Proof. intros [?|?]; [by apply works_owes|by apply neutral_disciplined]. Qed.

Lemma body_disciplined g t :
  (∀ gvrs uids, g = GStartInformers gvrs uids → length uids = length gvrs) → goroutine_body cfg g t →
  disciplined None t.
Proof. intros Hlen Hb. by eapply worker_or_neutral_disciplined, body_worker_or_neutral. Qed.
End queue.
