(* ===== verification/SimQueue.v ===== *)
(** * A concrete environment with a work queue

    The simulation of [SimEnv.v] with a queue that obeys the laws of [Queue.v]:
    an item waits once, an item added while it is processed waits again when it
    is done, and nothing is added after the shutdown.  It also lets an object
    disappear from the caches after a number of lookups, as when it is deleted on
    the cluster.  For the closed executions and the witnesses only. *)

From S2P Require Export Queue.

Record QueueEnv : Type := MkQueueEnv {
  qe_sim : SimEnv;
  qe_waiting : list QueueItem;
  qe_dirty : gset QueueItem;        (* items to process, or to process again *)
  qe_processing : gset QueueItem;
  qe_shut : bool;
  qe_lookups : option nat           (* the lookups by namespace that still find an object; None: all *)
}.

Definition qe_set_sim (e : QueueEnv) (s : SimEnv) : QueueEnv :=
  MkQueueEnv s (qe_waiting e) (qe_dirty e) (qe_processing e) (qe_shut e) (qe_lookups e).

Definition qe_add (i : QueueItem) (e : QueueEnv) : QueueEnv :=
  if qe_shut e || bool_decide (i ∈ qe_dirty e) then e
  else MkQueueEnv (qe_sim e) (if decide (i ∈ qe_processing e) then qe_waiting e else qe_waiting e ++ [i])
         ({[i]} ∪ qe_dirty e) (qe_processing e) (qe_shut e) (qe_lookups e).

Definition qe_get (e : QueueEnv) : option QueueItem * QueueEnv :=
  match qe_waiting e with
  | [] => (None, e)
  | i :: q => (Some i, MkQueueEnv (qe_sim e) q (qe_dirty e ∖ {[i]}) ({[i]} ∪ qe_processing e) (qe_shut e) (qe_lookups e))
  end.

Definition qe_done (i : QueueItem) (e : QueueEnv) : QueueEnv :=
  MkQueueEnv (qe_sim e)
    (if decide (i ∈ qe_dirty e ∧ i ∈ qe_processing e) then qe_waiting e ++ [i] else qe_waiting e)
    (qe_dirty e) (qe_processing e ∖ {[i]}) (qe_shut e) (qe_lookups e).

Definition qe_answer {R} (c : Call R) : QueueEnv → R * QueueEnv :=
  match c in Call R return QueueEnv → R * QueueEnv with
  | CQueueAdd i => λ e, (tt, qe_add i e)
  | CQueueAddRateLimited i => λ e, (tt, qe_add i e)
  | CQueueDone i => λ e, (tt, qe_done i e)
  | CQueueGet => qe_get
  | CQueueShutDown => λ e,
      (tt, MkQueueEnv (qe_sim e) (qe_waiting e) (qe_dirty e) (qe_processing e) true (qe_lookups e))
  | CListerNamespaceGet l ns n => λ e,
      match qe_lookups e with
      | Some 0 => (GErr not_found, e)
      | k =>
          let '(r, s) := respond (CListerNamespaceGet l ns n) (qe_sim e) in
          (r, MkQueueEnv s (qe_waiting e) (qe_dirty e) (qe_processing e) (qe_shut e) (pred <$> k))
      end
  | c => λ e, let '(r, s) := respond c (qe_sim e) in (r, qe_set_sim e s)
  end.

#[export] Instance queue_environment : Environment QueueEnv := λ R c e, qe_answer c e.
#[export] Instance queue_workqueue : WorkQueue QueueEnv := { waiting := qe_waiting; processing := qe_processing }.

(** What waits is to be processed and is not being processed; the rest is the
    simulation's. *)
Record qe_good (e : QueueEnv) : Prop := {
  qe_sim_good : sim_good (qe_sim e);
  qe_apart i : i ∈ qe_waiting e → i ∉ qe_processing e;
  qe_marked i : i ∈ qe_waiting e → i ∈ qe_dirty e;
  qe_once : NoDup (qe_waiting e)
}.

Lemma qe_good_sim e s : qe_good e → sim_good s → qe_good (qe_set_sim e s).
Proof. by intros [] ?. Qed.

Lemma qe_good_lookups e s k :
  qe_good e → sim_good s →
  qe_good (MkQueueEnv s (qe_waiting e) (qe_dirty e) (qe_processing e) (qe_shut e) k).
Proof. by intros [] ?. Qed.

Lemma qe_good_add i e : qe_good e → qe_good (qe_add i e).
Proof.
  intros [Hs Ha Hm Hn]. unfold qe_add. destruct (qe_shut e); cbn; [done|]. case_bool_decide as Hd; [done|].
  assert (i ∉ qe_waiting e) as Hi by (intros ?; by apply Hd, Hm).
  split; cbn; [done|..]; case_decide as Hp.
  - done.
  - intros j [Hj|Hj%list_elem_of_singleton]%elem_of_app; [by apply Ha|by subst].
  - intros j Hj. apply elem_of_union. right. by apply Hm.
  - intros j [Hj|Hj%list_elem_of_singleton]%elem_of_app; [apply elem_of_union; right; by apply Hm|set_solver].
  - done.
  - apply NoDup_app. split_and!; [done| |apply NoDup_singleton]. intros j Hj ->%list_elem_of_singleton. done.
Qed.

Lemma qe_good_get e : qe_good e → qe_good (qe_get e).2.
Proof.
  intros [Hs Ha Hm Hn]. unfold qe_get. destruct (qe_waiting e) as [|i q] eqn:Ew; [split; cbn; by rewrite ?Ew|].
  apply NoDup_cons in Hn as [Hi Hn]. split; cbn; try done.
  - intros j Hj. assert (j ≠ i) by (by intros ->). apply not_elem_of_union. split; [set_solver|]. apply Ha. by right.
  - intros j Hj. assert (j ≠ i) by (by intros ->). apply elem_of_difference. split; [|set_solver]. apply Hm. by right.
Qed.

Lemma qe_good_done i e : qe_good e → qe_good (qe_done i e).
Proof.
  intros [Hs Ha Hm Hn]. unfold qe_done. case_decide as Hd; split; cbn; try done.
  - intros j [Hj|Hj%list_elem_of_singleton]%elem_of_app; [|set_solver]. specialize (Ha j Hj). set_solver.
  - intros j [Hj|Hj%list_elem_of_singleton]%elem_of_app; [by apply Hm|subst; apply Hd].
  - apply NoDup_app. split_and!; [done| |apply NoDup_singleton]. intros j Hj ->%list_elem_of_singleton.
    apply (Ha i Hj), Hd.
  - intros j Hj. specialize (Ha j Hj). set_solver.
Qed.

Lemma qe_env_answers : env_answers qe_good.
Proof.
  intros R c e He. pose proof (sim_env_answers R c (qe_sim e) (qe_sim_good _ He)) as Hsim.
  change (respond c e) with (qe_answer c e).
  destruct c; cbn -[respond sim_environment];
    try (destruct (respond _ (qe_sim e)) as [r s]; destruct Hsim; split; [done|by apply qe_good_sim]).
  - destruct (qe_lookups e) as [[|k]|]; [by split|..]; destruct (respond _ (qe_sim e)) as [r s];
      destruct Hsim; (split; [done|by apply qe_good_lookups]).
  - split; [done|by apply qe_good_add].
  - split; [done|by apply qe_good_add].
  - split; [done|by apply qe_good_done].
  - split; [done|by apply qe_good_get].
  - split; [done|]. by destruct He.
Qed.

Lemma qe_queue_laws : QueueLaws qe_good.
Proof.
  split.
  - intros e i q He Hw. cbn in *. unfold qe_get. rewrite Hw. split; [done|]. exists []. by rewrite app_nil_r.
  - intros R c e He Hg. change (respond c e) with (qe_answer c e). destruct c; try done; cbn -[respond sim_environment];
      try (destruct (respond _ (qe_sim e)) as [r s]; exists []; by rewrite app_nil_r);
      try (exists []; by rewrite app_nil_r).
    + destruct (qe_lookups e) as [[|k]|]; [exists []; by rewrite app_nil_r|..];
        destruct (respond _ (qe_sim e)) as [r s]; exists []; by rewrite app_nil_r.
    + unfold qe_add. case_match; [exists []; by rewrite app_nil_r|]. cbn. destruct (decide (item ∈ qe_processing e)); [exists []; by rewrite app_nil_r|eauto].
    + unfold qe_add. case_match; [exists []; by rewrite app_nil_r|]. cbn. destruct (decide (item ∈ qe_processing e)); [exists []; by rewrite app_nil_r|eauto].
    + cbn. case_decide; [eauto|exists []; by rewrite app_nil_r].
  - intros e i He. cbn. unfold qe_get. destruct (qe_waiting e) as [|j q] eqn:Ew; [done|]. cbn. intros [= ->].
    split; [|done]. apply (qe_apart e); [done|]. rewrite Ew. left.
  - intros e He. cbn. unfold qe_get. by destruct (qe_waiting e).
  - done.
  - intros R c e He Hg Hd. change (respond c e) with (qe_answer c e). destruct c; try done; cbn -[respond sim_environment];
      try (by destruct (respond _ (qe_sim e)) as [r s]).
    + destruct (qe_lookups e) as [[|k]|]; [done|..]; by destruct (respond _ (qe_sim e)).
    + unfold qe_add. by case_match.
    + unfold qe_add. by case_match.
Qed.
