(* ===== verification/Exclusion.v ===== *)
(** * No two workers process one item at the same time

    Executions of the pool with a log of who did what, and mutual exclusion on
    the items of the work queue: it follows from the laws of the queue and the
    discipline of every goroutine ([Queue.v]). *)

From S2P Require Export SimQueue.

Section exclusion.
Context {RT : GoRuntime} {K : Kube} {E : Type} `{Env : !Environment E} `{WQ : !WorkQueue E}.
Context (cfg : AgentConfig).
Implicit Types (p : Process E) (s : System (E := E)).

(** ** Logged executions *)

Abbreviation disciplined held t := (owes held (λ (_ : unit) h, h = None) t).
Abbreviation Log := (list (nat * event Op)).

(** Steps of the pool, with the goroutine that performs each action. *)
Inductive logged : System → Log → System → Prop :=
| LoggedNil s : logged s [] s
| LoggedAct s tr p ts i R (o : Op R) k r p' :
    logged s tr (MkSystem p ts) → ts !! i = Some (Act o k) → exec R o p = Done (r, p') →
    logged s (tr ++ [(i, Ev o r)]) (MkSystem p' (<[i := k r]> ts))
| LoggedGo s tr p ts i g t :
    logged s tr (MkSystem p ts) → spawned p !! i = Some g → goroutine_body cfg g t →
    logged s tr (MkSystem (set_spawned p (delete i (spawned p))) (ts ++ [t]))
| LoggedEvent s tr p ts t :
    logged s tr (MkSystem p ts) → handler_event t → logged s tr (MkSystem p (ts ++ [t])).

Lemma logged_steps s tr s' : logged s tr s' → rtc (step cfg) s s'.
Proof.
  induction 1; [done|..]; (eapply rtc_r; [eassumption|]); [by eapply StepAct|by eapply StepGo|by eapply StepEvent].
Qed.

(** Every execution of the pool has a log. *)
Lemma steps_logged s s' : rtc (step cfg) s s' → ∃ tr, logged s tr s'.
Proof.
  revert s'. apply rtc_ind_r; [by exists []; constructor|]. intros s1 s2 _ Hs [tr IH].
  destruct Hs; eexists; [by eapply LoggedAct|by eapply LoggedGo|by eapply LoggedEvent].
Qed.

(** Schedules, with their logs. *)
Fixpoint acts_log (n i : nat) s : option (Log * System) :=
  match n with
  | 0 => Some ([], s)
  | S n =>
      match threads s !! i with
      | Some (Act o k) =>
          match exec _ o (proc s) with
          | Done (r, p') =>
              '(tr, s') ← acts_log n i (MkSystem p' (<[i := k r]> (threads s)));
              Some ((i, Ev o r) :: tr, s')
          | Panic _ => None
          end
      | _ => None
      end
  end.

Definition choose_log (c : Concurrency.choice) s : option (Log * System) :=
  match c with
  | CAct i => acts_log 1 i s
  | CActs i n => acts_log n i s
  | CGo i fuel => s' ← Concurrency.choose cfg (CGo i fuel) s; Some ([], s')
  end.

Fixpoint schedule_log (cs : list Concurrency.choice) s : option (Log * System) :=
  match cs with
  | [] => Some ([], s)
  | c :: cs =>
      '(tr1, s1) ← choose_log c s;
      '(tr2, s2) ← schedule_log cs s1;
      Some (tr1 ++ tr2, s2)
  end.

Lemma acts_log_logged n i s0 tr s tr' s' :
  logged s0 tr s → acts_log n i s = Some (tr', s') → logged s0 (tr ++ tr') s'.
Proof.
  revert tr s tr'. induction n as [|n IH]; cbn; intros tr s tr' Hl; [intros [= <- <-]; by rewrite app_nil_r|].
  destruct s as [p ts]. cbn. destruct (ts !! i) as [[a|q|R o k]|] eqn:Hi; [done|done| |done].
  destruct (exec R o p) as [[r p']|q] eqn:Hex; [|done].
  destruct (acts_log n i _) as [[tr1 s1]|] eqn:Hn; cbn; [|done]. intros [= <- <-].
  rewrite cons_middle, app_assoc. by eapply IH; [eapply LoggedAct|].
Qed.

Lemma schedule_log_logged cs s0 tr s tr' s' :
  logged s0 tr s → schedule_log cs s = Some (tr', s') → logged s0 (tr ++ tr') s'.
Proof.
  revert tr s tr'. induction cs as [|c cs IH]; cbn; intros tr s tr' Hl; [intros [= <- <-]; by rewrite app_nil_r|].
  destruct (choose_log c s) as [[tr1 s1]|] eqn:Hc; cbn; [|done].
  destruct (schedule_log cs s1) as [[tr2 s2]|] eqn:Hs; cbn; [|done]. intros [= <- <-].
  rewrite app_assoc. eapply IH; [|done]. clear IH Hs. destruct c as [i|i n|i fuel]; [by eapply acts_log_logged..|].
  destruct s as [p ts]. cbn in Hc. destruct (spawned p !! i) as [g|] eqn:Hg; cbn in Hc; [|done].
  injection Hc as <- <-. rewrite app_nil_r. eapply LoggedGo; [done|done|apply body_of_body].
Qed.

Lemma schedule_log_run cs s tr s' : schedule_log cs s = Some (tr, s') → logged s tr s'.
Proof. apply (schedule_log_logged cs s []). constructor. Qed.

(** ** Who works on what *)

(** Goroutine [i] is handed item [x]; goroutine [i] is done with it. *)
Definition takes (i : nat) (x : QueueItem) : nat * event Op := (i, Ev (Lib CQueueGet) (Some x)).
Definition finishes (i : nat) (x : QueueItem) : nat * event Op := (i, Ev (Lib (CQueueDone x)) tt).

(** What each goroutine holds after a log: an item from the moment it is handed out
    until the goroutine is done with it. *)
Definition hold_step (h : nat → option QueueItem) (l : nat * event Op) : nat → option QueueItem :=
  λ j, if decide (j = l.1) then default (h j) (queue_step (h j) l.2) else h j.
Definition holds (tr : Log) : nat → option QueueItem := foldl hold_step (λ _, None) tr.

Lemma holds_snoc tr l : holds (tr ++ [l]) = hold_step (holds tr) l.
Proof. unfold holds. by rewrite foldl_app. Qed.

(** The goroutines keep the discipline, what they hold is being processed, and no
    item is held twice. *)
Record exclusive (good : E → Prop) (tr : Log) s : Prop := {
  ex_system : system_ok good s;
  ex_threads i t : threads s !! i = Some t → disciplined (holds tr i) t;
  ex_absent i : threads s !! i = None → holds tr i = None;
  ex_processing i x : holds tr i = Some x → x ∈ processing (env (proc s));
  ex_once i j x : holds tr i = Some x → holds tr j = Some x → i = j
}.

Lemma exec_env p R (o : Op R) r p' :
  exec R o p = Done (r, p') →
  match o in Op R return R → Prop with
  | Lib c => λ r, respond c (env p) = (r, env p')
  | _ => λ _, env p' = env p
  end r.
Proof.
  destruct o; cbn; intros H; simplify_eq/=; try done.
  - by destruct (chans p !! c) as [[]|]; simplify_eq/=.
  - by destruct (cells p !! addr); simplify_eq/=.
  - by destruct (respond c (env p)); simplify_eq/=.
Qed.

(** What an action of a disciplined goroutine does to the items in process. *)
Lemma held_step good p R (o : Op R) r p' held h :
  QueueLaws good → good (env p) → exec R o p = Done (r, p') → queue_step held (Ev o r) = Some h →
  (∀ x, h = Some x → held = Some x ∨ (x ∉ processing (env p))) ∧
  (∀ x, x ∈ processing (env p') ↔ h = Some x ∨ (x ∈ processing (env p) ∧ (held = Some x → h = Some x))) ∨
  (h = held ∧ processing (env p') = processing (env p)).
Proof.
  intros Hq Hg Hex Hst. pose proof (exec_env p R o r p' Hex) as He.
  destruct o; cbn in He; try (right; split; [by injection Hst as <-|by rewrite He]).
  destruct c; try (right; split; [by injection Hst as <-|];
    match type of He with respond ?c _ = _ => pose proof (queue_other _ Hq c (env p) Hg eq_refl eq_refl) as Ho end;
    by rewrite He in Ho).
  - (* Done *)
    cbn in Hst. case_decide as Hh; [|done]. injection Hst as <-. left. split; [done|]. intros x.
    pose proof (queue_done _ Hq (env p) item Hg) as Hd. rewrite He in Hd. cbn in Hd. rewrite Hd, Hh.
    rewrite elem_of_difference, elem_of_singleton. naive_solver.
  - (* Get *)
    cbn in Hst. destruct held as [y|]; [done|]. injection Hst as <-. destruct r as [x|].
    + left. pose proof (queue_stingy _ Hq (env p) x Hg) as Hs. rewrite He in Hs. destruct (Hs eq_refl) as [Hn Hp].
      cbn in Hp. split; [intros y [= <-]; by right|]. intros y. rewrite Hp, elem_of_union, elem_of_singleton. naive_solver.
    + right. split; [done|]. pose proof (queue_shutdown _ Hq (env p) Hg) as Hs. rewrite He in Hs. by apply Hs.
Qed.

Lemma exclusive_act good tr p ts i R (o : Op R) k r p' :
  env_answers good → QueueLaws good → exclusive good tr (MkSystem p ts) →
  ts !! i = Some (Act o k) → exec R o p = Done (r, p') →
  exclusive good (tr ++ [(i, Ev o r)]) (MkSystem p' (<[i := k r]> ts)).
Proof.
  intros Henv Hq [Hs Ht Ha Hp Ho] Hi Hex. cbn in *.
  pose proof (step_ok cfg good _ _ Henv (StepAct cfg p ts i R o k r p' Hi Hex) Hs) as Hs'.
  destruct Hs as [Hsh Hts]. cbn in *.
  destruct (proj1 (Forall_lookup _ _) Hts _ _ Hi) as [Hop _].
  destruct (exec_shared_ok good p R o r p' Henv Hsh Hop Hex) as [Hr _].
  destruct (Ht i _ Hi r Hr) as (h & Hst & Hk).
  assert (∀ j, holds (tr ++ [(i, Ev o r)]) j = if decide (j = i) then h else holds tr j) as Hh.
  { intros j. rewrite holds_snoc. unfold hold_step. cbn [fst snd]. case_decide; [subst; by rewrite Hst|done]. }
  pose proof (held_step good p R o r p' _ h Hq (so_env _ _ Hsh) Hex Hst) as Hheld.
  split; [done|..]; cbn.
  - intros j t. rewrite Hh. destruct (decide (j = i)) as [->|Hj].
    + rewrite list_lookup_insert_eq by (by eapply lookup_lt_Some). by intros [= <-].
    + rewrite list_lookup_insert_ne by done. apply Ht.
  - intros j. rewrite Hh. destruct (decide (j = i)) as [->|Hj].
    + rewrite list_lookup_insert_eq by (by eapply lookup_lt_Some). done.
    + rewrite list_lookup_insert_ne by done. apply Ha.
  - intros j x. rewrite Hh. destruct Hheld as [[_ Hpr]|[-> ->]].
    + rewrite Hpr. case_decide as Hj; [by left|]. intros Hx. right. split; [by eapply Hp|].
      intros Hx'. destruct Hj. by eapply Ho.
    + case_decide as Hj; [subst|]; apply Hp.
  - intros j1 j2 x. rewrite !Hh. destruct Hheld as [[Hnew _]|[-> _]].
    + case_decide as H1; case_decide as H2; subst; [done| | |apply Ho].
      * intros [Hx|Hx]%Hnew Hx2; [by eapply Ho|]. destruct Hx. by eapply Hp.
      * intros Hx1 [Hx|Hx]%Hnew; [by eapply Ho|]. destruct Hx. by eapply Hp.
    + case_decide; case_decide; subst; try apply Ho; done.
Qed.

Lemma exclusive_thread good tr p ts t p' :
  exclusive good tr (MkSystem p ts) → system_ok good (MkSystem p' (ts ++ [t])) → env p' = env p →
  disciplined None t → exclusive good tr (MkSystem p' (ts ++ [t])).
Proof.
  intros [Hs Ht Ha Hp Ho] Hs' He Hd. cbn in *. split; [done|..]; cbn.
  - intros i t'. rewrite lookup_app. destruct (ts !! i) as [u|] eqn:Hi; [intros [= <-]; by apply Ht|].
    intros Hu. rewrite (Ha i Hi). apply list_lookup_singleton_Some in Hu as [_ <-]. done.
  - intros i. rewrite lookup_app. destruct (ts !! i) eqn:Hi; [done|]. intros _. by apply Ha.
  - rewrite He. apply Hp.
  - apply Ho.
Qed.

Lemma logged_exclusive good s tr s' :
  env_answers good → QueueLaws good → logged s tr s' → exclusive good [] s → exclusive good tr s'.
Proof.
  intros Henv Hq Hlog Hs. induction Hlog as [|s tr p ts i R o k r p' _ IH|s tr p ts i g t _ IH Hg Hb|s tr p ts t _ IH Hb]; [done|..].
  - eapply exclusive_act; [done|done|by apply IH|done|done].
  - specialize (IH Hs). pose proof (ex_system _ _ _ IH) as Hok.
    apply (exclusive_thread good tr p ts t); [done| |done|].
    + apply (step_ok cfg good (MkSystem p ts)); [done|by eapply StepGo|done].
    + eapply (body_disciplined cfg g); [|done]. intros gvrs uids ->.
      by eapply (so_spawned _ _ (proj1 Hok)), list_elem_of_lookup_2.
  - specialize (IH Hs). apply (exclusive_thread good tr p ts t); [done| |done|by apply handler_disciplined].
    apply (step_ok cfg good (MkSystem p ts)); [done|by eapply StepEvent|apply IH].
Qed.

Lemma initial_exclusive good m workers e :
  good e → exclusive good [] (initial m workers e).
Proof.
  intros He. split; try done; [by apply initial_ok|].
  intros i t Hi. apply list_lookup_singleton_Some in Hi as [_ <-].
  apply (body_disciplined cfg (GRun workers)); [by intros ? ? [=]|constructor].
Qed.

(** ** The log of an execution *)

Definition performs p p' (e : event Op) : Prop := match e with Ev o r => exec _ o p = Done (r, p') end.

Lemma logged_snoc good s tr l s' :
  env_answers good → QueueLaws good → exclusive good [] s →
  logged s (tr ++ [l]) s' →
  ∃ p ts p', logged s tr (MkSystem p ts) ∧ exclusive good tr (MkSystem p ts) ∧ performs p p' l.2 ∧
    is_Some (queue_step (holds tr l.1) l.2).
Proof.
  intros Henv Hq Hs Hlog. remember (tr ++ [l]) as tr' eqn:Etr.
  induction Hlog as [|s tr' p ts i R o k r p' Hlog IH Hi Hex|s tr' p ts i g t Hlog IH|s tr' p ts t Hlog IH]; [|eauto..].
  - by destruct tr.
  - apply app_inj_tail in Etr as [-> <-]. exists p, ts, p'. pose proof (logged_exclusive good _ _ _ Henv Hq Hlog Hs) as Hx.
    split_and!; try done. cbn [fst snd].
    destruct (ex_system _ _ _ Hx) as [Hsh Hts]. destruct (proj1 (Forall_lookup _ _) Hts _ _ Hi) as [Hop _].
    destruct (exec_shared_ok good p R o r p' Henv Hsh Hop Hex) as [Hr _].
    destruct (ex_threads _ _ _ Hx i _ Hi r Hr) as (h & -> & _). by eexists.
Qed.

(** Only [Done] makes a goroutine let go of an item. *)
Lemma queue_step_release x (e : event Op) h :
  queue_step (Some x) e = Some h → h = Some x ∨ e = Ev (Lib (CQueueDone x)) tt.
Proof.
  destruct e as [R o r]. destruct o; try (cbn; intros [= <-]; by left).
  destruct c; cbn; try (intros [= <-]; by left).
  case_decide as Hx; [|done]. injection Hx as <-. destruct r. by right.
Qed.

Lemma holds_release tr tr2 i x :
  holds tr i = Some x → holds (tr ++ tr2) i ≠ Some x →
  ∃ work rest, tr2 = work ++ finishes i x :: rest ∧ holds (tr ++ work ++ [finishes i x]) i = None.
Proof.
  revert tr. induction tr2 as [|[j e] tr2 IH]; intros tr Hx; [by rewrite app_nil_r|].
  rewrite cons_middle, app_assoc. intros Hn.
  assert (holds (tr ++ [(j, e)]) i = if decide (i = j) then default (Some x) (queue_step (Some x) e) else Some x) as Hh.
  { rewrite holds_snoc. unfold hold_step. cbn [fst snd]. by rewrite Hx. }
  destruct (decide (holds (tr ++ [(j, e)]) i = Some x)) as [Hs|Hs].
  - destruct (IH _ Hs Hn) as (work & rest & -> & Hd). exists ((j, e) :: work), rest. split; [done|].
    by rewrite <- app_comm_cons, cons_middle, app_assoc.
  - rewrite Hh in Hs. case_decide as Hj; [subst j|done]. destruct (queue_step (Some x) e) as [h|] eqn:Hq; [|done].
    destruct (queue_step_release _ _ _ Hq) as [->| ->]; [done|]. exists [], tr2. split; [done|].
    cbn [app]. unfold finishes. rewrite Hh. cbn in Hq |- *. rewrite decide_True in Hq by done. congruence.
Qed.

(** ** The beginnings of an execution *)

Lemma logged_last s tr i e s' :
  logged s (tr ++ [(i, e)]) s' →
  ∃ p ts R (o : Op R) r k, e = Ev o r ∧ logged s tr (MkSystem p ts) ∧ ts !! i = Some (Act o k).
Proof.
  intros Hlog. remember (tr ++ [(i, e)]) as tr' eqn:Etr.
  induction Hlog as [|s tr' p ts j R o k r p' Hlog IH Hj Hex|s tr' p ts j g t Hlog IH|s tr' p ts t Hlog IH]; [by destruct tr| |eauto..].
  apply app_inj_tail in Etr as [-> [= -> <-]]. eauto 10.
Qed.

Lemma logged_before s tr1 tr2 s' : logged s (tr1 ++ tr2) s' → ∃ s1, logged s tr1 s1.
Proof.
  revert s'. induction tr2 as [|[i e] tr2 IH] using rev_ind; intros s'; [rewrite app_nil_r; eauto|].
  rewrite app_assoc. intros (p & ts & R & o & r & k & _ & Hl & _)%logged_last. eauto.
Qed.

(** An action that neither takes an item nor finishes one. *)
Definition neutral_event (e : event Op) : bool := match e with Ev o _ => neutral o end.
(** An action of a worker between two items. *)
Definition idle_event (e : event Op) : bool := match e with Ev o _ => idle_op o end.

(** ** Workers at rest *)

Lemma logged_thread s tr s' j e : logged s tr s' → (j, e) ∈ tr → is_Some (threads s' !! j).
Proof.
  induction 1 as [|s tr p ts i R o k r p' Hlog IH Hi Hex|s tr p ts i g t Hlog IH|s tr p ts t Hlog IH]; cbn [threads] in *.
  - by intros ?%elem_of_nil.
  - rewrite list_lookup_insert_is_Some. intros [Hin|[= -> _]%list_elem_of_singleton]%elem_of_app; [auto|by eexists].
  - intros Hin. rewrite lookup_app. destruct (IH Hin) as [u ->]. by eexists.
  - intros Hin. rewrite lookup_app. destruct (IH Hin) as [u ->]. by eexists.
Qed.

(** What a goroutine is, after a log: a worker, with what it holds, or one that has
    nothing to do with the items of the queue, and has never been handed one. *)
Definition role (tr : Log) (i : nat) (t : prog Op unit) : Prop :=
  works (holds tr i) (λ (_ : unit) h, h = None) t ∨
  (holds tr i = None ∧ safe answers (λ R o, neutral o = true) (λ _, True) (λ _, True) t ∧ ∀ y, takes i y ∉ tr).

Lemma role_starts good tr s i t :
  exclusive good tr s → (∀ e, (i, e) ∉ tr) → threads s !! i = None → worker_or_neutral t → role tr i t.
Proof.
  intros Hx Hno Hi Ht. unfold role. rewrite (ex_absent _ _ _ Hx i Hi).
  destruct Ht; [by left|right]. split_and!; [done|done|]. intros y. apply Hno.
Qed.

(** A goroutine that has been handed an item is a worker. *)
Lemma logged_workers good s tr s' :
  env_answers good → QueueLaws good → logged s tr s' → exclusive good [] s →
  (∀ i t, threads s !! i = Some t → worker_or_neutral t) →
  ∀ i t, threads s' !! i = Some t → role tr i t.
Proof.
  intros Henv Hq Hlog Hs Hw.
  assert (∀ tr p ts j t, logged s tr (MkSystem p ts) → ts !! j = None → worker_or_neutral t → role tr j t) as Hstarts.
  { intros tr' p ts j t Hl Hj. eapply (role_starts good tr' (MkSystem p ts)); [by eapply logged_exclusive| |done].
    intros e He. destruct (logged_thread _ _ _ _ _ Hl He) as [u Hu]. cbn in Hu. congruence. }
  induction Hlog as [s|s tr p ts i R o k r p' Hlog IH Hi Hex|s tr p ts i g t Hlog IH Hg Hb|s tr p ts t Hlog IH Hb]; cbn [threads] in *.
  - intros i t Hi. destruct (Hw i t Hi); [by left|right]. split_and!; [done|done|]. intros y. apply not_elem_of_nil.
  - intros j t Hj. specialize (IH Hs Hw Hstarts). unfold role. rewrite holds_snoc. unfold hold_step. cbn [fst snd].
    destruct (decide (j = i)) as [->|Hji].
    2:{ rewrite list_lookup_insert_ne in Hj by done. destruct (IH j t Hj) as [?|(? & ? & Hno)]; [by left|right].
        split_and!; [done..|]. intros y [?|[= ? _]%list_elem_of_singleton]%elem_of_app; [by eapply Hno|done]. }
    rewrite list_lookup_insert_eq in Hj by (by eapply lookup_lt_Some). injection Hj as <-.
    pose proof (logged_exclusive good _ _ _ Henv Hq Hlog Hs) as Hx.
    destruct (ex_system _ _ _ Hx) as [Hsh Hts]. destruct (proj1 (Forall_lookup _ _) Hts _ _ Hi) as [Hop _].
    destruct (exec_shared_ok good p R o r p' Henv Hsh Hop Hex) as [Hr _].
    destruct (IH i _ Hi) as [[_ Hk]|(Hh & [Hn Hk] & Hno)].
    + destruct (Hk r Hr) as (h & -> & Ht). by left.
    + right. rewrite (neutral_step _ _ _ Hn). cbn. split_and!; [done|by apply Hk|].
      intros y [?|Hy%list_elem_of_singleton]%elem_of_app; [by eapply Hno|].
      apply (f_equal (λ l, neutral_event l.2)) in Hy. cbn in Hy. congruence.
  - intros j t'. rewrite lookup_app. specialize (IH Hs Hw Hstarts). destruct (ts !! j) as [u|] eqn:Hj; [intros [= <-]; by apply IH|].
    intros Hu. apply list_lookup_singleton_Some in Hu as [_ <-]. eapply Hstarts; [done..|].
    pose proof (logged_exclusive good _ _ _ Henv Hq Hlog Hs) as Hx.
    eapply (body_worker_or_neutral cfg g); [|done]. intros gvrs uids ->.
    by eapply (so_spawned _ _ (proj1 (ex_system _ _ _ Hx))), list_elem_of_lookup_2.
  - intros j t'. rewrite lookup_app. specialize (IH Hs Hw Hstarts). destruct (ts !! j) as [u|] eqn:Hj; [intros [= <-]; by apply IH|].
    intros Hu. apply list_lookup_singleton_Some in Hu as [_ <-]. eapply Hstarts; [done..|].
    right. by apply handler_neutral.
Qed.

(** Once it has let go of an item, a worker stays idle until it takes another. *)
Lemma idle_between good m workers e tr i e' s :
  env_answers good → QueueLaws good → good e →
  logged (initial m workers e) (tr ++ [(i, e')]) s → holds tr i = None → (∃ y, takes i y ∈ tr) → idle_event e' = true.
Proof.
  intros Henv Hq He Hlog Hh [y Hy]. pose proof (initial_exclusive good m workers e He) as H0.
  destruct (logged_last _ _ _ _ _ Hlog) as (p & ts & R & o & r & k & -> & Hl & Hi).
  assert (role tr i (Act o k)) as [Hw|(_ & _ & Hno)]; [|rewrite Hh in Hw; by apply Hw|by destruct (Hno y)].
  apply (logged_workers good _ _ _ Henv Hq Hl H0); [|done].
  intros j t Hj. apply list_lookup_singleton_Some in Hj as [_ <-].
  apply (body_worker_or_neutral cfg (GRun workers)); [by intros ? ? [=]|constructor].
Qed.

Lemma holds_idle good m workers e tr tr2 i s :
  env_answers good → QueueLaws good → good e →
  logged (initial m workers e) (tr ++ tr2) s → holds tr i = None → (∀ y, takes i y ∉ tr2) → holds (tr ++ tr2) i = None.
Proof.
  intros Henv Hq He Hlog Hh. revert s Hlog. induction tr2 as [|[j ev] tr2 IH] using rev_ind; intros s Hlog Hno; [by rewrite app_nil_r|].
  rewrite app_assoc in Hlog |- *. destruct (logged_before _ _ _ _ Hlog) as [s1 H1].
  specialize (IH s1 H1 ltac:(intros y Hy; apply (Hno y), elem_of_app; by left)).
  rewrite holds_snoc. unfold hold_step. cbn [fst snd]. case_decide as Hj; [subst j|done]. rewrite IH.
  destruct (logged_snoc good _ _ _ _ Henv Hq (initial_exclusive good m workers e He) Hlog) as (_ & _ & _ & _ & _ & _ & [h Hst]).
  cbn [fst snd] in Hst. rewrite IH in Hst. rewrite Hst. cbn. destruct h as [y|]; [|done].
  destruct (Hno y). apply elem_of_app. right. apply list_elem_of_singleton. unfold takes. f_equal.
  destruct ev as [R o r]. destruct o; try done. destruct c; try done; cbn in Hst; congruence.
Qed.

(** C10: in every execution of the pool, whatever its interleaving, an item of the
    work queue is processed by one goroutine at a time.  Between two deliveries of an
    item, the goroutine that got it first has called [Done] for it; and from then
    until it is handed its next item, that goroutine does nothing but report an
    error and ask for an item.  So all that it does for the item, the whole of the
    reconciliation, comes before the item is handed out again. *)
Theorem workers_exclude good m workers e tr1 i x tr2 j s :
  env_answers good → QueueLaws good → good e →
  logged (initial m workers e) (tr1 ++ takes i x :: tr2 ++ [takes j x]) s →
  ∃ work rest, tr2 = work ++ finishes i x :: rest ∧
    ∀ before e' after, rest = before ++ (i, e') :: after → (∀ y, takes i y ∉ before) → idle_event e' = true.
Proof.
  intros Henv Hq He Hlog. pose proof (initial_exclusive good m workers e He) as H0.
  rewrite (app_comm_cons tr2 [takes j x]), app_assoc in Hlog.
  destruct (logged_snoc good _ _ _ _ Henv Hq H0 Hlog) as (p & ts & p' & Hpre & Hx & Hget & _).
  assert (holds (tr1 ++ takes i x :: tr2) i ≠ Some x) as Hfree.
  { intros Hh%(ex_processing _ _ _ Hx). cbn in Hget, Hh.
    destruct (queue_stingy _ Hq (env p) x (so_env _ _ (proj1 (ex_system _ _ _ Hx)))) as [Hn _]; [|done].
    destruct (respond CQueueGet (env p)). by injection Hget. }
  rewrite cons_middle, app_assoc in Hfree, Hpre. destruct (logged_before _ _ _ _ Hpre) as [s1 H1].
  destruct (logged_snoc good _ _ _ _ Henv Hq H0 H1) as (_ & _ & _ & _ & _ & _ & [h Hh]).
  destruct (holds_release (tr1 ++ [takes i x]) tr2 i x) as (work & rest & -> & Hnone); [|exact Hfree|].
  { rewrite holds_snoc. unfold hold_step. cbn [takes fst snd] in *. rewrite decide_True, Hh by done. cbn in *.
    destruct (holds tr1 i); [done|]. by injection Hh as <-. }
  exists work, rest. split; [done|]. intros before e' after -> Hno. clear Hlog Hfree Hx Hget.
  set (gone := ((tr1 ++ [takes i x]) ++ work) ++ [finishes i x]).
  rewrite app_assoc in Hnone. change (holds gone i = None) in Hnone.
  assert (logged (initial m workers e) (((gone ++ before) ++ [(i, e')]) ++ after) (MkSystem p ts)) as Hall.
  { unfold gone. rewrite <- !app_assoc. rewrite <- !app_assoc in Hpre. exact Hpre. }
  destruct (logged_before _ _ _ _ Hall) as [s2 H2]. destruct (logged_before _ _ _ _ H2) as [s3 H3].
  eapply idle_between; [done..|exact H2|by eapply holds_idle|].
  exists x. unfold gone. rewrite <- !app_assoc. apply elem_of_app. right. left.
Qed.
End exclusion.

(** ** Closed executions *)

Definition qe_process (e : QueueEnv) : Process QueueEnv :=
  MkProcess (sc_agent [amw_key; sc_key]) (list_to_map [(0, false); (1, false); (2, false)])%N ∅ 3 [] e.

(** The deployment has changed, its key is on the queue, and the deployment is
    deleted after one more lookup of it. *)
Definition stale_env : QueueEnv :=
  MkQueueEnv (sc_env [ex_amw] [ex_obj] [sc_manifestwork] [] None []) [QKey ex_key] {[QKey ex_key]} ∅ false (Some 1).

Definition worker (fuel : nat) : prog Op unit := _ ← runWorker fuel sc_config; mret tt.

(** The WorkStatus objects on the hub, and nothing is left to do. *)
Definition hub_statuses (s : System (E := QueueEnv)) : list (string * string) :=
  (map_to_list (se_workstatuses (qe_sim (env (proc s))))).*1.
Definition at_rest (s : System (E := QueueEnv)) : Prop :=
  quiescent s ∧ qe_waiting (env (proc s)) = [] ∧ processing (env (proc s)) = ∅ ∧ qe_lookups (env (proc s)) = Some 0.
#[export] Instance at_rest_dec s : Decision (at_rest s).
Proof. unfold at_rest. apply _. Defined.

Definition stale_start : System := MkSystem (qe_process stale_env) [worker 1; onDelete (VObject ex_obj); worker 1].

(** C28: the exclusion is of items, and an object has more than one: the key of a
    deleted object holds a pointer to a new copy, so it is not the key its earlier
    events queued.  A worker that has found the object, and is about to create its
    WorkStatus, is overtaken by the worker that handles the deletion: everything
    comes to rest with the object gone and its WorkStatus on the hub for good.
    One worker after the other, the WorkStatus is deleted. *)
Theorem deletion_overtakes_creation :
  (∃ s, rtc (step sc_config) stale_start s ∧ at_rest s ∧ length (hub_statuses s) = 1) ∧
  (∃ s, rtc (step sc_config) stale_start s ∧ at_rest s ∧ hub_statuses s = []).
Proof.
  split.
  - apply (schedule_reaches _ [CActs 0 10; CActs 1 4; CActs 2 10; CActs 0 4] _ (λ s, _ ∧ _)).
    vm_compute. reflexivity.
  - apply (schedule_reaches _ [CActs 0 14; CActs 1 4; CActs 2 10] _ (λ s, _ ∧ _)).
    vm_compute. reflexivity.
Qed.

(** A manifest that lists no resource yet is handed out again and again. *)
Definition again_start : System :=
  initial (K := sim_kube) sc_table 1
    (MkQueueEnv (sc_env [sc_amw []] [] [] [] None []) [QKey sc_amw_key] {[QKey sc_amw_key]} ∅ false (Some 0)).
Definition again_run : list (nat * event Op) * System :=
  default ([], again_start) (schedule_log sc_config [CActs 0 12; CGo 1 2; CActs 1 6] again_start).

(** Only whether the schedule runs is computed, not what it ends with. *)
Lemma again_logged : logged sc_config again_start again_run.1 again_run.2.
Proof.
  apply (schedule_log_run sc_config [CActs 0 12; CGo 1 2; CActs 1 6]). unfold again_run.
  assert (is_Some (schedule_log sc_config [CActs 0 12; CGo 1 2; CActs 1 6] again_start)) as [[tr s] ->].
  - apply is_Some_alt. vm_compute. exact I.
  - reflexivity.
Qed.

Definition again_item : QueueItem := QKey sc_amw_key.
Definition again_before : list (nat * event Op) := take 12 again_run.1.
Definition again_between : list (nat * event Op) := take 4 (drop 13 again_run.1).

Lemma list_two {A} (l : list A) n m x y :
  n < m → length l = S m → l !! n = Some x → l !! m = Some y →
  l = take n l ++ x :: take (m - S n) (drop (S n) l) ++ [y].
Proof.
  intros Hnm Hl Hx Hy. rewrite <- (take_drop_middle l n x Hx) at 1. do 2 f_equal.
  assert (drop (S n) l !! (m - S n) = Some y) as Hy'.
  { rewrite lookup_drop. replace (S n + (m - S n)) with m by lia. done. }
  rewrite <- (take_drop_middle _ _ _ Hy') at 1. do 2 f_equal.
  apply length_zero_iff_nil. rewrite !length_drop. lia.
Qed.

Lemma again_split : again_run.1 = again_before ++ takes 1 again_item :: again_between ++ [takes 1 again_item].
Proof.
  apply (list_two again_run.1 12 17); [lia|vm_compute; reflexivity..].
Qed.

Lemma again_good : qe_good (MkQueueEnv (sc_env [sc_amw []] [] [] [] None []) [QKey sc_amw_key] {[QKey sc_amw_key]} ∅ false (Some 0)).
Proof.
  split; cbn.
  - split; [reflexivity|]. intros k o. cbn. intros [[_ <-]|[_ [=]]]%lookup_insert_Some. reflexivity.
  - intros i _. apply not_elem_of_empty.
  - intros i ->%list_elem_of_singleton. by apply elem_of_singleton.
  - apply NoDup_singleton.
Qed.

Lemma workers_exclude_witness :
  ∃ work rest, again_between = work ++ finishes 1 again_item :: rest ∧
    ∀ before e' after, rest = before ++ (1, e') :: after → (∀ y, takes 1 y ∉ before) → idle_event e' = true.
Proof.
  apply (workers_exclude (K := sim_kube) (E := QueueEnv) sc_config qe_good sc_table 1
    (MkQueueEnv (sc_env [sc_amw []] [] [] [] None []) [QKey sc_amw_key] {[QKey sc_amw_key]} ∅ false (Some 0))
    again_before 1 again_item again_between 1 again_run.2 qe_env_answers qe_queue_laws again_good).
  rewrite <- again_split. exact again_logged.
Defined.
