(* ===== verification/Liveness.v ===== *)
(** * Progress: every item waiting is processed, and every item taken is finished

    First a worker that serves the queue, with the goroutines its reconciliations
    start: whatever is added or added back meanwhile, an item is finished after as
    many iterations as its position says.  Then the pool: under weak fairness, a
    goroutine that has taken an item finishes it, in every interleaving. *)

From S2P Require Export Exclusion.

Section serving.
Context {RT : GoRuntime} {K : Kube} {E : Type} `{Env : !Environment E} `{WQ : !WorkQueue E}.
Context (cfg : AgentConfig).
Context (known : GroupVersionResource → option GroupVersionKind) (good : E → Prop).
Context (owner : string → string) (resource : string → GroupVersionResource).
Implicit Types p : Process E.
Abbreviation run := (run (exec (E := E))).
Abbreviation run_log := (run_log (exec (E := E))).
Abbreviation history_ok := (history_ok known good owner resource).
Abbreviation ValidEnvironment := (ValidEnvironment known good owner resource).

Lemma history_good p : history_ok p → good (env p).
Proof. intros []. by destruct history_agent. Qed.

(** ** A worker that serves the queue *)

(** The items finished in a trace. *)
Definition finished_item (e : event Op) : option QueueItem :=
  match e with
  | Ev o _ => match o with Lib c => match c with CQueueDone i => Some i | _ => None end | _ => None end
  end.
Definition finished_items (tr : list (event Op)) : list QueueItem := omap finished_item tr.

(** One iteration of a worker's loop, then the goroutines it has started. *)
Definition serve_next p : outcome (list (event Op) * Process E) :=
  let '(tr, out) := run_log (processNextWorkItem cfg) (set_spawned p []) in
  '(_, p1) ← out;
  '(_, p2) ← run (run_started (spawned p1)) (set_spawned p1 []);
  Done (tr, p2).

(** Several iterations, with the actions of the worker. *)
Fixpoint serve_times (n : nat) p : outcome (list (event Op) * Process E) :=
  match n with
  | 0 => Done ([], p)
  | S n =>
      '(tr, p1) ← serve_next p;
      '(more, p2) ← serve_times n p1;
      Done (tr ++ more, p2)
  end.

(** The copy an item points to exists. *)
Definition item_ok p (item : QueueItem) : Prop := match item with QKey key => key_ok p key | QOther _ => True end.

(** ** Lemmas *)

Lemma finished_app tr1 tr2 : finished_items (tr1 ++ tr2) = finished_items tr1 ++ finished_items tr2.
Proof. apply omap_app. Qed.

(** Other actions than [CQueueGet] and [CQueueDone] finish nothing and take
    nothing away from the queue. *)
Lemma neutral_run {A} (Q : A → Prop) (t : prog Op A) p :
  env_answers good → QueueLaws good → shared_ok good p →
  safe answers (λ R o, reconcile_op o ∧ stores R o) stopper_panic Q t →
  finished_items (run_log t p).1 = [] ∧
  ∀ a p', run t p = Done (a, p') → ∃ l, waiting (env p') = waiting (env p) ++ l.
Proof.
  intros Henv Hq. revert p. induction t as [a|q|R o k IH]; intros p Hp; cbn; [|done|].
  { intros _. split; [done|]. intros b p' [= _ <-]. exists []. by rewrite app_nil_r. }
  intros [Ho Hk]. destruct (exec R o p) as [[r p1]|q] eqn:Hex; [|done].
  assert (agent_op R o) as Hop by (split; [left|]; apply Ho).
  destruct (exec_shared_ok good p R o r p1 Henv Hp Hop Hex) as [Hr Hp1].
  destruct (IH r p1 Hp1 (Hk r Hr)) as [Hf Hw].
  assert (∃ l, waiting (env p1) = waiting (env p) ++ l) as [l1 H1].
  { pose proof (exec_env p R o r p1 Hex) as He.
    destruct o; try (exists []; by rewrite He, app_nil_r).
    assert (is_get c = false) as Hc.
    { destruct c; try done; destruct Ho as [[Ho|[[Ho|Ho]|[]]] _]; done. }
    destruct (queue_joins _ Hq c (env p) (so_env _ _ Hp) Hc) as [l Hl]. rewrite He in Hl. eauto. }
  split.
  - change (Runtime.run_log (exec (E := E)) (k r) p1) with (run_log (k r) p1).
    destruct (run_log (k r) p1) as [tr out] eqn:Hlog. cbn in Hf |- *. unfold finished_items in *. cbn.
    destruct o; try exact Hf. destruct c; try exact Hf; destruct Ho as [[Ho|[[Ho|Ho]|[]]] _]; done.
  - intros a p' Hrun. destruct (Hw a p' Hrun) as [l2 H2]. exists (l1 ++ l2). by rewrite H2, H1, app_assoc.
Qed.

#[local] Arguments reconcile : simpl never.
#[local] Arguments run_started : simpl never.

(** The process after an item: the goroutines it has started may run whenever. *)
Definition served p p1 : Prop :=
  good (env p1) ∧ (∃ l, waiting (env p1) = waiting (env p) ++ l) ∧ cells p1 = cells p ∧
  shared_ok good p1 ∧
  ∀ e, good e → ∃ p2, run (run_started (spawned p1)) (resume p1 [] e) = Done (tt, p2) ∧
    agent_ok known good p2 ∧
    ∀ name info, trackedAppliedManifests (agent p2) !! name = Some info → owned known owner resource name info.

(** Library calls after the reconciliation do not change that. *)
Lemma served_lib (Hv : ValidEnvironment) (Hq : QueueLaws good) {R} (c : Call R) p p1 :
  is_get c = false → served p p1 → served p (resume p1 (spawned p1) (respond c (env p1)).2).
Proof.
  intros Hc (Hg & [l Hl] & Hce & Hs & Hrun). split_and!; try done.
  - by apply (valid_answers _ _ _ _ Hv).
  - destruct (queue_joins _ Hq c (env p1) Hg Hc) as [l2 H2]. exists (l ++ l2). cbn. by rewrite H2, Hl, app_assoc.
  - destruct Hs. split; try done. by apply (valid_answers _ _ _ _ Hv).
Qed.

(** A run that goes on with one library call. *)
Lemma lib_log {R A} (c : Call R) (f : R → prog Op A) p :
  run_log (r ← act (Lib c); f r) p =
    (Ev (Lib c) (respond c (env p)).1 :: (run_log (f (respond c (env p)).1) (resume p (spawned p) (respond c (env p)).2)).1,
     (run_log (f (respond c (env p)).1) (resume p (spawned p) (respond c (env p)).2)).2).
Proof.
  cbn. destruct (respond c (env p)) as [r e]. cbn. unfold resume.
  by destruct (Runtime.run_log _ _ _).
Qed.

Lemma reconcile_served (Hv : ValidEnvironment) (Hq : QueueLaws good) key p :
  history_ok p → spawned p = [] → key_ok p key →
  ∃ tr r p1, run_log (reconcile cfg key) p = (tr, Done (r, p1)) ∧ finished_items tr = [] ∧ served p p1.
Proof.
  intros Hp Hs Hkey.
  destruct (reconcile_serves cfg known good owner resource Hv key p Hp Hs Hkey) as (r & p1 & Hr & Hg & Hgs).
  assert (shared_ok good p) as Hsh by (by eapply agent_shared, spawned_lengths).
  pose proof (valid_answers _ _ _ _ Hv) as Henv.
  destruct (cells_run good (λ _, True) (reconcile cfg key) p r p1) as [Hc Hsh1];
    [done|done|apply reconcile_triple|done|].
  destruct (neutral_run (λ _, True) (reconcile cfg key) p Henv Hq Hsh) as [Hf Hw]; [apply reconcile_triple|].
  destruct (run_log (reconcile cfg key) p) as [tr out] eqn:Hl.
  pose proof (run_log_run (exec (E := E)) (reconcile cfg key) p) as Hl2. rewrite Hl, Hr in Hl2. cbn in Hl2. subst.
  exists tr, r, p1. split; [done|]. split; [done|]. split_and!; [done|by eapply Hw|done|done|].
  intros e He. destruct (Hgs e He) as (p2 & Hr2 & Hok2 & Ht2). exists p2. split; [done|]. split; [done|].
  rewrite Ht2. apply observed_owned; [apply Hp|]. intros obj del. by eapply observe_valid.
Qed.

(** A program that finishes one item and starts nothing but informers. *)
Definition serves_item {A} (t : prog Op A) (items : list QueueItem) p : Prop :=
  ∃ tr a p1, run_log t p = (tr, Done (a, p1)) ∧ finished_items tr = items ∧ served p p1.

(** The calls after the reconciliation: one more, or none. *)
Lemma serves_lib (Hv : ValidEnvironment) (Hq : QueueLaws good) {R A} (c : Call R) (a : R → A) tr p p1 :
  is_get c = false → served p p1 →
  ∃ p2, run_log (r ← act (Lib c); mret (a r)) p1 = ([Ev (Lib c) (respond c (env p1)).1], Done (a (respond c (env p1)).1, p2)) ∧
    finished_items (tr ++ [Ev (Lib c) (respond c (env p1)).1]) =
      finished_items tr ++ match finished_item (Ev (Lib c) (respond c (env p1)).1) with Some i => [i] | None => [] end ∧
    served p p2.
Proof.
  intros Hc Hs. eexists. rewrite lib_log. split; [done|]. split.
  - by rewrite finished_app.
  - by apply served_lib.
Qed.

Lemma processItem_serves (Hv : ValidEnvironment) (Hq : QueueLaws good) item p :
  history_ok p → spawned p = [] → item_ok p item → serves_item (processItem cfg item) [item] p.
Proof.
  intros Hp Hs Hi. unfold serves_item, processItem, defer.
  assert (∀ (body : prog Op (option error)), serves_item body [] p →
    serves_item (r ← body; _ ← act (Lib (CQueueDone item)); Ret r) [item] p) as Hdone.
  { intros body (tr & err & p1 & Hl & Hf & Hsv). unfold serves_item. rewrite run_log_bind, Hl. cbn [snd fst].
    destruct (serves_lib Hv Hq (CQueueDone item) (λ _, err) tr p p1 eq_refl Hsv) as (p2 & Hr & Hf2 & Hsv2).
    eexists _, err, p2. unfold mret, prog_ret in Hr. rewrite Hr. split; [done|]. split; [|done].
    cbn [fst]. rewrite Hf2, Hf. done. }
  apply Hdone. clear Hdone. destruct item as [key|n].
  - destruct (reconcile_served Hv Hq key p Hp Hs Hi) as (tr & [requeue rerr] & p1 & Hl & Hf & Hsv).
    assert (∀ (c : Call unit) (a : option error), is_get c = false → finished_item (Ev (Lib c) tt) = None →
      ∃ tr' a' p2, (tr ++ (run_log (_ ← act (Lib c); mret a) p1).1, (run_log (_ ← act (Lib c); mret a) p1).2) =
        (tr', Done (a', p2)) ∧ finished_items tr' = [] ∧ served p p2) as Hnext.
    { intros c a Hc Hn. destruct (serves_lib Hv Hq c (λ _, a) tr p p1 Hc Hsv) as (p2 & Hr & Hf2 & Hsv2).
      eexists _, a, p2. rewrite Hr. split; [done|]. split; [|done]. cbn [fst].
      rewrite Hf2, Hf. destruct (respond c (env p1)) as [[] ?]. cbn [fst]. by rewrite Hn. }
    unfold serves_item. rewrite run_log_bind, Hl. cbn [snd fst].
    destruct rerr as [e|]; [|destruct requeue]; by apply Hnext.
  - unfold serves_item. rewrite !lib_log. eexists _, None, _. split; [done|]. split; [done|].
    assert (served p p) as Hsv.
    { split_and!; [by apply history_good|by exists []; rewrite app_nil_r|done|by eapply agent_shared, spawned_lengths|].
      intros e He. rewrite Hs. exists (resume p [] e). split; [done|]. split; [apply resume_ok; [apply Hp|done]|apply Hp]. }
    apply (served_lib Hv Hq (CHandleError _) p (resume p _ _)); [done|].
    by apply (served_lib Hv Hq (CQueueForget _) p p).
Qed.

Lemma processNextWorkItem_serves (Hv : ValidEnvironment) (Hq : QueueLaws good) item q p :
  history_ok p → spawned p = [] → item_ok p item → waiting (env p) = item :: q →
  ∃ tr p0 p1, run_log (processNextWorkItem cfg) p = (tr, Done (true, p1)) ∧ finished_items tr = [item] ∧
    served p0 p1 ∧ cells p0 = cells p ∧ ∃ l, waiting (env p0) = q ++ l.
Proof.
  intros Hp Hs Hi Hw. destruct (queue_fair _ Hq _ _ _ (history_good _ Hp) Hw) as [Hget [l Hl]].
  pose proof (proj2 (valid_answers _ _ _ _ Hv _ CQueueGet _ (history_good _ Hp))) as Hg.
  unfold processNextWorkItem. rewrite lib_log, Hget.
  set (p0 := resume p (spawned p) (respond CQueueGet (env p)).2).
  assert (history_ok p0) as Hp0.
  { split; [apply resume_ok; [apply Hp|done]|apply Hp|apply Hp]. }
  destruct (processItem_serves Hv Hq item p0 Hp0 Hs Hi) as (tr & err & p1 & Hr & Hf & Hsv).
  rewrite run_log_bind, Hr. cbn [snd fst]. destruct err as [err|].
  - destruct (serves_lib Hv Hq (CHandleError err) (λ _, true) tr p0 p1 eq_refl Hsv) as (p2 & Hr2 & Hf2 & Hsv2).
    rewrite Hr2. eexists _, p0, p2. split; [done|]. split; [|eauto].
    cbn [fst]. unfold finished_items in *. cbn. rewrite Hf2, Hf. done.
  - eexists _, p0, p1. split; [done|]. cbn. rewrite app_nil_r. split; [|eauto]. exact Hf.
Qed.

Lemma serve_next_serves (Hv : ValidEnvironment) (Hq : QueueLaws good) item q p :
  history_ok p → item_ok p item → waiting (env p) = item :: q →
  ∃ tr p', serve_next p = Done (tr, p') ∧ finished_items tr = [item] ∧ history_ok p' ∧ cells p' = cells p ∧ ∃ l, waiting (env p') = q ++ l.
Proof.
  intros Hp Hi Hw.
  destruct (processNextWorkItem_serves Hv Hq item q (set_spawned p [])) as (tr & p0 & p1 & Hl & Hf & (Hg & [l1 H1] & Hc & Hsh & Hgs) & Hc0 & l & Hw0);
    [by apply history_spawned|done..|].
  destruct (Hgs (env p1) Hg) as (p2 & Hr2 & Hok2 & Ht2).
  unfold serve_next. rewrite Hl. cbn. change (set_spawned p1 []) with (resume p1 [] (env p1)). rewrite Hr2. cbn.
  exists tr, p2. split; [done|]. split; [done|].
  assert (shared_ok good (resume p1 [] (env p1))) as Hsh1.
  { destruct Hsh. split; try done. by intros ? ? ?%elem_of_nil. }
  assert (safe answers (λ R o, reconcile_op o ∧ stores R o) stopper_panic (λ _, True) (run_started (spawned p1))) as Hsafe
    by apply run_started_triple, Hsh.
  destruct (cells_run good _ _ _ _ _ (valid_answers _ _ _ _ Hv) Hsh1 Hsafe Hr2) as [Hc2 _].
  destruct (neutral_run _ _ _ (valid_answers _ _ _ _ Hv) Hq Hsh1 Hsafe) as [_ Hw2].
  destruct (Hw2 _ _ Hr2) as [l2 H2].
  assert (cells p2 = cells p) as Hcp by (rewrite Hc2; cbn; by rewrite Hc, Hc0). split_and!; [|done|].
  - split; [done|done|]. rewrite Hcp. apply Hp.
  - exists ((l ++ l1) ++ l2). rewrite H2. cbn. by rewrite H1, Hw0, !app_assoc.
Qed.

(** C11: no item starves: an item at position [n] of the queue is finished by the
    [n+1]-th iteration of a worker that serves the queue, each with the goroutines
    it starts before the next, whatever the calls add to the queue and whatever is
    added back; the iterations serve the items in the order in which they wait,
    each exactly once, and no iteration panics.  This is so from an agent whose
    informers are in step, when the queue is fair, discovery always succeeds and
    knows the resources that manifests list, each manifest in the caches, the
    copies and the table lists an object once, no object is in two manifests or
    changes its resource, and the copies the keys point to exist.  (After a failed
    discovery an iteration can panic:
    [LifecycleProps.startInformers_discovery_failure].) *)
Theorem no_starvation (Hv : ValidEnvironment) (Hq : QueueLaws good) n p :
  history_ok p → Forall (item_ok p) (waiting (env p)) → n < length (waiting (env p)) →
  ∃ tr p', serve_times (S n) p = Done (tr, p') ∧ finished_items tr = take (S n) (waiting (env p)) ∧ history_ok p' ∧
    ∃ later, waiting (env p') = drop (S n) (waiting (env p)) ++ later.
Proof.
  assert (∀ n p, history_ok p → ∀ w l, Forall (item_ok p) w → waiting (env p) = w ++ l → n ≤ length w →
    ∃ tr p', serve_times n p = Done (tr, p') ∧ finished_items tr = take n w ∧ history_ok p' ∧ ∃ later, waiting (env p') = drop n w ++ later) as Hn.
  { clear n p. induction n as [|n IH]; intros p Hp w l Hw El Hlen; [by exists [], p; eauto|].
    destruct w as [|item w]; [simpl in Hlen; lia|]. apply Forall_cons in Hw as [Hi Hw].
    destruct (serve_next_serves Hv Hq item (w ++ l) p Hp Hi El) as (tr1 & p1 & Hr1 & Hf1 & Hp1 & Hc1 & l1 & H1).
    destruct (IH p1 Hp1 w (l ++ l1)) as (tr2 & p2 & Hr2 & Hf2 & Hp2 & Hl2); [|by rewrite H1, app_assoc|simpl in Hlen; lia|].
    { eapply Forall_impl; [exact Hw|]. intros [key|m]; [|done]. cbn. unfold key_ok. by rewrite Hc1. }
    exists (tr1 ++ tr2), p2. cbn [serve_times]. rewrite Hr1. cbn. rewrite Hr2, finished_app, Hf1, Hf2. eauto. }
  intros Hp Hw Hlen. apply (Hn (S n) p Hp _ []); [done|by rewrite app_nil_r|lia].
Qed.
End serving.

(** ** Fair executions of the pool *)

Section fairness.
Context {RT : GoRuntime} {K : Kube} {E : Type} `{Env : !Environment E} `{WQ : !WorkQueue E}.
Context (cfg : AgentConfig).
Implicit Types (p : Process E) (s : System (E := E)).

(** One step, with what was done by whom; the pool may also idle. *)
Inductive pool_step : System → option (nat * event Op) → System → Prop :=
| PoolAct p ts i R (o : Op R) k r p' :
    ts !! i = Some (Act o k) → exec R o p = Done (r, p') →
    pool_step (MkSystem p ts) (Some (i, Ev o r)) (MkSystem p' (<[i := k r]> ts))
| PoolGo p ts i g t :
    spawned p !! i = Some g → goroutine_body cfg g t →
    pool_step (MkSystem p ts) None (MkSystem (set_spawned p (delete i (spawned p))) (ts ++ [t]))
| PoolEvent p ts t : handler_event t → pool_step (MkSystem p ts) None (MkSystem p (ts ++ [t]))
| PoolIdle s : pool_step s None s.

Record Execution : Type := MkExecution {
  state : nat → System (E := E);
  label : nat → option (nat * event Op);
  execution_step n : pool_step (state n) (label n) (state (S n))
}.

(** The next action of goroutine [i] is possible (it does not panic). *)
Definition can_act (i : nat) s : Prop :=
  ∃ R (o : Op R) k r p', threads s !! i = Some (Act o k) ∧ exec R o (proc s) = Done (r, p').

(** Goroutine [i] has panicked, or does so with its next action. *)
Definition panicked (i : nat) s : Prop :=
  ∃ t : prog Op unit, threads s !! i = Some t ∧
    match t with
    | Ret _ => False
    | Crash _ => True
    | Act o _ => ∃ q, exec _ o (proc s) = Panic q
    end.

(** Weak fairness: a goroutine that can act is not passed over for ever. *)
Definition fair (x : Execution) (i : nat) : Prop :=
  ∀ n, ∃ m, n ≤ m ∧ ((∃ e, label x m = Some (i, e)) ∨ ¬ can_act i (state x m)).

(** The log up to a time. *)
Fixpoint log (x : Execution) (n : nat) : list (nat * event Op) :=
  match n with
  | 0 => []
  | S n => log x n ++ match label x n with Some l => [l] | None => [] end
  end.

Lemma log_logged x n : logged cfg (state x 0) (log x n) (state x n).
Proof.
  induction n as [|n IH]; [constructor|]. cbn. pose proof (execution_step x n) as Hs. revert IH Hs.
  generalize (log x n) (state x n) (label x n) (state x (S n)). intros tr s l s' IH Hs.
  destruct Hs; rewrite ?app_nil_r; [by eapply LoggedAct|by eapply LoggedGo|by eapply LoggedEvent|done].
Qed.

(** A goroutine changes only by its own actions. *)
Lemma thread_stays x n i t :
  threads (state x n) !! i = Some t → (∀ e, label x n ≠ Some (i, e)) → threads (state x (S n)) !! i = Some t.
Proof.
  pose proof (execution_step x n) as Hs. revert Hs.
  generalize (state x n) (label x n) (state x (S n)). intros s l s' Hs Ht Hl.
  destruct Hs as [p ts j R o k r p' Hj Hex| | |s]; cbn in *; try done; try by apply lookup_app_l_Some.
  rewrite list_lookup_insert_ne; [done|]. intros ->. by eapply Hl.
Qed.

Lemma log_stays x n i : (∀ e, label x n ≠ Some (i, e)) → holds (log x (S n)) i = holds (log x n) i.
Proof.
  intros Hl. cbn [log]. destruct (label x n) as [[j e]|]; [|by rewrite app_nil_r].
  rewrite holds_snoc. unfold hold_step. cbn [fst snd]. rewrite decide_False; [done|]. intros ->. by eapply Hl.
Qed.

(** The next moment at which fairness serves a goroutine. *)
Lemma fair_next x i n t :
  fair x i → threads (state x n) !! i = Some t →
  ∃ m, n ≤ m ∧ threads (state x m) !! i = Some t ∧ holds (log x m) i = holds (log x n) i ∧
    ((∃ e, label x m = Some (i, e)) ∨ ¬ can_act i (state x m)).
Proof.
  intros Hf Ht. destruct (Hf n) as (m & Hm & Hserved).
  remember (m - n) as d eqn:Hd. revert n Hm Hd Ht. induction d as [|d IH]; intros n Hm Hd Ht.
  { assert (m = n) as -> by lia. by exists n. }
  destruct (label x n) as [[j e]|] eqn:Hl; [destruct (decide (j = i)) as [->|Hj]|].
  { exists n. split_and!; [lia|done|done|eauto]. }
  all: assert (∀ e', label x n ≠ Some (i, e')) as Hne by (intros e'; rewrite Hl; congruence).
  all: destruct (IH (S n)) as (m' & ? & ? & Hh & ?); [lia|lia|by apply thread_stays|].
  all: exists m'; rewrite Hh, log_stays by done; split_and!; [lia|done|done|done].
Qed.

(** What a program does next is smaller than the program. *)
Definition continues (t' t : prog Op unit) : Prop :=
  match t with Act o k => ∃ r, t' = k r | _ => False end.
Lemma continues_wf : well_founded continues.
Proof. intros t. induction t as [a|q|R o k IH]; constructor; [done..|]. intros t' [r ->]. apply IH. Qed.

Section item.
Context (good : E → Prop) (Henv : env_answers good) (Hq : QueueLaws good).
Context (x : Execution) (m : RESTMapper) (workers : Z) (e : E).
Context (He : good e) (H0 : state x 0 = initial m workers e).

Lemma log_exclusive n : exclusive good (log x n) (state x n).
Proof.
  eapply logged_exclusive; [done..|apply log_logged|]. rewrite H0. by apply initial_exclusive.
Qed.

(** An action of a goroutine that holds an item: it finishes the item, or goes on. *)
Lemma held_action n i t item ev :
  threads (state x n) !! i = Some t → holds (log x n) i = Some item → label x n = Some (i, ev) →
  (i, ev) = finishes i item ∨
  (holds (log x (S n)) i = Some item ∧ ∃ t', threads (state x (S n)) !! i = Some t' ∧ continues t' t).
Proof.
  intros Ht Hh Hl. pose proof (log_logged x (S n)) as Hlog. cbn in Hlog. rewrite Hl, H0 in Hlog.
  destruct (logged_snoc cfg good _ _ _ _ Henv Hq (initial_exclusive cfg good m workers e He) Hlog)
    as (_ & _ & _ & _ & _ & _ & [h Hst]).
  cbn [fst snd] in Hst. rewrite Hh in Hst.
  destruct (queue_step_release _ _ _ Hst) as [->| ->]; [right|by left]. split.
  - cbn [log]. rewrite Hl, holds_snoc. unfold hold_step. cbn [fst snd]. by rewrite decide_True, Hh, Hst.
  - pose proof (execution_step x n) as Hs. rewrite Hl in Hs. revert Hs Ht.
    generalize (state x n) (state x (S n)). intros s s' Hs.
    inversion Hs as [p ts j R o k r p' Hj Hex| | |]; subst; cbn. rewrite Hj. intros [= <-].
    exists (k r). split; [|by exists r]. apply list_lookup_insert_eq. by eapply lookup_lt_Some.
Qed.

Lemma held_finishes i item t :
  fair x i → ∀ n, threads (state x n) !! i = Some t → holds (log x n) i = Some item →
  ∃ n', n ≤ n' ∧ (label x n' = Some (finishes i item) ∨ panicked i (state x n')).
Proof.
  intros Hf. induction (continues_wf t) as [t _ IH]. intros n Ht Hh.
  destruct (fair_next x i n t Hf Ht) as (n1 & Hle & Ht1 & Hh1 & Hserved). rewrite Hh in Hh1.
  destruct Hserved as [[ev Hl]|Hno].
  - destruct (held_action n1 i t item ev Ht1 Hh1 Hl) as [Hfin|(Hh2 & t' & Ht' & Hc)].
    + exists n1. split; [done|]. left. by rewrite Hl, Hfin.
    + destruct (IH t' Hc (S n1) Ht' Hh2) as (n2 & ? & ?). exists n2. split; [lia|done].
  - exists n1. split; [done|]. right. exists t. split; [done|].
    pose proof (ex_threads _ _ _ (log_exclusive n1) i t Ht1) as Howes. rewrite Hh1 in Howes.
    destruct t as [[]|q|R o k]; [by cbn in Howes|done|].
    destruct (exec R o (proc (state x n1))) as [[r p']|q] eqn:Hex; [|eauto].
    destruct Hno. by exists R, o, k, r, p'.
Qed.
End item.

(** C12: in every fair execution of the pool, a goroutine that has been handed an
    item later calls [Done] for it, or panics: no worker keeps an item for ever, so
    an item that is added while it is processed is handed out again. *)
Theorem taken_items_finish good (x : Execution) m workers e i item n :
  env_answers good → QueueLaws good → good e → state x 0 = initial m workers e → fair x i →
  label x n = Some (takes i item) →
  ∃ n', n < n' ∧ (label x n' = Some (finishes i item) ∨ panicked i (state x n')).
Proof.
  intros Henv Hq He H0 Hf Hn.
  pose proof (log_logged x (S n)) as Hlog. cbn in Hlog. rewrite Hn, H0 in Hlog.
  destruct (logged_snoc cfg good _ _ _ _ Henv Hq (initial_exclusive cfg good m workers e He) Hlog)
    as (_ & _ & _ & _ & _ & _ & [h Hst]). cbn [fst snd takes] in Hst.
  assert (holds (log x (S n)) i = Some item) as Hh.
  { cbn [log]. rewrite Hn, holds_snoc. unfold hold_step. cbn [takes fst snd]. rewrite decide_True, Hst by done.
    cbn in *. destruct (holds (log x n) i); [done|]. by injection Hst as <-. }
  destruct (threads (state x (S n)) !! i) as [t|] eqn:Ht.
  - destruct (held_finishes good Henv Hq x m workers e He H0 i item t Hf (S n) Ht Hh) as (n' & ? & ?).
    exists n'. split; [lia|done].
  - pose proof (ex_absent _ _ _ (log_exclusive good Henv Hq x m workers e He H0 (S n)) i Ht). congruence.
Qed.

(** ** Executions from schedules: one choice, or none, at each time *)

Definition do_choice (c : option Concurrency.choice) s : option (nat * event Op) * System :=
  match c with
  | Some (CAct i) =>
      match threads s !! i with
      | Some (Act o k) =>
          match exec _ o (proc s) with
          | Done (r, p') => (Some (i, Ev o r), MkSystem p' (<[i := k r]> (threads s)))
          | Panic _ => (None, s)
          end
      | _ => (None, s)
      end
  | Some (CGo i fuel) => (None, default s (Concurrency.choose cfg (CGo i fuel) s))
  | _ => (None, s)
  end.

Lemma do_choice_step c s : pool_step s (do_choice c s).1 (do_choice c s).2.
Proof.
  destruct c as [[i|i n|i fuel]|]; cbn; try constructor; destruct s as [p ts]; cbn.
  - destruct (ts !! i) as [[a|q|R o k]|] eqn:Hi; try constructor.
    destruct (exec R o p) as [[r p']|q] eqn:Hex; [by eapply PoolAct|constructor].
  - destruct (spawned p !! i) as [g|] eqn:Hg; cbn; [|constructor]. eapply PoolGo; [done|apply body_of_body].
Qed.

Fixpoint scheduled (f : nat → option Concurrency.choice) s (n : nat) : System :=
  match n with 0 => s | S n => (do_choice (f n) (scheduled f s n)).2 end.

Definition execution_of (f : nat → option Concurrency.choice) s : Execution :=
  MkExecution (scheduled f s) (λ n, (do_choice (f n) (scheduled f s n)).1) (λ n, do_choice_step _ _).

Lemma scheduled_rest f s n m : (∀ k, n ≤ k → f k = None) → n ≤ m → scheduled f s m = scheduled f s n.
Proof. intros Hf. induction 1 as [|m Hm IH]; [done|]. cbn. by rewrite Hf, IH by done. Qed.

(** A schedule that ends with the goroutine at rest is fair to it. *)
Lemma execution_of_fair f s n i :
  (∀ k, n ≤ k → f k = None) → match scheduled f s n with MkSystem _ ts => match ts !! i with Some (Ret _) => True | _ => False end end →
  fair (execution_of f s) i.
Proof.
  intros Hf Ht k. exists (Nat.max n k). split; [lia|]. right. cbn. rewrite (scheduled_rest f s n) by (done || lia).
  intros (R & o & kk & r & p' & Ha & _). destruct (scheduled f s n) as [p ts]. cbn in Ha. by rewrite Ha in Ht.
Qed.
End fairness.

(** ** Closed instances *)

Definition once_choices : list Concurrency.choice := replicate 12 (CAct 0) ++ [CGo 1 1] ++ replicate 5 (CAct 1).
Definition once : Execution sc_config := execution_of sc_config (λ n, once_choices !! n) again_start.

Lemma taken_items_finish_witness :
  ∃ n', 13 < n' ∧ (label _ once n' = Some (finishes 1 again_item) ∨ panicked 1 (state _ once n')).
Proof.
  apply (taken_items_finish (K := sim_kube) (E := QueueEnv) sc_config qe_good once sc_table 1
    (MkQueueEnv (sc_env [sc_amw []] [] [] [] None []) [QKey sc_amw_key] {[QKey sc_amw_key]} ∅ false (Some 0))
    1 again_item 13 qe_env_answers qe_queue_laws again_good).
  - reflexivity.
  - apply (execution_of_fair _ _ _ 18); [intros k Hk; by apply lookup_ge_None_2|].
    vm_cast_no_check I.
  - vm_cast_no_check (eq_refl (Some (takes 1 again_item))).
Defined.

(** The queue over the scenario's caches. *)
Definition qe_cached (e : QueueEnv) : Prop := qe_good e ∧ sc_cached (qe_sim e).

Lemma qe_cached_step {R} (c : Call R) e : qe_cached e → qe_cached (respond c e).2.
Proof.
  intros [Hg Hc]. split; [by apply qe_env_answers|].
  assert (∀ R (c : Call R) e, sc_cached e → sc_cached (respond c e).2) as Hstep.
  { clear. intros R c e [Hd Hc]. destruct c; try done; cbn; unfold sim_write; cbn; repeat case_match; done. }
  pose proof (Hstep R c (qe_sim e) Hc) as Hs. change (respond c e) with (qe_answer c e).
  destruct c; cbn -[respond sim_environment]; try done;
    try (by destruct (respond _ (qe_sim e))); try (unfold qe_add, qe_get; by repeat case_match).
Qed.

Lemma qe_cached_laws : QueueLaws qe_cached.
Proof.
  destruct qe_queue_laws as [H1 H2 H3 H4 H5 H6].
  split; intros *; intros [Hg _]; [by apply H1|by apply H2|by apply H3|by apply H4|by apply H5|by apply H6].
Qed.

Lemma qe_cached_valid : ValidEnvironment sc_known qe_cached sc_owner sc_resource.
Proof.
  destruct sc_cached_valid as [_ Hd H1 H2]. split.
  - intros R c e He. split; [by apply qe_env_answers, He|by apply qe_cached_step].
  - split; [intros R c e; apply qe_cached_step|]. intros e [_ [He _]].
    destruct (stable_ok _ _ sc_stable (qe_sim e) He) as (gr & e' & Hr & Hm). exists gr, (qe_set_sim e e'). split; [|done].
    change (respond CGetAPIGroupResources e) with (let '(r, s) := respond CGetAPIGroupResources (qe_sim e) in (r, qe_set_sim e s)).
    by rewrite Hr.
  - intros l n e [_ He]. specialize (H1 l n (qe_sim e) He). change (respond (CListerGet l n) e) with
      (let '(r, s) := respond (CListerGet l n) (qe_sim e) in (r, qe_set_sim e s)). by destruct (respond _ (qe_sim e)).
  - intros l ns n e [_ He]. specialize (H2 l ns n (qe_sim e) He).
    change (respond (CListerNamespaceGet l ns n) e) with (qe_answer (CListerNamespaceGet l ns n) e).
    cbn -[respond sim_environment]. destruct (qe_lookups e) as [[|k]|]; [done|..]; by destruct (respond _ (qe_sim e)).
Qed.

(** Two items wait: a value that is no key, and the manifest's. *)
Definition wait_env : QueueEnv :=
  MkQueueEnv (sc_env [sc_manifest] [] [] [] None []) [QOther 7; QKey sc_amw_key] {[QOther 7; QKey sc_amw_key]} ∅ false (Some 0).

Lemma wait_env_cached : qe_cached wait_env.
Proof.
  assert (∀ k o, se_cache (qe_sim wait_env) !! k = Some o → o = sc_manifest) as Hc.
  { intros k o. cbn. by intros [[_ <-]|[_ [=]]]%lookup_insert_Some. }
  split; [split; cbn|split; [done|]].
  - split; [done|]. by intros k o ->%Hc.
  - intros i _. apply not_elem_of_empty.
  - set_solver.
  - apply (bool_decide_unpack _). vm_compute. exact I.
  - intros k o ->%Hc. apply sc_manifest_valid.
Qed.

Definition start_up : prog Op unit := stopper ← act ChanMake; startAppliedManifestWorkInformer stopper.
Definition waiting_after (o : outcome (unit * Process QueueEnv)) : list QueueItem :=
  match o with Done (_, p) => waiting (env p) | Panic _ => [] end.

Lemma start_up_waiting :
  waiting_after (run (exec (E := QueueEnv)) start_up (proc (initial (K := sim_kube) sc_table 0 wait_env))) =
  [QOther 7; QKey sc_amw_key].
Proof. vm_compute. reflexivity. Qed.

Lemma no_starvation_witness :
  ∃ tr p p', serve_times sc_config 2 p = Done (tr, p') ∧ finished_items tr = [QOther 7; QKey sc_amw_key].
Proof.
  destruct (started_agent_ok (K := sim_kube) (E := QueueEnv) sc_known qe_cached sc_owner sc_resource sc_table wait_env
    qe_cached_valid wait_env_cached) as (p & Hr & Hp & _).
  - intros gvr gvk. unfold sc_known. case_decide; [|discriminate]. intros [= <-]. subst. reflexivity.
  - pose proof (f_equal waiting_after Hr) as Hw. fold start_up in Hw. rewrite start_up_waiting in Hw. cbn in Hw.
    destruct (no_starvation sc_config sc_known qe_cached sc_owner sc_resource qe_cached_valid qe_cached_laws 1 p Hp)
      as (tr & p' & Hs & Hf & _).
    + cbn. rewrite <- Hw. constructor; [exact I|]. constructor; [|constructor]. intros a. discriminate.
    + cbn. rewrite <- Hw. cbn. lia.
    + exists tr, p, p'. cbn in Hf. rewrite <- Hw in Hf. split; [exact Hs|exact Hf].
Defined.
