(* ===== verification/World.v ===== *)
(** * The world of the agent

    The hub and the caches of the listers are states of the world, which the calls
    of the agent read and change by the laws below.  What is to be reported of an
    object, and what the programs that only report do to the world. *)

From S2P Require Export Liveness HubStore.

(** ** The world *)

Section world.
Context {RT : GoRuntime} {K : Kube}.

(** The objects of the cluster are found by lister, namespace (empty for none) and
    name. *)
Class World (E : Type) : Type := {
  statuses : E → Store;
  manifests : E → gmap (string * string) ManifestWork;
  cluster : E → Lister → string → string → option Object
}.

(** What a lister answers for an object that is there, or is not. *)
Definition lists (o : option Object) (r : result Object) : Prop :=
  match r with GOk obj => o = Some obj | GErr err => o = None ∧ IsNotFound err = true end.
End world.

Section reports.
Context {RT : GoRuntime} {K : Kube} {E : Type} `{Env : !Environment E} `{WQ : !WorkQueue E} `{W : !World E}.
Context (cfg : AgentConfig) (good : E → Prop).
Implicit Types (p : Process E) (s : Store).
Abbreviation run := (run (exec (E := E))).
Abbreviation run_log := (run_log (exec (E := E))).

(** The hub's part: every call is a step of the store, or leaves it alone, and any
    call may be answered with an error.  The cluster's part: the listers answer with the objects there are, and those do not change for now. *)
Record WorldLaws : Prop := {
  world_keyed (e : E) : good e → well_keyed (statuses e);
  world_calls {R} (c : Call R) (e : E) : good e →
    match hub_call c (respond c e).1 with
    | Some ev => hub_step (manifests e) (statuses e) ev (statuses (respond c e).2)
    | None => statuses (respond c e).2 = statuses e
    end;
  world_quiet {R} (c : Call R) (e : E) : good e →
    manifests (respond c e).2 = manifests e ∧ cluster (respond c e).2 = cluster e;
  world_get l n (e : E) : good e → lists (cluster e l "" n) (respond (CListerGet l n) e).1;
  world_namespace_get l ns n (e : E) : good e → ns ≠ "" → lists (cluster e l ns n) (respond (CListerNamespaceGet l ns n) e).1
}.

Definition same_world (e e' : E) : Prop := manifests e' = manifests e ∧ cluster e' = cluster e.

(** ** What is to be reported *)

(** The applied manifest work of an object, as the agent's lister has it. *)
Definition manifest_of p (obj : Object) : option AppliedManifestWork :=
  if decide (GetAppliedManifestWorkName obj = "") then None
  else
    lister ← listers (agent p) !! AppliedManifestWorkKey;
    o ← cluster (env p) lister "" (GetAppliedManifestWorkName obj);
    match ToAppliedManifestWork o with GOk aWork => Some aWork | GErr _ => None end.

(** The manifest work of an object, and its WorkStatus on the hub. *)
Definition status_keys p (obj : Object) : option ((string * string) * (string * string)) :=
  aWork ← manifest_of p obj;
  match BuildWorkstatusName aWork obj with
  | Done name => Some ((clusterName cfg, amw_ManifestWorkName aWork), (clusterName cfg, name))
  | Panic _ => None
  end.

(** The object an item is about, and whether it is deleted, when its status is to
    be reported. *)
Definition item_report p (item : QueueItem) : option (Object * bool) :=
  match item with
  | QKey key =>
      '(obj, del) ← observe key p;
      if IsManagedByAppliedManifestWork obj then Some (obj, del) else None
  | QOther _ => None
  end.

(** An item that is not about an applied manifest work. *)
Definition workload p (item : QueueItem) : Prop :=
  match item with
  | QKey key => ∀ obj del, observe key p = Some (obj, del) → IsAppliedManifestWork (VObject obj) = false
  | QOther _ => True
  end.

(** What one report does to the hub, by the error it returns, when the hub has
    refused the deletions [d]: that error is not returned. *)
Definition reported p (obj : Object) (del : bool) (err : option error) (d : list (string * string)) s s' : Prop :=
  match status_keys p obj with
  | None => s' = s ∧ err ≠ None
  | Some (mkey, k) =>
      if del then only_at k s s' ∧ (s' !! k = None ∨ s' !! k = s !! k) ∧ (err = None → s' !! k = None ∨ k ∈ d)
      else synced (manifests (env p)) mkey obj k s s' err
  end.

(** The hub shows the object as it is: its status and singleton label, nothing when
    it is deleted or when its manifest work is not KubeStellar's. *)
Definition up_to_date p (obj : Object) (del : bool) s : Prop :=
  ∃ mkey k, status_keys p obj = Some (mkey, k) ∧
    if del then s !! k = None
    else (∃ ws, s !! k = Some ws ∧ mirrors obj ws) ∨ (s !! k = None ∧ unmanaged (manifests (env p)) mkey).

(** The items about the WorkStatus of [obj] are about [obj]. *)
Definition agrees p (items : list QueueItem) (obj : Object) (del : bool) : Prop :=
  ∀ item obj' del' mkey mkey' k, item ∈ items → item_report p item = Some (obj', del') →
    status_keys p obj = Some (mkey, k) → status_keys p obj' = Some (mkey', k) →
    del' = del ∧ (del = false → obj' = obj).

(** Items about one WorkStatus are about one object. *)
Definition distinct_statuses p (items : list QueueItem) : Prop :=
  ∀ item obj del, item ∈ items → item_report p item = Some (obj, del) → agrees p items obj del.

(** The items given back to the queue in a trace. *)
Definition readded_item (e : event Op) : option QueueItem :=
  match e with
  | Ev o _ => match o with Lib c => match c with CQueueAddRateLimited i => Some i | _ => None end | _ => None end
  end.
Definition readded_items (tr : list (event Op)) : list QueueItem := omap readded_item tr.

(** The deletions the hub has refused in a trace. *)
Definition trace_refusals (tr : list (event Op)) : list (string * string) := refused_deletions (hub_trace tr).

(** ** Lemmas *)

Context (Henv : env_answers good) (Hw : WorldLaws) (Hq : QueueLaws good).

Lemma readded_app tr1 tr2 : readded_items (tr1 ++ tr2) = readded_items tr1 ++ readded_items tr2.
Proof. apply omap_app. Qed.
Lemma trace_refusals_app tr1 tr2 : trace_refusals (tr1 ++ tr2) = trace_refusals tr1 ++ trace_refusals tr2.
Proof. unfold trace_refusals. by rewrite hub_trace_app, refused_deletions_app. Qed.

Lemma same_world_refl e : same_world e e.
Proof. done. Qed.
Lemma same_world_trans e e1 e2 : same_world e e1 → same_world e1 e2 → same_world e e2.
Proof. intros [H1 H2] [H3 H4]. split; congruence. Qed.

Lemma shared_resume p l e :
  shared_ok good p → good e → (∀ gvrs uids, GStartInformers gvrs uids ∈ l → length uids = length gvrs) →
  shared_ok good (resume p l e).
Proof. by intros [] ? ?. Qed.

(** The actions that only report: nothing of the agent changes, and the store makes
    the steps of the calls. *)
Record log_reports p (tr : list (event Op)) (e : E) : Prop := {
  log_good : good e;
  log_world : same_world (env p) e;
  log_hub : hub_steps (manifests (env p)) (statuses (env p)) (hub_trace tr) (statuses e);
  log_joins : ∃ l, waiting e = waiting (env p) ++ l;
  log_finished : finished_items tr = [];
  log_readded : readded_items tr = []
}.

Lemma log_nil p : good (env p) → log_reports p [] (env p).
Proof. intros He. split; [done|done|constructor|exists []; by rewrite app_nil_r|done|done]. Qed.

(** An action of the process alone. *)
Lemma log_local p {R} (o : Op R) r :
  match o with Lib _ => False | _ => True end → good (env p) → log_reports p [Ev o r] (env p).
Proof. intros Ho He. destruct o; try done; (split; [done|done|apply HubNil|exists []; by rewrite app_nil_r|done|done]). Qed.

Lemma log_app p tr1 e1 l tr2 e2 :
  log_reports p tr1 e1 → log_reports (resume p l e1) tr2 e2 → log_reports p (tr1 ++ tr2) e2.
Proof.
  intros [Hg1 Hw1 Hh1 [l1 Hj1] Hf1 Hr1] [Hg2 Hw2 Hh2 [l2 Hj2] Hf2 Hr2]. cbn in *.
  split; [done|by eapply same_world_trans| | | |].
  - rewrite hub_trace_app. destruct Hw1 as [Hm _]. rewrite Hm in Hh2. clear -Hh1 Hh2.
    induction Hh1; [done|]. econstructor; eauto.
  - exists (l1 ++ l2). by rewrite Hj2, Hj1, app_assoc.
  - by rewrite finished_app, Hf1, Hf2.
  - by rewrite readded_app, Hr1, Hr2.
Qed.

Lemma log_call {R} (c : Call R) p :
  good (env p) → status_op (Lib c) = true →
  log_reports p [Ev (Lib c) (respond c (env p)).1] (respond c (env p)).2.
Proof.
  intros Hg Ho. pose proof (world_calls Hw c _ Hg) as Hc. split.
  - by apply Henv.
  - by apply (world_quiet Hw).
  - unfold hub_trace. cbn [omap list_omap hub_event].
    destruct (hub_call c _) as [ev|]; [|rewrite Hc; constructor]. econstructor; [exact Hc|constructor].
  - apply (queue_joins _ Hq); [done|]. by destruct c.
  - by destruct c.
  - by destruct c.
Qed.

Lemma status_log {A} (Q : A → Prop) (t : prog Op A) p :
  shared_ok good p → safe answers (λ R o, status_op o = true) no_panic Q t →
  ∃ tr a e, run_log t p = (tr, Done (a, resume p (spawned p) e)) ∧ Q a ∧ log_reports p tr e.
Proof.
  revert p. induction t as [a|q|R o k IH]; intros p Hp; cbn; [|done|].
  - intros HQ. exists [], a, (env p). split; [by destruct p|]. split; [done|]. apply log_nil, Hp.
  - intros [Ho Hk].
    assert (agent_op R o) as Hop by (split; [left; by left|by destruct o]).
    destruct (exec R o p) as [[r p']|q] eqn:Hex.
    2:{ apply exec_panics in Hex. by destruct o. }
    destruct (exec_shared_ok good p R o r p' Henv Hp Hop Hex) as [Hr Hp'].
    destruct (IH r p' Hp' (Hk r Hr)) as (tr & a & e & Hrun & HQ & He). rewrite Hrun.
    assert (∃ e1, p' = resume p (spawned p) e1 ∧ log_reports p [Ev o r] e1) as (e1 & -> & H1).
    { destruct o; try done; cbn in Hex; simplify_eq.
      - exists (env p'). split; [by destruct p'|by apply log_local, Hp].
      - exists (env p'). split; [by destruct p'|by apply log_local, Hp].
      - pose proof (log_call c p (so_env _ _ Hp) Ho) as Hl.
        destruct (respond c (env p)) as [r' e'] eqn:Hre. simplify_eq. by exists e'. }
    eexists _, a, e. split; [done|]. split; [done|]. by apply (log_app p [Ev o r] e1 (spawned p)).
Qed.

(** ** Lookups *)

Lemma observe_same p e l key :
  good (env p) → good e → same_world (env p) e → observe key (resume p l e) = observe key p.
Proof.
  intros Hg He [_ Hcl]. unfold observe, GetObjectFromKey. cbn.
  destruct (SafeMap_Get _ _) as [lister|]; cbn; [|done].
  destruct (SplitMetaNamespaceKey _) as [[ns n]|err]; cbn; [|done]. unfold getObject. case_decide; cbn.
  - pose proof (world_namespace_get Hw lister ns n _ Hg ltac:(done)) as H1.
    pose proof (world_namespace_get Hw lister ns n _ He ltac:(done)) as H2. rewrite Hcl in H2.
    destruct (respond _ (env p)) as [[o|err] e1], (respond _ e) as [[o'|err'] e2]; cbn in *; try naive_solver.
    by destruct H1 as [_ ->], H2 as [_ ->].
  - pose proof (world_get Hw lister n _ Hg) as H1.
    pose proof (world_get Hw lister n _ He) as H2. rewrite Hcl in H2.
    destruct (respond _ (env p)) as [[o|err] e1], (respond _ e) as [[o'|err'] e2]; cbn in *; try naive_solver.
    by destruct H1 as [_ ->], H2 as [_ ->].
Qed.

Lemma manifest_of_same p e l obj : same_world (env p) e → manifest_of (resume p l e) obj = manifest_of p obj.
Proof. intros [_ Hc]. unfold manifest_of. cbn. by rewrite Hc. Qed.

Lemma status_keys_same p e l obj : same_world (env p) e → status_keys (resume p l e) obj = status_keys p obj.
Proof. intros H. unfold status_keys. by rewrite manifest_of_same. Qed.

Lemma item_report_same p e l item :
  good (env p) → good e → same_world (env p) e → item_report (resume p l e) item = item_report p item.
Proof. intros Hg He H. destruct item as [key|n]; [|done]. cbn. by rewrite observe_same. Qed.

Lemma workload_same p e l item :
  good (env p) → good e → same_world (env p) e → workload p item → workload (resume p l e) item.
Proof. intros Hg He H. destruct item as [key|n]; [|done]. cbn. by rewrite observe_same. Qed.

Lemma reported_same p e l obj del err d s s' :
  same_world (env p) e → reported (resume p l e) obj del err d s s' ↔ reported p obj del err d s s'.
Proof. intros H. unfold reported. rewrite status_keys_same by done. cbn. by rewrite (proj1 H). Qed.

Lemma reported_more p obj del err d d' s s' :
  (∀ k, k ∈ d → k ∈ d') → reported p obj del err d s s' → reported p obj del err d' s s'.
Proof.
  intros Hd. unfold reported. destruct (status_keys p obj) as [[mkey k]|]; [|done]. destruct del; [|done].
  intros (? & ? & H). split_and!; [done|done|]. intros He. destruct (H He); auto.
Qed.

Lemma GetAppliedManifestWork_finds obj p tr r e :
  good (env p) → run_log (GetAppliedManifestWork obj) p = (tr, Done (r, resume p (spawned p) e)) →
  match manifest_of p obj with Some aWork => r = GOk aWork | None => ∃ err, r = GErr err end.
Proof.
  intros Hg. unfold GetAppliedManifestWork, manifest_of. case_decide; [intros [= _ <- _]; eauto|].
  cbn. unfold SafeMap_Get. destruct (listers (agent p) !! _) as [l|]; cbn; [|intros [= _ <- _]; eauto].
  pose proof (world_get Hw l (GetAppliedManifestWorkName obj) _ Hg) as H1.
  pose proof (proj1 (Henv _ (CListerGet l (GetAppliedManifestWorkName obj)) _ Hg)) as H2.
  destruct (respond _ (env p)) as [[o|err] e1]; cbn in *.
  - rewrite H1. cbn. unfold as_unstructured. rewrite H2. cbn.
    destruct (ToAppliedManifestWork o); cbn; intros [= _ <- _]; eauto.
  - destruct H1 as [-> _]. intros [= _ <- _]. cbn. eauto.
Qed.

(** ** Reports *)

(** Reporting an object found by its applied manifest work. *)
Lemma reportWorkStatus_log obj aWork name del p :
  shared_ok good p → (del = false → plain_label obj) → BuildWorkstatusName aWork obj = Done name →
  let mkey := (clusterName cfg, amw_ManifestWorkName aWork) in
  let k := (clusterName cfg, name) in
  ∃ tr err e, run_log (reportWorkStatus cfg obj aWork del) p = (tr, Done (err, resume p (spawned p) e)) ∧
    log_reports p tr e ∧
    let s := statuses (env p) in let s' := statuses e in
    if del then only_at k s s' ∧ (s' !! k = None ∨ s' !! k = s !! k) ∧
      (err = None → s' !! k = None ∨ k ∈ trace_refusals tr)
    else synced (manifests (env p)) mkey obj k s s' err.
Proof.
  intros Hp Hpl Hname mkey k. pose proof (reportWorkStatus_safe cfg obj aWork del) as Hsafe.
  destruct (status_log _ _ p Hp Hsafe) as (tr & err & e & Hrun & _ & Hlog).
  exists tr, err, e. split; [done|]. split; [done|].
  pose proof (run_log_traces (exec (E := E)) (reportWorkStatus cfg obj aWork del) p err (resume p (spawned p) e)) as Htr.
  rewrite Hrun in Htr. specialize (Htr eq_refl). cbn [fst] in Htr.
  apply (reportWorkStatus_session _ _ _ _ _ _ _ Hname) in Htr. cbn in Htr |- *.
  pose proof (world_keyed Hw _ (so_env _ _ Hp)) as Hkey. destruct del.
  - destruct Htr as (err' & [= <-] & Hs).
    exact (delete_session_store _ _ _ _ _ _ _ Hs (log_hub _ _ _ Hlog) Hkey).
  - eapply sync_session_store; [done|apply Hlog|done|by apply Hpl].
Qed.

Lemma handleWorkStatus_log obj del p :
  shared_ok good p → (del = false → plain_label obj) →
  ∃ tr err e, run_log (handleWorkStatus cfg obj del) p = (tr, Done (err, resume p (spawned p) e)) ∧
    log_reports p tr e ∧ reported p obj del err (trace_refusals tr) (statuses (env p)) (statuses e).
Proof.
  intros Hp Hpl. unfold handleWorkStatus. rewrite run_log_bind.
  destruct (status_log _ _ p Hp (lookup_status _ _ (GetAppliedManifestWork_safe obj))) as (tr & r & e & Hrun & _ & Hlog).
  rewrite Hrun. cbn [fst snd].
  assert (statuses e = statuses (env p)) as Hst.
  { pose proof (log_hub _ _ _ Hlog) as Hh.
    pose proof (run_log_traces (exec (E := E)) (GetAppliedManifestWork obj) p r (resume p (spawned p) e)) as Htr.
    rewrite Hrun in Htr. destruct (GetAppliedManifestWork_traces _ _ _ (Htr eq_refl)) as [Hnil _]. cbn [fst] in Hnil.
    rewrite Hnil in Hh. by inversion Hh. }
  pose proof (GetAppliedManifestWork_finds obj p tr r e (so_env _ _ Hp) Hrun) as Hr.
  unfold reported, status_keys. destruct (manifest_of p obj) as [aWork|] eqn:Hm; cbn [mbind option_bind].
  - subst r. destruct (BuildWorkstatusName_Done aWork obj) as [name Hname]. rewrite Hname.
    destruct (reportWorkStatus_log obj aWork name del (resume p (spawned p) e)) as (tr2 & err & e2 & Hrun2 & Hlog2 & Hrep);
      [apply shared_resume; [done|apply Hlog|apply Hp]|done..|].
    rewrite Hrun2. cbn [fst snd]. eexists _, err, e2. split; [done|]. split; [by eapply log_app|].
    cbn in Hrep. rewrite Hst, (proj1 (log_world _ _ _ Hlog)) in Hrep. destruct del; [|exact Hrep].
    destruct Hrep as (? & ? & Hd). split_and!; [done|done|]. intros He. destruct (Hd He); [by left|right].
    rewrite trace_refusals_app. apply elem_of_app. by right.
  - destruct Hr as [err ->]. cbn. eexists _, _, e. split; [done|]. rewrite app_nil_r. split; [done|]. by rewrite Hst.
Qed.
End reports.
