(* ===== verification/SimWorld.v ===== *)
(** * The simulation is a world

    The environment of [SimQueue.v], with a hub whose writes succeed, obeys the laws
    of [World.v].  For the closed executions and the witnesses only. *)

From S2P Require Export World SimQueue.
From Stdlib Require Import Ascii.

#[export] Instance queue_world : World QueueEnv := {
  statuses e := se_workstatuses (qe_sim e);
  manifests e := se_manifestworks (qe_sim e);
  cluster e l ns n := se_cache (qe_sim e) !! (if decide (ns = "") then n else hub_key ns n)
}.

Record qe_world (e : QueueEnv) : Prop := {
  qw_good : qe_good e;
  qw_keyed : well_keyed (se_workstatuses (qe_sim e));
  qw_writes : se_failing (qe_sim e) = None;
  qw_lookups : qe_lookups e = None
}.

(** ** Patches *)

Lemma split_quotes_app a s : lacks "034"%char a → split_quotes (a +:+ dquote +:+ s) = a :: split_quotes s.
Proof.
  induction a as [|c a IH]; intros Ha; [done|]. apply lacks_cons in Ha as [Hc Ha].
  rewrite string_cons_app. cbn [split_quotes]. rewrite decide_False by done. by rewrite IH.
Qed.

Lemma sim_patch_label k v : plain_string k → plain_string v → sim_patch (label_patch k v) = Some (k, v).
Proof.
  intros Hk Hv. rewrite label_patch_text by done. unfold sim_patch.
  apply json_plain_lacks in Hk, Hv.
  do 5 (rewrite split_quotes_app by (by vm_compute; set_solver)).
  rewrite split_quotes_app by done. rewrite split_quotes_app by (by vm_compute; set_solver).
  rewrite split_quotes_app by done. done.
Qed.

(** ** Writes *)

Lemma sim_write_step (e : SimEnv) (ev : result WorkStatus → HubEvent) (r : result WorkStatus) :
  se_failing e = None →
  (∀ ws', r = GOk ws' → hub_write (se_workstatuses e) (ev (GOk ws')) (<[sim_key ws' := ws']> (se_workstatuses e)) ws') →
  let '(r', e') := sim_write r e in hub_written (se_workstatuses e) (ev r') r' (se_workstatuses e').
Proof. intros Hf Hw. unfold sim_write. rewrite Hf. destruct r as [ws'|err]; cbn; [by apply Hw|by left]. Qed.

Lemma sim_create_step (e : SimEnv) ws :
  se_failing e = None →
  let '(r, e') := sim_write (sim_create ws e) e in hub_written (se_workstatuses e) (HCreate ws r) r (se_workstatuses e').
Proof.
  intros Hf. apply (sim_write_step e (HCreate ws)); [done|]. unfold sim_create. intros ws'.
  destruct (_ !! _) eqn:Hn; [done|]. intros [= <-]. by apply (WriteCreate _ ws _ (ws_ResourceVersion ws)).
Qed.

Lemma sim_update_step (e : SimEnv) ws :
  se_failing e = None → well_keyed (se_workstatuses e) →
  let '(r, e') := sim_write (sim_change ws (λ ws0, Some (sim_with_status ws0 (ws_Status ws))) e) e in
  hub_written (se_workstatuses e) (HUpdate ws r) r (se_workstatuses e').
Proof.
  intros Hf Hk. apply (sim_write_step e (HUpdate ws)); [done|]. unfold sim_change. intros ws'.
  destruct (_ !! _) as [ws0|] eqn:Hn; [|done]. intros [= <-].
  assert (sim_key (sim_with_status ws0 (ws_Status ws)) = ws_key ws) as -> by by apply Hk in Hn.
  by apply (WriteUpdate _ ws _ ws0 (ws_ResourceVersion ws0)).
Qed.

Lemma sim_patch_step (e : SimEnv) ws patch :
  se_failing e = None → well_keyed (se_workstatuses e) →
  let '(r, e') := sim_write (sim_change ws (λ ws0, '(k, v) ← sim_patch patch; Some (sim_with_label ws0 k v)) e) e in
  hub_written (se_workstatuses e) (HPatch ws patch r) r (se_workstatuses e').
Proof.
  intros Hf Hk. apply (sim_write_step e (HPatch ws patch)); [done|]. unfold sim_change. intros ws'.
  destruct (_ !! _) as [ws0|] eqn:Hn; [|done].
  destruct (sim_patch patch) as [[k v]|] eqn:Hp; cbn [mbind option_bind]; [|done]. intros [= <-].
  assert (sim_key (sim_with_label ws0 k v) = ws_key ws) as -> by by apply Hk in Hn.
  destruct (decide (plain_string k ∧ plain_string v ∧ patch = label_patch k v)) as [(Hpk & Hpv & ->)|Hno].
  - by apply (WritePatch _ ws _ k v ws0 (ws_ResourceVersion ws0)).
  - apply WriteOtherPatch; [|by apply Hk in Hn]. intros k' v' Hk' Hv' ->. apply Hno.
    rewrite sim_patch_label in Hp by done. by injection Hp as <- <-.
Qed.

(** ** The laws *)

Lemma qe_sim_hub {R} (c : Call R) e :
  qe_world e →
  match hub_call c (respond c e).1 with
  | Some ev => hub_step (manifests e) (statuses e) ev (statuses (respond c e).2)
  | None => statuses (respond c e).2 = statuses e
  end.
Proof.
  intros [_ Hk Hf Hl]. set (s := se_log c (qe_sim e)).
  change (respond c e) with (qe_answer c e).
  destruct c; cbn -[sim_write sim_create sim_change sim_patch]; unfold qe_add, qe_get; rewrite ?Hl; try done;
    try (by repeat case_match).
  - split; [done|]. unfold sim_lookup. by destruct (_ !! _).
  - split; [done|]. unfold sim_lookup. by destruct (_ !! _).
  - pose proof (sim_create_step s ws Hf) as H. by destruct (sim_write _ _).
  - unfold s; cbn. rewrite Hf. by destruct (se_workstatuses (qe_sim e) !! sim_key ws) eqn:Hws.
  - pose proof (sim_patch_step s ws patch Hf Hk) as H. by destruct (sim_write _ _).
  - pose proof (sim_update_step s ws Hf Hk) as H. by destruct (sim_write _ _).
Qed.

(** What calls leave as it is. *)
Lemma qe_sim_same {R} (c : Call R) e :
  qe_lookups e = None →
  se_failing (qe_sim (respond c e).2) = se_failing (qe_sim e) ∧ qe_lookups (respond c e).2 = None ∧
  manifests (respond c e).2 = manifests e ∧ cluster (respond c e).2 = cluster e.
Proof.
  intros Hl. change (respond c e) with (qe_answer c e).
  assert (∀ r (s : SimEnv), se_failing (sim_write r s).2 = se_failing s ∧
    se_manifestworks (sim_write r s).2 = se_manifestworks s ∧ se_cache (sim_write r s).2 = se_cache s) as Hw.
  { intros r s. unfold sim_write. destruct (se_failing s) as [err|] eqn:Hf; [cbn; by rewrite Hf|]. destruct r; cbn; by rewrite Hf. }
  destruct c; cbn -[sim_write sim_create sim_change sim_patch]; unfold qe_add, qe_get; rewrite ?Hl; try done;
    try (by repeat case_match).
  all: try match goal with |- context [sim_write ?r ?s] =>
    destruct (Hw r s) as (H1 & H2 & H3); destruct (sim_write r s) as [r' s'] end; cbn in *; try by rewrite ?H1, ?H2, ?H3.
  destruct (se_failing (qe_sim e)) as [err|] eqn:Hf; [cbn; by rewrite Hf|].
  destruct (se_workstatuses (qe_sim e) !! sim_key ws); cbn; by rewrite Hf.
Qed.

Lemma qe_world_answers : env_answers qe_world.
Proof.
  intros R c e He. destruct (qe_env_answers R c e (qw_good _ He)) as [Ha Hg]. split; [done|].
  destruct (qe_sim_same c e (qw_lookups _ He)) as (Hf & Hl & _). split; [done| |by rewrite Hf; apply He|done].
  pose proof (qe_sim_hub c e He) as Hs. pose proof (qw_keyed _ He) as Hk.
  change (well_keyed (statuses (respond c e).2)). destruct (hub_call c _) as [ev|]; [by eapply hub_step_keyed|by rewrite Hs].
Qed.

Lemma qe_world_queue : QueueLaws qe_world.
Proof.
  destruct qe_queue_laws as [H1 H2 H3 H4 H5 H6].
  split; intros *; intros [Hg _ _ _]; [by apply H1|by apply H2|by apply H3|by apply H4|by apply H5|by apply H6].
Qed.

Lemma qe_world_laws : WorldLaws qe_world.
Proof.
  split.
  - apply qw_keyed.
  - intros R c e. apply qe_sim_hub.
  - intros R c e He. by apply qe_sim_same, He.
  - intros l n e He. cbn. unfold sim_lookup. by destruct (se_cache _ !! _) eqn:Hc.
  - intros l ns n e He Hns. change (respond (CListerNamespaceGet l ns n) e) with (qe_answer (CListerNamespaceGet l ns n) e).
    cbn. rewrite (qw_lookups _ He), decide_False by done. cbn. unfold sim_lookup. by destruct (se_cache _ !! _) eqn:Hc.
Qed.
