(* ===== verification/Mirror.v ===== *)
(** * The hub mirrors the cluster

    What the agent is for: the hub shows the status of the objects that manifest
    works delivered to the cluster.  While the cluster and the manifest works stay
    as they are, one pass of a worker over the queue brings the hub up to date,
    except for what it gives back to the queue. *)

From S2P Require Export SimWorld.

Section mirror.
Context {RT : GoRuntime} {K : Kube} {E : Type} `{Env : !Environment E} `{WQ : !WorkQueue E} `{W : !World E}.
Context (cfg : AgentConfig) (good : E → Prop).
Context (Henv : env_answers good) (Hw : WorldLaws good) (Hq : QueueLaws good).
Implicit Types (p : Process E) (s : Store).
Abbreviation run := (run (exec (E := E))).
Abbreviation run_log := (run_log (exec (E := E))).
Abbreviation status_keys := (status_keys cfg).
Abbreviation reported := (reported cfg).
Abbreviation up_to_date := (up_to_date cfg).
Abbreviation agrees := (agrees cfg).
Abbreviation distinct_statuses := (distinct_statuses cfg).
Abbreviation log_reports := (log_reports good).
Abbreviation status_log := (status_log good Henv Hw Hq).
Abbreviation handleWorkStatus_log := (handleWorkStatus_log cfg good Henv Hw Hq).
Abbreviation log_app := (log_app good).
Abbreviation shared_resume := (shared_resume good).
Abbreviation observe_same := (observe_same good Hw).
Abbreviation item_report_same := (item_report_same good Hw).
Abbreviation workload_same := (workload_same good Hw).
Abbreviation reported_same := (reported_same cfg).

(** ** Items *)

#[local] Arguments GetObjectFromKey : simpl never.
#[local] Arguments handleWorkStatus : simpl never.
#[local] Arguments IsListerNotFound : simpl never.
#[local] Arguments reconcile : simpl never.

(** What serving an item does to the hub, which refuses the deletions [d]. *)
Definition item_reported p item (readded : bool) (d : list (string * string)) s s' : Prop :=
  match item_report p item with
  | None => s' = s
  | Some (obj, del) => ∃ err, reported p obj del err d s s' ∧ (err ≠ None → readded = true)
  end.

Lemma item_reported_more p item b b' d d' s s' :
  (b = true → b' = true) → (∀ k, k ∈ d → k ∈ d') → item_reported p item b d s s' → item_reported p item b' d' s s'.
Proof.
  intros Hb Hd. unfold item_reported. destruct (item_report p item) as [[obj del]|]; [|done].
  intros (err & Hr & He). exists err. split; [by eapply reported_more|auto].
Qed.

Lemma reconcileObject_log obj del p :
  shared_ok good p → (del = false → plain_label obj) → IsAppliedManifestWork (VObject obj) = false →
  ∃ tr err e, run_log (reconcileObject cfg obj del) p = (tr, Done ((false, err), resume p (spawned p) e)) ∧
    log_reports p tr e ∧
    if IsManagedByAppliedManifestWork obj
    then reported p obj del err (trace_refusals tr) (statuses (env p)) (statuses e)
    else statuses e = statuses (env p).
Proof.
  intros Hp Hpl Ha. unfold reconcileObject. rewrite Ha. destruct (IsManagedByAppliedManifestWork obj); cbn [negb].
  - destruct (handleWorkStatus_log obj del p Hp Hpl) as (tr & err & e & Hrun & Hlog & Hr).
    rewrite run_log_bind, Hrun. cbn. eexists _, err, e. split; [done|]. by rewrite app_nil_r.
  - exists [], None, (env p). split; [by destruct p|]. split; [apply log_nil, Hp|done].
Qed.

Lemma lookup_log key p :
  shared_ok good p →
  ∃ tr r e, run_log (GetObjectFromKey key) p = (tr, Done (r, resume p (spawned p) e)) ∧
    log_reports p tr e ∧ statuses e = statuses (env p).
Proof.
  intros Hp. destruct (status_log _ _ p Hp (lookup_status _ _ (GetObjectFromKey_safe key))) as (tr & r & e & Hrun & _ & Hlog).
  exists tr, r, e. split; [done|]. split; [done|].
  pose proof (run_log_traces (exec (E := E)) (GetObjectFromKey key) p r (resume p (spawned p) e)) as Htr.
  rewrite Hrun in Htr. specialize (Htr eq_refl). cbn [fst] in Htr.
  assert (hub_trace tr = []) as Hnil.
  { unfold GetObjectFromKey, getObject in Htr. by trace_inv. }
  pose proof (log_hub _ _ _ _ Hlog) as Hh. rewrite Hnil in Hh. by inversion Hh.
Qed.

(** What an observation asks for. *)
Definition to_report (o : option (Object * bool)) : option (Object * bool) :=
  '(obj, del) ← o; if IsManagedByAppliedManifestWork obj then Some (obj, del) else None.

(** The rest of a reconciliation that has made the observation [o]. *)
Definition rest_log p (o : option (Object * bool)) (t : prog Op (bool * option error)) : Prop :=
  ∃ tr requeue err e, run_log t p = (tr, Done ((requeue, err), resume p (spawned p) e)) ∧ log_reports p tr e ∧
    match to_report o with
    | None => statuses e = statuses (env p)
    | Some (obj, del) => reported p obj del err (trace_refusals tr) (statuses (env p)) (statuses e)
    end.

Lemma rest_nothing p r : good (env p) → rest_log p None (mret r).
Proof. intros Hg. destruct r as [rq err]. exists [], rq, err, (env p). split; [by destruct p|]. by split; [apply log_nil|]. Qed.

Lemma rest_object p obj del :
  shared_ok good p → (to_report (Some (obj, del)) = Some (obj, false) → plain_label obj) →
  IsAppliedManifestWork (VObject obj) = false → rest_log p (Some (obj, del)) (reconcileObject cfg obj del).
Proof.
  intros Hp Hpl Ha. unfold rest_log. cbn in Hpl |- *. destruct (IsManagedByAppliedManifestWork obj) eqn:Hm.
  - destruct (reconcileObject_log obj del p Hp) as (tr & err & e & Hrun & Hlog & Hr); [|done|].
    { intros ->. by apply Hpl. }
    rewrite Hm in Hr. by exists tr, false, err, e.
  - unfold reconcileObject. rewrite Ha, Hm. destruct (rest_nothing p (false, None) (so_env _ _ Hp)) as (tr & rq & err & e & H).
    by exists tr, rq, err, e.
Qed.

Lemma reconcile_log key p :
  shared_ok good p → key_ok p key → workload p (QKey key) →
  (∀ obj, item_report p (QKey key) = Some (obj, false) → plain_label obj) →
  ∃ tr requeue err e, run_log (reconcile cfg key) p = (tr, Done ((requeue, err), resume p (spawned p) e)) ∧
    log_reports p tr e ∧
    item_reported p (QKey key) (bool_decide (err ≠ None)) (trace_refusals tr) (statuses (env p)) (statuses e).
Proof.
  intros Hp Hkey Hwl Hpl. destruct (lookup_log key p Hp) as (tr & r & e & Hrun & Hlog & Hst).
  set (p1 := resume p (spawned p) e).
  assert (shared_ok good p1) as Hp1 by (apply shared_resume; [done|apply Hlog|apply Hp]).
  change (∀ obj, to_report (observe key p) = Some (obj, false) → plain_label obj) in Hpl. cbn in Hwl.
  assert (observe key p = match r with
      | GOk obj => Some (obj, false)
      | GErr err => if IsNotFound err then addr ← DeletedObject key; obj ← cells p !! addr; Some (obj, true) else None
      end) as Hobs.
  { unfold observe. pose proof (run_log_run (exec (E := E)) (GetObjectFromKey key) p) as Hr. rewrite Hrun in Hr. cbn in Hr.
    by rewrite <- Hr. }
  assert (rest_log p1 (observe key p) (match r with
      | GOk obj => reconcileObject cfg obj false
      | GErr err =>
          if IsNotFound err then
            match DeletedObject key with
            | Some addr => obj ← act (CellRead addr); reconcileObject cfg obj true
            | None => mret (false, None)
            end
          else if IsListerNotFound err then mret (false, None) else mret (true, Some err)
      end)) as (tr2 & rq & err & e2 & Hrun2 & Hlog2 & Hrep).
  { rewrite Hobs in *. destruct r as [obj|err].
    { apply rest_object; [done..|by apply Hpl|by eapply Hwl]. }
    destruct (IsNotFound err); [|destruct (IsListerNotFound err); by apply rest_nothing, Hp1].
    destruct (DeletedObject key) as [a|] eqn:Hd; [|by apply rest_nothing, Hp1].
    destruct (Hkey a Hd) as [obj Ho]. cbn in Hwl, Hpl |- *. rewrite Ho in *.
    destruct (rest_object p1 obj true Hp1) as (tr2 & rq & err2 & e2 & Hrun2 & Hlog2 & Hrep);
      [by apply Hpl|by eapply Hwl|].
    exists (Ev (CellRead a) obj :: tr2), rq, err2, e2. split; [|split; [|exact Hrep]].
    - cbn [mbind prog_bind act Runtime.run_log exec]. change (cells p1) with (cells p). rewrite Ho.
      cbn [mbind prog_bind]. by rewrite Hrun2.
    - apply (log_app p1 [_] (env p1) (spawned p1)); [by apply log_local, Hp1|exact Hlog2]. }
  exists (tr ++ tr2), rq, err, e2. unfold reconcile. rewrite run_log_bind, Hrun. cbn [fst snd].
  unfold p1 in Hrun2. rewrite Hrun2. split; [done|]. split; [by eapply log_app|].
  unfold item_reported. change (item_report p (QKey key)) with (to_report (observe key p)).
  destruct (to_report _) as [[obj del]|]; cbn in Hrep |- *; rewrite Hst in Hrep; [|done].
  apply reported_same in Hrep; [|apply Hlog]. exists err. split; [|intros He; by apply bool_decide_true].
  eapply reported_more; [|exact Hrep]. intros k Hk. rewrite trace_refusals_app. apply elem_of_app. by right.
Qed.

(** The calls of the queue, and the reports of errors, leave the hub alone. *)
Lemma call_stored {R} (c : Call R) e :
  good e → hub_call c (respond c e).1 = None → statuses (respond c e).2 = statuses e.
Proof. intros He Hc. pose proof (world_calls _ Hw c e He) as H. by rewrite Hc in H. Qed.

(** After the reconciliation: what goes back to the queue, and the end. *)
Record served_item p item (tr : list (event Op)) (e : E) : Prop := {
  si_good : good e;
  si_world : same_world (env p) e;
  si_joins : ∃ l, waiting e = waiting (env p) ++ l;
  si_finished : finished_items tr = [item];
  si_reported :
    item_reported p item (bool_decide (item ∈ readded_items tr)) (trace_refusals tr) (statuses (env p)) (statuses e)
}.

Lemma queue_call {R} (c : Call R) r : queue_op (Lib c) → hub_call c r = None.
Proof. by destruct c. Qed.

(** The calls to the queue after a reconciliation. *)
Record log_queue p (e : E) : Prop := {
  lq_good : good e;
  lq_world : same_world (env p) e;
  lq_joins : ∃ l, waiting e = waiting (env p) ++ l;
  lq_stored : statuses e = statuses (env p)
}.

Lemma queue_log {A} (c : Call unit) (a : A) p :
  good (env p) → queue_op (Lib c) → is_get c = false →
  ∃ e, run_log (_ ← act (Lib c); mret a) p = ([Ev (Lib c) tt], Done (a, resume p (spawned p) e)) ∧ log_queue p e.
Proof.
  intros Hg Hc Hget. exists (respond c (env p)).2. rewrite lib_log. destruct (respond c (env p)) as [[] e] eqn:Hr. cbn.
  split; [done|]. replace e with (respond c (env p)).2 by (by rewrite Hr). split.
  - by apply Henv.
  - by apply (world_quiet _ Hw).
  - by apply (queue_joins _ Hq).
  - apply call_stored; [done|]. by apply queue_call.
Qed.

Lemma joins_trans (e e1 e2 : E) :
  (∃ l, waiting e1 = waiting e ++ l) → (∃ l, waiting e2 = waiting e1 ++ l) → ∃ l, waiting e2 = waiting e ++ l.
Proof. intros [l1 H1] [l2 H2]. exists (l1 ++ l2). by rewrite H2, H1, app_assoc. Qed.

(** A report, some calls to the queue, and [Done]. *)
Lemma done_log item (body : prog Op (option error)) p b tr1 err e1 :
  run_log body p = (tr1, Done (err, resume p (spawned p) e1)) →
  good e1 → same_world (env p) e1 → (∃ l, waiting e1 = waiting (env p) ++ l) →
  finished_items tr1 = [] → (b = true → item ∈ readded_items tr1) →
  item_reported p item b (trace_refusals tr1) (statuses (env p)) (statuses e1) →
  ∃ tr err e, run_log (defer (act (Lib (CQueueDone item))) body) p = (tr, Done (err, resume p (spawned p) e)) ∧
    served_item p item tr e.
Proof.
  intros Hrun Hg1 Hw1 Hj1 Hf Hb Hrep. unfold defer. rewrite run_log_bind, Hrun. cbn [fst snd].
  destruct (queue_log (CQueueDone item) err (resume p (spawned p) e1) Hg1 I eq_refl) as (e2 & Hr2 & [Hg2 Hw2 Hj2 Hs2]).
  unfold mret, prog_ret in Hr2. rewrite Hr2. exists (tr1 ++ [Ev (Lib (CQueueDone item)) tt]), err, e2. split; [done|].
  split; [done|by eapply same_world_trans|by eapply joins_trans|by rewrite finished_app, Hf|].
  cbn in Hs2. rewrite Hs2, readded_app, trace_refusals_app. eapply item_reported_more; [..|exact Hrep].
  - intros ->. apply bool_decide_true, elem_of_app. left. by apply Hb.
  - intros k Hk. apply elem_of_app. by left.
Qed.

Lemma processItem_log item p :
  shared_ok good p → item_ok p item → workload p item →
  (∀ obj, item_report p item = Some (obj, false) → plain_label obj) →
  ∃ tr err e, run_log (processItem cfg item) p = (tr, Done (err, resume p (spawned p) e)) ∧ served_item p item tr e.
Proof.
  intros Hp Hi Hwl Hpl. unfold processItem. destruct item as [key|n].
  - destruct (reconcile_log key p Hp Hi Hwl Hpl) as (tr & rq & rerr & e & Hrun & Hlog & Hrep).
    set (c := if match rerr with Some _ => true | None => rq end then CQueueAddRateLimited (QKey key) else CQueueForget (QKey key)).
    set (out := match rerr with Some err => Some (ErrF ("error syncing key: " +:+ Error err +:+ ", requeuing")) | None => None end).
    destruct (queue_log c out (resume p (spawned p) e)) as (e2 & Hr2 & [Hg2 Hw2 Hj2 Hs2]);
      [apply Hlog|by unfold c; case_match..|].
    eapply (done_log _ _ _ (bool_decide (rerr ≠ None)) (tr ++ [Ev (Lib c) tt]) out e2); [|done|..].
    + rewrite run_log_bind, Hrun. cbn [fst snd]. unfold c, out in *.
      destruct rerr as [err|]; [|destruct rq]; by rewrite Hr2.
    + eapply same_world_trans; [apply Hlog|done].
    + eapply joins_trans; [apply Hlog|done].
    + rewrite finished_app, (log_finished _ _ _ _ Hlog). unfold c. by case_match.
    + intros Hb. rewrite readded_app, (log_readded _ _ _ _ Hlog). unfold c.
      apply bool_decide_eq_true_1 in Hb. destruct rerr; [left|done].
    + cbn in Hs2. rewrite Hs2, trace_refusals_app. eapply item_reported_more; [done| |exact Hrep].
      intros k Hk. apply elem_of_app. by left.
  - destruct (queue_log (CQueueForget (QOther n)) tt p) as (e1 & Hr1 & [Hg1 Hw1 Hj1 Hs1]); [apply Hp|done..|].
    destruct (queue_log (CHandleError (ErrF "expected util.Key in workqueue")) (None : option error)
      (resume p (spawned p) e1) Hg1 I eq_refl) as (e2 & Hr2 & [Hg2 Hw2 Hj2 Hs2]).
    eapply (done_log _ _ _ false ([Ev (Lib (CQueueForget (QOther n))) tt] ++ [Ev (Lib (CHandleError (ErrF "expected util.Key in workqueue"))) tt]) None e2);
      [|done|by eapply same_world_trans|by eapply joins_trans|done|done|cbn; by rewrite Hs2].
    rewrite lib_log. rewrite lib_log in Hr1. destruct (respond (CQueueForget (QOther n)) (env p)) as [[] e1'] eqn:He1.
    cbn [fst snd] in Hr1 |- *. injection Hr1 as ->. by rewrite Hr2.
Qed.

(** One iteration of the worker's loop. *)
Lemma serve_next_log item q p :
  shared_ok good p → spawned p = [] → item_ok p item → workload p item →
  (∀ obj, item_report p item = Some (obj, false) → plain_label obj) → waiting (env p) = item :: q →
  ∃ tr e, serve_next cfg p = Done (tr, resume p [] e) ∧ good e ∧ same_world (env p) e ∧ finished_items tr = [item] ∧
    item_reported p item (bool_decide (item ∈ readded_items tr)) (trace_refusals tr) (statuses (env p)) (statuses e) ∧
    ∃ l, waiting e = q ++ l.
Proof.
  intros Hp Hs Hi Hwl Hpl Hwait. pose proof (so_env _ _ Hp) as Hg.
  destruct (queue_fair _ Hq _ _ _ Hg Hwait) as [Hget [l0 Hl0]].
  set (e0 := (respond CQueueGet (env p)).2) in *.
  assert (good e0) as Hg0 by (by apply Henv).
  assert (same_world (env p) e0) as Hw0 by (by apply (world_quiet _ Hw)).
  assert (statuses e0 = statuses (env p)) as Hs0 by (by apply call_stored).
  set (p0 := resume p [] e0).
  destruct (processItem_log item p0) as (tr & err & e & Hrun & [Hg1 Hw1 Hj1 Hf1 Hr1]).
  { apply shared_resume; [done|done|by intros ? ? ?%elem_of_nil]. }
  { by destruct item. }
  { by apply workload_same. }
  { intros obj. unfold p0. rewrite item_report_same by done. apply Hpl. }
  assert (∃ tr2 e2, run_log (processNextWorkItem cfg) p = (Ev (Lib CQueueGet) (Some item) :: tr ++ tr2, Done (true, resume p [] e2)) ∧
    finished_items tr2 = [] ∧ readded_items tr2 = [] ∧ log_queue (resume p [] e) e2) as (tr2 & e2 & Hrun2 & Hf2 & Hr2 & [Hg2 Hw2 Hj2 Hs2]).
  { unfold processNextWorkItem. rewrite lib_log, Hget, Hs. fold e0 p0. rewrite run_log_bind, Hrun. cbn [fst snd].
    destruct err as [err|].
    - destruct (queue_log (CHandleError err) true (resume p0 [] e) Hg1 I eq_refl) as (e2 & Hr2 & Hq2).
      change (spawned p0) with ([] : list Goroutine). rewrite Hr2. cbn [fst snd]. eexists _, e2. done.
    - exists [], e. cbn. rewrite app_nil_r. split_and!; try done. split; try done. exists []. by rewrite app_nil_r. }
  unfold serve_next. change (set_spawned p []) with (resume p [] (env p)).
  assert (resume p [] (env p) = p) as -> by (unfold resume; rewrite <- Hs; by destruct p).
  rewrite Hrun2. cbn. eexists _, e2. split; [done|]. cbn in Hs2, Hj1, Hr1. rewrite Hs2. split_and!; [done| | | |].
  - eapply same_world_trans; [exact Hw0|]. by eapply same_world_trans.
  - change (finished_items (tr ++ tr2) = [item]). by rewrite finished_app, Hf1, Hf2.
  - change (readded_items (_ :: tr ++ tr2)) with (readded_items (tr ++ tr2)). rewrite readded_app, Hr2, app_nil_r.
    unfold item_reported in *. unfold p0 in Hr1. rewrite item_report_same in Hr1 by done.
    destruct (item_report p item) as [[obj del]|]; [|congruence]. rewrite <- Hs0.
    destruct Hr1 as (er & Hr1 & ?). exists er. split; [|done].
    apply reported_same in Hr1; [|done]. eapply reported_more; [|exact Hr1]. intros k Hk.
    change (k ∈ trace_refusals (tr ++ tr2)). rewrite trace_refusals_app. apply elem_of_app. by left.
  - destruct Hj1 as [l1 H1], Hj2 as [l2 H2]. exists (l0 ++ l1 ++ l2). cbn in H2. by rewrite H2, H1, Hl0, !app_assoc.
Qed.

(** ** One pass *)

(** The hub has refused to delete the WorkStatus of a deleted object. *)
Definition refused p obj (del : bool) (d : list (string * string)) : Prop :=
  del = true ∧ ∃ mkey k, status_keys p obj = Some (mkey, k) ∧ k ∈ d.

Lemma refused_more p obj del d d' : (∀ k, k ∈ d → k ∈ d') → refused p obj del d → refused p obj del d'.
Proof. intros Hd (? & mkey & k & ? & ?). split; [done|]. exists mkey, k. auto. Qed.

Lemma reported_success p obj del d s s' : reported p obj del None d s s' → up_to_date p obj del s' ∨ refused p obj del d.
Proof.
  unfold reported, up_to_date, refused. destruct (status_keys p obj) as [[mkey k]|]; [|by intros []].
  destruct del; intros H.
  - destruct H as (_ & _ & H). destruct (H eq_refl); [left|right; split; [done|]]; by exists mkey, k.
  - left. exists mkey, k. split; [done|]. destruct (synced_success _ _ _ _ _ _ _ H eq_refl) as [?|(_ & ? & ?)]; auto.
Qed.

(** What is up to date stays so. *)
Lemma reported_keeps p item b d s s' obj del :
  item_reported p item b d s s' → agrees p [item] obj del → up_to_date p obj del s → up_to_date p obj del s'.
Proof.
  intros Hi Ha (mkey & k & Hk & Hs). exists mkey, k. split; [done|].
  unfold item_reported in Hi. destruct (item_report p item) as [[obj' del']|] eqn:Hr; [|by subst].
  destruct Hi as (err & Hrep & _). unfold reported in Hrep.
  destruct (status_keys p obj') as [[mkey' k']|] eqn:Hk'; [|by destruct Hrep as [-> _]].
  destruct (decide (k' = k)) as [->|Hne].
  - destruct (Ha item obj' del' mkey mkey' k) as [-> Hobj]; [left|done..|]. destruct del.
    + destruct Hrep as (_ & [?|Heq] & _); [done|]. by rewrite Heq.
    + rewrite (Hobj eq_refl) in *. rewrite Hk in Hk'. injection Hk' as <-.
      destruct Hs as [(ws & Hws & Hm)|[Hn Hu]]; [left; by eapply synced_keeps|].
      right. split; [by eapply synced_none|done].
  - assert (s' !! k = s !! k) as ->; [|done].
    destruct del'; [by apply (proj1 Hrep)|by apply (synced_only _ _ _ _ _ _ _ Hrep)].
Qed.

Lemma reported_only p item b d s s' k :
  item_reported p item b d s s' →
  (∀ obj del mkey, item_report p item = Some (obj, del) → status_keys p obj ≠ Some (mkey, k)) → s' !! k = s !! k.
Proof.
  unfold item_reported. destruct (item_report p item) as [[obj del]|]; [|by intros ->].
  intros (err & Hrep & _) Hno. specialize (Hno obj del). unfold reported in Hrep.
  destruct (status_keys p obj) as [[mkey k']|]; [|by destruct Hrep as [-> _]].
  assert (k ≠ k') as Hne by (intros ->; by destruct (Hno mkey)).
  destruct del; [by apply (proj1 Hrep)|by apply (synced_only _ _ _ _ _ _ _ Hrep)].
Qed.

Lemma agrees_incl p items items' obj del : (∀ i, i ∈ items' → i ∈ items) → agrees p items obj del → agrees p items' obj del.
Proof. intros Hi Ha i *. intros ?%Hi. by apply Ha. Qed.

(** What a worker can serve. *)
Record servable p (items : list QueueItem) : Prop := {
  sv_ok : Forall (item_ok p) items;
  sv_workload : Forall (workload p) items;
  sv_labels item obj : item ∈ items → item_report p item = Some (obj, false) → plain_label obj
}.

Lemma servable_cons p item items : servable p (item :: items) → item_ok p item ∧ workload p item ∧
  (∀ obj, item_report p item = Some (obj, false) → plain_label obj) ∧ servable p items.
Proof.
  intros [[? ?]%Forall_cons [? ?]%Forall_cons Hl]. split_and!; [done|done|intros obj; apply Hl; left|].
  split; [done|done|]. intros i obj Hi. apply Hl. by right.
Qed.

Lemma pass_log p items e l :
  shared_ok good p → good e → same_world (env p) e → servable p items → distinct_statuses p items →
  waiting e = items ++ l →
  ∃ tr e', serve_times cfg (length items) (resume p [] e) = Done (tr, resume p [] e') ∧ finished_items tr = items ∧
    (∀ item obj del, item ∈ items → item_report p item = Some (obj, del) →
       item ∈ readded_items tr ∨ up_to_date p obj del (statuses e') ∨ refused p obj del (trace_refusals tr)) ∧
    (∀ obj del, agrees p items obj del → up_to_date p obj del (statuses e) → up_to_date p obj del (statuses e')) ∧
    ∀ k, (∀ item obj del mkey, item ∈ items → item_report p item = Some (obj, del) → status_keys p obj ≠ Some (mkey, k)) →
      statuses e' !! k = statuses e !! k.
Proof.
  intros Hp. revert e l. induction items as [|item items IH]; intros e l Hg Hw1 Hsv Hd Hwait.
  { exists [], e. split_and!; try done. intros item obj del Hin. by apply elem_of_nil in Hin. }
  destruct (servable_cons _ _ _ Hsv) as (Hi & Hwl & Hpl & Hsv').
  destruct (serve_next_log item (items ++ l) (resume p [] e)) as (tr1 & e1 & Hr1 & Hg1 & Hwd1 & Hf1 & Hrep & l1 & Hwait1).
  { apply shared_resume; [done|done|by intros ? ? ?%elem_of_nil]. }
  { done. } { by destruct item. } { apply workload_same; [apply Hp|done..]. }
  { intros obj. rewrite item_report_same; [apply Hpl|apply Hp|done..]. } { done. }
  assert (item_reported p item (bool_decide (item ∈ readded_items tr1)) (trace_refusals tr1) (statuses e) (statuses e1)) as Hrep1.
  { unfold item_reported in *. rewrite item_report_same in Hrep; [|apply Hp|done..].
    destruct (item_report p item) as [[obj del]|]; [|done]. destruct Hrep as (err & Hrep & ?). exists err.
    split; [|done]. by apply reported_same in Hrep. }
  assert (same_world (env p) e1) as Hw2 by (by eapply same_world_trans).
  destruct (IH e1 (l ++ l1)) as (tr2 & e2 & Hr2 & Hf2 & Hdone & Hkeep & Hother); [done..| | |].
  { intros i obj del Hin Hr. eapply agrees_incl; [|by eapply Hd; [right|]]. intros j. by right. }
  { by rewrite Hwait1, app_assoc. }
  exists (tr1 ++ tr2), e2. cbn [length serve_times]. rewrite Hr1. cbn. unfold resume in Hr2 |- *. cbn in Hr2 |- *. rewrite Hr2. cbn.
  split; [done|]. split; [by rewrite finished_app, Hf1, Hf2|]. split_and!.
  - intros i obj del Hin Hr. rewrite readded_app, elem_of_app, trace_refusals_app. apply elem_of_cons in Hin as [->|Hin].
    + destruct (decide (item ∈ readded_items tr1)) as [?|Hno]; [auto|]. right.
      unfold item_reported in Hrep1. rewrite Hr in Hrep1. destruct Hrep1 as (err & Hrep1 & Herr).
      destruct err as [err|].
      { destruct Hno. assert (Some err ≠ None) as Hse by done. exact (bool_decide_eq_true_1 _ (Herr Hse)). }
      destruct (reported_success _ _ _ _ _ _ Hrep1) as [Hup|Href]; [left|right].
      * apply Hkeep; [|done]. eapply agrees_incl; [|by eapply Hd; [left|]]. intros j. by right.
      * eapply refused_more; [|exact Href]. intros k Hk. apply elem_of_app. by left.
    + destruct (Hdone i obj del Hin Hr) as [?|[?|Href]]; [auto..|]. right. right.
      eapply refused_more; [|exact Href]. intros k Hk. apply elem_of_app. by right.
  - intros obj del Ha Hup. apply Hkeep; [by eapply agrees_incl; [|exact Ha]; intros j; right|].
    eapply reported_keeps; [done| |done]. eapply agrees_incl; [|exact Ha]. intros j ->%list_elem_of_singleton. left.
  - intros k Hk. rewrite Hother; [|by intros i obj del mkey Hin; apply Hk; right].
    eapply reported_only; [done|]. intros obj del mkey. apply Hk. left.
Qed.

(** C7: reporting a live object brings its WorkStatus on the hub up to date, or
    fails, whatever the hub answers: when [handleWorkStatus] returns no error the
    hub has the object's status and singleton label under its name, or the object
    has no WorkStatus because its manifest work is not KubeStellar's; in any case
    only that WorkStatus has changed, one that was up to date still is, and what
    the WorkStatus says it is about is the object or what it said before.  The
    agent's own state is untouched. *)
Theorem handleWorkStatus_mirrors obj aWork name p :
  shared_ok good p → plain_label obj → manifest_of p obj = Some aWork → BuildWorkstatusName aWork obj = Done name →
  let k := (clusterName cfg, name) in
  ∃ err e, run (handleWorkStatus cfg obj false) p = Done (err, resume p (spawned p) e) ∧ good e ∧
    synced (manifests (env p)) (clusterName cfg, amw_ManifestWorkName aWork) obj k (statuses (env p)) (statuses e) err.
Proof.
  intros Hp Hpl Hm Hname. destruct (handleWorkStatus_log obj false p Hp) as (tr & err & e & Hr & Hlog & Hrep); [done|].
  exists err, e. pose proof (run_log_run (exec (E := E)) (handleWorkStatus cfg obj false) p) as Hrun.
  rewrite Hr in Hrun. split; [by rewrite <- Hrun|]. split; [apply Hlog|].
  unfold reported, status_keys in Hrep. rewrite Hm in Hrep. cbn in Hrep. by rewrite Hname in Hrep.
Qed.

(** C1: the hub mirrors the cluster: while the cluster and the manifest works stay
    as they are, and the items waiting are about workload objects (none about an
    applied manifest work), no two of them about one WorkStatus but of different
    objects, a worker that serves each of them once finishes them all, whatever the
    hub answers.  Then, for each item about an object that an applied manifest work
    delivered, the item has been given back to the queue; or the hub shows the
    object as it is: its status and singleton label when it is live, no WorkStatus
    when it is deleted or its manifest work is not KubeStellar's; or, and only for
    a deleted object, the hub has answered the deletion of its WorkStatus with an
    error other than NotFound, which the agent does not return.  The WorkStatus of
    no other object changes, nor does the agent's state. *)
Theorem one_pass_reports p :
  let items := waiting (env p) in
  shared_ok good p → spawned p = [] → servable p items → distinct_statuses p items →
  ∃ tr p', serve_times cfg (length items) p = Done (tr, p') ∧ finished_items tr = items ∧ agent p' = agent p ∧
    (∀ item obj del, item ∈ items → item_report p item = Some (obj, del) →
       item ∈ readded_items tr ∨ up_to_date p obj del (statuses (env p')) ∨ refused p obj del (trace_refusals tr)) ∧
    ∀ k, (∀ item obj del mkey, item ∈ items → item_report p item = Some (obj, del) → status_keys p obj ≠ Some (mkey, k)) →
      statuses (env p') !! k = statuses (env p) !! k.
Proof.
  intros items Hp Hs Hsv Hd.
  destruct (pass_log p items (env p) [] Hp (so_env _ _ Hp) (same_world_refl _) Hsv Hd) as (tr & e & Hr & Hf & Hdone & _ & Hother);
    [by rewrite app_nil_r|].
  exists tr, (resume p [] e). assert (resume p [] (env p) = p) as Heq by (unfold resume; rewrite <- Hs; by destruct p).
  rewrite Heq in Hr. done.
Qed.
End mirror.

(** ** Closed instances

    The deployment of the scenario is live, another one has been deleted and its
    WorkStatus is still on the hub; both wait in the queue. *)

Definition old_deployment : Object :=
  MkObject sc_gvk "default" "old" None None (GetOwnerReferences (sc_deployment None))
    "old-uid" "9" 1 None [] None (SUnstructured []).
Definition old_name : string := "amw-uid-appsv1-deployment-default-old".
Definition web_name : string := "amw-uid-appsv1-deployment-default-web".
Definition old_key : Key := MkKey sc_key "default/old" (Some 3%N).
Definition mirror_items : list QueueItem := [QKey ex_key; QKey old_key].
Definition mirror_env : QueueEnv :=
  MkQueueEnv (sc_env [sc_manifest] [sc_deployment ex_singleton] [sc_manifestwork] [new_WorkStatus "cluster1" old_name] None [])
    mirror_items (list_to_set mirror_items) ∅ false None.
Definition mirror_start : Process QueueEnv :=
  MkProcess (sc_agent [amw_key; sc_key]) (list_to_map [(0, false); (1, false); (2, false)])%N
    {[3%N := CopyObjectMetaAndType old_deployment]} 4 [] mirror_env.

Lemma observe_web : observe ex_key mirror_start = Some (sc_deployment ex_singleton, false).
Proof. vm_compute. reflexivity. Qed.
Lemma observe_old : observe old_key mirror_start = Some (CopyObjectMetaAndType old_deployment, true).
Proof. vm_compute. reflexivity. Qed.
Lemma web_report : item_report mirror_start (QKey ex_key) = Some (sc_deployment ex_singleton, false).
Proof. cbn [item_report]. rewrite observe_web. reflexivity. Qed.
Lemma old_report : item_report mirror_start (QKey old_key) = Some (CopyObjectMetaAndType old_deployment, true).
Proof. cbn [item_report]. rewrite observe_old. reflexivity. Qed.
Lemma web_keys :
  status_keys sc_config mirror_start (sc_deployment ex_singleton) = Some (("cluster1", "mw1"), ("cluster1", web_name)).
Proof. vm_compute. reflexivity. Qed.
Lemma old_keys :
  status_keys sc_config mirror_start (CopyObjectMetaAndType old_deployment) = Some (("cluster1", "mw1"), ("cluster1", old_name)).
Proof. vm_compute. reflexivity. Qed.

Lemma web_plain : plain_label (sc_deployment ex_singleton).
Proof. intros v [= <-]. vm_compute. reflexivity. Qed.

Lemma mirror_env_world : qe_world mirror_env.
Proof.
  split; [|intros k ws; cbn; intros [[<- <-]|[_ [=]]]%lookup_insert_Some; reflexivity|reflexivity|reflexivity].
  split; [split; [reflexivity|]| | |].
  - intros k o. cbn. intros [[_ <-]|[_ [[_ <-]|[_ [=]]]%lookup_insert_Some]]%lookup_insert_Some; reflexivity.
  - intros i _. apply not_elem_of_empty.
  - intros i Hi. by apply elem_of_list_to_set.
  - apply (bool_decide_unpack _). vm_compute. exact I.
Qed.

Lemma mirror_shared : shared_ok qe_world mirror_start.
Proof.
  split; [apply mirror_env_world|done|intros n i [=]| |by intros g u ?%elem_of_nil].
  intros a o. cbn. intros [_ <-]%lookup_singleton_Some. reflexivity.
Qed.

Lemma mirror_items_cases item : item ∈ mirror_items → item = QKey ex_key ∨ item = QKey old_key.
Proof. intros [->|[->|[]%elem_of_nil]%elem_of_cons]%elem_of_cons; [by left|by right]. Qed.

Lemma mirror_servable : servable mirror_start mirror_items.
Proof.
  split; [repeat constructor; [by intros a|]|repeat constructor|].
  - intros a [= <-]. by eexists.
  - intros obj del. rewrite observe_web. by intros [= <- _].
  - intros obj del. rewrite observe_old. by intros [= <- _].
  - intros item obj [-> | ->]%mirror_items_cases.
    + rewrite web_report. intros [= <-]. apply web_plain.
    + by rewrite old_report.
Qed.

Lemma mirror_distinct : distinct_statuses sc_config mirror_start mirror_items.
Proof.
  intros item obj del Hi Hr item' obj' del' mkey mkey' k Hi' Hr' Hk Hk'.
  assert (∀ item obj del mkey k, item ∈ mirror_items → item_report mirror_start item = Some (obj, del) →
    status_keys sc_config mirror_start obj = Some (mkey, k) →
    (obj, del) = if decide (k.2 = web_name) then (sc_deployment ex_singleton, false) else (CopyObjectMetaAndType old_deployment, true))
    as Hobj.
  { clear. intros item obj del mkey k [-> | ->]%mirror_items_cases.
    - rewrite web_report. intros [= <- <-]. rewrite web_keys. intros [= _ <-]. reflexivity.
    - rewrite old_report. intros [= <- <-]. rewrite old_keys. intros [= _ <-]. reflexivity. }
  pose proof (Hobj _ _ _ _ _ Hi Hr Hk) as H1. rewrite <- (Hobj _ _ _ _ _ Hi' Hr' Hk') in H1. by injection H1 as -> ->.
Qed.

Lemma handleWorkStatus_mirrors_witness :
  ∃ err e, synced (manifests mirror_env) ("cluster1", "mw1") (sc_deployment ex_singleton) ("cluster1", web_name)
    (statuses mirror_env) (statuses (e : QueueEnv)) err.
Proof.
  destruct (handleWorkStatus_mirrors (K := sim_kube) (E := QueueEnv) sc_config qe_world qe_world_answers qe_world_laws
    qe_world_queue (sc_deployment ex_singleton)
    (match manifest_of mirror_start (sc_deployment ex_singleton) with Some w => w | None => MkAppliedManifestWork "" "" "" [] end)
    web_name mirror_start mirror_shared web_plain) as (err & e & _ & _ & Hs).
  - vm_compute. reflexivity.
  - vm_compute. reflexivity.
  - exists err, e. exact Hs.
Defined.

Lemma one_pass_reports_witness :
  ∃ tr p', serve_times sc_config 2 mirror_start = Done (tr, p') ∧ finished_items tr = mirror_items ∧
    (QKey ex_key ∈ readded_items tr ∨
     up_to_date sc_config mirror_start (sc_deployment ex_singleton) false (statuses (env p'))) ∧
    (QKey old_key ∈ readded_items tr ∨
     up_to_date sc_config mirror_start (CopyObjectMetaAndType old_deployment) true (statuses (env p')) ∨
     refused sc_config mirror_start (CopyObjectMetaAndType old_deployment) true (trace_refusals tr)).
Proof.
  destruct (one_pass_reports (K := sim_kube) (E := QueueEnv) sc_config qe_world qe_world_answers qe_world_laws qe_world_queue
    mirror_start mirror_shared eq_refl mirror_servable mirror_distinct) as (tr & p' & Hr & Hf & _ & Hdone & _).
  exists tr, p'. split; [exact Hr|]. split; [exact Hf|]. split.
  - destruct (Hdone (QKey ex_key) _ _ ltac:(left) web_report) as [?|[?|[[=] _]]]; auto.
  - apply (Hdone (QKey old_key)); [right; left|exact old_report].
Defined.

(** The same pass, computed: nothing is given back, the live deployment is shown and
    the WorkStatus of the deleted one is gone. *)
Example one_pass_example :
  match serve_times sc_config 2 mirror_start with
  | Done (tr, p') =>
      bool_decide (readded_items tr = []) &&
      bool_decide ((ws_Status <$> statuses (env p') !! ("cluster1", web_name)) =
        Some (MkRawStatus (Some ("{" +:+ dquote +:+ "readyReplicas" +:+ dquote +:+ ":2}")))) &&
      bool_decide (statuses (env p') !! ("cluster1", old_name) = None)
  | Panic _ => false
  end = true.
Proof. vm_compute. reflexivity. Qed.
