(* ===== verification/OwnInformer.v ===== *)
(** * The agent's own informer

    The informer of the applied manifest works is the agent's only source of
    manifests, and their lister is what every report looks up.  It is started like
    any other, under the key of its kind, and nothing in [excludedGVKs] keeps a
    manifest from listing that kind: a manifest that does replaces the informer and
    takes it down with it.  When no manifest does, it is there for good, in every
    interleaving. *)

From S2P Require Export Liveness.

Section own.
Context {RT : GoRuntime} {K : Kube} {E : Type} `{Env : !Environment E}.
Context (cfg : AgentConfig).
Implicit Types p : Process E.
Abbreviation run := (run (exec (E := E))).

(** ** What the agent does without its own lister *)

#[local] Arguments IsListerNotFound : simpl never.

Lemma blind_reconcile key p :
  listers (agent p) !! AppliedManifestWorkKey = None → GvkKey key = AppliedManifestWorkKey →
  run (reconcile cfg key) p = Done ((false, None), p).
Proof.
  intros Hl Hk. unfold reconcile. rewrite run_bind. unfold GetObjectFromKey. rewrite Hk. cbn. unfold SafeMap_Get.
  rewrite Hl. cbn. by rewrite missing_lister_error.
Qed.

Lemma blind_report obj del p :
  listers (agent p) !! AppliedManifestWorkKey = None → ∃ err, run (handleWorkStatus cfg obj del) p = Done (Some err, p).
Proof.
  intros Hl. unfold handleWorkStatus. rewrite run_bind. unfold GetAppliedManifestWork. case_decide; cbn; [eauto|].
  unfold SafeMap_Get. rewrite Hl. cbn. eauto.
Qed.

#[local] Arguments startInformer : simpl never.
#[local] Arguments stopInformer : simpl never.
#[local] Arguments updateRestMapper : simpl never.
#[local] Arguments mapperKindFor : simpl never.

#[local] Arguments startObject : simpl never.
#[local] Arguments stopObject : simpl never.

(** The first object of a kind: its informer, under a new stop channel. *)
Lemma startObject_first gvr gvk uid p :
  tracked_uids p (gvk_key gvk) = ∅ →
  ∃ p', run (startObject gvr gvk uid) p = Done (tt, p') ∧
    tracked_uids p' (gvk_key gvk) = {[uid]} ∧ is_Some (informers (agent p') !! gvk_key gvk) ∧
    stoppers (agent p') = <[gvk_key gvk := next p]> (stoppers (agent p)) ∧
    chans p' = <[next p := false]> (chans p) ∧ restMapper (agent p') = restMapper (agent p).
Proof.
  intros Ht. unfold startObject. cbn. rewrite decide_True.
  2:{ rewrite GetUIDCount_uids, uids_of_AddUID, decide_True by done. apply one_tracked. by left. }
  cbn. match goal with |- context [Runtime.run _ (startInformer _ _ _ _) ?q] =>
    destruct (startInformer_run gvr gvk (next p) true q) as (i & e & ->) end.
  eexists. split; [done|]. cbn. split_and!; try done.
  - unfold tracked_uids in *. cbn. rewrite uids_of_AddUID, decide_True, Ht by done. apply union_empty_r_L.
  - rewrite lookup_insert_eq. eauto.
Qed.

(** The last one: its informer is gone, with its lister. *)
Lemma stopObject_last gvk uid c p :
  tracked_uids p (gvk_key gvk) = {[uid]} → is_Some (informers (agent p) !! gvk_key gvk) →
  stoppers (agent p) !! gvk_key gvk = Some c → chans p !! c = Some false →
  ∃ p', run (stopObject gvk (Done uid)) p = Done (tt, p') ∧ listers (agent p') !! gvk_key gvk = None ∧
    stoppers (agent p') = delete (gvk_key gvk) (stoppers (agent p)) ∧ chans p' = <[c := true]> (chans p) ∧
    env p' = env p.
Proof.
  intros Ht [i Hi] Hs Hc. unfold stopObject. cbn. unfold SafeMap_Get. rewrite Hi. cbn. rewrite decide_True.
  2:{ rewrite GetUIDCount_uids, uids_of_DeleteUID, decide_True by done. unfold tracked_uids in Ht. rewrite Ht.
      apply size_empty_iff. set_solver. }
  rewrite (stopInformer_run _ _ c) by done. eexists. split; [done|]. cbn. split_and!; try done. apply lookup_delete_eq.
Qed.

Lemma startInformers_first known good gvr gvk uid p :
  StableDiscovery known good → good (env p) → known gvr = Some gvk → excluded gvk = false →
  tracked_uids p (gvk_key gvk) = ∅ →
  ∃ p', run (startInformers [gvr] [uid]) p = Done (tt, p') ∧
    tracked_uids p' (gvk_key gvk) = {[uid]} ∧ is_Some (informers (agent p') !! gvk_key gvk) ∧
    stoppers (agent p') = <[gvk_key gvk := next p]> (stoppers (agent p)) ∧
    chans p' = <[next p := false]> (chans p) ∧ mapper_ok known p'.
Proof.
  intros Hd Hg Hk Hex Ht. unfold startInformers. rewrite run_bind.
  destruct (updateRestMapper_run known good p Hd Hg) as (e & m & Hm & ->). cbn.
  rewrite run_bind, (mapperKindFor_run known _ _ gvk); [|by exists m|done]. cbn. rewrite Hex. cbn. rewrite run_bind.
  match goal with |- context [Runtime.run _ (startObject _ _ _) ?q] =>
    destruct (startObject_first gvr gvk uid q Ht) as (p1 & Hr1 & Ht1 & Hi1 & Hs1 & Hc1 & Hm1) end.
  rewrite Hr1. cbn. exists p1. split_and!; try done. by exists m.
Qed.

(** C33: a manifest that lists an applied manifest work makes the agent blind: when
    its objects are started, the informer of the agent's own kind is replaced, and
    its stop channel stays open with nothing left that refers to it; when they are
    stopped again, the agent has no lister for applied manifest works.  From then
    on it drops every key of that kind without an error, and every report of an
    object fails. *)
Theorem listed_manifest_blinds_agent known good gvr gvk uid c p :
  StableDiscovery known good → good (env p) → lifecycle_inv p →
  known gvr = Some gvk → gvk_key gvk = AppliedManifestWorkKey → excluded gvk = false →
  tracked_uids p AppliedManifestWorkKey = ∅ → stoppers (agent p) !! AppliedManifestWorkKey = Some c →
  ∃ p1 p2, run (startInformers [gvr] [uid]) p = Done (tt, p1) ∧
    run (stopInformers (MkInfo [uid] [gvr])) p1 = Done (tt, p2) ∧
    chans p2 !! c = Some false ∧ (∀ key, stoppers (agent p2) !! key ≠ Some c) ∧
    listers (agent p2) !! AppliedManifestWorkKey = None ∧
    (∀ key, GvkKey key = AppliedManifestWorkKey → run (reconcile cfg key) p2 = Done ((false, None), p2)) ∧
    ∀ obj del, ∃ err, run (handleWorkStatus cfg obj del) p2 = Done (Some err, p2).
Proof.
  intros Hd Hg Hinv Hk Hkey Hex Ht Hc. rewrite <- Hkey in *.
  destruct (startInformers_first known good gvr gvk uid p) as (p1 & Hr1 & Ht1 & Hi1 & Hs1 & Hc1 & Hm1); [done..|].
  assert (good (env p1)) as Hg1 by (eapply run_env; [apply Hd|exact Hr1|done]).
  destruct (stopObject_last gvk uid (next p) p1) as (p2 & Hr2 & Hl2 & Hs2 & Hc2 & He2); [done|done| | |].
  { rewrite Hs1. apply lookup_insert_eq. } { rewrite Hc1. apply lookup_insert_eq. }
  destruct (updateRestMapper_run known good p2 Hd) as (e2 & m2 & _ & Hr3); [by rewrite He2|].
  set (p3 := MkProcess _ _ _ _ _ _) in Hr3. exists p1, p3. split; [done|]. split.
  { unfold stopInformers. cbn. rewrite run_bind, run_bind, (mapperKindFor_run known _ _ gvk) by done. cbn.
    rewrite run_bind, Hr2. cbn. exact Hr3. }
  assert (c ≠ next p) as Hne.
  { intros ->. pose proof (inv_fresh _ Hinv (next p)) as Hf. rewrite (inv_open _ Hinv _ _ Hc) in Hf.
    specialize (Hf ltac:(eauto)). lia. }
  split_and!.
  - change (chans p2 !! c = Some false). rewrite Hc2, Hc1, !lookup_insert_ne by done. by eapply inv_open.
  - intros key. change (stoppers (agent p2) !! key ≠ Some c).
    rewrite Hs2, Hs1. intros [Hk' [[? ?]|[_ Hs]]%lookup_insert_Some]%lookup_delete_Some; [done|].
    apply Hk'. by eapply inv_inj.
  - exact Hl2.
  - intros key Hgk. apply blind_reconcile; rewrite <- Hkey; [exact Hl2|done].
  - intros obj del. apply blind_report. rewrite <- Hkey. exact Hl2.
Qed.

(** ** When no manifest lists the agent's own kind *)

Context (foreign : GroupVersionResource → Prop).

(** No foreign resource is of the agent's own kind. *)
Definition respects (m : RESTMapper) : Prop :=
  ∀ gvr gvk, foreign gvr → KindFor m gvr = GOk gvk → gvk_key gvk ≠ AppliedManifestWorkKey.

(** A manifest lists foreign resources. *)
Definition lists_foreign (obj : Object) : Prop :=
  IsAppliedManifestWork (VObject obj) = true → ∀ aWork, ToAppliedManifestWork obj = GOk aWork → Forall foreign (ListGVRs aWork).

(** The answers that depend on the manifests and on discovery. *)
Definition own_answers (R : Type) (o : Op R) : R → Prop :=
  match o in Op R return R → Prop with
  | MapperRead => λ r, ∀ m, r = Some m → respects m
  | SMGet f _ =>
      match f in Field V return option V → Prop with
      | FTracked => λ r, ∀ i, r = Some i → Forall foreign (GVRs i)
      | _ => λ _, True
      end
  | Lib c =>
      match c in Call R return R → Prop with
      | CListerGet _ _ | CListerNamespaceGet _ _ _ => λ r, ∀ o, r = GOk o → lists_foreign o
      | CGetAPIGroupResources => λ r, ∀ g, r = GOk g → respects (NewDiscoveryRESTMapper g)
      | _ => λ _, True
      end
  | _ => λ _, True
  end.
Definition both_answers (R : Type) (o : Op R) (r : R) : Prop := answers R o r ∧ own_answers R o r.

(** Nothing is removed from the maps under the agent's own kind. *)
Definition own_op (R : Type) (o : Op R) : Prop :=
  match o with
  | SMDelete f key => match f with FTracked => True | _ => key ≠ AppliedManifestWorkKey end
  | SMSet f _ v => (match f in Field V return V → Prop with FTracked => λ i, Forall foreign (GVRs i) | _ => λ _, True end) v
  | MapperWrite m => ∀ m', m = Some m' → respects m'
  | _ => True
  end.
Abbreviation own_safe := (safe both_answers own_op (λ _, True)).

Lemma own_plain {A} (ok : ∀ R, Op R → Prop) crash (Q : A → Prop) (t : prog Op A) :
  (∀ R (o : Op R), ok R o → own_op R o) → safe answers ok crash Q t → own_safe Q t.
Proof. intros Ho. apply safe_weaken; auto. by intros R o r []. Qed.

Lemma own_status {A} (Q : A → Prop) (t : prog Op A) :
  safe answers (λ R o, status_op o = true) no_panic Q t → own_safe Q t.
Proof. apply own_plain. by intros R []. Qed.

Lemma own_lookup key : own_safe (λ r, ∀ o, r = GOk o → is_unstructured o = true ∧ lists_foreign o) (GetObjectFromKey key).
Proof.
  unfold GetObjectFromKey, getObject. split; [done|]. intros [l|] _; cbn [mbind prog_bind]; [|done].
  destruct (SplitMetaNamespaceKey _) as [[ns n]|]; [|done].
  case_decide; (split; [done|]); intros r [Hu Hf] o ->; (split; [apply Hu|by apply Hf]).
Qed.

#[local] Arguments GetObjectFromKey : simpl never.
#[local] Arguments handleWorkStatus : simpl never.

Lemma updateRestMapper_own : own_safe (λ _, True) updateRestMapper.
Proof.
  unfold updateRestMapper, getRestMapper. split; [done|]. intros [g|err] [_ Hr]; cbn [mbind mret prog_bind prog_ret].
  - split; [|done]. intros m [= <-]. by apply Hr.
  - by split.
Qed.

Lemma mapperKindFor_own gvr :
  own_safe (λ r, ∀ gvk, foreign gvr → r = GOk gvk → gvk_key gvk ≠ AppliedManifestWorkKey) (mapperKindFor gvr).
Proof.
  unfold mapperKindFor. split; [done|]. intros [m|] [_ Hr]; [|done]. intros gvk Hf Hk. by eapply Hr.
Qed.

Lemma startInformer_own gvr gvk c b : own_safe (λ _, True) (startInformer gvr gvk c b).
Proof. unfold startInformer. repeat (split; [done|intros ? _]). done. Qed.

Lemma startInformers_own gvrs uids : own_safe (λ _, True) (startInformers gvrs uids).
Proof.
  unfold startInformers. eapply safe_bind; [apply updateRestMapper_own|]. intros _ _.
  generalize 0. induction gvrs as [|gvr gvrs IH]; intros i; [done|]. cbn [startInformers_loop].
  eapply safe_bind; [apply mapperKindFor_own|]. intros [gvk|err] _; [|done].
  destruct (excluded gvk); [apply IH|]. destruct (index uids i) as [uid|q]; [|done]. cbn [lift mbind prog_bind].
  eapply (safe_bind _ _ _ (λ _, True)); [|intros _ _; apply IH].
  unfold startObject. do 2 (split; [done|intros ? _]). cbn [mbind prog_bind]. case_decide; [|done].
  split; [done|]. intros c _. apply startInformer_own.
Qed.

Lemma stopInformer_own key : key ≠ AppliedManifestWorkKey → own_safe (λ _, True) (stopInformer key).
Proof.
  intros Hk. unfold stopInformer. split; [done|]. intros [c|] _; [|done]. repeat (split; [done|intros ? _]). done.
Qed.

Lemma stopInformers_own info : Forall foreign (GVRs info) → own_safe (λ _, True) (stopInformers info).
Proof.
  intros Hf. unfold stopInformers. eapply (safe_bind _ _ _ (λ _, True)).
  2:{ intros [] _; [apply updateRestMapper_own|done]. }
  revert Hf. generalize 0. induction (GVRs info) as [|gvr gvrs IH]; intros i Hf; [done|].
  apply Forall_cons in Hf as [Hg Hf]. cbn [stopInformers_loop].
  eapply safe_bind; [apply mapperKindFor_own|]. intros [gvk|err] Hk; [|done].
  eapply (safe_bind _ _ _ (λ _, True)); [|intros _ _; by apply IH].
  unfold stopObject. split; [done|]. intros [inf|] _; [|done]. cbn [mbind prog_bind].
  destruct (index _ i) as [uid|q]; [|done]. cbn [lift mbind prog_bind].
  do 2 (split; [done|intros ? _]). cbn [mbind prog_bind]. case_decide; [|done]. by apply stopInformer_own, Hk.
Qed.

Lemma handleAppliedManifestWork_own obj del :
  IsAppliedManifestWork (VObject obj) = true → (del = false → lists_foreign obj) →
  own_safe (λ _, True) (handleAppliedManifestWork obj del).
Proof.
  intros Hamw Hf. unfold handleAppliedManifestWork, as_unstructured.
  destruct (is_unstructured obj); [|done]. cbn [lift mbind prog_bind].
  destruct (ToAppliedManifestWork obj) as [aWork|err] eqn:Hw; [|done]. destruct del.
  - split; [done|]. intros [info|] [_ Hi]; [|done]. cbn [mbind prog_bind].
    eapply safe_bind; [by apply stopInformers_own, Hi|]. intros _ _. by split.
  - specialize (Hf eq_refl Hamw aWork Hw). case_decide; [done|]. split; [done|]. intros [old|] [Ha Hi]; cbn [mbind prog_bind].
    + case_decide; [done|]. do 2 (split; [done|intros ? _]). cbn [mbind prog_bind].
      destruct (GetAddedRemovedInfo _ _ _ _) as [[added removed]|q] eqn:Hdiff; [|done]. cbn [lift mbind prog_bind].
      do 2 (split; [done|intros ? _]). cbn [mbind prog_bind]. eapply safe_bind; [|done].
      apply stopInformers_own, Forall_forall. intros g Hg. specialize (Hi old eq_refl). rewrite Forall_forall in Hi.
      apply Hi. eapply GetAddedRemovedInfo_removed_gvrs; [by apply Ha|apply manifest_info_wf|done|done].
    + do 2 (split; [done|intros ? _]). done.
Qed.

Lemma reconcile_own key : own_safe (λ _, True) (reconcile cfg key).
Proof.
  assert (∀ obj del, (del = false → lists_foreign obj) → own_safe (λ _, True) (reconcileObject cfg obj del)) as Hobj.
  { intros obj del Hf. unfold reconcileObject. destruct (IsAppliedManifestWork _) eqn:Ha; [by apply handleAppliedManifestWork_own|].
    destruct (IsManagedByAppliedManifestWork obj); [|done]. cbn [negb].
    eapply safe_bind; [eapply own_status, handleWorkStatus_triple|]. done. }
  unfold reconcile. eapply safe_bind; [apply own_lookup|]. intros [obj|err] Hr; [by apply Hobj; intros _; apply Hr|].
  destruct (IsNotFound err); [|by destruct (IsListerNotFound err)].
  destruct (DeletedObject key) as [a|]; [|done]. split; [done|]. intros obj _. by apply Hobj.
Qed.

#[local] Arguments reconcile : simpl never.

Lemma runWorker_own fuel : own_safe (λ _, True) (runWorker fuel cfg).
Proof.
  induction fuel as [|fuel IH]; [done|]. cbn [runWorker]. eapply (safe_bind _ _ _ (λ _, True)); [|intros [] _; [apply IH|done]].
  unfold processNextWorkItem. split; [done|]. intros [item|] _; [|done]. cbn [mbind prog_bind].
  eapply (safe_bind _ _ _ (λ _, True)); [|intros [err|] _; by repeat (split; [done|intros ? _])].
  unfold processItem, defer. eapply (safe_bind _ _ _ (λ _, True)); [|by intros err _; repeat (split; [done|intros ? _])].
  destruct item as [key|n]; [|by repeat (split; [done|intros ? _])].
  eapply safe_bind; [apply reconcile_own|]. intros [rq [err|]] _; [|destruct rq]; by repeat (split; [done|intros ? _]).
Qed.

Lemma waitForCaches_own infs : own_safe (λ _, True) (waitForCaches infs).
Proof. induction infs as [|i infs IH]; [done|]. by split; [|intros [] _]. Qed.

Lemma run_agent_own workers : own_safe (λ _, True) (run_agent workers).
Proof.
  unfold run_agent, defer. eapply (safe_bind _ _ _ (λ _, True)); [|by intros err _; repeat (split; [done|intros ? _])].
  split; [done|]. intros c _. eapply (safe_bind _ _ _ (λ _, True)); [|by intros err _; repeat (split; [done|intros ? _])].
  eapply safe_bind; [apply startInformer_own|]. intros _ _. do 2 (split; [done|intros ? _]). cbn [mbind prog_bind].
  eapply (safe_bind _ _ _ (λ _, True)).
  { apply waitForCaches_own. }
  intros [] _; [|done]. cbn [negb]. eapply (safe_bind _ _ _ (λ _, True)).
  { generalize (Z.to_nat workers). intros n. induction n as [|n IH]; [done|]. by split. }
  intros _ _. by repeat (split; [done|intros ? _]).
Qed.

Lemma body_own g t : goroutine_body cfg g t → own_safe (λ _, True) t.
Proof.
  intros Hb. destruct Hb as [w|fuel|gvrs uids|i c]; [| | |done].
  - by eapply safe_bind; [apply run_agent_own|].
  - by eapply safe_bind; [apply runWorker_own|].
  - apply startInformers_own.
Qed.

Lemma handler_own t : handler_event t → own_safe (λ _, True) t.
Proof.
  assert (∀ obj, own_safe (λ _, True) (handleObject (VObject obj))) as Hobj.
  { intros obj. unfold handleObject, enqueueObject, KeyForGroupVersionKindNamespaceName. cbn.
    destruct (MetaNamespaceKeyFunc obj) as [nn|err]; cbn; [|done].
    eapply safe_bind; [apply own_lookup|]. intros [o|err] _; [done|]. destruct (IsNotFound err); [|done].
    by repeat (split; [done|intros ? _]). }
  intros [obj Hu|old new Hu|obj Hu|key obj]; [by apply Hobj| |by apply Hobj|done].
  unfold onUpdate, shouldSkipUpdate. cbn. case_bool_decide; [done|by apply Hobj].
Qed.

(** ** Every interleaving *)

(** The libraries answer so: discovery and the manifests keep to foreign resources. *)
Definition foreign_world (good : E → Prop) : Prop :=
  ∀ R (c : Call R) e, good e → own_answers R (Lib c) (respond c e).1.

(** What is there under the agent's own kind: in the listers, informers and stoppers. *)
Definition has_own p : Prop :=
  is_Some (listers (agent p) !! AppliedManifestWorkKey) ∧ is_Some (informers (agent p) !! AppliedManifestWorkKey) ∧
  is_Some (stoppers (agent p) !! AppliedManifestWorkKey).

Record own_ok p : Prop := {
  own_mapper m : restMapper (agent p) = Some m → respects m;
  own_tracked name info : trackedAppliedManifests (agent p) !! name = Some info → Forall foreign (GVRs info)
}.

Lemma exec_own good p R (o : Op R) r p' :
  foreign_world good → good (env p) → own_ok p → own_op R o → exec R o p = Done (r, p') →
  own_answers R o r ∧ own_ok p' ∧ (has_own p → has_own p').
Proof.
  intros Hf Hg [Hm Ht] Ho Hex. destruct o; cbn in Hex; simplify_eq/=; try done.
  - split; [|done]. destruct f; try done. apply Ht.
  - split; [done|]. split.
    + destruct f; split; try done. intros name info. cbn. unfold SafeMap_Set.
      intros [[<- <-]|[_ ?]]%lookup_insert_Some; [done|by eapply Ht].
    + unfold has_own. destruct f; cbn; unfold SafeMap_Set; rewrite ?lookup_insert_is_Some;
        destruct (decide (key = AppliedManifestWorkKey)); tauto.
  - split; [done|]. split.
    + destruct f; split; try done. intros name info. cbn. unfold SafeMap_Delete.
      intros [_ ?]%lookup_delete_Some. by eapply Ht.
    + unfold has_own. destruct f; cbn; unfold SafeMap_Delete; rewrite ?lookup_delete_is_Some; tauto.
  - by destruct (chans p !! c) as [[]|]; simplify_eq/=.
  - by destruct (cells p !! addr); simplify_eq/=.
  - pose proof (Hf _ c (env p) Hg) as Hc. destruct (respond c (env p)). by simplify_eq/=.
Qed.

Record own_system (good : E → Prop) (s : System (E := E)) : Prop := {
  os_ok : system_ok good s;
  os_own : own_ok (proc s);
  os_threads : Forall (own_safe (λ _, True)) (threads s)
}.

Lemma own_step good s s' :
  env_answers good → foreign_world good → step cfg s s' → own_system good s →
  own_system good s' ∧ (has_own (proc s) → has_own (proc s')).
Proof.
  intros Henv Hf Hstep [Hok Hown Hts]. pose proof (step_ok cfg good s s' Henv Hstep Hok) as Hok'.
  destruct Hstep as [p ts i R o k r p' Hi Hex|p ts i g t Hg Hb|p ts t Ht]; cbn in *.
  - pose proof (proj1 (Forall_lookup _ _) Hts _ _ Hi) as [Ho Hk].
    pose proof (proj1 (Forall_lookup _ _) (proj2 Hok) _ _ Hi) as [Hag _].
    destruct (exec_shared_ok good p R o r p' Henv (proj1 Hok) Hag Hex) as [Ha _].
    destruct (exec_own good p R o r p' Hf (so_env _ _ (proj1 Hok)) Hown Ho Hex) as (Ha' & Hown' & Hhas).
    split; [|done]. split; [done|done|]. cbn. apply Forall_insert; [done|]. by apply Hk.
  - split; [|done]. split; [done|by destruct Hown|]. cbn. apply Forall_app. split; [done|].
    constructor; [|done]. by eapply body_own.
  - split; [|done]. split; [done|done|]. cbn. apply Forall_app. split; [done|]. constructor; [|done]. by apply handler_own.
Qed.

Lemma own_steps good s s' :
  env_answers good → foreign_world good → rtc (step cfg) s s' → own_system good s →
  own_system good s' ∧ (has_own (proc s) → has_own (proc s')).
Proof.
  intros Henv Hf. induction 1 as [s|s1 s2 s3 Hs _ IH]; intros Hok; [done|].
  destruct (own_step good _ _ Henv Hf Hs Hok) as [Hok2 H2]. destruct (IH Hok2). auto.
Qed.

Lemma initial_own good m workers e : good e → respects m → own_system good (initial m workers e).
Proof.
  intros He Hm. split; [by apply initial_ok|split; [by intros ? [= <-]|done]|]. constructor; [|done].
  apply (body_own (GRun workers)). constructor.
Qed.

(** C16: when every manifest lists resources of other kinds than the agent's own, the
    informer of the applied manifest works is there for good: in every interleaving
    of the goroutines, with any number of workers and any events, once the startup
    has put its lister, informer and stop channel into the maps, no goroutine ever
    removes them. *)
Theorem own_informer_stays good m workers e s s' :
  env_answers good → foreign_world good → good e → respects m → rtc (step cfg) (initial m workers e) s →
  has_own (proc s) → rtc (step cfg) s s' → has_own (proc s').
Proof.
  intros Henv Hf He Hm Hs Hown Hs'.
  destruct (own_steps good _ _ Henv Hf Hs (initial_own good m workers e He Hm)) as [Hok _].
  by apply (own_steps good _ _ Henv Hf Hs' Hok).
Qed.
End own.

(** ** Closed instances *)

(** Discovery knows the agent's own kind. *)
Definition own_known (gvr : GroupVersionResource) : option GroupVersionKind :=
  if decide (gvr = amw_gvr) then Some amw_gvk else None.

Lemma own_stable : StableDiscovery own_known sc_cached.
Proof.
  split; [intros R c e; apply (valid_answers _ _ _ _ sc_cached_valid)|].
  intros e [He _]. eexists _, _. split; [cbn; by rewrite He|].
  intros gvr gvk. unfold own_known. by case_decide; intros [= <-]; subst.
Qed.

Definition own_env : SimEnv := sc_env [sc_manifest] [] [] [] None [].
Lemma own_env_cached : sc_cached own_env.
Proof. split; [reflexivity|]. intros k o. cbn. intros [[_ <-]|[_ [=]]]%lookup_insert_Some. apply sc_manifest_valid. Qed.

Lemma sc_table_known : resolves sc_known sc_table.
Proof. intros gvr gvk. unfold sc_known. case_decide; [|discriminate]. intros [= <-]. subst. reflexivity. Qed.

Definition after_start {A} (f : Process SimEnv → A) (o : outcome (unit * Process SimEnv)) : option A :=
  match o with Done (_, p) => Some (f p) | Panic _ => None end.

Lemma listed_manifest_blinds_agent_witness :
  ∃ p p1 p2, lifecycle_inv p ∧ is_Some (listers (agent p) !! AppliedManifestWorkKey) ∧
    run (exec (E := SimEnv)) (startInformers [amw_gvr] ["inner-uid"]) p = Done (tt, p1) ∧
    run (exec (E := SimEnv)) (stopInformers (MkInfo ["inner-uid"] [amw_gvr])) p1 = Done (tt, p2) ∧
    listers (agent p2) !! AppliedManifestWorkKey = None.
Proof.
  destruct (started_agent_ok (K := sim_kube) (E := SimEnv) sc_known sc_cached sc_owner sc_resource sc_table own_env
    sc_cached_valid own_env_cached sc_table_known) as (p & Hr & Hp & _). fold start_up in Hr.
  assert (stoppers (agent p) !! AppliedManifestWorkKey = Some 0%N) as Hs.
  { pose proof (f_equal (after_start (λ p, stoppers (agent p) !! AppliedManifestWorkKey)) Hr) as H.
    vm_compute in H. injection H as H. symmetry. exact H. }
  assert (tracked_uids p AppliedManifestWorkKey = ∅) as Ht.
  { pose proof (f_equal (after_start (λ p, tracked_uids p AppliedManifestWorkKey)) Hr) as H.
    vm_compute in H. injection H as H. symmetry. exact H. }
  pose proof (ok_lifecycle _ _ _ (history_agent _ _ _ _ _ Hp)) as Hinv.
  destruct (listed_manifest_blinds_agent (K := sim_kube) (E := SimEnv) sc_config own_known sc_cached amw_gvr amw_gvk "inner-uid" 0%N p
    own_stable (ok_good _ _ _ (history_agent _ _ _ _ _ Hp)) Hinv) as (p1 & p2 & Hr1 & Hr2 & _ & _ & Hl & _).
  - vm_compute. reflexivity.
  - vm_compute. reflexivity.
  - vm_compute. reflexivity.
  - exact Ht.
  - exact Hs.
  - exists p, p1, p2. split; [exact Hinv|]. split; [|split; [exact Hr1|split; [exact Hr2|exact Hl]]].
    apply (inv_listers _ Hinv). exists 0%N. exact Hs.
Defined.

(** The resources of the scenario. *)
Definition sc_foreign (gvr : GroupVersionResource) : Prop := gvr = sc_gvr.

Lemma sc_table_respects : respects (K := sim_kube) sc_foreign sc_table.
Proof. intros gvr gvk -> . vm_compute. intros [= <-]. discriminate. Qed.

Lemma sc_cached_foreign : foreign_world (K := sim_kube) sc_foreign sc_cached.
Proof.
  assert (∀ o, sc_valid o → lists_foreign (K := sim_kube) sc_foreign o) as Ho.
  { intros o [_ Hv] Ha aWork Hw. destruct (Hv Ha aWork Hw) as [[Hwf _] Hown]. apply Forall_forall. intros g Hg.
    change (ListGVRs aWork) with (GVRs (manifest_info aWork)) in Hg.
    rewrite <- (snd_zip (ObjectUIDs (manifest_info aWork)) (GVRs (manifest_info aWork))) in Hg by (unfold info_wf in Hwf; lia).
    apply list_elem_of_fmap in Hg as ([u g'] & -> & Hin). by destruct (Hown u g' Hin). }
  intros R c e [Hd Hc]. destruct c; try done; cbn.
  - intros g. rewrite Hd. intros [= <-]. apply sc_table_respects.
  - intros o. unfold sim_lookup. destruct (se_cache e !! name) as [o'|] eqn:E1; [|done]. intros [= <-]. by eapply Ho, Hc.
  - intros o. unfold sim_lookup. destruct (se_cache e !! hub_key namespace name) as [o'|] eqn:E1; [|done]. intros [= <-]. by eapply Ho, Hc.
Qed.

#[export] Instance has_own_dec p : Decision (has_own (K := sim_kube) (E := SimEnv) p).
Proof. unfold has_own. apply _. Defined.

Lemma own_informer_stays_witness :
  ∃ s, rtc (step sc_config) (initial (K := sim_kube) sc_table 2 own_env) s ∧ has_own (proc s) ∧
    ∀ s', rtc (step sc_config) s s' → has_own (proc s').
Proof.
  destruct (schedule_reaches sc_config [CActs 0 7] (initial (K := sim_kube) sc_table 2 own_env) (λ s, has_own (proc s)))
    as (s & Hs & Hown); [vm_compute; reflexivity|].
  exists s. split; [exact Hs|]. split; [exact Hown|]. intros s' Hs'.
  eapply (own_informer_stays (K := sim_kube) (E := SimEnv) sc_config sc_foreign sc_cached sc_table 2 own_env s s');
    [apply (valid_answers _ _ _ _ sc_cached_valid)|exact sc_cached_foreign|exact own_env_cached|exact sc_table_respects
    |exact Hs|exact Hown|exact Hs'].
Defined.
