(* ===== verification/Pointers.v ===== *)
(** * Channels and copies: no goroutine uses what was not allocated

    The agent passes channels through the map of stoppers and pointers to copies
    through the keys of the work queue.  In every interleaving, what it takes from
    there was put there by it: a typing of its programs by the identities
    allocated so far, in the manner of Kripke: the identities may grow between any
    two actions, since other goroutines run. *)

From S2P Require Export Liveness.

(** The channels and the heap cells allocated so far. *)
Record Refs : Type := MkRefs { ref_chans : gset N; ref_cells : gset N }.

Definition refs_le (w w' : Refs) : Prop := ref_chans w ⊆ ref_chans w' ∧ ref_cells w ⊆ ref_cells w'.
Infix "⊑w" := refs_le (at level 70).

#[export] Instance refs_le_preorder : PreOrder refs_le.
Proof. unfold refs_le. split; [by intros w|]. intros w1 w2 w3 [] []. split; by etrans. Qed.

Section pointers.
Context {RT : GoRuntime} {K : Kube}.

(** The pointer in a key, if any, is to an allocated cell. *)
Definition item_refs (w : Refs) (item : QueueItem) : Prop :=
  match item with
  | QKey key => ∀ a, DeletedObject key = Some a → a ∈ ref_cells w
  | QOther _ => True
  end.

(** What an action needs to be allocated, and what its answer tells. *)
Definition needs (w : Refs) {R} (o : Op R) : Prop :=
  match o with
  | SMSet f _ v => (match f in Field V return V → Prop with FStoppers => λ c, c ∈ ref_chans w | _ => λ _, True end) v
  | ChanClose c => c ∈ ref_chans w
  | CellRead a => a ∈ ref_cells w
  | Lib c => match c with CQueueAdd i | CQueueAddRateLimited i => item_refs w i | _ => True end
  | _ => True
  end.

Definition tells (w : Refs) {R} (o : Op R) : R → Prop :=
  match o in Op R return R → Prop with
  | SMGet f _ =>
      match f in Field V return option V → Prop with
      | FStoppers => λ r, ∀ c, r = Some c → c ∈ ref_chans w
      | _ => λ _, True
      end
  | ChanMake => λ c, c ∈ ref_chans w
  | CellNew _ => λ a, a ∈ ref_cells w
  | Lib c =>
      match c in Call R return R → Prop with
      | CQueueGet => λ r, ∀ i, r = Some i → item_refs w i
      | _ => λ _, True
      end
  | _ => λ _, True
  end.

Fixpoint uses (w : Refs) {A} (Q : Refs → A → Prop) (t : prog Op A) : Prop :=
  match t with
  | Ret a => Q w a
  | Crash _ => True
  | Act o k => needs w o ∧ ∀ w' r, w ⊑w w' → answers _ o r → tells w' o r → uses w' Q (k r)
  end.

(** ** Lemmas *)

Lemma item_refs_mono w w' item : w ⊑w w' → item_refs w item → item_refs w' item.
Proof. intros [_ Hc] Hi. destruct item; [|done]. intros a Ha. by apply Hc, Hi. Qed.

Lemma needs_mono w w' {R} (o : Op R) : w ⊑w w' → needs w o → needs w' o.
Proof.
  intros Hw. destruct o; try done.
  - destruct f; try done. apply Hw.
  - apply Hw.
  - apply Hw.
  - destruct c; try done; by apply item_refs_mono.
Qed.

Lemma uses_mono w w' {A} (Q : Refs → A → Prop) (t : prog Op A) :
  (∀ w1 w2 a, w1 ⊑w w2 → Q w1 a → Q w2 a) → w ⊑w w' → uses w Q t → uses w' Q t.
Proof.
  intros HQ Hw. destruct t as [a|q|R o k]; cbn; [by apply HQ|done|]. intros [Hn Hk].
  split; [by eapply needs_mono|]. intros w2 r Hw2. apply Hk. by etrans.
Qed.

Lemma uses_bind w {A B} (Q : Refs → A → Prop) (Q' : Refs → B → Prop) (t : prog Op A) (f : A → prog Op B) :
  uses w Q t → (∀ w' a, w ⊑w w' → Q w' a → uses w' Q' (f a)) → uses w Q' (t ≫= f).
Proof.
  revert w. induction t as [a|q|R o k IH]; cbn; intros w Ht Hf; [by apply Hf|done|].
  destruct Ht as [Hn Hk]. split; [done|]. intros w' r Hw Ha Ht. apply IH; [by apply Hk|].
  intros w2 a Hw2. apply Hf. by etrans.
Qed.

(** An action that neither needs an identity nor tells one of use. *)
Definition plain {R} (o : Op R) : bool :=
  match o with
  | SMSet f _ _ => match f with FStoppers => false | _ => true end
  | ChanClose _ | CellRead _ => false
  | Lib c => match c with CQueueAdd _ | CQueueAddRateLimited _ => false | _ => true end
  | _ => true
  end.

Lemma plain_needs w {R} (o : Op R) : plain o = true → needs w o.
Proof. destruct o; try done; [by destruct f|by destruct c]. Qed.

Abbreviation plain_safe := (safe answers (λ R o, plain o = true) (λ _, True)).

Lemma uses_plain w {A} (Q : A → Prop) (t : prog Op A) : plain_safe Q t → uses w (λ _, Q) t.
Proof.
  revert w. induction t as [a|q|R o k IH]; cbn; intros w; [done..|]. intros [Hp Hk].
  split; [by apply plain_needs|]. intros w' r _ Ha _. by apply IH, Hk.
Qed.

Lemma status_plain {A} (Q : A → Prop) (t : prog Op A) :
  safe answers (λ R o, status_op o = true) no_panic Q t → plain_safe Q t.
Proof. apply safe_weaken; auto. intros R o Ho. destruct o; try done. by destruct c. Qed.

Abbreviation any := (λ _ _, True).
#[local] Arguments reconcile : simpl never.
#[local] Arguments GetObjectFromKey : simpl never.
#[local] Arguments startInformer : simpl never.
#[local] Arguments stopInformers : simpl never.

(** ** Informers *)

Lemma startInformer_uses w gvr gvk c b : c ∈ ref_chans w → uses w any (startInformer gvr gvk c b).
Proof.
  intros Hc. unfold startInformer.
  split; [done|intros w1 i Hw1 _ _]. split; [done|intros w2 [] Hw2 _ _]. split; [done|intros w3 [] Hw3 _ _].
  split; [done|intros w4 [] Hw4 _ _]. split; [cbn|done].
  assert (w ⊑w w4) as [Hch _] by (by repeat (etrans; [eassumption|])). by apply Hch.
Qed.

Lemma updateRestMapper_plain : plain_safe (λ _, True) updateRestMapper.
Proof. unfold updateRestMapper, getRestMapper. split; [done|]. by intros [g|e] _. Qed.

Lemma mapperKindFor_plain gvr : plain_safe (λ _, True) (mapperKindFor gvr).
Proof. unfold mapperKindFor. split; [done|]. by intros [m|] _. Qed.

Lemma startObject_uses w gvr gvk uid : uses w any (startObject gvr gvk uid).
Proof.
  unfold startObject. do 2 (split; [done|intros ? ? _ _ _]). cbn [mbind prog_bind]. case_decide; [|done].
  split; [done|intros wc c _ _ Hc]. by apply startInformer_uses.
Qed.

Lemma startInformers_loop_uses w uids i gvrs : uses w any (startInformers_loop uids i gvrs).
Proof.
  revert w i. induction gvrs as [|gvr gvrs IH]; intros w i; [done|]. cbn [startInformers_loop].
  eapply uses_bind; [apply uses_plain, mapperKindFor_plain|]. intros w' [gvk|err] _ _; [|done].
  destruct (excluded gvk); [apply IH|]. destruct (index uids i) as [uid|q]; cbn [lift mbind prog_bind]; [|done].
  eapply uses_bind; [apply startObject_uses|]. intros w2 _ _ _. apply IH.
Qed.

Lemma startInformers_uses w gvrs uids : uses w any (startInformers gvrs uids).
Proof.
  unfold startInformers. eapply uses_bind; [apply uses_plain, updateRestMapper_plain|].
  intros w' _ _ _. apply startInformers_loop_uses.
Qed.

Lemma stopInformer_uses w key : uses w any (stopInformer key).
Proof.
  unfold stopInformer. split; [done|]. intros w1 [c|] _ _ Hc; [|done]. split; [by apply Hc|].
  intros w2 [] _ _ _. by do 2 (split; [done|intros ? ? _ _ _]).
Qed.

Lemma stopObject_uses w gvk uid : uses w any (stopObject gvk uid).
Proof.
  unfold stopObject. split; [done|]. intros w1 [inf|] _ _ _; [|done]. cbn [mbind prog_bind].
  destruct uid as [uid|q]; cbn [lift mbind prog_bind]; [|done].
  do 2 (split; [done|intros ? ? _ _ _]). cbn [mbind prog_bind]. case_decide; [apply stopInformer_uses|done].
Qed.

Lemma stopInformers_uses w info : uses w any (stopInformers info).
Proof.
  unfold stopInformers. eapply (uses_bind _ any).
  - generalize 0 (GVRs info). intros i gvrs. revert w i. induction gvrs as [|gvr gvrs IH]; intros w i; [done|].
    cbn [stopInformers_loop]. eapply uses_bind; [apply uses_plain, mapperKindFor_plain|].
    intros w' [gvk|err] _ _; [|done]. eapply uses_bind; [apply stopObject_uses|]. intros w2 _ _ _. apply IH.
  - intros w' [] _ _; [apply uses_plain, updateRestMapper_plain|done].
Qed.

(** ** Reconciliation *)

Lemma handleAppliedManifestWork_uses w obj del : uses w any (handleAppliedManifestWork obj del).
Proof.
  unfold handleAppliedManifestWork. destruct (as_unstructured obj) as [u|q]; cbn [lift mbind prog_bind]; [|done].
  destruct (ToAppliedManifestWork u) as [aWork|err]; [|done]. destruct del.
  - split; [done|]. intros w1 [info|] _ _ _; [|done]. eapply uses_bind; [apply stopInformers_uses|].
    intros w2 _ _ _. by split.
  - case_decide; [done|]. split; [done|]. intros w1 [info|] _ _ _; cbn [mbind prog_bind].
    + case_decide; [done|]. split; [done|intros w2 s1 _ _ _]. split; [done|intros w3 s2 _ _ _]. cbn [mbind prog_bind].
      destruct (GetAddedRemovedInfo _ _ _ _) as [[added removed]|q]; cbn [lift mbind prog_bind]; [|done].
      do 2 (split; [done|intros ? ? _ _ _]). cbn [mbind prog_bind].
      eapply uses_bind; [apply stopInformers_uses|]. done.
    + by do 2 (split; [done|intros ? ? _ _ _]).
Qed.

Lemma reconcileObject_uses w cfg obj del : uses w any (reconcileObject cfg obj del).
Proof.
  unfold reconcileObject. destruct (IsAppliedManifestWork _); [apply handleAppliedManifestWork_uses|].
  destruct (negb _); [done|]. eapply uses_bind; [|by intros].
  apply uses_plain, status_plain, handleWorkStatus_triple.
Qed.

Lemma reconcile_uses w cfg key : item_refs w (QKey key) → uses w any (reconcile cfg key).
Proof.
  intros Hkey. unfold reconcile.
  eapply uses_bind; [apply uses_plain, status_plain, lookup_status, GetObjectFromKey_safe|].
  intros w1 [obj|err] Hw1 _; [apply reconcileObject_uses|].
  destruct (IsNotFound err); [|by destruct (IsListerNotFound err)].
  destruct (DeletedObject key) as [a|] eqn:Ha; [|done].
  split; [by apply Hw1, Hkey|]. intros w2 obj _ _ _. apply reconcileObject_uses.
Qed.

(** ** Handlers, workers and startup *)

Lemma enqueueObject_uses w obj skip : uses w any (enqueueObject obj skip).
Proof.
  unfold enqueueObject. destruct (KeyForGroupVersionKindNamespaceName obj) as [[key|err]|q] eqn:Hk; cbn [lift mbind prog_bind];
    [|by split|done].
  assert (∀ w, item_refs w (QKey key)) as Hkey.
  { intros w' a. unfold KeyForGroupVersionKindNamespaceName in Hk. destruct (as_object obj); [|done]. cbn in Hk.
    destruct (MetaNamespaceKeyFunc _); [|done]. by injection Hk as <-. }
  destruct skip; cbn [negb]; [by split; [apply Hkey|]|].
  eapply uses_bind; [apply uses_plain, status_plain, lookup_status, GetObjectFromKey_safe|].
  intros w1 [o|err] _ _; [by split; [apply Hkey|]|]. destruct (IsNotFound err); [|done].
  destruct (as_object obj) as [rObj|q]; cbn [lift mbind prog_bind]; [|done].
  split; [done|]. intros w2 a _ _ Ha. split; [|done]. by intros a' [= <-].
Qed.

Lemma handler_uses w t : handler_event t → uses w any t.
Proof.
  intros [obj Hu|old new Hu|obj Hu|key obj]; [apply enqueueObject_uses| |apply enqueueObject_uses|done].
  unfold onUpdate, shouldSkipUpdate. cbn. case_bool_decide; [done|apply enqueueObject_uses].
Qed.

Lemma processItem_uses w cfg item : item_refs w item → uses w any (processItem cfg item).
Proof.
  intros Hi. unfold processItem, defer. eapply (uses_bind _ any); [|by split].
  destruct item as [key|n]; [|by do 2 (split; [done|intros ? ? _ _ _])].
  eapply uses_bind; [by apply reconcile_uses|]. intros w1 [requeue [err|]] Hw1 _; [|destruct requeue].
  all: split; [try done; by eapply item_refs_mono|done].
Qed.

Lemma runWorker_uses w fuel cfg : uses w any (runWorker fuel cfg).
Proof.
  revert w. induction fuel as [|fuel IH]; intros w; [done|]. cbn [runWorker].
  eapply (uses_bind _ any).
  - unfold processNextWorkItem. split; [done|]. intros w1 [item|] _ _ Hi; [|done].
    eapply uses_bind; [apply processItem_uses, Hi; done|]. intros w2 [err|] _ _; [by split|done].
  - intros w1 [] _ _; [apply IH|done].
Qed.

Lemma run_agent_uses w workers : uses w any (run_agent workers).
Proof.
  unfold run_agent, defer. eapply (uses_bind _ any); [|by split].
  split; [done|]. intros w1 c _ _ Hc. cbn [tells] in Hc. eapply (uses_bind _ any).
  - eapply uses_bind; [by apply startInformer_uses|]. intros w2 _ _ _.
    apply (uses_plain _ (λ _, True)).
    split; [done|intros seed _]. split; [done|intros infs _]. cbn [mbind prog_bind].
    eapply (safe_bind _ _ _ (λ _, True)).
    + induction infs as [|i infs IH]; [done|]. split; [done|]. by intros [] _.
    + intros [] _; [|done]. cbn [negb]. eapply (safe_bind _ _ _ (λ _, True)); [|done].
      generalize (Z.to_nat workers). intros n. by induction n.
  - intros w2 err Hw2 _. split; [by apply Hw2|done].
Qed.

Lemma body_uses cfg g t w : goroutine_body cfg g t → uses w any t.
Proof.
  intros [n|fuel|gvrs uids|i c]; [| |apply startInformers_uses|done].
  - eapply uses_bind; [apply run_agent_uses|done].
  - eapply uses_bind; [apply runWorker_uses|done].
Qed.
End pointers.

(** ** The pool *)

(** The pointers in the items of a work queue. *)
Class QueuePointers (E : Type) : Type := queue_refs : E → gset N.

Definition item_pointer (item : QueueItem) : gset N :=
  match item with
  | QKey key => match DeletedObject key with Some a => {[a]} | None => ∅ end
  | QOther _ => ∅
  end.

Section pool.
Context {RT : GoRuntime} {K : Kube} {E : Type} `{Env : !Environment E} `{QP : !QueuePointers E}.
Context (cfg : AgentConfig).
Implicit Types (p : Process E) (s : System (E := E)).

Definition added_pointer {R} (c : Call R) : gset N :=
  match c with CQueueAdd i | CQueueAddRateLimited i => item_pointer i | _ => ∅ end.

(** The queue gives back what was added to it, and makes up no key. *)
Record QueueKeeps (good : E → Prop) : Prop := {
  keeps_get e i : good e → (respond CQueueGet e).1 = Some i → item_pointer i ⊆ queue_refs e;
  keeps_add {R} (c : Call R) e : good e → queue_refs (respond c e).2 ⊆ queue_refs e ∪ added_pointer c
}.

Definition refs_of p : Refs := MkRefs (dom (chans p)) (dom (cells p)).

Record pointers_ok p : Prop := {
  po_stoppers key c : stoppers (agent p) !! key = Some c → c ∈ dom (chans p);
  po_queue : queue_refs (env p) ⊆ dom (cells p)
}.

Lemma item_pointer_refs w i : item_refs w i ↔ item_pointer i ⊆ ref_cells w.
Proof.
  destruct i as [key|n]; cbn; [|set_solver]. destruct (DeletedObject key) as [a|]; [|set_solver]. split.
  - intros H. specialize (H a eq_refl). set_solver.
  - intros H a' [= <-]. set_solver.
Qed.

Lemma exec_pointers good p R (o : Op R) r p' :
  QueueKeeps good → good (env p) → pointers_ok p → needs (refs_of p) o → exec R o p = Done (r, p') →
  refs_of p ⊑w refs_of p' ∧ tells (refs_of p') o r ∧ pointers_ok p'.
Proof.
  intros Hk Hg [Hs Hq] Hn Hex. destruct o; cbn in Hn, Hex; simplify_eq/=.
  - split; [done|]. split; [|by split]. destruct f; try done. apply Hs.
  - split; [done|]. split; [done|]. destruct f; split; try done. intros key' c. cbn. unfold SafeMap_Set.
    intros [[<- <-]|[_ ?]]%lookup_insert_Some; [done|by eapply Hs].
  - split; [done|]. split; [done|]. destruct f; split; try done. intros key' c. cbn. unfold SafeMap_Delete.
    intros [_ ?]%lookup_delete_Some. by eapply Hs.
  - done.
  - done.
  - done.
  - done.
  - done.
  - done.
  - done.
  - unfold refs_of. cbn. split; [split; cbn; [rewrite dom_insert; set_solver|done]|].
    split; [rewrite dom_insert; set_solver|]. split; cbn; [|done]. intros key c ?%Hs. rewrite dom_insert. set_solver.
  - destruct (chans p !! c) as [[]|] eqn:Hc; simplify_eq/=. unfold refs_of. cbn.
    assert (dom (<[c:=true]> (chans p)) ≡ dom (chans p)) as Hd.
    { rewrite dom_insert. apply elem_of_dom_2 in Hc. set_solver. }
    split; [split; cbn; [by rewrite Hd|done]|]. split; [done|]. split; cbn; [|done]. intros key c' ?%Hs. by rewrite Hd.
  - unfold refs_of. cbn. split; [split; cbn; [done|rewrite dom_insert; set_solver]|].
    split; [rewrite dom_insert; set_solver|]. split; cbn; [done|]. rewrite dom_insert. set_solver.
  - destruct (cells p !! addr); by simplify_eq/=.
  - done.
  - destruct (respond c (env p)) as [r' e'] eqn:Er. simplify_eq/=. split; [done|].
    pose proof (keeps_add _ Hk c (env p) Hg) as Ha. rewrite Er in Ha. cbn in Ha. split.
    + destruct c; try done. cbn. intros i ->. apply item_pointer_refs. cbn.
      etrans; [apply (keeps_get _ Hk (env p) i Hg); by rewrite Er|done].
    + split; [done|]. cbn. etrans; [exact Ha|]. apply union_subseteq. split; [done|].
      destruct c; cbn; try set_solver; by apply item_pointer_refs in Hn.
Qed.

Lemma needs_panic p R (o : Op R) q :
  needs (refs_of p) o → exec R o p = Panic q → q = PanicCloseClosed.
Proof.
  intros Hn Hex. destruct o; cbn in Hn, Hex; try done.
  - apply elem_of_dom in Hn as [b Hb]. rewrite Hb in Hex. destruct b; by simplify_eq.
  - apply elem_of_dom in Hn as [b Hb]. by rewrite Hb in Hex.
  - by destruct (respond c (env p)).
Qed.

Abbreviation any := (λ (_ : Refs) (_ : unit), True).

Record pool_ok (good : E → Prop) s : Prop := {
  pool_system : system_ok good s;
  pool_pointers : pointers_ok (proc s);
  pool_threads : Forall (uses (refs_of (proc s)) any) (threads s)
}.

Lemma pool_step_ok good s s' :
  env_answers good → QueueKeeps good → step cfg s s' → pool_ok good s → pool_ok good s'.
Proof.
  intros Henv Hk Hstep [Hs Hp Ht]. pose proof (step_ok cfg good s s' Henv Hstep Hs) as Hs'.
  destruct Hstep as [p ts i R o k r p' Hi Hex|p ts i g t Hg Hb|p ts t He]; cbn in *; split; try done; cbn.
  1,2: destruct Hs as [Hsh Hts]; cbn in *;
    pose proof (proj1 (Forall_lookup _ _) Hts _ _ Hi) as [Hop _];
    destruct (exec_shared_ok good p R o r p' Henv Hsh Hop Hex) as [Ha _];
    pose proof (proj1 (Forall_lookup _ _) Ht _ _ Hi) as [Hn Hu];
    destruct (exec_pointers good p R o r p' Hk (so_env _ _ Hsh) Hp Hn Hex) as (Hle & Htl & Hp').
  - done.
  - apply Forall_insert; [|by apply Hu]. eapply Forall_impl; [exact Ht|].
    intros t Hut. eapply uses_mono; [|exact Hle|exact Hut]. done.
  - by destruct Hp.
  - apply Forall_app. split; [done|]. constructor; [|done]. by eapply body_uses.
  - apply Forall_app. split; [done|]. constructor; [|done]. by apply handler_uses.
Qed.

Lemma initial_pool_ok good m workers e :
  good e → queue_refs e = ∅ → pool_ok good (initial m workers e).
Proof.
  intros He Hq. split; [by apply initial_ok|split; [done|]; cbn; by rewrite Hq|].
  constructor; [|done]. apply (body_uses cfg (GRun workers)). constructor.
Qed.

Lemma pool_steps_ok good s s' :
  env_answers good → QueueKeeps good → rtc (step cfg) s s' → pool_ok good s → pool_ok good s'.
Proof. intros Henv Hk. induction 1 as [|s1 s2 s3 Hs _ IH]; [done|]. intros Hok. by eapply IH, pool_step_ok. Qed.

(** C5: in every interleaving of the agent's goroutines (the startup, any number
    of workers, the goroutines that start informers, and any events of the
    informers, deletions they have missed among them), when discovery always
    succeeds, the caches hold unstructured objects and the queue hands out what was
    added to it, the tracked infos have as many uids as resources and the mapper
    is not nil; every stopper is a channel, and every pointer to a copy in the
    queue is to a copy, that the agent has made; and a goroutine that panics does
    so at a type assertion (that of [stopInformer] on a stopper that is missing, or
    that of the handler of a deletion the informer has missed), or by closing a
    channel that is closed already.  No interleaving indexes a slice out of range,
    writes to a nil map, cuts a string out of bounds, calls a nil mapper, closes a
    nil channel or reads through a nil pointer.  (When discovery fails the mapper
    is nil and the next resource looked up panics:
    [LifecycleProps.startInformers_discovery_failure].) *)
Theorem agent_interleavings_safe good m workers e s :
  env_answers good → QueueKeeps good → good e → queue_refs e = ∅ → rtc (step cfg) (initial m workers e) s →
  (∀ name info, trackedAppliedManifests (agent (proc s)) !! name = Some info → info_wf info) ∧
  restMapper (agent (proc s)) ≠ None ∧
  (∀ key c, stoppers (agent (proc s)) !! key = Some c → is_Some (chans (proc s) !! c)) ∧
  (∀ a, a ∈ queue_refs (env (proc s)) → is_Some (cells (proc s) !! a)) ∧
  (∀ i q, threads s !! i = Some (Crash q) → q = PanicTypeAssert) ∧
  (∀ i R (o : Op R) k q, threads s !! i = Some (Act o k) → exec R o (proc s) = Panic q → q = PanicCloseClosed).
Proof.
  intros Henv Hk He Hq Hs.
  destruct (pool_steps_ok good _ _ Henv Hk Hs (initial_pool_ok good m workers e He Hq)) as [[Hsh Hts] [Hst Hqr] Hu].
  split_and!; [apply Hsh|apply Hsh|..].
  - intros key c ?%Hst. by apply elem_of_dom.
  - intros a Ha. apply elem_of_dom. by apply Hqr.
  - intros i q Hi. exact (proj1 (Forall_lookup _ _) Hts _ _ Hi).
  - intros i R o k q Hi. destruct (proj1 (Forall_lookup _ _) Hu _ _ Hi) as [Hn _]. by apply needs_panic.
Qed.
End pool.

(** ** Closed instances *)

#[export] Instance queue_env_pointers : QueuePointers QueueEnv := λ e,
  union_list (item_pointer <$> elements (qe_dirty e)).

Lemma qe_refs_elem (e : QueueEnv) a : a ∈ queue_refs e ↔ ∃ i, i ∈ qe_dirty e ∧ a ∈ item_pointer i.
Proof.
  unfold queue_refs, queue_env_pointers. rewrite elem_of_union_list. split.
  - intros (X & (i & -> & Hi%elem_of_elements)%list_elem_of_fmap & Ha). eauto.
  - intros (i & Hi & Ha). exists (item_pointer i). split; [|done].
    apply list_elem_of_fmap. exists i. by rewrite elem_of_elements.
Qed.

Lemma qe_keeps : QueueKeeps qe_good.
Proof.
  split.
  - intros e i He Hg a Ha. apply qe_refs_elem. exists i. split; [|done]. apply (qe_marked _ He).
    change (respond CQueueGet e) with (qe_get e) in Hg. unfold qe_get in Hg.
    destruct (qe_waiting e); simplify_eq/=. left.
  - intros R c e He a. rewrite elem_of_union, !qe_refs_elem. change (respond c e) with (qe_answer c e).
    intros (i & Hi & Ha).
    assert (i ∈ qe_dirty e ∨ (∃ j, i = j ∧ added_pointer c = item_pointer j)) as [Hd|(j & -> & ->)]; [|eauto..].
    destruct c; cbn -[respond sim_environment] in Hi; try (by left);
      try (destruct (respond _ (qe_sim e)); by left).
    + destruct (qe_lookups e) as [[|k]|]; [by left|..]; destruct (respond _ (qe_sim e)); by left.
    + unfold qe_add in Hi. destruct (qe_shut e || _); [by left|]. cbn in Hi.
      apply elem_of_union in Hi as [->%elem_of_singleton|Hi]; [by right; eexists|by left].
    + unfold qe_add in Hi. destruct (qe_shut e || _); [by left|]. cbn in Hi.
      apply elem_of_union in Hi as [->%elem_of_singleton|Hi]; [by right; eexists|by left].
    + left. unfold qe_get in Hi. destruct (qe_waiting e); [done|]. cbn in Hi. set_solver.
Qed.

Lemma agent_interleavings_safe_witness :
  restMapper (agent (proc again_run.2)) ≠ None ∧
  ∀ i q, threads again_run.2 !! i = Some (Crash q) → q = PanicTypeAssert.
Proof.
  destruct (agent_interleavings_safe (K := sim_kube) (E := QueueEnv) sc_config qe_good sc_table 1
    (MkQueueEnv (sc_env [sc_amw []] [] [] [] None []) [QKey sc_amw_key] {[QKey sc_amw_key]} ∅ false (Some 0)) again_run.2
    qe_env_answers qe_keeps again_good) as (_ & Hm & _ & _ & Hq & _).
  - vm_compute. reflexivity.
  - exact (logged_steps _ _ _ _ again_logged).
  - split; [exact Hm|exact Hq].
Defined.
