(* ===== verification/Controller.v ===== *)
(** * pkg/controller/manager.go and pkg/rbac/rbac.go: what the addon controller sets up on the hub *)

From S2P Require Export Runtime.

(** ** pkg/controller/manager.go *)

Definition DefaultStatusAddOnImage : string := "quay.io/pdettori/status-addon:0.1.0".
Definition AddonName : string := "addon-status".
Definition InstallationNamespace : string := "open-cluster-management-agent-addon".

(** The fields the source reads of [ManagedCluster] and [ManagedClusterAddOn]. *)
Record ManagedCluster : Type := MkCluster { mc_Name : string }.
Record ManagedClusterAddOn : Type := MkAddOn { ao_Name : string; ao_InstallNamespace : string }.

(** The anonymous struct whose fields become the values of the templates. *)
Record ManifestConfig : Type := MkManifestConfig {
  KubeConfigSecret : string;
  ClusterName : string;
  AddonInstallNamespace : string;
  Image : string
}.

(** [getenv] is [os.Getenv]. *)
Definition GetDefaultValues (getenv : string → string) (cluster : ManagedCluster) (addon : ManagedClusterAddOn)
    : result ManifestConfig :=
  let installNamespace := ao_InstallNamespace addon in
  let installNamespace := if decide (String.length installNamespace = 0) then InstallationNamespace else installNamespace in
  let image := getenv "STATUS_ADDDON_IMAGE_NAME" in
  let image := if decide (String.length image = 0) then DefaultStatusAddOnImage else image in
  GOk (MkManifestConfig (ao_Name addon +:+ "-hub-kubeconfig") (mc_Name cluster) installNamespace image).

(** [workapiv1.ResourceIdentifier], and a value of [workapiv1.StatusFeedbackResult]
    with its [Value.Integer] pointer (nil: None). *)
Record ResourceIdentifier : Type := MkIdentifier { ri_Group : string; ri_Resource : string; ri_Name : string; ri_Namespace : string }.
Record FeedbackValue : Type := MkFeedback { fv_Name : string; fv_Integer : option Z }.

(** The deployment that is probed. *)
Definition probed_deployment : ResourceIdentifier := MkIdentifier "apps" "deployments" "status-agent" InstallationNamespace.

(** The loop over the values. *)
Fixpoint check_values (identifier : ResourceIdentifier) (values : list FeedbackValue) : outcome (option error) :=
  match values with
  | [] => Done (Some (ErrF "readyReplica is not probed"))
  | value :: values =>
      if decide (fv_Name value ≠ "ReadyReplicas") then check_values identifier values
      else
        match fv_Integer value with
        | None => Panic PanicNilDeref
        | Some n =>
            if decide (n >= 1)%Z then Done None
            else Done (Some (ErrF ("readyReplica is " +:+ pretty n +:+ " for deployement " +:+
                                   ri_Namespace identifier +:+ "/" +:+ ri_Name identifier)))
        end
  end.

(** The [HealthCheck] of [AgentHealthProber]. *)
Definition HealthCheck (identifier : ResourceIdentifier) (values : list FeedbackValue) : outcome (option error) :=
  if decide (length values = 0)
  then Done (Some (ErrF ("no values are probed for deployment " +:+ ri_Namespace identifier +:+ "/" +:+ ri_Name identifier)))
  else check_values identifier values.

(** ** pkg/rbac/rbac.go *)

Record PolicyRule : Type := MkRule { pr_Verbs : list string; pr_Resources : list string; pr_APIGroups : list string }.
Record Role : Type := MkRole { role_Name : string; role_Namespace : string; role_Rules : list PolicyRule }.
Record Subject : Type := MkSubject { sub_Kind : string; sub_APIGroup : string; sub_Name : string }.
Record RoleBinding : Type := MkBinding {
  rb_Name : string; rb_Namespace : string;
  rb_RoleRefKind : string; rb_RoleRefName : string;
  rb_Subjects : list Subject
}.

#[export] Instance PolicyRule_eq_dec : EqDecision PolicyRule.
Proof. solve_decision. Defined.
#[export] Instance Subject_eq_dec : EqDecision Subject.
Proof. solve_decision. Defined.
#[export] Instance Role_eq_dec : EqDecision Role.
Proof. solve_decision. Defined.
#[export] Instance RoleBinding_eq_dec : EqDecision RoleBinding.
Proof. solve_decision. Defined.

(** The calls to the hub's RBAC API, each answering an error or nil. *)
Inductive RbacCall : Type :=
| NewForConfig
| GetRole (namespace name : string)
| CreateRole (namespace : string) (role : Role)
| GetRoleBinding (namespace name : string)
| CreateRoleBinding (namespace : string) (binding : RoleBinding).
Inductive RbacOp : Type → Type := Rbac (c : RbacCall) : RbacOp (option error).

Definition role_name (addon : ManagedClusterAddOn) : string := "open-cluster-management:" +:+ ao_Name addon +:+ ":agent".

Definition agent_role (cluster : ManagedCluster) (addon : ManagedClusterAddOn) : Role :=
  MkRole (role_name addon) (mc_Name cluster) [
    MkRule ["get"; "list"; "watch"; "create"; "delete"; "update"; "patch"] ["workstatuses"] ["control.kubestellar.io"];
    MkRule ["patch"; "update"] ["workstatuses/status"] ["control.kubestellar.io"];
    MkRule ["get"; "list"; "watch"] ["managedclusteraddons"] ["addon.open-cluster-management.io"];
    MkRule ["get"; "list"; "watch"] ["manifestworks"] ["work.open-cluster-management.io"]
  ].

(** [group] is the element of [agent.DefaultGroups] the binding names. *)
Definition agent_binding (cluster : ManagedCluster) (addon : ManagedClusterAddOn) (group : string) : RoleBinding :=
  MkBinding (role_name addon) (mc_Name cluster) "Role" (role_name addon)
    [MkSubject "Group" "rbac.authorization.k8s.io" group].

(** [Get], then [Create] when it says NotFound: [inl] is an early return. *)
Definition ensure (get create : RbacCall) : prog RbacOp (error + unit) :=
  err ← act (Rbac get);
  match err with
  | None => mret (inr tt)
  | Some err =>
      if IsNotFound err then
        createErr ← act (Rbac create);
        match createErr with
        | Some createErr => mret (inl createErr)
        | None => mret (inr tt)
        end
      else mret (inl err)
  end.

(** [DefaultGroups] is [agent.DefaultGroups]. *)
Definition AddonRBAC (DefaultGroups : string → string → list string) (cluster : ManagedCluster) (addon : ManagedClusterAddOn)
    : prog RbacOp (option error) :=
  err ← act (Rbac NewForConfig);
  match err with
  | Some err => mret (Some err)
  | None =>
      let groups := DefaultGroups (mc_Name cluster) (ao_Name addon) in
      let role := agent_role cluster addon in
      group ← lift (index groups 0);
      let binding := agent_binding cluster addon group in
      r ← ensure (GetRole (mc_Name cluster) (role_Name role)) (CreateRole (mc_Name cluster) role);
      match r with
      | inl err => mret (Some err)
      | inr _ =>
          r ← ensure (GetRoleBinding (mc_Name cluster) (rb_Name binding)) (CreateRoleBinding (mc_Name cluster) binding);
          match r with
          | inl err => mret (Some err)
          | inr _ => mret None
          end
      end
  end.

(** ** Lemmas *)

(** The calls of a trace with their answers. *)
Definition rbac_call (e : event RbacOp) : RbacCall * option error :=
  match e with Ev o r => (match o in RbacOp R return R → RbacCall * option error with Rbac c => λ err, (c, err) end) r end.

(** What [ensure] does: the three ways it can go. *)
Inductive ensure_session (get create : RbacCall) : list (RbacCall * option error) → error + unit → Prop :=
| ES_exists : ensure_session get create [(get, None)] (inr tt)
| ES_error err : IsNotFound err = false → ensure_session get create [(get, Some err)] (inl err)
| ES_create err cerr :
    IsNotFound err = true →
    ensure_session get create [(get, Some err); (create, cerr)]
      (match cerr with Some e => inl e | None => inr tt end).

Lemma ensure_traces get create tr out :
  traces (ensure get create) tr out → ∃ r, out = Done r ∧ ensure_session get create (rbac_call <$> tr) r.
Proof.
  unfold ensure. cbn. intros ([err|] & tr1 & -> & H); cbn in H; [|destruct H as [-> ->]; eexists; split; [done|constructor]].
  destruct (IsNotFound err) eqn:Hn; cbn in H; [|destruct H as [-> ->]; eexists; split; [done|by constructor]].
  destruct H as ([cerr|] & tr2 & -> & -> & ->); eexists; (split; [done|]).
  - by apply (ES_create _ _ err (Some cerr)).
  - by apply (ES_create _ _ err None).
Qed.

#[local] Arguments ensure : simpl never.

(** The calls of [AddonRBAC], whatever the hub answers. *)
Inductive rbac_session (cluster : ManagedCluster) (addon : ManagedClusterAddOn) (group : string)
    : list (RbacCall * option error) → option error → Prop :=
| RS_config err : rbac_session cluster addon group [(NewForConfig, Some err)] (Some err)
| RS_role evs err :
    ensure_session (GetRole (mc_Name cluster) (role_name addon)) (CreateRole (mc_Name cluster) (agent_role cluster addon)) evs (inl err) →
    rbac_session cluster addon group ((NewForConfig, None) :: evs) (Some err)
| RS_binding evs evs' r :
    ensure_session (GetRole (mc_Name cluster) (role_name addon)) (CreateRole (mc_Name cluster) (agent_role cluster addon)) evs (inr tt) →
    ensure_session (GetRoleBinding (mc_Name cluster) (role_name addon))
      (CreateRoleBinding (mc_Name cluster) (agent_binding cluster addon group)) evs' r →
    rbac_session cluster addon group ((NewForConfig, None) :: evs ++ evs') (match r with inl err => Some err | inr _ => None end).

Lemma check_values_skip identifier values values' :
  Forall (λ v, fv_Name v ≠ "ReadyReplicas") values →
  check_values identifier (values ++ values') = check_values identifier values'.
Proof. induction 1 as [|v vs Hv _ IH]; [done|]. simpl. by rewrite decide_True. Qed.

(** ** Properties *)

(** The health check of the addon: with no value named [ReadyReplicas] it is an
    error; otherwise the first such value decides alone: healthy exactly when its
    integer is at least one, an error when it is less, and a nil dereference when
    the pointer is nil. *)
Lemma HealthCheck_first_ready_replicas identifier values :
  (Forall (λ v, fv_Name v ≠ "ReadyReplicas") values → ∃ err, HealthCheck identifier values = Done (Some err)) ∧
  (∀ before v after, values = before ++ v :: after → Forall (λ v, fv_Name v ≠ "ReadyReplicas") before →
     fv_Name v = "ReadyReplicas" →
     match fv_Integer v with
     | None => HealthCheck identifier values = Panic PanicNilDeref
     | Some n => if decide (n >= 1)%Z then HealthCheck identifier values = Done None
                 else ∃ err, HealthCheck identifier values = Done (Some err)
     end).
Proof.
  unfold HealthCheck. split.
  - intros Hv. case_decide; [eauto|]. rewrite <- (app_nil_r values), check_values_skip by done. simpl. eauto.
  - intros before v after -> Hb Hv. rewrite decide_False by (rewrite length_app; simpl; lia).
    rewrite check_values_skip by done. simpl. rewrite decide_False by (by intros ?).
    destruct (fv_Integer v) as [n|]; [|done]. case_decide; eauto.
Qed.

(** C36: [AddonRBAC] creates the role, and the binding of the first default group to
    it, only where the hub says they do not exist, and stops at the first error; it
    panics only when there is no default group. *)
Theorem AddonRBAC_refines_protocol DefaultGroups cluster addon tr out :
  traces (AddonRBAC DefaultGroups cluster addon) tr out →
  match DefaultGroups (mc_Name cluster) (ao_Name addon) with
  | group :: _ => ∃ err, out = Done err ∧ rbac_session cluster addon group (rbac_call <$> tr) err
  | [] => out = Panic PanicIndex ∨ ∃ err, out = Done (Some err) ∧ rbac_call <$> tr = [(NewForConfig, Some err)]
  end.
Proof.
  unfold AddonRBAC. cbn. intros ([err|] & tr1 & -> & H); cbn in H.
  { destruct H as [-> ->]. destruct (DefaultGroups _ _); [right; eauto|]. eexists. split; [done|constructor]. }
  destruct (DefaultGroups _ _) as [|group groups]; cbn in H; [by destruct H as [-> ->]; left|].
  apply traces_bind in H as [(tr2 & tr3 & r & -> & H1 & H2)|(q & -> & H1)];
    apply ensure_traces in H1 as (r' & Hr & H1); simplify_eq.
  cbn. rewrite fmap_app. destruct r' as [err|[]]; cbn in H2.
  { destruct H2 as [-> ->]. eexists. split; [done|]. rewrite app_nil_r. by constructor. }
  apply traces_bind in H2 as [(tr4 & tr5 & r & -> & H2 & H3)|(q & -> & H2)];
    apply ensure_traces in H2 as (r2 & Hr & H2); simplify_eq.
  rewrite fmap_app. exists (match r2 with inl err => Some err | inr _ => None end).
  destruct r2; cbn in H3; destruct H3 as [-> ->]; (split; [done|]); cbn; rewrite app_nil_r; by apply (RS_binding _ _ _ _ _ _ H1 H2).
Qed.

(** The addon can be installed where its health is not looked for: the agent
    is deployed in the namespace its [Spec] asks for, the health prober looks in
    the default one, and they agree only when the former is empty or the
    default. *)
Lemma probed_where_installed getenv cluster addon values :
  GetDefaultValues getenv cluster addon = GOk values →
  ri_Namespace probed_deployment = AddonInstallNamespace values ↔
  ao_InstallNamespace addon = "" ∨ ao_InstallNamespace addon = InstallationNamespace.
Proof.
  unfold GetDefaultValues. intros [= <-]. simpl. case_decide as Hl.
  - split; [|done]. intros _. left. by destruct (ao_InstallNamespace addon).
  - split; [by right|]. intros [He|He]; [by rewrite He in Hl|done].
Qed.

(** ** Closed instances *)

Definition ex_cluster : ManagedCluster := MkCluster "cluster1".
Definition ex_addon : ManagedClusterAddOn := MkAddOn AddonName "status-system".
Definition ex_groups (cluster addon : string) : list string :=
  ["system:open-cluster-management:cluster:" +:+ cluster +:+ ":addon:" +:+ addon].

(** A hub with the role and without the binding. *)
Definition ex_rbac_trace : list (event RbacOp) := [
  Ev (Rbac NewForConfig) None;
  Ev (Rbac (GetRole "cluster1" (role_name ex_addon))) None;
  Ev (Rbac (GetRoleBinding "cluster1" (role_name ex_addon))) (Some (ErrLib true "not found"));
  Ev (Rbac (CreateRoleBinding "cluster1"
    (agent_binding ex_cluster ex_addon "system:open-cluster-management:cluster:cluster1:addon:addon-status"))) None
].

Lemma AddonRBAC_refines_protocol_witness :
  ∃ err, Done None = Done err ∧
    rbac_session ex_cluster ex_addon "system:open-cluster-management:cluster:cluster1:addon:addon-status"
      (rbac_call <$> ex_rbac_trace) err.
Proof.
  refine (AddonRBAC_refines_protocol ex_groups ex_cluster ex_addon ex_rbac_trace (Done None) _).
  do 2 eexists. split; [reflexivity|]. do 2 eexists. split; [reflexivity|]. do 2 eexists. split; [reflexivity|].
  do 2 eexists. split; [reflexivity|]. split; reflexivity.
Defined.

Lemma probed_where_installed_witness :
  ri_Namespace probed_deployment ≠
  AddonInstallNamespace (MkManifestConfig "addon-status-hub-kubeconfig" "cluster1" "status-system" DefaultStatusAddOnImage).
Proof.
  intros H. apply (probed_where_installed (λ _, "") ex_cluster ex_addon _ eq_refl) in H as [H|H]; discriminate.
Defined.
