(* ===== verification/Permissions.v ===== *)
(** * The role the controller grants covers what the agent does *)

From S2P Require Export Controller HubTraces SimEnv WorkStatusProps.

(** api/v1alpha1/groupversion_info.go *)
Definition GroupVersion : string * string := ("control.kubestellar.io", "v1alpha1").

(** pkg/internal/kubebuilder-gen.go: a reconciler that does nothing, kept for the
    markers of a generator; its result is the zero value of [ctrl.Result]. *)
Record CtrlResult : Type := MkCtrlResult { Requeue : bool; RequeueAfter : Z }.
Definition NoOpReconciler_Reconcile {Request : Type} (req : Request) : CtrlResult * option error :=
  (MkCtrlResult false 0, None).

(** The markers of that file, one rule each: what the controller may do. *)
Definition kubebuilder_rules : list PolicyRule := [
  MkRule ["get"; "list"; "watch"; "create"; "update"; "delete"; "patch"] ["workstatuses"] ["control.kubestellar.io"];
  MkRule ["update"; "patch"] ["workstatuses/status"] ["control.kubestellar.io"];
  MkRule ["get"; "list"; "watch"; "create"; "update"; "delete"; "deletecollection"; "patch"] ["configmaps"; "events"] [""];
  MkRule ["get"; "list"; "watch"; "create"; "update"; "patch"] ["leases"] ["coordination.k8s.io"];
  MkRule ["get"; "list"; "watch"; "create"; "update"; "delete"] ["roles"; "rolebindings"] ["rbac.authorization.k8s.io"];
  MkRule ["get"; "create"] ["subjectaccessreviews"] ["rbac.authorization.k8s.io"];
  MkRule ["get"; "list"; "watch"; "create"; "update"]
    ["certificatesigningrequests"; "certificatesigningrequests/approval"] ["certificates.k8s.io"];
  MkRule ["approve"] ["signers"] ["certificates.k8s.io"];
  MkRule ["get"; "list"; "watch"] ["managedclusters"] ["cluster.open-cluster-management.io"];
  MkRule ["get"; "list"; "watch"; "create"; "update"; "delete"; "deletecollection"; "patch"]
    ["manifestworks"] ["work.open-cluster-management.io"];
  MkRule ["update"] ["managedclusteraddons/finalizers"] ["addon.open-cluster-management.io"];
  MkRule ["update"] ["clustermanagementaddons/finalizers"] ["addon.open-cluster-management.io"];
  MkRule ["update"; "patch"] ["clustermanagementaddons/status"] ["addon.open-cluster-management.io"];
  MkRule ["get"; "list"; "watch"; "create"; "patch"; "update"] ["clustermanagementaddons"] ["addon.open-cluster-management.io"];
  MkRule ["get"; "list"; "watch"; "create"; "update"; "delete"] ["managedclusteraddons"] ["addon.open-cluster-management.io"];
  MkRule ["update"; "patch"] ["managedclusteraddons/status"] ["addon.open-cluster-management.io"];
  MkRule ["get"; "list"; "watch"] ["addondeploymentconfigs"] ["addon.open-cluster-management.io"]
].

(** A request to the hub, as its authorizer sees it. *)
Record Access : Type := MkAccess { acc_Verb : string; acc_Group : string; acc_Resource : string }.

Definition rules_permit (rules : list PolicyRule) (a : Access) : bool :=
  existsb (λ rule, bool_decide (acc_Verb a ∈ pr_Verbs rule) && bool_decide (acc_Resource a ∈ pr_Resources rule)
                   && bool_decide (acc_Group a ∈ pr_APIGroups rule)) rules.
Definition permits (r : Role) (a : Access) : bool := rules_permit (role_Rules r) a.

(** Everything a list of rules permits. *)
Definition rule_accesses (rule : PolicyRule) : list Access :=
  v ← pr_Verbs rule; r ← pr_Resources rule; g ← pr_APIGroups rule; [MkAccess v g r].
Definition rules_accesses (rules : list PolicyRule) : list Access := rules ≫= rule_accesses.

(** The check of the hub against escalation: a role is created, or bound, only by
    one who already has every permission in it. *)
Definition may_grant (holder : list PolicyRule) (r : Role) : bool :=
  forallb (rules_permit holder) (rules_accesses (role_Rules r)).

(** A call of [AddonRBAC] to the hub's API. *)
Definition rbac_access (c : RbacCall) : option Access :=
  let access verb resource := Some (MkAccess verb "rbac.authorization.k8s.io" resource) in
  match c with
  | NewForConfig => None
  | GetRole _ _ => access "get" "roles"
  | CreateRole _ _ => access "create" "roles"
  | GetRoleBinding _ _ => access "get" "rolebindings"
  | CreateRoleBinding _ _ => access "create" "rolebindings"
  end.

(** The hub lets [holder] make the call, when [roles] are the roles it has. *)
Definition rbac_admits (holder : list PolicyRule) (roles : list Role) (c : RbacCall) : Prop :=
  (∀ a, rbac_access c = Some a → rules_permit holder a = true) ∧
  match c with
  | CreateRole _ role => may_grant holder role = true
  | CreateRoleBinding ns binding =>
      ∃ role, role ∈ roles ∧ role_Name role = rb_RoleRefName binding ∧ role_Namespace role = ns ∧ may_grant holder role = true
  | _ => True
  end.

Section permissions.
Context {RT : GoRuntime} {K : Kube}.

(** The verb, group and resource of the calls of a controller-runtime client. *)
Definition hub_access (e : HubEvent) : Access :=
  match e with
  | HGet _ _ _ => MkAccess "get" GroupVersion.1 "workstatuses"
  | HGetManifest _ _ _ => MkAccess "get" workv1_Group "manifestworks"
  | HCreate _ _ => MkAccess "create" GroupVersion.1 "workstatuses"
  | HDelete _ _ => MkAccess "delete" GroupVersion.1 "workstatuses"
  | HPatch _ _ _ => MkAccess "patch" GroupVersion.1 "workstatuses"
  | HUpdate _ _ => MkAccess "update" GroupVersion.1 "workstatuses/status"
  end.

(** The namespace of the calls whose object the agent makes itself. *)
Definition hub_namespace (e : HubEvent) : option string :=
  match e with
  | HGet ns _ _ | HGetManifest ns _ _ => Some ns
  | HCreate ws _ => Some (ws_Namespace ws)
  | _ => None
  end.

Definition in_namespace (ns : string) (e : HubEvent) : Prop := ∀ ns', hub_namespace e = Some ns' → ns' = ns.

(** ** Lemmas *)

Lemma create_session_namespace ns mname obj ws0 evs out :
  ws_Namespace ws0 = ns → create_session ns mname obj ws0 evs out → Forall (in_namespace ns) evs.
Proof.
  intros Hns []; repeat constructor; try by intros ? [= <-].
  match goal with H : created_from _ _ _ _ |- _ => destruct H as (? & ? & ? & ? & _ & _ & _ & ->) end. by intros ? [= <-].
Qed.

Lemma update_session_namespace ns obj ws evs e : update_session obj ws evs e → Forall (in_namespace ns) evs.
Proof.
  intros Hu%update_session_writes. eapply Forall_impl; [exact Hu|]. by intros [].
Qed.

Lemma sync_session_namespace ns mname obj ws0 evs out :
  ws_Namespace ws0 = ns → sync_session ns mname obj ws0 evs out → Forall (in_namespace ns) evs.
Proof.
  intros Hns [err Hnf|ws' evs' e Hu|err evs' e Hnf Hc|err evs' q Hnf Hc|err evs1 ws' evs2 e Hnf Hc Hu];
    (constructor; [by intros ? [= <-]|]); rewrite ?Forall_app;
    eauto using create_session_namespace, update_session_namespace.
Qed.

Lemma handleWorkStatus_namespace cfg obj del tr out :
  traces (handleWorkStatus cfg obj del) tr out → Forall (in_namespace (clusterName cfg)) (hub_trace tr).
Proof.
  intros [[-> _]|(aWork & lister & o & name & _ & _ & _ & Hs)]%handleWorkStatus_session; [done|].
  destruct del; [|eapply sync_session_namespace; [|exact Hs]; reflexivity].
  destruct Hs as (e & _ & Hs). destruct Hs; repeat (apply Forall_cons; split); try apply Forall_nil; try done; by intros ? [=].
Qed.

Lemma role_permits cluster addon e :
  workv1_Group = "work.open-cluster-management.io" → permits (agent_role cluster addon) (hub_access e) = true.
Proof. intros Hg. destruct e; cbn; rewrite ?Hg; reflexivity. Qed.

(** C34: what the controller grants suffices for the agent it deploys: every call
    [handleWorkStatus] makes to the hub, when the agent runs for the cluster its
    deployment names, is permitted by the role [AddonRBAC] creates, and the calls
    for the objects it names itself are in the namespace of that role. *)
Theorem agent_calls_permitted getenv cluster addon values cfg obj isBeingDeleted tr out e :
  workv1_Group = "work.open-cluster-management.io" →
  GetDefaultValues getenv cluster addon = GOk values → clusterName cfg = ClusterName values →
  traces (handleWorkStatus cfg obj isBeingDeleted) tr out → e ∈ hub_trace tr →
  permits (agent_role cluster addon) (hub_access e) = true ∧
  ∀ ns, hub_namespace e = Some ns → ns = role_Namespace (agent_role cluster addon).
Proof.
  intros Hg Hv Hcfg Ht He. split; [by apply role_permits|].
  apply handleWorkStatus_namespace in Ht. rewrite Forall_forall in Ht. specialize (Ht e He).
  unfold GetDefaultValues in Hv. injection Hv as <-. simpl in Hcfg |- *. by rewrite <- Hcfg.
Qed.
End permissions.

(** The permissions of the agent are the controller's. *)
Lemma controller_may_grant cluster addon : may_grant kubebuilder_rules (agent_role cluster addon) = true.
Proof. reflexivity. Qed.

(** The list of accesses is the set that is permitted. *)
Lemma rules_accesses_permit rules a : rules_permit rules a = true ↔ a ∈ rules_accesses rules.
Proof.
  unfold rules_permit, rules_accesses. rewrite existsb_exists, list_elem_of_bind.
  assert (∀ rule, a ∈ rule_accesses rule ↔ acc_Verb a ∈ pr_Verbs rule ∧ acc_Resource a ∈ pr_Resources rule ∧ acc_Group a ∈ pr_APIGroups rule) as Hr.
  { intros rule. unfold rule_accesses. split.
    - intros (v & (r & (g & Ha & Hg)%list_elem_of_bind & Hr)%list_elem_of_bind & Hv)%list_elem_of_bind.
      by apply list_elem_of_singleton in Ha as ->.
    - intros (Hv & Hr & Hg). apply list_elem_of_bind. exists (acc_Verb a). split; [|done].
      apply list_elem_of_bind. exists (acc_Resource a). split; [|done].
      apply list_elem_of_bind. exists (acc_Group a). split; [|done]. destruct a. left. }
  split; intros (rule & H1 & H2); exists rule.
  - apply list_elem_of_In in H1. rewrite !andb_true_iff, !bool_decide_eq_true in H2. rewrite Hr. tauto.
  - rewrite <- list_elem_of_In, !andb_true_iff, !bool_decide_eq_true. rewrite Hr in H1. tauto.
Qed.

#[local] Arguments rbac_admits : simpl never.

Lemma AddonRBAC_admitted DefaultGroups cluster addon :
  safe (λ _ _ _, True) (λ R o, match o with Rbac c => rbac_admits kubebuilder_rules [agent_role cluster addon] c end)
    (λ _, True) (λ _, True) (AddonRBAC DefaultGroups cluster addon).
Proof.
  assert (∀ get create : RbacCall,
    rbac_admits kubebuilder_rules [agent_role cluster addon] get → rbac_admits kubebuilder_rules [agent_role cluster addon] create →
    safe (λ _ _ _, True) (λ R o, match o with Rbac c => rbac_admits kubebuilder_rules [agent_role cluster addon] c end)
      (λ _, True) (λ _, True) (ensure get create)) as Hensure.
  { intros get create Hg Hc. unfold ensure. split; [done|]. intros [err|] _; [|done]. cbn [mbind prog_bind].
    destruct (IsNotFound err); [|done]. split; [done|]. by intros [cerr|] _. }
  unfold AddonRBAC. split; [by split; [intros a [=]|]|]. intros [err|] _; [done|]. cbn [mbind prog_bind].
  destruct (index _ 0) as [group|q]; [|done]. cbn [lift mbind prog_bind].
  eapply safe_bind; [apply Hensure; (split; [by intros a [= <-]|])|].
  { done. } { apply controller_may_grant. }
  intros [err|[]] _; [done|]. eapply safe_bind; [apply Hensure; (split; [by intros a [= <-]|])|].
  { done. } { exists (agent_role cluster addon). split_and!; [left|done|done|apply controller_may_grant]. }
  by intros [err|[]] _.
Qed.

(** C35: the controller can set the agents up with the permissions its own markers
    ask for: every call of [AddonRBAC] is permitted to it, and neither the role it
    creates nor the role it binds holds a permission it lacks, so that the hub does
    not refuse them as an escalation, whatever the cluster, the addon and the
    answers of the hub. *)
Theorem AddonRBAC_never_escalates DefaultGroups cluster addon tr out c r :
  traces (AddonRBAC DefaultGroups cluster addon) tr out → Ev (Rbac c) r ∈ tr →
  rbac_admits kubebuilder_rules [agent_role cluster addon] c.
Proof.
  intros Ht Hin. destruct (safe_traces _ _ _ _ _ _ _ (AddonRBAC_admitted DefaultGroups cluster addon) Ht) as [Ho _].
  { apply Forall_forall. by intros []. }
  rewrite Forall_forall in Ho. exact (Ho _ Hin).
Qed.

Lemma agent_calls_permitted_witness :
  permits (agent_role ex_cluster ex_addon) (hub_access (HCreate ex_created (GOk ex_created))) = true ∧
  ws_Namespace ex_created = "cluster1".
Proof.
  destruct (agent_calls_permitted (λ _, "") ex_cluster ex_addon _ sc_config (sc_deployment ex_singleton) false
    ex_create.1 (Done None) _ eq_refl eq_refl eq_refl ex_create_traces ex_create_event) as [H1 H2].
  split; [exact H1|]. exact (H2 _ eq_refl).
Defined.

Lemma AddonRBAC_never_escalates_witness :
  rbac_admits kubebuilder_rules [agent_role ex_cluster ex_addon]
    (CreateRoleBinding "cluster1"
      (agent_binding ex_cluster ex_addon "system:open-cluster-management:cluster:cluster1:addon:addon-status")).
Proof.
  refine (AddonRBAC_never_escalates ex_groups ex_cluster ex_addon ex_rbac_trace (Done None) _ None _ _).
  - do 2 eexists. split; [reflexivity|]. do 2 eexists. split; [reflexivity|]. do 2 eexists. split; [reflexivity|].
    do 2 eexists. split; [reflexivity|]. split; reflexivity.
  - do 3 right. left.
Defined.
