(* ===== verification/HubClient.v ===== *)
(** * pkg/ocm/client.go: the client of the hub, and the registration of API types

    The scheme builder of api/v1alpha1 ([groupversion_info.go], and the [init] of
    [workstatus_types.go]), the schemes of pkg/ocm/client.go and of
    pkg/agent/manager.go. *)

From S2P Require Export DeepCopy Permissions.

(** [runtime.Scheme], the builder of controller-runtime and the clients. *)
Class ClientLib : Type := {
  Scheme : Type;
  Builder : Type;
  RestConfig : Type;
  HTTPClient : Type;
  DynamicMapper : Type;
  Client : Type;
  NewScheme : Scheme;
  (* whether a scheme recognizes a group, version and kind *)
  Recognizes : Scheme → GroupVersionKind → bool;
  (* &scheme.Builder{GroupVersion: gv}, and its methods Register and AddToScheme *)
  NewBuilder : string → string → Builder;
  Register : Builder → list API.DynType → Builder;
  Builder_AddToScheme : Builder → Scheme → option error * Scheme;
  (* AddToScheme of k8s.io/client-go/kubernetes/scheme and of open-cluster-management.io/api/work/v1 *)
  clientgo_AddToScheme : Scheme → option error * Scheme;
  workv1_AddToScheme : Scheme → option error * Scheme;
  (* utilruntime.Must *)
  Must : option error → outcome unit;
  HTTPClientFor : RestConfig → result HTTPClient;
  NewDynamicRESTMapper : RestConfig → HTTPClient → result DynamicMapper;
  client_New : RestConfig → Scheme → DynamicMapper → result Client
}.

(** The name under which a Go type is registered. *)
Definition type_kind (t : API.DynType) : string :=
  match t with API.TWorkStatus => "WorkStatus" | API.TWorkStatusList => "WorkStatusList" end.

Section client.
Context {L : ClientLib} {K : Kube}.

(** ** api/v1alpha1 *)

Definition SchemeBuilder : Builder := NewBuilder GroupVersion.1 GroupVersion.2.
(** The package's [init]. *)
Definition init_api : Builder := Register SchemeBuilder [API.TWorkStatus; API.TWorkStatusList].
(** A method value of the pointer [SchemeBuilder], called after [init]. *)
Definition AddToScheme (scheme : Scheme) : option error * Scheme := Builder_AddToScheme init_api scheme.

(** ** NewClient *)

Definition NewClient (config : RestConfig) : outcome (result Client) :=
  let scheme := NewScheme in
  match HTTPClientFor config with
  | GErr err => Done (GErr err)
  | GOk httpClient =>
      match NewDynamicRESTMapper config httpClient with
      | GErr err => Done (GErr err)
      | GOk mapper =>
          let '(err, scheme) := clientgo_AddToScheme scheme in
          _ ← Must err;
          let '(err, scheme) := workv1_AddToScheme scheme in
          _ ← Must err;
          let '(err, scheme) := AddToScheme scheme in
          _ ← Must err;
          match client_New config scheme mapper with
          | GErr err => Done (GErr err)
          | GOk c => Done (GOk c)
          end
      end
  end.

(** ** The scheme of the agent's manager: [init] of pkg/agent/manager.go *)

Definition init_agent (scheme : Scheme) : outcome Scheme :=
  let '(err, scheme) := clientgo_AddToScheme scheme in
  _ ← Must err;
  let '(err, scheme) := AddToScheme scheme in
  _ ← Must err;
  Done scheme.

(** ** What the libraries document *)

(** An addition that succeeds adds its types and removes none. *)
Definition adds (add : Scheme → option error * Scheme) (gvks : list GroupVersionKind) : Prop :=
  ∀ s s', add s = (None, s') →
    (∀ gvk, gvk ∈ gvks → Recognizes s' gvk = true) ∧
    ∀ gvk, Recognizes s gvk = true → Recognizes s' gvk = true.

(** The kind the agent reads in the hub. *)
Definition ManifestWork_gvk : GroupVersionKind := GVK workv1_Group workv1_Version "ManifestWork".

Class ClientLaws : Prop := {
  Must_spec err : Must err = match err with None => Done tt | Some _ => Panic PanicExplicit end;
  Builder_adds g v ts : adds (Builder_AddToScheme (Register (NewBuilder g v) ts)) (GVK g v ∘ type_kind <$> ts);
  clientgo_adds : adds clientgo_AddToScheme [];
  workv1_adds : adds workv1_AddToScheme [ManifestWork_gvk]
}.
Context {CL : ClientLaws}.

(** The kinds of the group of the add-on. *)
Definition api_gvks : list GroupVersionKind :=
  [GVK GroupVersion.1 GroupVersion.2 "WorkStatus"; GVK GroupVersion.1 GroupVersion.2 "WorkStatusList"].

Lemma AddToScheme_adds : adds AddToScheme api_gvks.
Proof. apply Builder_adds. Qed.

Lemma Must_Done err u : Must err = Done u → err = None.
Proof. rewrite Must_spec. by destruct err. Qed.

Lemma init_agent_recognizes scheme scheme' :
  init_agent scheme = Done scheme' → ∀ gvk, gvk ∈ api_gvks → Recognizes scheme' gvk = true.
Proof.
  unfold init_agent. destruct (clientgo_AddToScheme scheme) as [e1 s1]. cbn.
  destruct (Must e1) as [u|]; [|done]. cbn. destruct (AddToScheme s1) as [e2 s2] eqn:E2. cbn.
  destruct (Must e2) as [u'|] eqn:M2; [|done]. cbn. intros [= <-]. apply Must_Done in M2 as ->. by apply (AddToScheme_adds s1 s2).
Qed.

(** A client of the hub that [NewClient] returns was made with a scheme that
    recognizes the kinds the agent exchanges with the hub: WorkStatus and its list
    under the group and version of the add-on, and ManifestWork.  [NewClient]
    panics in no other case than a registration that fails, and otherwise returns
    the error of the first library call that fails. *)
Lemma NewClient_recognizes config :
  (∀ c, NewClient config = Done (GOk c) →
     ∃ scheme mapper, client_New config scheme mapper = GOk c ∧
       ∀ gvk, gvk ∈ ManifestWork_gvk :: api_gvks → Recognizes scheme gvk = true) ∧
  (∀ err, HTTPClientFor config = GErr err → NewClient config = Done (GErr err)) ∧
  (∀ http err, HTTPClientFor config = GOk http → NewDynamicRESTMapper config http = GErr err →
     NewClient config = Done (GErr err)) ∧
  ((∀ s, (clientgo_AddToScheme s).1 = None ∧ (workv1_AddToScheme s).1 = None ∧ (AddToScheme s).1 = None) →
     is_done (NewClient config) = true).
Proof.
  unfold NewClient. split_and!.
  - intros c. destruct (HTTPClientFor config) as [http|]; [|done].
    destruct (NewDynamicRESTMapper config http) as [mapper|]; [|done].
    destruct (clientgo_AddToScheme NewScheme) as [e1 s1]. cbn. destruct (Must e1) as [u1|]; [|done]. cbn.
    destruct (workv1_AddToScheme s1) as [e2 s2] eqn:E2. cbn. destruct (Must e2) as [u2|] eqn:M2; [|done]. cbn.
    destruct (AddToScheme s2) as [e3 s3] eqn:E3. cbn. destruct (Must e3) as [u3|] eqn:M3; [|done]. cbn.
    destruct (client_New config s3 mapper) as [c'|] eqn:Ec; [|done]. intros [= ->].
    apply Must_Done in M2 as ->. apply Must_Done in M3 as ->. exists s3, mapper. split; [done|].
    apply workv1_adds in E2 as [Hw _]. apply AddToScheme_adds in E3 as [Ha Hk].
    intros gvk [->|Hg]%elem_of_cons; [|by apply Ha]. apply Hk, Hw. by left.
  - by intros err ->.
  - by intros http err -> ->.
  - intros Hadd. destruct (HTTPClientFor config) as [http|]; [|done].
    destruct (NewDynamicRESTMapper config http) as [mapper|]; [|done].
    pose proof (Hadd NewScheme) as (H1 & _ & _). destruct (clientgo_AddToScheme NewScheme) as [e1 s1].
    pose proof (Hadd s1) as (_ & H2 & _). destruct (workv1_AddToScheme s1) as [e2 s2].
    pose proof (Hadd s2) as (_ & _ & H3). destruct (AddToScheme s2) as [e3 s3].
    cbn in *. subst. rewrite Must_spec. cbn. by destruct (client_New config s3 mapper).
Qed.
End client.

(** ** A concrete instance: a scheme is the list of the kinds it recognizes *)

#[export] Instance sim_client : ClientLib := {|
  Scheme := list GroupVersionKind;
  Builder := string * string * list API.DynType;
  RestConfig := string;
  HTTPClient := string;
  DynamicMapper := string;
  Client := string * list GroupVersionKind;
  NewScheme := [];
  Recognizes s gvk := bool_decide (gvk ∈ s);
  NewBuilder g v := (g, v, []);
  Register b ts := (b.1, b.2 ++ ts);
  Builder_AddToScheme b s := (None, (GVK b.1.1 b.1.2 ∘ type_kind <$> b.2) ++ s);
  clientgo_AddToScheme s := (None, GVK "" "v1" "Secret" :: s);
  workv1_AddToScheme s := (None, GVK "work.open-cluster-management.io" "v1" "ManifestWork" :: s);
  Must err := match err with None => Done tt | Some _ => Panic PanicExplicit end;
  HTTPClientFor config := if decide (config = "") then GErr (ErrLib false "no host") else GOk config;
  NewDynamicRESTMapper _ c := GOk c;
  client_New config s _ := GOk (config, s)
|}.

#[export] Instance sim_client_laws : ClientLaws.
Proof.
  split; [done|..].
  - intros g v ts s s' [= <-]. split; intros gvk Hg; apply bool_decide_eq_true, elem_of_app; [by left|].
    right. by apply bool_decide_eq_true in Hg.
  - intros s s' [= <-]. split; [by intros gvk ?%elem_of_nil|]. intros gvk Hg%bool_decide_eq_true.
    apply bool_decide_eq_true. by right.
  - intros s s' [= <-]. split.
    + intros gvk Hg%list_elem_of_singleton. subst. apply bool_decide_eq_true. by left.
    + intros gvk Hg%bool_decide_eq_true. apply bool_decide_eq_true. by right.
Qed.

Lemma NewClient_recognizes_witness :
  ∃ c, NewClient (L := sim_client) "https://hub" = Done (GOk c) ∧
    ∃ scheme mapper, client_New (ClientLib := sim_client) "https://hub" scheme mapper = GOk c ∧
      Recognizes scheme (GVK "control.kubestellar.io" "v1alpha1" "WorkStatus") = true.
Proof.
  eexists. split; [reflexivity|].
  destruct (NewClient_recognizes (L := sim_client) (K := sim_kube) "https://hub") as [Hok _].
  destruct (Hok _ eq_refl) as (scheme & mapper & Hc & Hr). exists scheme, mapper. split; [exact Hc|].
  apply Hr. right. left.
Defined.
