(* ===== verification/Command.v ===== *)
(** * The command lines: flags of the agent and of the controller

    pkg/client-options, the options of pkg/observability and pkg/agent/manager.go,
    and the wrapping of agent flags by the controller in
    cmd/ocm-status-addon/main.go.  A [pflag.FlagSet] is seen through the calls
    that define its flags, in order; what [VisitAll] then visits is a parameter. *)

From S2P Require Export GoLib.
From Stdlib Require Import Ascii.

Section command.
(** [float64] values, [rest.DefaultQPS] and [rest.DefaultBurst]. *)
Context {float64 : Type} (DefaultQPS : float64) (DefaultBurst : Z) {RT : GoRuntime}.

(** ** Calls that define flags *)

Inductive FlagCall : Type :=
| Float64Var (name : string) (value : float64) (usage : string)
| IntVar (name : string) (value : Z) (usage : string)
| StringVar (name : string) (value : string) (usage : string)
| BoolVar (name : string) (value : bool) (usage : string)
| LogsAddFlags.                             (* logs.AddFlags(config, flags) *)

(** ** pkg/client-options/client-options.go *)

Record ClientLimits : Type := MkLimits { cl_name : string; cl_description : string; QPS : float64; Burst : Z }.
Record ClientOptions : Type := MkOptions {
  co_limits : ClientLimits;
  co_ExplicitPath : string;          (* loadingRules.ExplicitPath *)
  co_CurrentContext : string;        (* the fields of overrides that are flags *)
  co_AuthInfo : string;
  co_Cluster : string
}.

Definition NewClientLimits (name description : string) : ClientLimits := MkLimits name description DefaultQPS DefaultBurst.

(** [NewDefaultClientConfigLoadingRules] sets no explicit path. *)
Definition NewClientOptions (name description : string) : ClientOptions :=
  MkOptions (NewClientLimits name description) "" "" "" "".

Definition ClientLimits_AddToFlagSet (opts : ClientLimits) : list FlagCall := [
  Float64Var (cl_name opts +:+ "-qps") (QPS opts) ("Max average requests/sec for " +:+ cl_description opts);
  IntVar (cl_name opts +:+ "-burst") (Burst opts) ("Allowed burst in requests/sec for " +:+ cl_description opts)
].

Definition ClientOptions_AddToFlagSet (opts : ClientOptions) : list FlagCall :=
  let name := cl_name (co_limits opts) in
  let description := cl_description (co_limits opts) in
  ClientLimits_AddToFlagSet (co_limits opts) ++ [
    StringVar (name +:+ "-kubeconfig") (co_ExplicitPath opts) ("Path to the kubeconfig file to use for " +:+ description);
    StringVar (name +:+ "-context") (co_CurrentContext opts) ("The name of the kubeconfig context to use for " +:+ description);
    StringVar (name +:+ "-user") (co_AuthInfo opts) ("The name of the kubeconfig user to use for " +:+ description);
    StringVar (name +:+ "-cluster") (co_Cluster opts) ("The name of the kubeconfig cluster to use for " +:+ description)
  ].

(** [rest.Config]: its rate limiter and the rest of it; [NewTokenBucketRateLimiter]
    takes the QPS as a [float32]. *)
Section limits.
Context {Limiter ConfigRest float32 : Type} (to_float32 : float64 → float32)
  (NewTokenBucketRateLimiter : float32 → Z → Limiter).
Record Config : Type := MkConfig { RateLimiter : option Limiter; config_rest : ConfigRest }.

Definition LimitConfig (opts : ClientLimits) (base : Config) : Config :=
  MkConfig (Some (NewTokenBucketRateLimiter (to_float32 (QPS opts)) (Burst opts))) (config_rest base).

(** [ClientConfig] is the library's loading of the configuration. *)
Definition ToRESTConfig (ClientConfig : ClientOptions → result Config) (opts : ClientOptions) : result Config :=
  match ClientConfig opts with
  | GErr err => GErr err
  | GOk base => GOk (LimitConfig (co_limits opts) base)
  end.
End limits.

(** ** pkg/observability/observability.go: the options *)

Record ObservabilityOptions : Type := MkObservability { MetricsBindAddr : string; PprofBindAddr : string }.

Definition Observability_AddToFlagSet (opts : ObservabilityOptions) : list FlagCall := [
  StringVar "metrics-bind-addr" (MetricsBindAddr opts) "[host]:port at which to listen for HTTP requests for Prometheus /metrics requests";
  StringVar "pprof-bind-addr" (PprofBindAddr opts) "[host]:port at which to listen for HTTP requests for go /debug/pprof requests"
].

(** ** pkg/agent/manager.go: the options *)

Record AgentUserOptions : Type := MkUserOptions { LocalLimits : ClientLimits; HubLimits : ClientLimits }.
Record AgentOptions : Type := MkAgentOptions {
  ao_Observability : ObservabilityOptions;
  EnableLeaderElection : bool;
  ProbeAddr : string;
  HubKubeconfigFile : string;
  SpokeClusterName : string;
  ao_AddonName : string;
  ao_AddonNamespace : string;
  ao_User : AgentUserOptions
}.

Definition NewObservabilityOptions : ObservabilityOptions := MkObservability ":8080" ":8082".
Definition NewAgentUserOptions : AgentUserOptions :=
  MkUserOptions (NewClientLimits "local" "accessing the local cluster") (NewClientLimits "hub" "accessing the hub").
Definition NewAgentOptions (addonName : string) : AgentOptions :=
  MkAgentOptions NewObservabilityOptions false "" "" "" addonName "" NewAgentUserOptions.

Definition AgentUserOptions_AddToFlagSet (o : AgentUserOptions) : list FlagCall :=
  ClientLimits_AddToFlagSet (LocalLimits o) ++ ClientLimits_AddToFlagSet (HubLimits o).

Definition AddFlags (o : AgentOptions) : list FlagCall :=
  Observability_AddToFlagSet (ao_Observability o) ++ [
    StringVar "hub-kubeconfig" (HubKubeconfigFile o) "Location of kubeconfig file to connect to hub cluster.";
    StringVar "cluster-name" (SpokeClusterName o) "Name of spoke cluster.";
    StringVar "addon-namespace" (ao_AddonNamespace o) "Installation namespace of addon.";
    StringVar "addon-name" (ao_AddonName o) "name of the addon.";
    StringVar "health-probe-bind-address" ":8081" "The address the probe endpoint binds to.";
    BoolVar "leader-elect" false ("Enable leader election for controller manager. " +:+
      "Enabling this will ensure there is only one active controller manager.")
  ] ++ AgentUserOptions_AddToFlagSet (ao_User o).

(** ** cmd/ocm-status-addon/main.go *)

(** The fields of [pflag.Flag] the source uses; [Value] by its [String()]. *)
Record Flag : Type := MkFlag { f_Name : string; f_Usage : string; f_Shorthand : string; f_Value : string; f_Changed : bool }.

(** The body of the loop over the flags of one set. *)
Definition wrap (connector : string) (flag : Flag) : Flag :=
  MkFlag ("agent-" +:+ f_Name flag) (f_Usage flag +:+ " " +:+ connector +:+ " the agent") "" (f_Value flag) (f_Changed flag).

(** The flags that are added to the command, in order, and [NameToWrapped]. *)
Abbreviation Wrapped := (list Flag * gmap string Flag)%type.

Definition wrap_flag (connector : string) (acc : Wrapped) (flag : Flag) : Wrapped :=
  (acc.1 ++ [wrap connector flag], <[f_Name flag := wrap connector flag]> acc.2).

(** [VisitAll]: the flags of a set, in the order they are visited. *)
Context (VisitAll : list FlagCall → list Flag).

Definition flagsOnAgent : list FlagCall := Observability_AddToFlagSet NewObservabilityOptions ++ [LogsAddFlags].
Definition flagsFromAgent : list FlagCall := AgentUserOptions_AddToFlagSet NewAgentUserOptions.

Definition flag_sets : gmap string (list FlagCall) := <["on" := flagsOnAgent]> {["from" := flagsFromAgent]}.

Definition newControllerCommand (seed : N) : Wrapped :=
  foldl (λ acc cs, foldl (wrap_flag cs.1) acc (VisitAll cs.2)) ([], ∅) (go_range seed flag_sets).

(** The setting of one flag. *)
Definition setting_of (flagName : string) (wrapped : Flag) : string := "--" +:+ flagName +:+ "=" +:+ f_Value wrapped.

(** [nameToWrapped] is the map as parsing the command line has left it. *)
Definition getPropagatedSettings (seed : N) (nameToWrapped : gmap string Flag) : list string :=
  let settings := foldl (λ settings kv,
    if f_Changed kv.2 then settings ++ [setting_of kv.1 kv.2] else settings) [] (go_range seed nameToWrapped) in
  sort_Strings settings.

(** ** Lemmas *)

Lemma foldl_settings l acc :
  foldl (λ settings kv, if f_Changed kv.2 then settings ++ [setting_of kv.1 kv.2] else settings) acc l =
  acc ++ map (λ kv, setting_of kv.1 kv.2) (filter (λ kv, f_Changed kv.2 = true) l).
Proof.
  revert acc. induction l as [|[k f] l IH]; intros acc; simpl; [by rewrite app_nil_r|].
  rewrite filter_cons. simpl. destruct (f_Changed f); rewrite IH; [|done]. simpl. by rewrite <- app_assoc.
Qed.

Lemma getPropagatedSettings_perm seed m :
  getPropagatedSettings seed m ≡ₚ map (λ kv, setting_of kv.1 kv.2) (filter (λ kv, f_Changed kv.2 = true) (map_to_list m)).
Proof.
  unfold getPropagatedSettings. rewrite sort_Strings_perm, foldl_settings. simpl.
  apply Permutation_map. by rewrite go_range_perm.
Qed.

(** What the controller propagates, as names and values. *)
Lemma getPropagatedSettings_pairs seed nameToWrapped :
  ∃ flags, getPropagatedSettings seed nameToWrapped = map (λ kv, setting_of kv.1 kv.2) flags ∧
    NoDup flags.*1 ∧
    ∀ name wrapped, (name, wrapped) ∈ flags ↔ nameToWrapped !! name = Some wrapped ∧ f_Changed wrapped = true.
Proof using RT.
  destruct (Permutation_map_inv _ _ (getPropagatedSettings_perm seed nameToWrapped)) as (flags & Hs & Hp).
  exists flags. split; [done|]. split.
  - rewrite <- Hp. eapply sublist_NoDup; [apply (NoDup_fst_map_to_list nameToWrapped)|].
    apply fmap_sublist, sublist_filter.
  - intros name wrapped. rewrite <- Hp, list_elem_of_filter, elem_of_map_to_list. cbn. tauto.
Qed.

Lemma foldl_wrap connector flags acc :
  foldl (wrap_flag connector) acc flags =
  (acc.1 ++ map (wrap connector) flags, foldl (λ m f, <[f_Name f := wrap connector f]> m) acc.2 flags).
Proof.
  revert acc. induction flags as [|f flags IH]; intros [a m]; simpl; [by rewrite app_nil_r|].
  rewrite IH. simpl. by rewrite <- app_assoc.
Qed.

Lemma foldl_insert_lookup connector flags (m : gmap string Flag) name :
  foldl (λ m f, <[f_Name f := wrap connector f]> m) m flags !! name =
  match list_find (λ f, f_Name f = name) (reverse flags) with
  | Some (_, f) => Some (wrap connector f)
  | None => m !! name
  end.
Proof.
  induction flags as [|f flags IH] using rev_ind; [done|]. rewrite foldl_app, reverse_app. simpl.
  case_decide as Hd; [subst; by rewrite lookup_insert_eq|].
  rewrite lookup_insert_ne, IH by done. by destruct (list_find _ (reverse flags)) as [[]|].
Qed.

Lemma flag_sets_range seed :
  go_range seed flag_sets = [("on", flagsOnAgent); ("from", flagsFromAgent)] ∨
  go_range seed flag_sets = [("from", flagsFromAgent); ("on", flagsOnAgent)].
Proof.
  apply Permutation_length_2_inv. rewrite go_range_perm. unfold flag_sets.
  rewrite map_to_list_insert by by rewrite lookup_singleton_ne. by rewrite map_to_list_singleton.
Qed.

Lemma find_name name flags i f :
  list_find (λ f, f_Name f = name) (reverse flags) = Some (i, f) → f ∈ flags ∧ f_Name f = name.
Proof. intros (Hi & Hn & _)%list_find_Some. apply list_elem_of_lookup_2 in Hi. by rewrite elem_of_reverse in Hi. Qed.

(** The command, for the two orders of the loop over the sets. *)
Lemma newControllerCommand_cases seed :
  let on := VisitAll flagsOnAgent in
  let from := VisitAll flagsFromAgent in
  let put c l (m : gmap string Flag) := foldl (λ m f, <[f_Name f := wrap c f]> m) m l in
  newControllerCommand seed = (map (wrap "on") on ++ map (wrap "from") from, put "from" from (put "on" on ∅)) ∨
  newControllerCommand seed = (map (wrap "from") from ++ map (wrap "on") on, put "on" on (put "from" from ∅)).
Proof.
  unfold newControllerCommand. destruct (flag_sets_range seed) as [-> | ->]; cbn [foldl fst snd];
    rewrite !foldl_wrap; [by left|by right].
Qed.

(** ** Properties *)

(** The settings the controller passes to the agent are a function of the
    flags alone, whatever the order of the loop over the map: one for each flag
    that was set on its command line, with the name the agent knows it by and its
    value, in increasing order. *)
Lemma getPropagatedSettings_spec seed seed' nameToWrapped :
  getPropagatedSettings seed nameToWrapped = getPropagatedSettings seed' nameToWrapped ∧
  Sorted String.le (getPropagatedSettings seed nameToWrapped) ∧
  length (getPropagatedSettings seed nameToWrapped) =
    size (filter (λ kv : string * Flag, f_Changed kv.2 = true) nameToWrapped) ∧
  ∀ s, s ∈ getPropagatedSettings seed nameToWrapped ↔
    ∃ name flag, nameToWrapped !! name = Some flag ∧ f_Changed flag = true ∧ s = setting_of name flag.
Proof.
  split_and!.
  - apply (go_range_seed_irrel (λ l, sort_Strings (foldl _ [] l))). intros l l' Hl. apply sort_Strings_unique.
    rewrite !foldl_settings. simpl. by rewrite Hl.
  - apply sort_Strings_sorted.
  - rewrite getPropagatedSettings_perm, length_map, <- length_map_to_list.
    rewrite map_filter_alt, map_to_list_to_map; [done|].
    eapply sublist_NoDup; [apply (NoDup_fst_map_to_list nameToWrapped)|]. apply fmap_sublist, sublist_filter.
  - intros s. rewrite getPropagatedSettings_perm. rewrite list_elem_of_fmap. split.
    + intros ([k f] & -> & [Hc Hin]%list_elem_of_filter). apply elem_of_map_to_list in Hin. eauto.
    + intros (k & f & Hk & Hc & ->). exists (k, f). split; [done|]. apply list_elem_of_filter. split; [done|].
      by apply elem_of_map_to_list.
Qed.

(** The controller has each flag of the agent under the name with the prefix
    [agent-], without a shorthand: when no name is in both flag sets, the map from
    the agent's names to these flags is the same whatever order its two loops
    take, and each of its flags has been added to the command. *)
Lemma newControllerCommand_wraps seed seed' :
  (∀ f f', f ∈ VisitAll flagsOnAgent → f' ∈ VisitAll flagsFromAgent → f_Name f ≠ f_Name f') →
  (newControllerCommand seed).2 = (newControllerCommand seed').2 ∧
  (newControllerCommand seed).1 ≡ₚ
    map (wrap "on") (VisitAll flagsOnAgent) ++ map (wrap "from") (VisitAll flagsFromAgent) ∧
  ∀ name wrapped, (newControllerCommand seed).2 !! name = Some wrapped →
    wrapped ∈ (newControllerCommand seed).1 ∧ f_Name wrapped = "agent-" +:+ name ∧ f_Shorthand wrapped = "".
Proof.
  intros Hdis. split_and!.
  - apply map_eq. intros name.
    destruct (newControllerCommand_cases seed) as [-> | ->], (newControllerCommand_cases seed') as [-> | ->];
      cbn [snd]; rewrite !foldl_insert_lookup, !lookup_empty; try done;
      destruct (list_find _ (reverse (VisitAll flagsOnAgent))) as [[i f]|] eqn:Ef;
      destruct (list_find _ (reverse (VisitAll flagsFromAgent))) as [[j f']|] eqn:Ef'; try done;
      apply find_name in Ef as [Hf <-], Ef' as [Hf' Hn]; by destruct (Hdis f f' Hf Hf').
  - destruct (newControllerCommand_cases seed) as [-> | ->]; cbn [fst]; [done|apply Permutation_app_comm].
  - intros name wrapped.
    destruct (newControllerCommand_cases seed) as [-> | ->]; cbn [fst snd]; rewrite !foldl_insert_lookup, lookup_empty;
      do 2 (let Ef := fresh "Ef" in
        match goal with |- match list_find ?P ?l with _ => _ end = _ → _ => destruct (list_find P l) as [[? f]|] eqn:Ef end;
        [apply find_name in Ef as [Hf <-]; intros [= <-]; rewrite elem_of_app, !list_elem_of_fmap; naive_solver|]);
      intros [=].
Qed.
End command.

(** ** Closed instances *)

(** Flags are visited in the order they were defined; numbers print as such. *)
Definition ex_VisitAll (calls : list (FlagCall (float64 := Z))) : list Flag :=
  flat_map (λ c, match c with
    | Float64Var n v u | IntVar n v u => [MkFlag n u "" (pretty v) false]
    | StringVar n v u => [MkFlag n u "" v false]
    | BoolVar n v u => [MkFlag n u "" (if v : bool then "true" else "false") false]
    | LogsAddFlags => [MkFlag "v" "number for the log level verbosity" "v" "0" false]
    end) calls.

#[local] Program Instance ex_runtime : GoRuntime := {| go_range A seed m := map_to_list m |}.
Next Obligation. done. Qed.

Lemma newControllerCommand_wraps_witness :
  (newControllerCommand 5%Z 10 ex_VisitAll 0).2 !! "hub-qps" =
    Some (MkFlag "agent-hub-qps" "Max average requests/sec for accessing the hub from the agent" "" "5" false) ∧
  (newControllerCommand 5%Z 10 ex_VisitAll 0).2 = (newControllerCommand 5%Z 10 ex_VisitAll 1).2.
Proof.
  split; [vm_compute; reflexivity|].
  apply (newControllerCommand_wraps 5%Z 10 ex_VisitAll 0 1).
  intros f f' Hf Hf'. vm_compute in Hf, Hf'.
  repeat (apply elem_of_cons in Hf as [->|Hf]; [repeat (apply elem_of_cons in Hf' as [->|Hf']; [discriminate|])|]);
    by apply elem_of_nil in Hf || apply elem_of_nil in Hf'.
Defined.
