(* ===== verification/Startup.v ===== *)
(** * The two processes: RunAgent of pkg/agent/manager.go, runController of
    cmd/ocm-status-addon/main.go, StartServing of pkg/observability/observability.go

    Both wire libraries together; they are programs over the library calls they
    make, so that their order, their arguments and their exits can be stated. *)

From S2P Require Export Runtime Command Controller.

(** How a command ends: it returns to cobra, or the process exits. *)
Inductive ending : Type :=
| Return (err : option error)
| OsExit (code : Z).

Section startup.
Context {float64 float32 Limiter ConfigRest : Type}.
Context (to_float32 : float64 → float32) (NewTokenBucketRateLimiter : float32 → Z → Limiter).
Abbreviation Config := (Config (Limiter := Limiter) (ConfigRest := ConfigRest)).
Abbreviation AgentOptions := (AgentOptions (float64 := float64)).
Abbreviation LimitConfig := (LimitConfig to_float32 NewTokenBucketRateLimiter).

(** ** RunAgent *)

(** [ctrl.Options] with the fields that are set. *)
Record ManagerOptions : Type := MkManagerOptions {
  mo_MetricsBindAddress : string;
  mo_PprofBindAddress : string;
  mo_HealthProbeBindAddress : string;
  mo_LeaderElection : bool;
  mo_LeaderElectionID : string
}.

Inductive AgentCall : Type → Type :=
| SetLogger : AgentCall unit
| GetConfigOrDie : AgentCall Config
| NewManager (config : Config) (options : ManagerOptions) : AgentCall (option error)
| AddHealthzCheck (name : string) : AgentCall (option error)
| AddReadyzCheck (name : string) : AgentCall (option error)
| BuildConfigFromFlags (masterUrl path : string) : AgentCall (result Config)
| CallNewAgent (managed hub : Config) (clusterName agentName : string) : AgentCall (option error)
| CallStart (workers : Z) : AgentCall (option error)
| ManagerStart : AgentCall (option error).

Definition workers : Z := 4.

Definition manager_options (o : AgentOptions) : ManagerOptions :=
  MkManagerOptions (MetricsBindAddr (ao_Observability o)) (PprofBindAddr (ao_Observability o)) (ProbeAddr o)
    (EnableLeaderElection o) "c6f71c85.kflex.kubestellar.org".

(** [if err != nil { ..; os.Exit(1) }] *)
Definition or_exit (err : option error) (k : prog AgentCall ending) : prog AgentCall ending :=
  match err with Some _ => mret (OsExit 1) | None => k end.

Definition RunAgent (o : AgentOptions) : prog AgentCall ending :=
  _ ← act SetLogger;
  managedConfig ← act GetConfigOrDie;
  let managedConfig := LimitConfig (LocalLimits (ao_User o)) managedConfig in
  err ← act (NewManager managedConfig (manager_options o));
  or_exit err (
  err ← act (AddHealthzCheck "healthz");
  or_exit err (
  err ← act (AddReadyzCheck "readyz");
  or_exit err (
  r ← act (BuildConfigFromFlags "" (HubKubeconfigFile o));
  match r with
  | GErr _ => mret (OsExit 1)
  | GOk hubConfig =>
      let hubConfig := LimitConfig (HubLimits (ao_User o)) hubConfig in
      err ← act (CallNewAgent managedConfig hubConfig (SpokeClusterName o) (ao_AddonName o));
      or_exit err (
      err ← act (CallStart workers);
      or_exit err (
      err ← act ManagerStart;
      or_exit err (mret (Return None))))
  end))).

(** ** StartServing of pkg/observability/observability.go *)

(** The handlers of the two servers: the registry's metrics, and a mux on which
    the profiling routes have been installed. *)
Inductive Handler : Type :=
| RegistryHandler
| PathRecorderMux (name : string) (profiling : bool).

Inductive ServeCall : Type → Type :=
| InstallProfiling (mux : Handler) : ServeCall Handler
| ListenAndServe (addr : string) (handler : Handler) : ServeCall (option error)
| LogError (err : error) (msg bindAddress : string) : ServeCall unit.

(** The two goroutines. *)
Definition serve_metrics (opts : ObservabilityOptions) : prog ServeCall unit :=
  err ← act (ListenAndServe (MetricsBindAddr opts) RegistryHandler);
  match err with
  | Some err =>
      _ ← act (LogError err "Failed to serve Prometheus metrics" (MetricsBindAddr opts));
      Crash PanicExplicit
  | None => mret tt
  end.

Definition serve_pprof (opts : ObservabilityOptions) : prog ServeCall unit :=
  let mymux := PathRecorderMux "transport-controller" false in
  mymux ← act (InstallProfiling mymux);
  err ← act (ListenAndServe (PprofBindAddr opts) mymux);
  match err with
  | Some err =>
      _ ← act (LogError err "Failure in serving /debug/pprof" (PprofBindAddr opts));
      Crash PanicExplicit
  | None => mret tt
  end.

(** ** runController *)

(** The registration option: the arguments of the signer configurations, of the
    approver and of the RBAC set-up are the addon's and the agent's names. *)
Record RegistrationOption : Type := MkRegistration {
  reg_addonName : string; reg_agentName : string; reg_Namespace : string;
  reg_NamespaceFromConfig : bool      (* AgentInstallNamespace is set *)
}.

Definition NewRegistrationOption (addonName agentName : string) : RegistrationOption :=
  MkRegistration addonName agentName InstallationNamespace false.

(** What the agent addon is built from. *)
Record AddonConfig : Type := MkAddonConfig {
  ac_name : string; ac_templates : string;
  ac_registration : RegistrationOption;
  ac_installNamespace : string;       (* what WithAgentInstallNamespace's function returns *)
  ac_probed : ResourceIdentifier
}.

Inductive ControllerCall : Type → Type :=
| GoServe (goroutine : prog ServeCall unit) : ControllerCall unit      (* a go statement *)
| NewAddonClient : ControllerCall (option error)
| NewAddonManager : ControllerCall (option error)
| RandString (n : nat) : ControllerCall string
| BuildTemplateAgentAddon (c : AddonConfig) : ControllerCall (option error)
| AddAgent : ControllerCall (option error)
| AddonManagerStart : ControllerCall (option error)
| ContextDone : ControllerCall unit.

Definition StartServing (opts : ObservabilityOptions) : prog ControllerCall unit :=
  _ ← act (GoServe (serve_metrics opts));
  act (GoServe (serve_pprof opts)).

(** [klog.Fatal] exits with status 255. *)
Definition fatal : prog ControllerCall ending := mret (OsExit 255).

Definition runController (observability : ObservabilityOptions) : prog ControllerCall ending :=
  _ ← StartServing observability;
  err ← act NewAddonClient;
  match err with
  | Some err => mret (Return (Some err))
  | None =>
      err ← act NewAddonManager;
      match err with
      | Some err => mret (Return (Some err))
      | None =>
          agentName ← act (RandString 5);
          let reg := NewRegistrationOption AddonName agentName in
          let reg := MkRegistration (reg_addonName reg) (reg_agentName reg) (reg_Namespace reg) true in
          err ← act (BuildTemplateAgentAddon
            (MkAddonConfig AddonName "manifests/templates" reg InstallationNamespace probed_deployment));
          match err with
          | Some err => mret (Return (Some err))
          | None =>
              err ← act AddAgent;
              match err with
              | Some _ => fatal
              | None =>
                  err ← act AddonManagerStart;
                  match err with
                  | Some _ => fatal
                  | None => _ ← act ContextDone; mret (Return None)
                  end
              end
          end
      end
  end.

(** ** Lemmas *)

Definition rate_limited (c : Config) : Prop := RateLimiter c ≠ None.

(** The configurations an agent is made with. *)
Definition agent_call_ok (o : AgentOptions) (R : Type) (c : AgentCall R) : Prop :=
  match c with
  | CallNewAgent managed hub clusterName agentName =>
      rate_limited managed ∧ rate_limited hub ∧ clusterName = SpokeClusterName o ∧ agentName = ao_AddonName o
  | CallStart w => w = 4%Z
  | _ => True
  end.

(** [RunAgent] makes the agent with rate-limited clients for the cluster of its
    flags, and returns to its command only without an error: every failure exits
    the process. *)
Lemma RunAgent_calls o :
  safe (λ _ _ _, True) (agent_call_ok o) (λ _, False) (λ e, e = Return None ∨ e = OsExit 1) (RunAgent o).
Proof.
  unfold RunAgent, or_exit.
  repeat first [ progress (split; [done|intros ? _]) | progress cbn [mbind prog_bind mret prog_ret]
               | match goal with |- safe _ _ _ _ (match ?r with _ => _ end) => destruct r end
               | progress (cbn [safe mret prog_ret]; by auto)
               | split; [by split_and!|intros ? _] ].
Qed.

(** [runController] returns the errors of its set-up, and exits when the addon
    cannot be added or the manager fails. *)
Lemma runController_ends observability :
  safe (λ _ _ _, True) (λ _ _, True) (λ _, False) (λ e, ∀ code, e = OsExit code → code = 255%Z) (runController observability).
Proof.
  unfold runController, StartServing, fatal.
  repeat first [ progress (split; [done|intros ? _]) | progress cbn [mbind prog_bind mret prog_ret]
               | match goal with |- safe _ _ _ _ (match ?r with _ => _ end) => destruct r end
               | progress (cbn [safe mret prog_ret]; by intros ? [= <-]) ].
Qed.

(** [ListenAndServe] returns no nil error: a server that stops, for instance
    because its port is taken, takes the whole process down. *)
Lemma StartServing_crashes opts t :
  t ∈ [serve_metrics opts; serve_pprof opts] →
  safe (λ R (c : ServeCall R), match c in ServeCall R return R → Prop with
          | ListenAndServe _ _ => λ err, err ≠ None
          | InstallProfiling (PathRecorderMux name _) => λ mux, mux = PathRecorderMux name true
          | _ => λ _, True end)
       (λ R c, match c with
          | ListenAndServe addr (PathRecorderMux _ profiling) => addr = PprofBindAddr opts ∧ profiling = true
          | ListenAndServe addr RegistryHandler => addr = MetricsBindAddr opts
          | _ => True end)
       (λ q, q = PanicExplicit) (λ _, False) t.
Proof.
  intros Ht. repeat (apply elem_of_cons in Ht as [-> | Ht]); [..|by apply elem_of_nil in Ht].
  - cbn. split; [done|]. intros [err|] Hr; [|done]. cbn. by split.
  - cbn. split; [done|]. intros mux ->. cbn. split; [done|]. intros [err|] Hr; [|done]. cbn. by split.
Qed.
End startup.
