(* ===== verification/CommandTree.v ===== *)
(** * The program's command tree: main and newCommand of cmd/ocm-status-addon/main.go, NewAgentCommand of pkg/agent/manager.go

    A cobra command is the data the source gives it; what parsing the command
    line does with it is the library's. *)

From S2P Require Export Startup.

Section tree.
Context {float64 : Type} (DefaultQPS : float64) (DefaultBurst : Z) {RT : GoRuntime}.
Context (VisitAll : list (FlagCall (float64 := float64)) → list Flag).
Abbreviation FlagCall := (FlagCall (float64 := float64)).
Abbreviation AgentOptions := (AgentOptions (float64 := float64)).

(** ** Commands *)

(** What a command runs: the function that a command of [cmdfactory] is built
    from, by name, with the options its flags write to, or, for the root, its
    help and an exit. *)
Inductive Action : Type :=
| RunHelp
| StartAgent (o : AgentOptions)                              (* o.RunAgent *)
| StartController (observability : ObservabilityOptions) (nameToWrapped : gmap string Flag).   (* ac.runController *)

Record Command : Type := MkCommand {
  Use : string;
  Short : string;
  Version : string;
  Flags : list FlagCall;           (* the calls that define its persistent flags *)
  AddedFlags : list Flag;          (* the flags AddFlag gives it *)
  Run : Action
}.

(** [cmdfactory.NewControllerCommandConfig(name, version.Get(), start).NewCommand()] *)
Context (ControllerCommand : string → Action → Command).

(** [cmd.Use = ..; cmd.Short = ..], and more flags. *)
Definition set_command (cmd : Command) (use short : string) (flags : list FlagCall) (added : list Flag) : Command :=
  MkCommand use short (Version cmd) (Flags cmd ++ flags) (AddedFlags cmd ++ added) (Run cmd).

Definition NewAgentCommand (addonName : string) : Command :=
  let o := NewAgentOptions DefaultQPS DefaultBurst addonName in
  let cmd := ControllerCommand "status-addon-agent" (StartAgent o) in
  set_command cmd "agent" "Start the addon agent" (AddFlags o) [].

(** The options of the controller's own servers. *)
Definition controller_observability : ObservabilityOptions := MkObservability ":9280" ":9282".

Definition controller_command (seed : N) : Command :=
  let '(added, nameToWrapped) := newControllerCommand DefaultQPS DefaultBurst VisitAll seed in
  let cmd := ControllerCommand "status-addon-controller" (StartController controller_observability nameToWrapped) in
  set_command cmd "controller" "Start the addon controller" (Observability_AddToFlagSet controller_observability) added.

(** A command and its subcommands; [version] is [version.Get().String()]. *)
Definition newCommand (version : string) (seed : N) : Command * list Command :=
  let v := if decide (String.length version = 0) then "<unknown>" else version in
  (MkCommand "addon" "status addon" v [] [] RunHelp, [controller_command seed; NewAgentCommand "status"]).

(** The function literals of the root: [Run], and [PersistentPreRunE]. *)
Inductive RootCall : Type → Type :=
| Help : RootCall (option error)
| ValidateAndApply : RootCall (option error)
| PrintError (err : error) : RootCall unit.

Definition run_root : prog RootCall ending :=
  err ← act Help;
  _ ← match err with Some err => act (PrintError err) | None => mret tt end;
  mret (OsExit 1).

Definition PersistentPreRunE : prog RootCall (option error) := act ValidateAndApply.

(** ** main *)

Record FeatureSpec : Type := MkFeature { fs_Default : bool; fs_PreRelease : string }.

Inductive MainCall : Type → Type :=
| SetNormalizeFunc : MainCall unit                        (* on pflag.CommandLine, with utilflag.WordSepNormalizeFunc *)
| AddGoFlagSet : MainCall unit
| FeaturesAdd (specs : gmap string FeatureSpec) : MainCall (option error)
| CommandLineAddFlags (c : FlagCall) : MainCall unit      (* on pflag.CommandLine *)
| GetVersion : MainCall string
| RangeSeed : MainCall N                                  (* the order of the loop of newControllerCommand *)
| Execute (command : Command * list Command) : MainCall (option error)
| Fprintf (err : error) : MainCall unit.

Definition features : gmap string FeatureSpec :=
  <["ContextualLogging" := MkFeature true "ALPHA"]>
  (<["LoggingAlphaOptions" := MkFeature false "ALPHA"]> {["LoggingBetaOptions" := MkFeature true "BETA"]}).

(** [main] returns, which ends the process with status 0, exits, or panics. *)
Definition main : prog MainCall ending :=
  _ ← act SetNormalizeFunc;
  _ ← act AddGoFlagSet;
  err ← act (FeaturesAdd features);
  match err with
  | Some _ => Crash PanicExplicit
  | None =>
      _ ← act (CommandLineAddFlags LogsAddFlags);
      version ← act GetVersion;
      seed ← act RangeSeed;
      err ← act (Execute (newCommand version seed));
      match err with
      | Some err => _ ← act (Fprintf err); mret (OsExit 1)
      | None => mret (Return None)
      end
  end.

(** ** The flags a command line may use *)

(** The names [logs.AddFlags] defines. *)
Context (logs_names : list string).

Definition flag_names (c : FlagCall) : list string :=
  match c with
  | Float64Var name _ _ | IntVar name _ _ | StringVar name _ _ | BoolVar name _ _ => [name]
  | LogsAddFlags => logs_names
  end.

(** The flags of a command: its own, and those of [pflag.CommandLine], which cobra
    gives to every command of the tree. *)
Definition accepts (cmd : Command) (name : string) : Prop :=
  (name ∈ flat_map flag_names (Flags cmd ++ [LogsAddFlags])) ∨ (name ∈ f_Name <$> AddedFlags cmd).

(** A flag set visits the flags that were defined. *)
Definition visits : Prop :=
  ∀ calls, (f_Name <$> VisitAll calls) ⊆ flat_map flag_names calls.

(** ** Lemmas *)

Lemma elem_of_flag_names calls name :
  name ∈ flat_map flag_names calls ↔ ∃ c, c ∈ calls ∧ name ∈ flag_names c.
Proof.
  clear VisitAll ControllerCommand.
  induction calls as [|c calls IH]; cbn; [set_solver|]. rewrite elem_of_app, IH. set_solver.
Qed.

(** The agent defines what the controller may pass on. *)
Lemma agent_defines addonName c :
  c ∈ flagsOnAgent (float64 := float64) ++ flagsFromAgent DefaultQPS DefaultBurst → ∀ name, name ∈ flag_names c →
  accepts (NewAgentCommand addonName) name.
Proof.
  intros Hc name Hn. left. apply elem_of_flag_names. unfold NewAgentCommand, set_command. cbn [Flags].
  exists c. split; [|done]. rewrite <- app_assoc. apply elem_of_app. right.
  unfold flagsOnAgent, flagsFromAgent, AddFlags in *. cbn [NewAgentOptions ao_Observability ao_User].
  rewrite !elem_of_app in *. tauto.
Qed.

Lemma foldl_insert_names connector l (m : gmap string Flag) name f :
  foldl (λ m f, <[f_Name f := wrap connector f]> m) m l !! name = Some f →
  name ∈ f_Name <$> l ∨ m !! name = Some f.
Proof.
  clear VisitAll ControllerCommand.
  revert m. induction l as [|f' l IH]; intros m; cbn; [by right|]. intros [Hl|Hm]%IH; [by left; right|].
  apply lookup_insert_Some in Hm as [[<- _]|[_ Hm]]; [left; left|by right].
Qed.

Lemma wrapped_names seed name f :
  (newControllerCommand DefaultQPS DefaultBurst VisitAll seed).2 !! name = Some f →
  name ∈ (f_Name <$> VisitAll flagsOnAgent) ++ (f_Name <$> VisitAll (flagsFromAgent DefaultQPS DefaultBurst)).
Proof.
  clear ControllerCommand.
  rewrite elem_of_app.
  destruct (newControllerCommand_cases DefaultQPS DefaultBurst VisitAll seed) as [-> | ->]; cbn [snd];
    (intros [H|[H|H]%foldl_insert_names]%foldl_insert_names; [tauto..|by rewrite lookup_empty in H]).
Qed.

(** [main] ends with status 0, or with status 1 after an error of the command. *)
Lemma main_ends :
  safe (λ _ _ _, True) (λ _ _, True) (λ q, q = PanicExplicit) (λ e, e = Return None ∨ e = OsExit 1) main.
Proof.
  unfold main. cbn. split_and!; [done|intros _ _; split; [done|intros _ _; split; [done|]]].
  intros [err|] _; cbn; [done|]. split; [done|]. intros _ _. split; [done|]. intros v _. split; [done|]. intros seed _.
  split; [done|]. intros [err|] _; cbn; [|by left]. split; [done|]. intros _ _. by right.
Qed.

(** The root prints its help and fails. *)
Lemma run_root_fails : safe (λ _ _ _, True) (λ _ _, True) (λ _, False) (λ e, e = OsExit 1) run_root.
Proof. cbn. split; [done|]. by intros [err|] _; cbn; [split|]. Qed.

(** The flags of the agent in the deployment the controller renders, next to the
    propagated settings. *)
Definition agent_flags : list string := ["hub-kubeconfig"; "cluster-name"; "addon-namespace"].

Lemma agent_flags_accepted name : name ∈ agent_flags → accepts (NewAgentCommand "status") name.
Proof.
  intros Hn. left. apply elem_of_flag_names. unfold NewAgentCommand, set_command, AddFlags. cbn [Flags].
  repeat (apply elem_of_cons in Hn as [-> | Hn]);
    [exists (StringVar "hub-kubeconfig" "" "Location of kubeconfig file to connect to hub cluster.")
    |exists (StringVar "cluster-name" "" "Name of spoke cluster.")
    |exists (StringVar "addon-namespace" "" "Installation namespace of addon.")
    |by apply elem_of_nil in Hn];
    (split; [|by apply list_elem_of_singleton]); rewrite !elem_of_app; left; right; right; left; cbn; set_solver.
Qed.

Lemma one_agent_command version seed : filter (λ c, Use c = "agent") (newCommand version seed).2 = [NewAgentCommand "status"].
Proof. unfold newCommand, controller_command. by destruct (newControllerCommand _ _ _ _). Qed.

(** A flag the controller wraps is one the agent defines. *)
Lemma wrapped_defined seed name (nameToWrapped : gmap string Flag) :
  visits → dom nameToWrapped = dom (newControllerCommand DefaultQPS DefaultBurst VisitAll seed).2 →
  name ∈ dom nameToWrapped →
  ∃ c, c ∈ flagsOnAgent (float64 := float64) ++ flagsFromAgent DefaultQPS DefaultBurst ∧ name ∈ flag_names c.
Proof.
  intros Hvis Hdom Hd. rewrite Hdom in Hd. apply elem_of_dom in Hd as [f Hf%wrapped_names].
  apply elem_of_app in Hf as [Hf|Hf]; apply Hvis, elem_of_flag_names in Hf as (c & Hc & Hn);
    exists c; (split; [apply elem_of_app|done]); [by left|by right].
Qed.

(** ** Properties *)

(** The tree has one command named "agent"; it defines the flags of the
    deployment's template, and every setting the controller propagates, whatever
    the user has set on the controller and whatever the order of the loops over
    maps, is [--name=value] for a flag of that command, with the value of the
    controller's wrapped flag of the same meaning. *)
Lemma propagated_settings_accepted version seed seed' nameToWrapped :
  visits →
  dom nameToWrapped = dom (newControllerCommand DefaultQPS DefaultBurst VisitAll seed).2 →
  ∃ agent, filter (λ c, Use c = "agent") (newCommand version seed).2 = [agent] ∧
    (∀ name, name ∈ agent_flags → accepts agent name) ∧
    ∀ setting, setting ∈ getPropagatedSettings seed' nameToWrapped →
      ∃ name wrapped, setting = "--" +:+ name +:+ "=" +:+ f_Value wrapped ∧ accepts agent name ∧
        nameToWrapped !! name = Some wrapped ∧ f_Changed wrapped = true.
Proof.
  intros Hvis Hdom. exists (NewAgentCommand "status").
  split; [apply one_agent_command|]. split; [apply agent_flags_accepted|]. intros setting Hs.
  destruct (getPropagatedSettings_pairs seed' nameToWrapped) as (flags & He & _ & Hf). rewrite He in Hs.
  apply list_elem_of_fmap in Hs as ([name wrapped] & -> & [Hin Hc]%Hf). exists name, wrapped. split_and!; [done| |done|done].
  destruct (wrapped_defined seed name nameToWrapped) as (c & Hc' & Hn); [done..|by apply elem_of_dom_2 in Hin|].
  by eapply agent_defines.
Qed.
End tree.

(** ** A concrete instance *)

#[local] Program Instance ex_runtime : GoRuntime := {| go_range A seed m := map_to_list m |}.
Next Obligation. done. Qed.

Lemma ex_visits : visits ex_VisitAll ["v"].
Proof.
  intros calls. induction calls as [|c calls IH]; [done|].
  unfold ex_VisitAll in *. cbn [flat_map]. rewrite fmap_app.
  intros name [Hn|Hn]%elem_of_app; apply elem_of_app; [left|right; by apply IH]. by destruct c.
Qed.

(** A command of the library with one flag of its own. *)
Definition ex_factory (name : string) (run : Action (float64 := Z)) : Command (float64 := Z) :=
  MkCommand name "" "v1" [StringVar "kubeconfig" "" ""] [] run.

(** The controller was started with [--agent-hub-qps=7]. *)
Definition ex_settings : gmap string Flag :=
  alter (λ f, MkFlag (f_Name f) (f_Usage f) (f_Shorthand f) "7" true) "hub-qps"
    (newControllerCommand 5%Z 10 ex_VisitAll 0).2.

Lemma propagated_settings_accepted_witness :
  getPropagatedSettings 3 ex_settings = ["--hub-qps=7"] ∧
  ∃ agent, filter (λ c, Use c = "agent") (newCommand 5%Z 10 ex_VisitAll ex_factory "v1" 0).2 = [agent] ∧
    ∃ name wrapped, "--hub-qps=7" = "--" +:+ name +:+ "=" +:+ f_Value wrapped ∧ accepts ["v"] agent name.
Proof.
  assert (getPropagatedSettings 3 ex_settings = ["--hub-qps=7"]) as Hs by (vm_compute; reflexivity).
  split; [exact Hs|].
  destruct (propagated_settings_accepted 5%Z 10 ex_VisitAll ex_factory ["v"] "v1" 0 3 ex_settings ex_visits)
    as (agent & Ha & _ & Hset); [apply dom_alter_L|].
  exists agent. split; [exact Ha|].
  assert ("--hub-qps=7" ∈ getPropagatedSettings 3 ex_settings) as Hin by (rewrite Hs; left).
  destruct (Hset _ Hin) as (name & wrapped & Hn & Hacc & _). exists name, wrapped. split; [exact Hn|exact Hacc].
Defined.
