(* ===== verification/Deployment.v ===== *)
(** * The manifests the controller deploys: pkg/controller/manifests/templates

    A template executed on the values gives a text that is then read as YAML.
    Each manifest is written here as the object its text denotes: what the template
    spells out is constant, and where it puts a value into a scalar, reading that
    scalar is the YAML library's, which may refuse it. *)

From S2P Require Export CommandTree.

(** ** Values *)

(** [corev1.Toleration], as the template uses it. *)
Record Toleration : Type := MkToleration {
  tol_Key : string; tol_Value : string; tol_Effect : string; tol_Operator : string; tol_TolerationSeconds : option Z
}.

(** The values of the templates: those of [GetDefaultValues] and
    [getPropagatedSettings], and those that only an AddOnDeploymentConfig gives. *)
Record TemplateValues : Type := MkTemplateValues {
  tv_Config : ManifestConfig;
  tv_PropagatedSettings : list string;
  tv_NodeSelector : gmap string string;
  tv_Tolerations : list Toleration;
  tv_HTTPProxy : string; tv_HTTPSProxy : string; tv_NoProxy : string
}.

(** ** Objects *)

Record Container : Type := MkContainer {
  ct_Name : string; ct_Image : string; ct_ImagePullPolicy : string;
  ct_Ports : list (Z * string);                  (* containerPort and name; the protocol is TCP *)
  ct_Env : list (string * string);
  ct_Args : list string;
  ct_VolumeMounts : list (string * string)       (* name and mountPath *)
}.

Record DeploymentManifest : Type := MkDeployment {
  dp_APIVersion : string; dp_Kind : string; dp_Name : string; dp_Namespace : string;
  dp_Labels : list (string * string);
  dp_Replicas : Z;
  dp_MatchLabels : list (string * string);
  dp_PodLabels : list (string * string);
  dp_Annotations : list (string * string);
  dp_ServiceAccountName : string;
  dp_NodeSelector : list (string * string);
  dp_Tolerations : list Toleration;
  dp_Volumes : list (string * string);           (* name and the name of the secret *)
  dp_Containers : list Container
}.

Record ServiceAccountManifest : Type := MkServiceAccount { sa_Name : string; sa_Namespace : string }.

(** The binding, with its role and its one subject, a service account. *)
Record ClusterRoleBindingManifest : Type := MkClusterRoleBinding {
  crb_Name : string; crb_RoleRef : string; crb_SubjectName : string; crb_SubjectNamespace : string
}.

Section templates.
(** The values of the scalars [s] and ["s"], if they are strings. *)
Context (plain quoted : string → option string).

Definition quoted_pair (kv : string * string) : option (string * string) :=
  k ← quoted kv.1; v ← quoted kv.2; Some (k, v).

(** [range] of a template visits a map in the order of its keys. *)
Definition range_sorted (m : gmap string string) : list (string * string) :=
  omap (λ k, pair k <$> m !! k) (sort_Strings (map_to_list m).*1).

Definition toleration (t : Toleration) : option Toleration :=
  key ← quoted (tol_Key t);
  value ← quoted (tol_Value t);
  effect ← quoted (tol_Effect t);
  operator ← quoted (tol_Operator t);
  Some (MkToleration key value effect operator (tol_TolerationSeconds t)).

(** [{{- if .V }} - name: NAME value: {{ .V }} {{- end }}] *)
Definition env_entry (name value : string) : option (list (string * string)) :=
  if decide (value = "") then Some []
  else v ← plain value; Some [(name, v)].

Definition env_vars (v : TemplateValues) : option (list (string * string)) :=
  if decide (tv_HTTPProxy v = "" ∧ tv_HTTPSProxy v = "") then Some []
  else
    http ← env_entry "HTTP_PROXY" (tv_HTTPProxy v);
    https ← env_entry "HTTPS_PROXY" (tv_HTTPSProxy v);
    no ← env_entry "NO_PROXY" (tv_NoProxy v);
    Some (http ++ https ++ no).

(** The scalars of [args]. *)
Definition arg_scalars (v : TemplateValues) : list string :=
  ["agent";
   "--hub-kubeconfig=/var/run/hub/kubeconfig";
   "--cluster-name=" +:+ ClusterName (tv_Config v);
   "--addon-namespace=" +:+ AddonInstallNamespace (tv_Config v)] ++ tv_PropagatedSettings v.

Definition agent_container (v : TemplateValues) : option Container :=
  image ← plain (Image (tv_Config v));
  env ← env_vars v;
  args ← mapM quoted (arg_scalars v);
  Some (MkContainer "status-agent" image "IfNotPresent" [(8080, "metrics"); (8082, "debug-pprof")]%Z env args [("hub-config", "/var/run/hub")]).

Definition agent_deployment (v : TemplateValues) : option DeploymentManifest :=
  namespace ← plain (AddonInstallNamespace (tv_Config v));
  nodeSelector ← mapM quoted_pair (range_sorted (tv_NodeSelector v));
  tolerations ← mapM toleration (tv_Tolerations v);
  secret ← plain (KubeConfigSecret (tv_Config v));
  container ← agent_container v;
  let labels := [("app", "status-agent")] in
  Some (MkDeployment "apps/v1" "Deployment" "status-agent" namespace labels 1 labels labels
    [("profiles.grafana.com/cpu.port", "8082"); ("profiles.grafana.com/cpu.scrape", "true");
     ("profiles.grafana.com/goroutine.port", "8082"); ("profiles.grafana.com/goroutine.scrape", "true");
     ("profiles.grafana.com/memory.port", "8082"); ("profiles.grafana.com/memory.scrape", "true")]
    "status-agent-sa" nodeSelector tolerations [("hub-config", secret)] [container]).

Definition agent_service_account (v : TemplateValues) : option ServiceAccountManifest :=
  namespace ← plain (AddonInstallNamespace (tv_Config v));
  Some (MkServiceAccount "status-agent-sa" namespace).

Definition agent_cluster_role_binding (v : TemplateValues) : option ClusterRoleBindingManifest :=
  namespace ← plain (AddonInstallNamespace (tv_Config v));
  Some (MkClusterRoleBinding "status-agent" "cluster-admin" "status-agent-sa" namespace).

(** ** Values that YAML reads as they are *)

Record readable (v : TemplateValues) : Prop := {
  rd_namespace : plain (AddonInstallNamespace (tv_Config v)) = Some (AddonInstallNamespace (tv_Config v));
  rd_secret : plain (KubeConfigSecret (tv_Config v)) = Some (KubeConfigSecret (tv_Config v));
  rd_image : plain (Image (tv_Config v)) = Some (Image (tv_Config v));
  rd_proxies s : s ∈ [tv_HTTPProxy v; tv_HTTPSProxy v; tv_NoProxy v] → s ≠ "" → plain s = Some s;
  rd_args s : s ∈ arg_scalars v → quoted s = Some s;
  rd_selector k x : tv_NodeSelector v !! k = Some x → quoted k = Some k ∧ quoted x = Some x;
  rd_tolerations t s : t ∈ tv_Tolerations v → s ∈ [tol_Key t; tol_Value t; tol_Effect t; tol_Operator t] →
    quoted s = Some s
}.

(** ** Lemmas *)

Lemma mapM_id {A} (f : A → option A) l : (∀ x, x ∈ l → f x = Some x) → mapM f l = Some l.
Proof.
  intros Hf. apply mapM_Some. induction l as [|x l IH]; [constructor|].
  constructor; [apply Hf; left|]. apply IH. intros y Hy. apply Hf. by right.
Qed.

Lemma range_sorted_lookup m k x : (k, x) ∈ range_sorted m → m !! k = Some x.
Proof.
  unfold range_sorted. intros (k' & _ & Hk)%list_elem_of_omap.
  destruct (m !! k') eqn:Hm; cbn in Hk; by simplify_eq.
Qed.

Lemma env_entry_ok name value : (value ≠ "" → plain value = Some value) → is_Some (env_entry name value).
Proof. unfold env_entry. case_decide; intros Hv; [eauto|]. rewrite Hv by done. cbn. eauto. Qed.

Lemma env_vars_ok v : readable v → is_Some (env_vars v).
Proof.
  intros Hv. unfold env_vars. case_decide; [eauto|].
  destruct (env_entry_ok "HTTP_PROXY" (tv_HTTPProxy v)) as [? ->]; [apply (rd_proxies v Hv); in_list|].
  destruct (env_entry_ok "HTTPS_PROXY" (tv_HTTPSProxy v)) as [? ->]; [apply (rd_proxies v Hv); in_list|].
  destruct (env_entry_ok "NO_PROXY" (tv_NoProxy v)) as [? ->]; [apply (rd_proxies v Hv); in_list|].
  cbn. eauto.
Qed.

Lemma agent_container_ok v :
  readable v → ∃ env, agent_container v =
    Some (MkContainer "status-agent" (Image (tv_Config v)) "IfNotPresent" [(8080, "metrics"); (8082, "debug-pprof")]%Z env (arg_scalars v)
      [("hub-config", "/var/run/hub")]).
Proof.
  intros Hv. destruct (env_vars_ok v Hv) as [env He]. exists env. unfold agent_container.
  rewrite (rd_image v Hv), He, (mapM_id quoted (arg_scalars v) (rd_args v Hv)). done.
Qed.

Lemma toleration_ok v t : readable v → t ∈ tv_Tolerations v → toleration t = Some t.
Proof.
  intros Hv Ht. unfold toleration.
  rewrite !(rd_tolerations v Hv t) by (try done; in_list). by destruct t.
Qed.
End templates.

(** ** The agent's command line *)

Section deployment_props.
Context {float64 : Type} (DefaultQPS : float64) (DefaultBurst : Z) {RT : GoRuntime}.
Context (VisitAll : list (FlagCall (float64 := float64)) → list Flag) (logs_names : list string).
Context (ControllerCommand : string → Action (float64 := float64) → Command (float64 := float64)).
Context (plain quoted : string → option string).
Abbreviation newCommand := (newCommand DefaultQPS DefaultBurst VisitAll ControllerCommand).

(** A flag of a command line. *)
Definition flag_arg (kv : string * string) : string := "--" +:+ kv.1 +:+ "=" +:+ kv.2.

(** The flags the template itself gives. *)
Definition own_flags (config : ManifestConfig) : list (string * string) :=
  [("hub-kubeconfig", "/var/run/hub/kubeconfig"); ("cluster-name", ClusterName config);
   ("addon-namespace", AddonInstallNamespace config)].

(** No flag that the user may set is one of those. *)
Lemma own_not_propagated c name :
  name ∈ agent_flags → name ∉ logs_names →
  c ∈ flagsOnAgent (float64 := float64) ++ flagsFromAgent DefaultQPS DefaultBurst → name ∉ flag_names logs_names c.
Proof.
  intros Hn Hlogs Hc.
  assert (Forall (λ c, c = LogsAddFlags ∨ Forall (λ n, n ∉ agent_flags) (flag_names logs_names c))
    (flagsOnAgent (float64 := float64) ++ flagsFromAgent DefaultQPS DefaultBurst)) as Hall.
  { repeat apply Forall_cons_2; try apply Forall_nil_2; try (by left);
      right; apply (bool_decide_unpack _); vm_compute; reflexivity. }
  rewrite Forall_forall in Hall. destruct (Hall c Hc) as [-> |Hf]; [done|].
  rewrite Forall_forall in Hf. intros Hin. by eapply Hf.
Qed.

(** The command line, as flags. *)
Lemma agent_command_line v seed seed' (nameToWrapped : gmap string Flag) :
  visits VisitAll logs_names → (∀ name, name ∈ agent_flags → name ∉ logs_names) →
  dom nameToWrapped = dom (newControllerCommand DefaultQPS DefaultBurst VisitAll seed).2 →
  tv_PropagatedSettings v = getPropagatedSettings seed' nameToWrapped →
  ∃ flags, arg_scalars v = "agent" :: map flag_arg flags ∧ NoDup flags.*1 ∧
    (∀ name, name ∈ flags.*1 → accepts logs_names (NewAgentCommand DefaultQPS DefaultBurst ControllerCommand "status") name) ∧
    (∀ name value, (name, value) ∈ flags ↔
       (name, value) ∈ own_flags (tv_Config v) ∨
       ∃ wrapped, nameToWrapped !! name = Some wrapped ∧ f_Changed wrapped = true ∧ value = f_Value wrapped).
Proof.
  intros Hvis Hlogs Hdom Hset.
  destruct (getPropagatedSettings_pairs seed' nameToWrapped) as (pairs & Hp & Hnd & Hin).
  assert (∀ name, name ∈ pairs.*1 → ∃ c, c ∈ flagsOnAgent (float64 := float64) ++ flagsFromAgent DefaultQPS DefaultBurst ∧
    name ∈ flag_names logs_names c) as Hdef.
  { intros name ([name' w] & -> & [Hw _]%Hin)%list_elem_of_fmap.
    eapply wrapped_defined; [done..|by apply elem_of_dom_2 in Hw]. }
  set (settings := map (λ kv : string * Flag, (kv.1, f_Value kv.2)) pairs).
  assert (settings.*1 = pairs.*1) as Hs by (unfold settings; by rewrite <- list_fmap_compose).
  exists (own_flags (tv_Config v) ++ settings).
  split; [unfold arg_scalars, settings; by rewrite Hset, Hp, map_app, map_map|].
  rewrite fmap_app, Hs. change (own_flags (tv_Config v)).*1 with agent_flags. split_and!.
  - apply NoDup_app. split; [apply (bool_decide_unpack _); reflexivity|]. split; [|done].
    intros name Hn (c & Hc & Hc')%Hdef. by apply (own_not_propagated c name Hn (Hlogs name Hn) Hc).
  - intros name [Hn|Hn]%elem_of_app; [by apply agent_flags_accepted|].
    destruct (Hdef name Hn) as (c & Hc & Hc'). by eapply agent_defines.
  - intros name value. rewrite elem_of_app. apply or_iff_compat_l. unfold settings. rewrite list_elem_of_fmap. split.
    + intros ([n w] & [= -> ->] & [Hw Hch]%Hin). by exists w.
    + intros (w & Hw & Hch & ->). exists (name, w). split; [done|]. by apply Hin.
Qed.

(** C26: the agent runs as the controller means it to.  When YAML reads the values
    of the templates as they are, the deployment can be read, and its one container
    runs the tree's one command named "agent" with flags of that command, none of
    them given twice: the kubeconfig of the hub, which lies in the mounted secret of
    the addon, the name of the cluster, the namespace the deployment is in, and
    exactly the flags that were set on the controller, with their values, whatever
    the order of the loops over maps.  Its pod runs as the service account that the
    other templates create in that namespace and bind to the cluster's
    administrators, and its ports are those the agent serves by default. *)
Theorem deployment_runs_agent getenv cluster addon v version seed seed' (nameToWrapped : gmap string Flag) :
  visits VisitAll logs_names → (∀ name, name ∈ agent_flags → name ∉ logs_names) →
  dom nameToWrapped = dom (newControllerCommand DefaultQPS DefaultBurst VisitAll seed).2 →
  GetDefaultValues getenv cluster addon = GOk (tv_Config v) →
  tv_PropagatedSettings v = getPropagatedSettings seed' nameToWrapped →
  readable plain quoted v →
  ∃ d c agent flags,
    agent_deployment plain quoted v = Some d ∧ dp_Containers d = [c] ∧
    filter (λ c, Use c = "agent") (newCommand version seed).2 = [agent] ∧
    ct_Args c = Use agent :: map flag_arg flags ∧ NoDup flags.*1 ∧
    (∀ name, name ∈ flags.*1 → accepts logs_names agent name) ∧
    (∀ name value, (name, value) ∈ flags ↔
       (name, value) ∈ own_flags (tv_Config v) ∨
       ∃ wrapped, nameToWrapped !! name = Some wrapped ∧ f_Changed wrapped = true ∧ value = f_Value wrapped) ∧
    ClusterName (tv_Config v) = mc_Name cluster ∧
    ct_VolumeMounts c = [("hub-config", "/var/run/hub")] ∧ dp_Volumes d = [("hub-config", ao_Name addon +:+ "-hub-kubeconfig")] ∧
    dp_Namespace d = AddonInstallNamespace (tv_Config v) ∧
    agent_service_account plain v = Some (MkServiceAccount (dp_ServiceAccountName d) (dp_Namespace d)) ∧
    agent_cluster_role_binding plain v =
      Some (MkClusterRoleBinding "status-agent" "cluster-admin" (dp_ServiceAccountName d) (dp_Namespace d)) ∧
    (λ p, ":" +:+ pretty p.1) <$> ct_Ports c = [MetricsBindAddr NewObservabilityOptions; PprofBindAddr NewObservabilityOptions].
Proof.
  intros Hvis Hlogs Hdom Hval Hset Hv.
  destruct (agent_container_ok plain quoted v Hv) as [env Hc].
  destruct (agent_command_line v seed seed' nameToWrapped) as (flags & Hargs & Hnd & Hacc & Hflags); [done..|].
  unfold GetDefaultValues in Hval. injection Hval as Hcfg.
  eexists _, _, (NewAgentCommand DefaultQPS DefaultBurst ControllerCommand "status"), flags.
  unfold agent_deployment, agent_service_account, agent_cluster_role_binding.
  rewrite (rd_namespace _ _ v Hv), (rd_secret _ _ v Hv), Hc, (mapM_id (quoted_pair quoted)), (mapM_id (toleration quoted)).
  2: { intros t. by apply (toleration_ok plain quoted v t). }
  2: { intros [k x] [Hk Hx]%range_sorted_lookup%(rd_selector _ _ v Hv). unfold quoted_pair. cbn. by rewrite Hk, Hx. }
  split; [reflexivity|]. split; [reflexivity|]. split; [apply one_agent_command|].
  split; [exact Hargs|]. split_and!; try done; cbn; by rewrite <- Hcfg.
Qed.

(** The template puts settings between quotes as they are: one that YAML cannot
    read there is the end of the whole deployment. *)
Lemma unreadable_setting v setting :
  setting ∈ tv_PropagatedSettings v → quoted setting = None → agent_deployment plain quoted v = None.
Proof.
  intros Hs Hq.
  assert (mapM quoted (arg_scalars v) = None) as Hnone.
  { destruct (mapM quoted (arg_scalars v)) as [l|] eqn:Hm; [|done].
    apply mapM_Some in Hm. apply (Forall2_Forall_l _ (λ x, is_Some (quoted x))) in Hm.
    - rewrite Forall_forall in Hm. destruct (Hm setting) as [? Hx]; [|congruence].
      unfold arg_scalars. apply elem_of_app. by right.
    - apply Forall_forall. intros y _ x Hx. eauto. }
  unfold agent_deployment, agent_container. destruct (plain _), (mapM _ (range_sorted _)), (mapM _ (tv_Tolerations v)), (plain _), (plain _),
    (env_vars plain v); cbn [mbind option_bind]; try done; by rewrite Hnone.
Qed.

(** The health prober looks for the deployment of the template by its name and
    group, and finds it where the addon asks for no namespace of its own. *)
Lemma probed_deployment_rendered getenv cluster addon v d :
  GetDefaultValues getenv cluster addon = GOk (tv_Config v) → readable plain quoted v →
  agent_deployment plain quoted v = Some d →
  dp_APIVersion d = ri_Group probed_deployment +:+ "/v1" ∧ dp_Name d = ri_Name probed_deployment ∧
  (dp_Namespace d = ri_Namespace probed_deployment ↔
     ao_InstallNamespace addon = "" ∨ ao_InstallNamespace addon = InstallationNamespace).
Proof.
  intros Hval Hv Hd. rewrite <- (probed_where_installed getenv cluster addon _ Hval).
  unfold agent_deployment in Hd. rewrite (rd_namespace _ _ v Hv) in Hd. cbn in Hd.
  repeat (apply bind_Some in Hd as (? & _ & Hd)). injection Hd as <-. split_and!; [done..|]. cbn. split; congruence.
Qed.
End deployment_props.

(** ** A closed instance *)

#[local] Existing Instance ex_runtime.

(** A reader that knows the characters it takes for themselves. *)
Definition ex_text (safe : Ascii.ascii → bool) (s : string) : option string :=
  if forallb safe (String.list_ascii_of_string s) then Some s else None.
Definition ex_quoted : string → option string :=
  ex_text (λ c, negb (Ascii.eqb c (Ascii.ascii_of_N 34) || Ascii.eqb c (Ascii.ascii_of_N 92))).
Definition ex_plain (s : string) : option string :=
  match s with
  | EmptyString => None
  | String c _ => if (97 <=? Ascii.N_of_ascii c)%N then ex_quoted s else None
  end.

(** The addon of [Controller.v], on the controller of [CommandTree.v]; its nodes
    are chosen by a label. *)
Definition ex_values : TemplateValues :=
  MkTemplateValues (MkManifestConfig "addon-status-hub-kubeconfig" "cluster1" "status-system" DefaultStatusAddOnImage)
    ["--hub-qps=7"] {["node" := "edge"]} [MkToleration "edge" "" "NoSchedule" "Exists" None] "" "http://proxy:3128" "".

Lemma deployment_runs_agent_witness :
  ∃ d c, agent_deployment ex_plain ex_quoted ex_values = Some d ∧ dp_Containers d = [c] ∧ dp_Namespace d = "status-system" ∧
    ct_Env c = [("HTTPS_PROXY", "http://proxy:3128")] ∧
    ct_Args c = ["agent"; "--hub-kubeconfig=/var/run/hub/kubeconfig"; "--cluster-name=cluster1";
                 "--addon-namespace=status-system"; "--hub-qps=7"].
Proof.
  destruct (deployment_runs_agent 5%Z 10 ex_VisitAll ["v"] ex_factory ex_plain ex_quoted (λ _, "") ex_cluster ex_addon
    ex_values "v1" 0 3 ex_settings) as (d & c & agent & flags & Hd & Hc & _ & _ & _ & _ & _ & _ & _ & _ & Hns & _).
  - exact ex_visits.
  - intros name Hn Hv. apply list_elem_of_singleton in Hv as ->. revert Hn. apply (bool_decide_unpack _). vm_compute. reflexivity.
  - apply dom_alter_L.
  - reflexivity.
  - vm_compute. reflexivity.
  - split; try reflexivity.
    + intros s Hs He. cbn in Hs. repeat (apply elem_of_cons in Hs as [-> | Hs]); [done|reflexivity|done|by apply elem_of_nil in Hs].
    + intros s Hs. cbn in Hs. repeat (apply elem_of_cons in Hs as [-> | Hs]); [reflexivity..|by apply elem_of_nil in Hs].
    + cbn. intros k x [<- <-]%lookup_singleton_Some. split; reflexivity.
    + cbn. intros t s ->%list_elem_of_singleton Hs. cbn in Hs.
      repeat (apply elem_of_cons in Hs as [-> | Hs]); [reflexivity..|by apply elem_of_nil in Hs].
  - exists d, c. split; [exact Hd|]. split; [exact Hc|]. split; [exact Hns|].
    assert (agent_deployment ex_plain ex_quoted ex_values = Some d) as Hd' by exact Hd.
    vm_compute in Hd'. injection Hd' as <-. cbn in Hc. injection Hc as <-. split; reflexivity.
Defined.
