(* ===== verification/LoadDriver.v ===== *)
(** * The load driver of the end-to-end tests: test/e2e/load-driver.go

    It creates a number of ManifestWorks on the hub, deletes them and creates them
    again.  A deletion takes its time, and a name is taken until it is over: so the
    driver polls.  It is a program over the calls it makes, and runs against a hub
    on which deletions end at any moment and which may refuse any call. *)

From S2P Require Export Startup HubTraces.

(** ** The driver *)

(** The pod with the fields that are set; a container by name, image and command. *)
Record Pod : Type := MkPod {
  pod_APIVersion : string; pod_Kind : string; pod_Name : string; pod_Namespace : string;
  pod_Containers : list (string * string * list string);
  pod_NodeSelector : gomap string
}.

(** [workv1.ManifestWork] with the fields that are set; a manifest by its raw bytes. *)
Record LoadWork : Type := MkLoadWork {
  lw_Name : string; lw_Namespace : string; lw_Labels : gomap string; lw_Manifests : list string
}.

(** What the command line says. *)
Record DriverFlags : Type := MkDriverFlags {
  df_kubeconfig : string; df_namespace : string; df_numObjects : Z; df_deleteOnly : bool
}.

(** Calls of the client of the hub: [ManifestWorks(namespace)]. *)
Inductive HubCall : Type → Type :=
| WorkCreate (namespace : string) (w : LoadWork) : HubCall (option error)
| WorkDelete (namespace name : string) : HubCall (option error).

(** Library calls.  The poll is made with a context that is never done; its
    condition never returns an error. *)
Inductive DriverCall : Type → Type :=
| UserHomeDir : DriverCall (result string)
| FlagParse (flags : list (FlagCall (float64 := Empty_set))) : DriverCall DriverFlags
| BuildConfig (kubeconfig : string) : DriverCall (option error)
| NewWorkClient : DriverCall (option error)
| OnHub {R} (c : HubCall R) : DriverCall R
| PollImmediateUntil (condition : prog HubCall bool) : DriverCall unit
| Println (line : string) : DriverCall unit.

Section driver.
(** [json.Marshal], [apierrors.IsAlreadyExists] and [filepath.Join]. *)
Context (Marshal : Pod → result string) (IsAlreadyExists : error → bool) (Join : list string → string).
Abbreviation D := (prog DriverCall).

Definition generatePodManifest (name namespace manifestNamespace : string) : outcome LoadWork :=
  let pod := MkPod "v1" "Pod" name namespace [("busyb", "busybox:latest", ["sleep"; "inf"])] (Some {["node" := "none"]}) in
  match Marshal pod with
  | GErr _ => Panic PanicExplicit
  | GOk podBytes =>
      Done (MkLoadWork name manifestNamespace
        (Some (<["managed-by.kubestellar.io/something" := "true"]> {["transport.kubestellar.io" := "true"]})) [podBytes])
  end.

Definition generateNameFromIndex (index : Z) : string := "pod-" +:+ pretty index.

(** [for i := 0; i < numObjects; i++ { body }] *)
Fixpoint for_each (indices : list Z) (body : Z → D unit) : D unit :=
  match indices with
  | [] => mret tt
  | i :: indices => _ ← body i; for_each indices body
  end.

Definition deleteOne (namespace : string) (i : Z) : D unit :=
  let mName := generateNameFromIndex i in
  err ← act (OnHub (WorkDelete namespace mName));
  match err with
  | Some err => if IsNotFound err then mret tt else Crash PanicExplicit
  | None => mret tt
  end.

Definition deleteAll (namespace : string) (numObjects : Z) : D unit :=
  for_each (seqZ 0 numObjects) (deleteOne namespace).

(** The condition of the poll. *)
Definition tryCreate (namespace : string) (manifest : LoadWork) : prog HubCall bool :=
  err ← act (WorkCreate namespace manifest);
  match err with None => mret true | Some _ => mret false end.

Definition createOne (namespace : string) (i : Z) : D unit :=
  let mName := generateNameFromIndex i in
  manifest ← lift (generatePodManifest mName "default" namespace);
  err ← act (OnHub (WorkCreate namespace manifest));
  match err with
  | Some err =>
      if IsAlreadyExists err then act (PollImmediateUntil (tryCreate namespace manifest)) else mret tt
  | None => mret tt
  end.

Definition createAll (namespace : string) (numObjects : Z) : D unit :=
  for_each (seqZ 0 numObjects) (createOne namespace).

Definition driver_flags (homeDir : string) : list (FlagCall (float64 := Empty_set)) := [
  StringVar "kubeconfig" (Join [homeDir; ".kube"; "config"]) "(optional) absolute path to the kubeconfig file";
  StringVar "namespace" "cluster1" "(optional) namespace to use to generate the load";
  IntVar "num-objects" 10 "(optional) number of objects to create and delete";
  BoolVar "delete-only" false "delete only and do not create any objects"
].

Definition driver_main : D ending :=
  r ← act UserHomeDir;
  match r with
  | GErr _ => Crash PanicExplicit
  | GOk homeDir =>
      flags ← act (FlagParse (driver_flags homeDir));
      err ← act (BuildConfig (df_kubeconfig flags));
      match err with
      | Some _ => Crash PanicExplicit
      | None =>
          err ← act NewWorkClient;
          match err with
          | Some _ => Crash PanicExplicit
          | None =>
              if df_deleteOnly flags then
                _ ← deleteAll (df_namespace flags) (df_numObjects flags);
                _ ← act (Println "All deleted, program exits");
                mret (OsExit 0)
              else
                _ ← createAll (df_namespace flags) (df_numObjects flags);
                _ ← deleteAll (df_namespace flags) (df_numObjects flags);
                _ ← createAll (df_namespace flags) (df_numObjects flags);
                mret (Return None)
          end
      end
  end.

(** ** The hub *)

(** A ManifestWork is there, or there until its deletion is over; the hub records
    the calls it has refused: answered with an error that does not say that the
    name is taken or unknown.  Such a call has been carried out all the same, or
    not. *)
Inductive Phase : Type := Live (w : LoadWork) | Deleting (w : LoadWork).
Inductive Refusal : Type := CreateRefused (k : string * string) | DeleteRefused (k : string * string).
Abbreviation Works := (@gmap (string * string) _ prod_countable Phase).
Record Hub : Type := MkHub { works : Works; refusals : list Refusal }.

(** What a call makes of the works when it is carried out. *)
Definition created k (w : LoadWork) (h : Works) : Works :=
  match h !! k with None => <[k := Live w]> h | Some _ => h end.
Definition deleted k (h : Works) : Works :=
  match h !! k with Some (Live w) => <[k := Deleting w]> h | _ => h end.

(** The answers to a call, and what it leaves. *)
Definition answers {R} (c : HubCall R) : Hub → R → Hub → Prop :=
  match c in HubCall R return Hub → R → Hub → Prop with
  | WorkCreate ns w => λ h r h',
      let k := (ns, lw_Name w) in
      match r with
      | None => works h !! k = None ∧ h' = MkHub (created k w (works h)) (refusals h)
      | Some err =>
          if IsAlreadyExists err then (∃ ph, works h !! k = Some ph) ∧ h' = h
          else h' = MkHub (works h) (CreateRefused k :: refusals h) ∨
               h' = MkHub (created k w (works h)) (CreateRefused k :: refusals h)
      end
  | WorkDelete ns name => λ h r h',
      let k := (ns, name) in
      match r with
      | None => (∃ ph, works h !! k = Some ph) ∧ h' = MkHub (deleted k (works h)) (refusals h)
      | Some err =>
          if IsNotFound err then works h !! k = None ∧ h' = h
          else h' = MkHub (works h) (DeleteRefused k :: refusals h) ∨
               h' = MkHub (deleted k (works h)) (DeleteRefused k :: refusals h)
      end
  end.

(** A deletion is over. *)
Inductive settles : Hub → Hub → Prop :=
| Settle h k w : works h !! k = Some (Deleting w) → settles h (MkHub (delete k (works h)) (refusals h)).

(** The other libraries do what they are asked for: the driver panics on their
    errors. *)
Definition lib_answer (flags : DriverFlags) {R} (c : DriverCall R) : option (R → Prop) :=
  match c in DriverCall R return option (R → Prop) with
  | UserHomeDir => Some (λ r, ∃ dir, r = GOk dir)
  | FlagParse _ => Some (λ r, r = flags)
  | BuildConfig _ | NewWorkClient => Some (λ r, r = None)
  | Println _ => Some (λ _, True)
  | OnHub _ | PollImmediateUntil _ => None
  end.

(** The calls of a condition are calls of the driver. *)
Fixpoint on_hub {A} (p : prog HubCall A) : D A :=
  match p with
  | Ret a => Ret a
  | Crash q => Crash q
  | Act c k => Act (OnHub c) (λ r, on_hub (k r))
  end.

(** The driver and the hub: the hub answers a call, a library answers, a poll
    tries its condition and goes on or tries again, or a deletion is over. *)
Inductive drive (flags : DriverFlags) {A} : D A * Hub → D A * Hub → Prop :=
| DriveHub R (c : HubCall R) k h r h' : answers c h r h' → drive flags (Act (OnHub c) k, h) (k r, h')
| DriveLib R (c : DriverCall R) P k h r : lib_answer flags c = Some P → P r → drive flags (Act c k, h) (k r, h)
| DrivePoll cond k h :
    drive flags (Act (PollImmediateUntil cond) k, h)
      (on_hub cond ≫= (λ b : bool, if b then k tt else Act (PollImmediateUntil cond) k), h)
| DriveSettle p h h' : settles h h' → drive flags (p, h) (p, h').

(** ** A program logic

    [lwp Q p h]: from the hub [h], however it settles and answers, [p] panics on a
    hub in [fails] only and is in [Q] if it ends; and, when [total] holds and the
    hub refuses nothing, it can always be made to end.  A poll needs an invariant
    of its condition, from which the condition can hold. *)
Context (total : Prop) (fails : Hub → Prop).
Abbreviation settled := (rtc settles).

Fixpoint hwp {A} (Q : A → Hub → Prop) (p : prog HubCall A) (h : Hub) : Prop :=
  match p with
  | Ret a => Q a h
  | Crash _ => ∀ h1, settled h h1 → fails h1
  | Act c k => ∀ h1 r h2, settled h h1 → answers c h1 r h2 → hwp Q (k r) h2
  end.

Fixpoint can {A} (p : prog HubCall A) (h : Hub) (a : A) (h' : Hub) : Prop :=
  match p with
  | Ret b => b = a ∧ h = h'
  | Crash _ => False
  | Act c k => ∃ r h1, answers c h r h1 ∧ can (k r) h1 a h'
  end.

Context (flags : DriverFlags).

Definition call_ok {R} (c : DriverCall R) : (R → Hub → Prop) → Hub → Prop :=
  match c in DriverCall R return (R → Hub → Prop) → Hub → Prop with
  | OnHub c => λ Post h, ∀ r h', answers c h r h' → Post r h'
  | PollImmediateUntil cond => λ Post h, ∃ I : Hub → Prop,
      I h ∧ (∀ h h', I h → settles h h' → I h') ∧
      (∀ h, I h → hwp (λ b : bool, if b then Post tt else I) cond h) ∧
      (total → ∀ h, I h → refusals h = [] → ∃ h1 h2, settled h h1 ∧ can cond h1 true h2 ∧ refusals h2 = [])
  | UserHomeDir => λ Post h, ∀ dir, Post (GOk dir) h
  | FlagParse _ => λ Post h, Post flags h
  | BuildConfig _ | NewWorkClient => λ Post h, Post None h
  | Println _ => λ Post h, Post tt h
  end.

Fixpoint lwp {A} (Q : A → Hub → Prop) (p : D A) (h : Hub) : Prop :=
  match p with
  | Ret a => ∀ h1, settled h h1 → Q a h1
  | Crash _ => ∀ h1, settled h h1 → fails h1
  | Act c k => ∀ h1, settled h h1 → call_ok c (λ r, lwp Q (k r)) h1
  end.

Lemma lwp_settled {A} (Q : A → Hub → Prop) p h h1 : lwp Q p h → settled h h1 → lwp Q p h1.
Proof.
  destruct p as [a|q|R c k]; cbn; intros Hp Hs h2 Hs2; apply Hp; by etrans.
Qed.

Lemma lwp_on_hub {A B : Type} (Post : A → Hub → Prop) (Q : B → Hub → Prop) (cond : prog HubCall A) (f : A → D B) h :
  hwp Post cond h → (∀ h h', settles h h' → ∀ a, Post a h → Post a h') →
  (∀ a h, Post a h → lwp Q (f a) h) → lwp Q (on_hub cond ≫= f) h.
Proof.
  intros Hc Hst Hf. revert h Hc. induction cond as [a|q|R c k IH]; intros h; cbn; [auto..|].
  intros Hc h1 Hs r h2 Ha. apply IH. by eapply Hc.
Qed.

Lemma stable_rtc (I : Hub → Prop) h h' : (∀ h h', I h → settles h h' → I h') → I h → settled h h' → I h'.
Proof. intros Hst HI Hs. induction Hs; eauto. Qed.

(** The logic is sound: a step of the driver or of the hub keeps [lwp]. *)
Lemma lwp_drive {A} (Q : A → Hub → Prop) c c' : drive flags c c' → lwp Q c.1 c.2 → lwp Q c'.1 c'.2.
Proof.
  intros Hd. destruct Hd as [R c k h r h' Ha|R c P k h r Hc Hr|cond k h|p h h' Hs]; cbn.
  - intros Hp. by apply (Hp h); [done|].
  - intros Hp. specialize (Hp h ltac:(done)). destruct c; cbn in *; simplify_eq/=; try done; [destruct Hr as [dir ->]|destruct r]; apply Hp.
  - intros Hp. destruct (Hp h ltac:(done)) as (I & HI & Hst & Hhwp & Hcan).
    eapply (lwp_on_hub (λ b : bool, if b then lwp Q (k tt) else I)); [by apply Hhwp| |].
    + intros h1 h2 Hs [] Hb; [|by eapply Hst]. by eapply lwp_settled, rtc_once.
    + intros [] h1 Hb; [done|]. cbn. intros h2 Hs. exists I. split; [by eapply stable_rtc|done].
  - intros Hp. by eapply lwp_settled, rtc_once.
Qed.

Lemma lwp_drives {A} (Q : A → Hub → Prop) c c' : rtc (drive flags) c c' → lwp Q c.1 c.2 → lwp Q c'.1 c'.2.
Proof. induction 1; [done|]. intros Hp. by eapply IHrtc, lwp_drive. Qed.

Lemma drive_settled {A} (p : D A) h h' : settled h h' → rtc (drive flags) (p, h) (p, h').
Proof. induction 1; [done|]. eapply rtc_l; [by apply DriveSettle|done]. Qed.

(** A condition runs to the answer it can have. *)
Lemma can_drives {A B : Type} (cond : prog HubCall A) (f : A → D B) h a h' :
  can cond h a h' → rtc (drive flags) (on_hub cond ≫= f, h) (f a, h').
Proof.
  revert h. induction cond as [b|q|R c k IH]; intros h; cbn; [by intros [-> ->]|done|].
  intros (r & h1 & Ha & Hc). eapply rtc_l; [by apply DriveHub|]. by apply IH.
Qed.

Lemma hwp_mono {A} (Post Post' : A → Hub → Prop) cond h :
  (∀ a h, Post a h → Post' a h) → hwp Post cond h → hwp Post' cond h.
Proof.
  intros Hm. revert h. induction cond as [b|q|R c k IH]; intros h; cbn; [apply Hm|done|].
  intros Hp h1 r h2 Hs Ha. by eapply IH, Hp.
Qed.

Lemma hwp_can {A} (Post : A → Hub → Prop) cond h a h' : hwp Post cond h → can cond h a h' → Post a h'.
Proof.
  revert h. induction cond as [b|q|R c k IH]; intros h; cbn; [by intros ? [-> ->]|done|].
  intros Hp (r & h1 & Ha & Hc). by eapply IH; [eapply Hp|].
Qed.

Lemma settled_refusals h h' : settled h h' → refusals h' = refusals h.
Proof. induction 1 as [|? ? ? Hs _ IH]; [done|]. rewrite IH. by destruct Hs. Qed.

(** The hub can answer every call without refusing it. *)
Context (taken : error) (Htaken : IsAlreadyExists taken = true).

Lemma hub_answers {R} (c : HubCall R) h : ∃ r h', answers c h r h' ∧ refusals h' = refusals h.
Proof.
  destruct c as [ns w|ns name]; cbn.
  - destruct (works h !! (ns, lw_Name w)) eqn:Hk.
    + exists (Some taken), h. rewrite Htaken. eauto.
    + exists None. eexists. done.
  - destruct (works h !! (ns, name)) eqn:Hk.
    + exists None. eexists. eauto.
    + exists (Some (ErrLib true "")), h. done.
Qed.

(** It can always be made to end, by a hub that has refused nothing. *)
Lemma lwp_ends {A} (Q : A → Hub → Prop) (p : D A) h :
  total → (∀ h, fails h → refusals h ≠ []) → refusals h = [] → lwp Q p h →
  ∃ a h', rtc (drive flags) (p, h) (Ret a, h') ∧ refusals h' = [] ∧ Q a h'.
Proof.
  intros Ht Hfails. revert h. induction p as [a|q|R c k IH]; intros h Hno; cbn.
  { intros Hp. exists a, h. split; [done|]. split; [done|by apply Hp]. }
  { intros Hp. by destruct (Hfails h (Hp h ltac:(done))). }
  intros Hp. specialize (Hp h ltac:(done)).
  assert (∀ r, lwp Q (k r) h → (∃ P, lib_answer flags c = Some P ∧ P r) →
    ∃ a h', rtc (drive flags) (Act c k, h) (Ret a, h') ∧ refusals h' = [] ∧ Q a h') as Hlib.
  { intros r (a & h' & Hr & Hq)%IH (P & Hc & HP); [|done]. exists a, h'. split; [|done]. eapply rtc_l; [by eapply DriveLib|done]. }
  destruct c; cbn in Hp.
  - apply (Hlib (GOk "") (Hp "")). cbn. eexists. split; [reflexivity|cbn; first [done|by eexists]].
  - apply (Hlib flags Hp). cbn. eexists. split; [reflexivity|cbn; first [done|by eexists]].
  - apply (Hlib None Hp). cbn. eexists. split; [reflexivity|cbn; first [done|by eexists]].
  - apply (Hlib None Hp). cbn. eexists. split; [reflexivity|cbn; first [done|by eexists]].
  - destruct (hub_answers c h) as (r & h1 & Ha & Hno1). rewrite Hno in Hno1.
    destruct (IH r h1 Hno1 (Hp r h1 Ha)) as (a & h' & Hr & Hq).
    exists a, h'. split; [|done]. eapply rtc_l; [by apply DriveHub|done].
  - destruct Hp as (I & HI & Hst & Hhwp & Hcan). destruct (Hcan Ht h HI Hno) as (h1 & h2 & Hs & Hc & Hno2).
    assert (I h1) as HI1 by (by eapply stable_rtc).
    pose proof (hwp_can _ _ _ _ _ (Hhwp h1 HI1) Hc) as (a & h' & Hr & Hq)%IH; [|done]. exists a, h'. split; [|done].
    etrans; [by apply drive_settled|]. eapply rtc_l; [apply DrivePoll|]. etrans; [by apply can_drives|done].
  - apply (Hlib tt Hp). cbn. eexists. split; [reflexivity|cbn; first [done|by eexists]].
Qed.

Lemma lwp_bind {A B : Type} (Q : A → Hub → Prop) (Q' : B → Hub → Prop) p (f : A → D B) h :
  lwp Q p h → (∀ a h, Q a h → lwp Q' (f a) h) → lwp Q' (p ≫= f) h.
Proof.
  intros Hp Hf. revert h Hp. induction p as [a|q|R c k IH]; intros h; cbn; [intros Hp; by apply Hf, Hp|auto|].
  intros Hp h1 Hs. specialize (Hp h1 Hs). destruct c; cbn in *; auto.
  destruct Hp as (I & HI & Hst & Hhwp & Hcan). exists I. split_and!; try done. intros h2 HI2.
  specialize (Hhwp h2 HI2). revert Hhwp. clear HI2 Hcan. revert h2.
  induction condition as [b|q|R c k' IH']; intros h2; cbn; [destruct b; auto|done|].
  intros Hc h3 r h4 Hs3 Ha. apply IH'. by eapply Hc.
Qed.

(** ** The three phases of the driver *)

Context (Hmarshal : ∀ pod, ∃ raw, Marshal pod = GOk raw) (h0 : Works).
Abbreviation ns := (df_namespace flags).
Abbreviation indices := (seqZ 0 (df_numObjects flags)).

Definition work_key (i : Z) : string * string := (ns, generateNameFromIndex i).

(** The [i]-th work is on the hub, as the driver makes it; it is not, or about not
    to be; its creation, or its deletion, has been refused. *)
Definition is_live (h : Hub) (i : Z) : Prop :=
  ∃ w, generatePodManifest (generateNameFromIndex i) "default" ns = Done w ∧ works h !! work_key i = Some (Live w).
Definition is_gone (h : Works) (i : Z) : Prop := ∀ w, h !! work_key i ≠ Some (Live w).
Definition create_refused (h : Hub) (i : Z) : Prop := CreateRefused (work_key i) ∈ refusals h.
Definition delete_refused (h : Hub) : Prop := ∃ i, i ∈ indices ∧ DeleteRefused (work_key i) ∈ refusals h.

Context (Hfails : ∀ h, delete_refused h → fails h).

Lemma delete_refused_refusals h : delete_refused h → refusals h ≠ [].
Proof. intros (i & _ & Hi) Hno. rewrite Hno in Hi. by apply elem_of_nil in Hi. Qed.

(** The other works are as they were, but that deletions end. *)
Definition others_kept (h : Works) : Prop :=
  ∀ k, (∀ i, i ∈ indices → k ≠ work_key i) → h !! k = h0 !! k ∨ (∃ w, h0 !! k = Some (Deleting w)) ∧ h !! k = None.

Record stage (live gone : list Z) (h : Hub) : Prop := {
  stage_live i : i ∈ live → is_live h i ∨ create_refused h i;
  stage_gone i : i ∈ gone → is_gone (works h) i;
  stage_others : others_kept (works h)
}.

#[export] Instance generateNameFromIndex_inj : Inj (=) (=) generateNameFromIndex.
Proof. intros i j Hij. apply (inj pretty). injection Hij as Hij. exact Hij. Qed.

Lemma generate_ok i :
  ∃ w, generatePodManifest (generateNameFromIndex i) "default" ns = Done w ∧
    lw_Name w = generateNameFromIndex i ∧ lw_Namespace w = ns ∧ KS_managed (lw_Labels w).
Proof.
  unfold generatePodManifest. destruct (Hmarshal (MkPod "v1" "Pod" (generateNameFromIndex i) "default"
    [("busyb", "busybox:latest", ["sleep"; "inf"])] (Some {["node" := "none"]}))) as [raw ->].
  eexists. split; [done|]. split_and!; [done|done|].
  exists "transport.kubestellar.io", "true". split; [|right; reflexivity].
  cbn. rewrite lookup_insert_ne by done. apply lookup_singleton_eq.
Qed.

Lemma work_key_ne i j : i ≠ j → work_key i ≠ work_key j.
Proof. intros Hij [=Hn]. apply Hij. by apply (inj pretty). Qed.

Lemma stage_settles live gone h h' : stage live gone h → settles h h' → stage live gone h'.
Proof.
  intros Hs Hst. destruct Hst as [h k w Hk]. destruct Hs as [Hl Hg Ho]. split; cbn.
  - intros i Hi. destruct (Hl i Hi) as [(w' & Hw & Hi')|?]; [left|by right]. exists w'. split; [done|]. cbn.
    rewrite lookup_delete_ne; [done|congruence].
  - intros i Hi w' [_ Hi']%lookup_delete_Some. by eapply Hg.
  - intros k' Hk'. destruct (decide (k' = k)) as [-> |Hne]; [|rewrite lookup_delete_ne by done; by apply Ho].
    rewrite lookup_delete_eq. destruct (Ho k Hk') as [He|[? ?]]; right; [|congruence]. split; [|done]. exists w. congruence.
Qed.

Lemma stage_settled live gone h h' : stage live gone h → settled h h' → stage live gone h'.
Proof. apply (stable_rtc (stage live gone)). apply stage_settles. Qed.

(** A change of one of the driver's works, and a refusal. *)
Lemma stage_insert live gone h i ph :
  i ∈ indices → i ∉ live → i ∉ gone → stage live gone h →
  stage live gone (MkHub (<[work_key i := ph]> (works h)) (refusals h)).
Proof.
  intros Hi Hnl Hng [Hl Hg Ho]. split; cbn.
  - intros j Hj. destruct (Hl j Hj) as [(w' & Hw & Hj')|?]; [left|by right]. exists w'. split; [done|]. cbn.
    rewrite lookup_insert_ne; [done|]. apply work_key_ne. by intros ->.
  - intros j Hj w'. rewrite lookup_insert_ne; [by apply Hg|]. apply work_key_ne. by intros ->.
  - intros k Hk. rewrite lookup_insert_ne; [by apply Ho|]. intros <-. by apply (Hk i).
Qed.

Lemma stage_refuse live gone h l :
  stage live gone h → stage live gone (MkHub (works h) (l :: refusals h)).
Proof.
  intros [Hl Hg Ho]. split; [|done|done]. intros i Hi. destruct (Hl i Hi) as [?|Hr]; [by left|right].
  apply elem_of_cons. by right.
Qed.

Lemma stage_more live gone h i : stage live gone h → is_live h i ∨ create_refused h i → stage (i :: live) gone h.
Proof. intros [Hl Hg Ho] Hi. split; [|done|done]. by intros j [-> |Hj]%elem_of_cons; [|by apply Hl]. Qed.

(** Putting the [i]-th work on the hub, and taking it off. *)
Lemma stage_create live gone h i w :
  i ∈ indices → i ∉ live → i ∉ gone → stage live gone h →
  stage live gone (MkHub (created (work_key i) w (works h)) (refusals h)).
Proof.
  intros Hi Hnl Hng Hs. unfold created. destruct (works h !! work_key i); [by destruct h|]. by apply stage_insert.
Qed.

Lemma stage_delete gone h i :
  i ∈ indices → stage [] gone h → stage [] (i :: gone) (MkHub (deleted (work_key i) (works h)) (refusals h)).
Proof.
  intros Hi [Hl Hg Ho]. unfold deleted.
  assert (is_gone (works h) i → stage [] (i :: gone) (MkHub (works h) (refusals h))) as Hsame.
  { intros Hgi. split; [by intros j ?%elem_of_nil| |done]. by intros j [-> |Hj]%elem_of_cons; [|by apply Hg]. }
  destruct (works h !! work_key i) as [[w|w]|] eqn:Hk; [|apply Hsame; intros w'; congruence..].
  split; cbn; [by intros j ?%elem_of_nil| |].
  - intros j Hj w'. destruct (decide (j = i)) as [-> |Hne]; [by rewrite lookup_insert_eq|].
    rewrite lookup_insert_ne by (by apply work_key_ne). apply Hg. apply elem_of_cons in Hj as [? | ?]; congruence.
  - intros k Hk'. rewrite lookup_insert_ne; [by apply Ho|]. intros <-. by apply (Hk' i).
Qed.

(** What a creation leaves: the work, or a refusal, when the name is free; the hub as
    it was when the name is taken. *)
Lemma stage_answered live gone h i w r h' :
  i ∈ indices → i ∉ live → i ∉ gone → generatePodManifest (generateNameFromIndex i) "default" ns = Done w →
  lw_Name w = generateNameFromIndex i → stage live gone h → answers (WorkCreate ns w) h r h' →
  match r with
  | None => stage (i :: live) gone h'
  | Some err => if IsAlreadyExists err then h' = h else stage live gone h' ∧ create_refused h' i
  end.
Proof.
  intros Hi Hnl Hng Hw Hn Hs. cbn. rewrite Hn. change (ns, generateNameFromIndex i) with (work_key i).
  pose proof (stage_create _ _ _ _ w Hi Hnl Hng Hs) as Hc. destruct r as [err|].
  - destruct (IsAlreadyExists err); [by intros [_ ->]|].
    intros [-> | ->]; (split; [|left]); [by apply stage_refuse|by apply (stage_refuse _ _ _ _ Hc)].
  - intros [Hnone ->]. apply stage_more; [done|]. left. exists w. split; [done|]. cbn. unfold created. rewrite Hnone.
    apply lookup_insert_eq.
Qed.

Lemma gone_settles i h h' :
  is_gone (works h) i ∨ create_refused h i → settles h h' → is_gone (works h') i ∨ create_refused h' i.
Proof.
  intros Hg Hs. destruct Hs as [h k w Hk]. destruct Hg as [Hg|?]; [left|by right].
  intros w' Hw'. cbn in Hw'. apply lookup_delete_Some in Hw' as [_ ?]. by eapply Hg.
Qed.

Lemma lwp_createOne live gone h i :
  i ∈ indices → i ∉ live → i ∉ gone → stage live (i :: gone) h →
  lwp (λ _, stage (i :: live) gone) (createOne ns i) h.
Proof.
  intros Hi Hnl Hng Hs. unfold createOne. destruct (generate_ok i) as (w & Hw & Hn & _ & _). rewrite Hw. cbn -[answers].
  intros h1 Hs1 r h2 Ha. pose proof (stage_settled _ _ _ _ Hs Hs1) as Hs'. clear Hs.
  assert (∀ h, stage live (i :: gone) h → stage live gone h ∧ (is_gone (works h) i ∨ create_refused h i)) as Hstart.
  { intros h3 [Hl Hg Ho]. split; [split; [done| |done]|left; apply Hg; left]. intros j Hj. apply Hg. by right. }
  destruct (Hstart _ Hs') as [Hs _].
  pose proof (stage_answered _ _ _ _ _ _ _ Hi Hnl Hng Hw Hn Hs Ha) as Hr. destruct r as [err|].
  2: { cbn. intros h3 Hs3. by eapply stage_settled. }
  destruct (IsAlreadyExists err) eqn:He.
  2: { cbn. intros h3 Hs3. eapply stage_settled; [|done]. apply stage_more; [apply Hr|right; apply Hr]. }
  subst h2. cbn -[answers]. intros h3 Hs3.
  exists (λ h, stage live gone h ∧ (is_gone (works h) i ∨ create_refused h i)). split; [|split; [|split]].
  - apply Hstart. by eapply stage_settled.
  - intros h4 h5 [Hs4 Hg4] Hs5. split; [by eapply stage_settles|]. by eapply gone_settles.
  - intros h4 [Hs4 Hg4]. cbn -[answers]. intros h5 r h6 Hs5 Ha6. pose proof (stage_settled _ _ _ _ Hs4 Hs5) as Hs5'.
    pose proof (stage_answered _ _ _ _ _ _ _ Hi Hnl Hng Hw Hn Hs5' Ha6) as Hr6. destruct r as [err'|]; cbn.
    + destruct (IsAlreadyExists err'); [subst h6|by destruct Hr6; auto]. split; [done|].
      eapply (stable_rtc (λ h, is_gone (works h) i ∨ create_refused h i)); [apply gone_settles|done..].
    + intros h7 Hs7. by eapply stage_settled.
  - intros _ h4 [Hs4 Hg4] Hno. destruct Hg4 as [Hgone|Href]; [|unfold create_refused in Href; rewrite Hno in Href; by apply elem_of_nil in Href].
    assert (∃ h5, settled h4 h5 ∧ works h5 !! work_key i = None) as (h5 & Hs5 & Hnone).
    { destruct (works h4 !! work_key i) as [[w'|w']|] eqn:Hl; [by destruct (Hgone w')| |by exists h4].
      eexists. split; [by eapply rtc_once, Settle|apply lookup_delete_eq]. }
    eexists h5, _. split; [done|]. cbn. rewrite Hn. split; [eexists None, _; split; [split; [exact Hnone|done]|done]|].
    cbn. by rewrite (settled_refusals _ _ Hs5).
Qed.

Lemma lwp_deleteOne gone h i :
  i ∈ indices → stage [] gone h → lwp (λ _, stage [] (i :: gone)) (deleteOne ns i) h.
Proof.
  intros Hi Hs. unfold deleteOne. cbn -[deleted]. intros h1 Hs1 r h2 Ha.
  pose proof (stage_settled _ _ _ _ Hs Hs1) as Hs'. change (ns, generateNameFromIndex i) with (work_key i) in Ha.
  pose proof (stage_delete _ _ _ Hi Hs') as Hd. destruct r as [err|]; [destruct (IsNotFound err)|]; cbn.
  - destruct Ha as [Hnone ->]. unfold deleted in Hd. rewrite Hnone in Hd. intros h3 Hs3.
    eapply stage_settled; [|done]. by destruct h1.
  - intros h3 Hs3. apply Hfails. exists i. split; [done|]. rewrite (settled_refusals _ _ Hs3). destruct Ha as [-> | ->]; left.
  - destruct Ha as [_ ->]. intros h3 Hs3. by eapply stage_settled.
Qed.

Lemma lwp_createAll rest live h :
  NoDup (rest ++ live) → rest ⊆ indices → stage live rest h →
  lwp (λ _, stage (reverse rest ++ live) []) (for_each rest (createOne ns)) h.
Proof.
  revert live h. induction rest as [|i rest IH]; intros live h Hnd Hsub Hs; cbn [for_each]; [intros h1 ?; by eapply stage_settled|].
  apply NoDup_cons in Hnd as [Hni Hnd]. rewrite elem_of_app in Hni.
  eapply lwp_bind; [apply (lwp_createOne live rest); [apply Hsub; left|intros ?; apply Hni; by auto..|done]|].
  intros [] h1 Hs1. rewrite reverse_cons, <- app_assoc. apply IH; [|intros j Hj; apply Hsub; by right|done].
  change ([i] ++ live) with (i :: live). rewrite <- Permutation_middle. constructor; [by rewrite elem_of_app|done].
Qed.

Lemma lwp_deleteAll rest gone h :
  rest ⊆ indices → stage [] gone h → lwp (λ _, stage [] (reverse rest ++ gone)) (for_each rest (deleteOne ns)) h.
Proof.
  revert gone h. induction rest as [|i rest IH]; intros gone h Hsub Hs; cbn [for_each]; [intros h1 ?; by eapply stage_settled|].
  eapply lwp_bind; [apply (lwp_deleteOne gone); [apply Hsub; left|done]|].
  intros [] h1 Hs1. rewrite reverse_cons, <- app_assoc. apply IH; [intros j Hj; apply Hsub; by right|done].
Qed.

(** The whole driver. *)
Lemma lwp_main :
  df_deleteOnly flags = false → stage [] indices (MkHub h0 []) →
  lwp (λ e h, e = Return None ∧ stage indices [] h) driver_main (MkHub h0 []).
Proof.
  intros Hdel Hs. unfold driver_main. cbn. intros h1 Hs1 dir h2 Hs2 h3 Hs3 h4 Hs4. rewrite Hdel.
  assert (stage [] indices h4) as Hs' by (do 4 (eapply stage_settled; [|done]); done).
  assert (∀ live h, stage (reverse indices ++ live) [] h → stage indices [] h) as Hall.
  { intros live h [Hl Hg Ho]. split; [|done|done]. intros i Hi. apply Hl. rewrite elem_of_app, elem_of_reverse. by left. }
  pose proof (NoDup_seqZ 0 (df_numObjects flags)) as Hnd.
  eapply lwp_bind; [apply lwp_createAll; [by rewrite app_nil_r|done|done]|]. intros [] h5 Hs5%Hall.
  eapply lwp_bind; [apply (lwp_deleteAll _ []); [done|]|].
  { destruct Hs5 as [_ _ Ho]. split; [by intros i ?%elem_of_nil..|done]. }
  intros [] h6 Hs6. eapply lwp_bind; [apply lwp_createAll; [by rewrite app_nil_r|done|]|].
  { destruct Hs6 as [_ Hg Ho]. split; [by intros i ?%elem_of_nil| |done]. intros i Hi. apply Hg.
    rewrite elem_of_app, elem_of_reverse. by left. }
  intros [] h7 Hs7%Hall. cbn. intros h8 Hs8. split; [done|]. by eapply stage_settled.
Qed.

Lemma lwp_main_deletes :
  df_deleteOnly flags = true → lwp (λ e h, e = OsExit 0 ∧ stage [] indices h) driver_main (MkHub h0 []).
Proof.
  intros Hdel. unfold driver_main. cbn. intros h1 Hs1 dir h2 Hs2 h3 Hs3 h4 Hs4. rewrite Hdel.
  assert (stage [] [] (MkHub h0 [])) as Hs0 by (split; [by intros i ?%elem_of_nil..|intros k _; by left]).
  eapply lwp_bind; [apply (lwp_deleteAll _ []); [done|]; do 4 (eapply stage_settled; [|done]); exact Hs0|].
  intros [] h5 [_ Hg Ho]. cbn. intros h6 Hs6 h7 Hs7. split; [done|]. do 2 (eapply stage_settled; [|done]).
  split; [by intros i ?%elem_of_nil| |done]. intros i Hi. apply Hg. rewrite elem_of_app, elem_of_reverse. by left.
Qed.

(** Once the hub has refused a call, it has. *)
Lemma answers_refused {R} (c : HubCall R) h r h' : answers c h r h' → refusals h ≠ [] → refusals h' ≠ [].
Proof.
  intros Ha Hno. destruct c as [ns' w|ns' name]; cbn in Ha; (destruct r as [err|]; [case_match|]);
    [by destruct Ha as [_ ->]|by destruct Ha as [-> | ->]|by destruct Ha as [_ ->]..|by destruct Ha as [-> | ->]|by destruct Ha as [_ ->]].
Qed.

Lemma settled_refused h h' : settled h h' → refusals h ≠ [] → refusals h' ≠ [].
Proof. intros Hs. by rewrite (settled_refusals _ _ Hs). Qed.

Section refused.
Context (Hloose : ∀ h, refusals h ≠ [] → fails h) (Ht : ¬ total).

Lemma hwp_refused {A} (cond : prog HubCall A) h : refusals h ≠ [] → hwp (λ _ h, refusals h ≠ []) cond h.
Proof.
  revert h. induction cond as [a|q|R c k IH]; intros h Hr; cbn; [done|intros h1 ?; by eapply Hloose, settled_refused|].
  intros h1 r h2 Hs Ha. by eapply IH, answers_refused, settled_refused.
Qed.

Lemma lwp_refused {A} (p : D A) h : refusals h ≠ [] → lwp (λ _ h, refusals h ≠ []) p h.
Proof.
  revert h. induction p as [a|q|R c k IH]; intros h Hr; cbn; [intros h1 ?; by eapply settled_refused|intros h1 ?; by eapply Hloose, settled_refused|].
  intros h1 Hs. pose proof (settled_refused _ _ Hs Hr) as Hr1. destruct c; cbn; try by intros; apply IH.
  - intros r h' Ha. by eapply IH, answers_refused.
  - exists (λ h, refusals h ≠ []). split; [done|]. split; [intros h2 h3 Hr2 Hs2; by eapply settled_refused, Hr2; apply rtc_once|].
    split; [|done]. intros h2 Hr2. eapply hwp_mono; [|by apply hwp_refused]. by intros [] h3; [apply IH|].
Qed.

(** A work that is there to stay keeps the driver polling, unless the hub refuses
    a call. *)
Lemma lwp_main_polls w :
  df_deleteOnly flags = false → (0 < df_numObjects flags)%Z → h0 !! work_key 0 = Some (Live w) →
  lwp (λ _ h, refusals h ≠ []) driver_main (MkHub h0 []).
Proof.
  intros Hdel Hn Hl. set (I (h : Hub) := works h !! work_key 0 = Some (Live w)).
  assert (∀ h h', I h → settles h h' → I h') as Hst.
  { intros h h' HI Hs. destruct Hs as [h k w' Hk]. unfold I in *. cbn. rewrite lookup_delete_ne; [done|congruence]. }
  destruct (generate_ok 0) as (w0 & Hw0 & Hn0 & _).
  assert (∀ h r h', I h → answers (WorkCreate ns w0) h r h' →
    ∃ err, r = Some err ∧ (refusals h' ≠ [] ∨ IsAlreadyExists err = true ∧ h' = h)) as Htaken'.
  { intros h r h' HI. cbn. rewrite Hn0. change (ns, generateNameFromIndex 0) with (work_key 0). rewrite HI.
    destruct r as [err|]; [|by intros [? _]]. intros Ha. exists err. split; [done|].
    destruct (IsAlreadyExists err); [right; by destruct Ha as [_ ->]|left; by destruct Ha as [-> | ->]]. }
  unfold driver_main. cbn -[answers]. intros h1 Hs1 dir h2 Hs2 h3 Hs3 h4 Hs4. rewrite Hdel.
  assert (I h4) as HI by (do 4 (eapply stable_rtc; [done| |done]); done).
  unfold createAll. rewrite seqZ_cons by lia. cbn [for_each].
  eapply lwp_bind; [|intros a h; apply lwp_refused]. eapply lwp_bind; [|intros a h; apply lwp_refused].
  unfold createOne. rewrite Hw0. cbn -[answers]. intros h5 Hs5 r h6 Ha.
  assert (I h5) as HI5 by (by eapply stable_rtc).
  destruct (Htaken' _ _ _ HI5 Ha) as (err & -> & [Hr|[He ->]]); [by apply lwp_refused|]. rewrite He. cbn -[answers].
  intros h7 Hs7. exists (λ h, I h ∨ refusals h ≠ []). split; [left; by eapply stable_rtc|]. split; [|split; [|done]].
  { intros h8 h9 [HI8|Hr8] Hs8; [left; by eapply Hst|right]. by eapply settled_refused, Hr8; apply rtc_once. }
  intros h8 HI8. cbn -[answers]. intros h9 r' h10 Hs9 Ha10.
  destruct HI8 as [HI8|Hr8].
  - assert (I h9) as HI9 by (by eapply stable_rtc).
    destruct (Htaken' _ _ _ HI9 Ha10) as (err' & -> & [Hr|[_ ->]]); cbn; auto.
  - assert (refusals h10 ≠ []) as Hr10 by (by eapply answers_refused, settled_refused).
    destruct r'; cbn; [by right|]. intros h11 Hs11. by eapply settled_refused.
Qed.
End refused.
End driver.

(** ** Properties *)

Section driver_props.
Context (Marshal : Pod → result string) (IsAlreadyExists : error → bool) (Join : list string → string).
Abbreviation main := (driver_main Marshal IsAlreadyExists Join).

(** C37: the load driver makes the load it promises, as far as the hub lets it.
    Suppose that it finds its home and gets its client, that the pod it makes can be
    marshalled, and that at the start none of the works it is to make is on the hub
    to stay: each is absent or being deleted.  Then, whenever deletions end and
    whatever the hub answers, it panics only after the hub has refused to delete one
    of its works, with an error other than NotFound; as long as the hub has refused
    nothing it can be let end; and when it ends, it ends with status 0 on a hub that
    has each of the works it was asked for, as it makes them, with labels that the
    agent takes for KubeStellar's, or has refused its creation with an error other
    than AlreadyExists, and that has the works of others as they were, but for
    deletions that have ended. *)
Theorem load_driver_recreates flags h0 p h :
  (∀ pod, ∃ raw, Marshal pod = GOk raw) → (∃ taken, IsAlreadyExists taken = true) →
  df_deleteOnly flags = false →
  (∀ i, i ∈ seqZ 0 (df_numObjects flags) → is_gone flags h0 i) →
  rtc (drive IsAlreadyExists flags) (main, MkHub h0 []) (p, h) →
  (∀ q, p = Crash q → ∃ i, (0 ≤ i < df_numObjects flags)%Z ∧
     DeleteRefused (df_namespace flags, generateNameFromIndex i) ∈ refusals h) ∧
  (refusals h = [] →
     ∃ h', rtc (drive IsAlreadyExists flags) (p, h) (Ret (Return None), h') ∧ refusals h' = []) ∧
  (∀ e, p = Ret e → e = Return None ∧
     (∀ i, (0 ≤ i < df_numObjects flags)%Z →
        CreateRefused (df_namespace flags, generateNameFromIndex i) ∈ refusals h ∨
        ∃ w, generatePodManifest Marshal (generateNameFromIndex i) "default" (df_namespace flags) = Done w ∧
          works h !! (df_namespace flags, generateNameFromIndex i) = Some (Live w) ∧ KS_managed (lw_Labels w)) ∧
     (∀ k, (∀ i, (0 ≤ i < df_numObjects flags)%Z → k ≠ (df_namespace flags, generateNameFromIndex i)) →
        works h !! k = h0 !! k ∨ (∃ w, h0 !! k = Some (Deleting w)) ∧ works h !! k = None)).
Proof.
  intros Hm [taken Ht] Hdel Hgone Hr.
  assert (lwp IsAlreadyExists True (delete_refused flags) flags
    (λ e h, e = Return None ∧ stage Marshal flags h0 (seqZ 0 (df_numObjects flags)) [] h) p h) as Hwp.
  { eapply (lwp_drives _ _ _ _ _ _ (p, h) Hr). apply lwp_main; [done..|]. split; [by intros i ?%elem_of_nil|done|]. by left. }
  split_and!.
  - intros q ->. destruct (Hwp h) as (i & Hi%elem_of_seqZ & Hd); [done|]. exists i. split; [lia|exact Hd].
  - intros Hno. destruct (lwp_ends IsAlreadyExists True _ flags taken Ht _ _ h I (delete_refused_refusals flags) Hno Hwp)
      as (e & h' & Hr' & Hno' & -> & _). eauto.
  - intros e ->. destruct (Hwp h) as [He [Hl _ Ho]]; [done|]. split_and!; [done| |].
    + intros i Hi. destruct (Hl i) as [(w & Hw & Hlk)|?]; [apply elem_of_seqZ; lia|right|by left]. exists w. split_and!; [done..|].
      destruct (generate_ok Marshal flags Hm i) as (w' & Hw' & _ & _ & Hk). congruence.
    + intros k Hk. apply Ho. intros i Hi%elem_of_seqZ. apply Hk. lia.
Qed.

(** With [--delete-only] the driver ends with status 0 on a hub where none of its
    works is there to stay, whatever the hub had, or panics because the hub has
    refused to delete one. *)
Lemma load_driver_deletes flags h0 p h :
  (∃ taken, IsAlreadyExists taken = true) →
  df_deleteOnly flags = true → rtc (drive IsAlreadyExists flags) (main, MkHub h0 []) (p, h) →
  (∀ q, p = Crash q → delete_refused flags h) ∧
  (refusals h = [] → ∃ h', rtc (drive IsAlreadyExists flags) (p, h) (Ret (OsExit 0), h')) ∧
  (∀ e, p = Ret e → e = OsExit 0 ∧ ∀ i, i ∈ seqZ 0 (df_numObjects flags) → is_gone flags (works h) i).
Proof.
  intros [taken Ht] Hdel Hr.
  assert (lwp IsAlreadyExists True (delete_refused flags) flags
    (λ e h, e = OsExit 0 ∧ stage Marshal flags h0 [] (seqZ 0 (df_numObjects flags)) h) p h) as Hwp.
  { eapply (lwp_drives _ _ _ _ _ _ (p, h) Hr). by apply lwp_main_deletes. }
  split_and!.
  - intros q ->. by apply Hwp.
  - intros Hno. destruct (lwp_ends IsAlreadyExists True _ flags taken Ht _ _ h I (delete_refused_refusals flags) Hno Hwp)
      as (e & h' & Hr' & _ & -> & _). eauto.
  - intros e ->. destruct (Hwp h) as [-> [_ Hg _]]; [done|]. done.
Qed.

(** Run a second time, the driver meets what the first run has left, and does not
    end while the hub refuses nothing: it polls for a work to go that nothing
    deletes. *)
Lemma load_driver_again_never_ends flags h0 w p h e :
  (∀ pod, ∃ raw, Marshal pod = GOk raw) →
  df_deleteOnly flags = false → (0 < df_numObjects flags)%Z →
  h0 !! (df_namespace flags, generateNameFromIndex 0) = Some (Live w) →
  rtc (drive IsAlreadyExists flags) (main, MkHub h0 []) (p, h) → refusals h = [] → p ≠ Ret e.
Proof.
  intros Hm Hdel Hn Hl Hr Hno ->.
  assert (lwp IsAlreadyExists False (λ h, refusals h ≠ []) flags (λ (_ : ending) h, refusals h ≠ []) (Ret e) h) as Hwp.
  { eapply (lwp_drives _ _ _ _ _ _ (Ret e, h) Hr). eapply lwp_main_polls; [done..|by intros []|done|done|exact Hl]. }
  by apply (Hwp h).
Qed.

(** An error of a creation other than that the name is taken is dropped, so that
    the driver can end without having made the load. *)
Lemma createOne_drops_errors ns i w err :
  generatePodManifest Marshal (generateNameFromIndex i) "default" ns = Done w → IsAlreadyExists err = false →
  traces (createOne Marshal IsAlreadyExists ns i) [Ev (OnHub (WorkCreate ns w)) (Some err)] (Done tt).
Proof. intros Hw He. unfold createOne. rewrite Hw. cbn. do 2 eexists. split; [reflexivity|]. cbn. by rewrite He. Qed.

(** An error of a deletion other than that there is no such work is a panic. *)
Lemma deleteOne_panics ns i err :
  IsNotFound err = false →
  traces (deleteOne ns i) [Ev (OnHub (WorkDelete ns (generateNameFromIndex i))) (Some err)] (Panic PanicExplicit).
Proof. intros He. unfold deleteOne. cbn. do 2 eexists. split; [reflexivity|]. cbn. by rewrite He. Qed.
End driver_props.

(** ** A closed instance

    Two works are asked for; the first name is taken by a work that is being
    deleted, and there is a work of another name. *)

Definition ex_marshal (pod : Pod) : result string := GOk (pod_Name pod).
Definition ex_already_exists (err : error) : bool := negb (IsNotFound err).
Definition ex_join (elems : list string) : string := String.concat "/" elems.
Definition ex_driver_flags : DriverFlags := MkDriverFlags "" "cluster1" 2 false.
Definition ex_load_work (name : string) : LoadWork := MkLoadWork name "cluster1" None [].
Definition ex_hub : gmap (string * string) Phase :=
  <[("cluster1", "pod-0") := Deleting (ex_load_work "pod-0")]> {[("cluster1", "addon") := Live (ex_load_work "addon")]}.

Lemma load_driver_recreates_witness :
  ∃ h, rtc (drive ex_already_exists ex_driver_flags) (driver_main ex_marshal ex_already_exists ex_join, MkHub ex_hub [])
         (Ret (Return None), h) ∧
    (∃ w, works h !! ("cluster1", "pod-0") = Some (Live w)) ∧ (∃ w, works h !! ("cluster1", "pod-1") = Some (Live w)) ∧
    works h !! ("cluster1", "addon") = Some (Live (ex_load_work "addon")).
Proof.
  assert (∀ p h, rtc (drive ex_already_exists ex_driver_flags) (driver_main ex_marshal ex_already_exists ex_join, MkHub ex_hub []) (p, h) →
    refusals h = [] →
    (∃ h', rtc (drive ex_already_exists ex_driver_flags) (p, h) (Ret (Return None), h') ∧ refusals h' = []) ∧
    (∀ e, p = Ret e → e = Return None ∧
      (∀ i, (0 ≤ i < 2)%Z → ∃ w, works h !! ("cluster1", generateNameFromIndex i) = Some (Live w)) ∧
      works h !! ("cluster1", "addon") = Some (Live (ex_load_work "addon")))) as H.
  { intros p h Hr Hno.
    destruct (load_driver_recreates ex_marshal ex_already_exists ex_join ex_driver_flags ex_hub p h)
      as (_ & Hend & Hret); [by eexists|by exists (ErrF "")|done| |exact Hr|].
    - intros i _ w' Hl. unfold work_key, ex_hub in Hl. cbn in Hl.
      apply lookup_insert_Some in Hl as [[_ ?]|[_ Hl]]; [done|]. by apply lookup_singleton_Some in Hl as [[=] _].
    - split; [exact (Hend Hno)|]. intros e He. destruct (Hret e He) as (-> & Hl & Ho). split; [done|]. split.
      + intros i Hi. destruct (Hl i Hi) as [Hc|(w & _ & Hw & _)]; [|by exists w].
        rewrite Hno in Hc. by apply elem_of_nil in Hc.
      + destruct (Ho ("cluster1", "addon")) as [Hk|[[w Hk] _]].
        * intros i _ [=].
        * rewrite Hk. reflexivity.
        * exfalso. vm_compute in Hk. discriminate Hk. }
  destruct (H _ _ (rtc_refl _ _) eq_refl) as [(h & Hr & Hno) _]. exists h. split; [exact Hr|].
  destruct (H _ _ Hr Hno) as [_ He]. destruct (He _ eq_refl) as (_ & Hl & Ho). split; [|split; [|exact Ho]].
  - exact (Hl 0%Z ltac:(lia)).
  - exact (Hl 1%Z ltac:(lia)).
Defined.
